(* ===== verification/_CoqProject ===== *)
-Q . S2P
Prelude.v
BitMap.v
Disk.v
SectorStore.v
SynchDisk.v
FileHdr.v
FileHdrExtend.v
OpenFile.v
Directory.v
FileSys.v
FileSysProps.v
FileSysTree.v
FileSysSpec.v
FileSysWrite.v
FileSysTheorems.v
FileSysRemove.v
FsTest.v
NachosList.v
Kernel.v
KernelLocks.v
KernelProps.v
Machine.v
Paging.v
UserMemory.v
Mips.v
MipsProps.v
AddrSpace.v
Exception.v
Interleaving.v
ThreadTest.v
Elevator.v
ElevatorTest.v
Console.v
Network.v
PostOffice.v
Coff2Noff.v
Execute.v
ExecuteProps.v
