(* ===== verification/Prelude.v ===== *)
(** * Nachos: a verification development

    The program is the instructional operating system Nachos 3 under src/code/, with
    the changes of a course: priority scheduling with preemption, a sector cache with
    write-back, reader/writer locks on files, hierarchical directories, index sectors
    and growing files, demand paging behind a TLB, and system calls.  The host is an
    i386: [int] has 32 bits, [char] is signed, memory is little-endian.

    ** The parts and how they fit

    A user program runs on the MIPS simulator (machine/mipssim.cc), which reads and
    writes memory through the TLB and page tables of the simulated machine
    (machine/translate.cc).  A page fault or a system call traps into
    [ExceptionHandler] (userprog/exception.cc), which refills the TLB or calls the
    kernel.  The file system (filesys/) stores directories, headers and the map of
    free sectors in sectors of the disk (machine/disk.cc) behind the cache of
    filesys/synchdisk.cc.  Threads (threads/) share the processor under a scheduler;
    semaphores, locks, condition variables, barriers and synchronised lists are built
    from disabled interrupts and the simulation of interrupts (machine/interrupt.cc).
    The other devices interrupt the kernel in the same way: the console
    (machine/console.cc), a bank of elevators (machine/elevator.cc) and the network
    (machine/network.cc), over which the post office (network/post.cc) carries mail
    between machines.

    ** The files

    - Prelude.v: outcomes of a computation, state passing, loops, machine integers,
      arrays, byte buffers, little-endian integers, tactics and hints.
    - BitMap.v (userprog/bitmap.cc): words of 32 bits; [marked] is the set they stand
      for.  [FindN] is first fit, or aborts.
    - Disk.v (machine/disk.cc): the disk and the latency of a request.
    - SectorStore.v: the interface [SectorStore] that filesys/ uses of the disk, with
      its laws [SectorStoreLaws].
    - SynchDisk.v (filesys/synchdisk.cc): the cached disk; instance of the laws, so
      that everything proved against the interface holds for it.
    - FileHdr.v, FileHdrExtend.v (filesys/filehdr.cc): allocation of blocks and index
      sectors, translation of offsets, growing a file.
    - OpenFile.v (filesys/openfile.cc): reads and writes of byte ranges.
    - Directory.v (filesys/directory.cc): tables of names.
    - FileSys.v (filesys/filesys.cc): paths, [Create], [Open], [Remove], formatting.
      Its invariant and its theorems: FileSysProps.v, files on the disk and the free map;
      FileSysTree.v, the tree of directories and the operations on it; FileSysSpec.v,
      formatting, starting again, [List]; FileSysWrite.v, reading, writing and growing a
      file; FileSysTheorems.v, the theorems with instances on the cached disk;
      FileSysRemove.v, the removal of a directory with everything below it.
    - FsTest.v (filesys/fstest.cc): [Copy], [Print], the performance test, the exercises.
    - NachosList.v (threads/list.cc): linked lists with their cells on a heap.
    - Kernel.v (threads/thread.cc, scheduler.cc, synch.cc, synchlist.cc, system.cc,
      machine/interrupt.cc, timer.cc): a machine whose threads hold the stack of what
      they still have to execute, one step per critical section; KernelLocks.v: locks;
      KernelProps.v: scheduler, identifiers, interrupts, time, and three bugs.
    - Machine.v (machine/machine.cc, machine/translate.cc): registers, memory, TLB,
      page tables, frames, and the accesses with their traps; Paging.v: the invariant
      [paged] and its preservation; UserMemory.v: the flat view of user memory.
    - Mips.v (machine/mipssim.cc): decoding and one definition per case of the switch
      of [OneInstruction]; MipsProps.v: its theorems.
    - AddrSpace.v (userprog/addrspace.cc, progtest.cc): loading a NOFF file, context
      switches between address spaces, [CopyFrom].
    - Exception.v (userprog/exception.cc): the system calls over the interface
      [Services], which stands for UNIX files, the terminal and thread operations.
    - Interleaving.v: systems of threads and devices, their reachable states, invariants
      by rule induction, tallies of threads, and a checker for finite systems; the level
      at which a semaphore is its value and a lock its owner.
    - ThreadTest.v (threads/threadtest.cc): [Module SemRW], readers and writers with
      semaphores; [Module CondRW], with condition variables; [Module BarrierTest],
      [Barrier::Wait].
    - Elevator.v (machine/elevator.cc): one elevator and the bank, with its interrupts;
      ElevatorTest.v (machine/elevatortest.cc): the self test, rider and controller.
    - Console.v (machine/console.cc, userprog/progtest.cc): the device, [SynchConsole]
      and [ConsoleTest].
    - Network.v (machine/network.cc): packets, their formats and the device;
      PostOffice.v (network/post.cc): mailboxes, the postal worker, [Send] and
      [Receive], on any number of machines.
    - Coff2Noff.v (bin/coff2noff.c, bin/coff.h): the converter that makes executables,
      composed with the loader of AddrSpace.v.
    - Execute.v (bin/execute.c, system.c, instr.h, int.h): the other simulator of the
      processor, which runs programs under UNIX; ExecuteProps.v: where it and Mips.v
      agree, and [ilog2].

    State is explicit: a routine is a function [ST S A] from a state to a result and a
    state, or to [Stop] with the reason: a failed [ASSERT], behaviour C++ leaves
    undefined (an index outside an array, a null pointer), or a thread that blocks for
    ever.  Uninitialised memory is an argument; what a theorem assumes of it is stated
    (see the assumptions below).  Definitions keep the names of the source.

    ** What the theorems show

    - Refinement: the cached disk is an array of sectors ([SynchDisk_refines_array]);
      a directory is a finite map ([Directory_refines_map]); a list object is a
      sequence ([List_refines_sequence]); a file is a byte array ([ReadAt_reads_file],
      [WriteAt_splices_file]); paged memory is a flat array ([paging_transparent]).  The
      file system is a tree of directories over disjoint files: the invariant [fs_ok] ties
      sectors, free map, headers and tables to a finite map from the header sector of a
      directory to its entries, and every operation keeps it and acts on the tree
      ([format_makes_empty_tree], [Create_refines_tree], [Create_directory_refines_tree],
      [Open_refines_tree], [Remove_refines_tree], [Remove_directory_removes_subtree]); a
      write changes one file only ([WriteAt_refines_tree]).
    - Invariants: the tables of the pager ([refill_keeps_tables]), the register file
      ([OneInstruction_registers]), identifiers of threads ([tids_managed]), the order
      of pending interrupts, of time and of its parts in every run, with the overflow of
      the tick counters as undefined behaviour ([time_runs_forward]); of the
      devices under all calls and interrupts: order and integrity of mail
      ([post_office_delivers]) and of characters ([console_delivers]), doors, riders and
      timers of elevators ([elevator_bank_safe]).
    - Safety under every interleaving: [lock_mutual_exclusion]; exclusion of readers
      and writers in files and in both solutions of threadtest.cc (with condition
      variables for one writer, [cond_one_writer_exclusive]); the outcomes of the self test
      of the elevators ([elevator_self_test_outcomes]); blocks of a file on distinct
      sectors.
    - Progress: threads pass a barrier ([barrier_meets]), elevators arrive
      ([moving_elevator_arrives]).
    - Functional results on all branches: allocation ([Allocate_outcomes], with the exact
      conditions under which it succeeds, fails or aborts), extension, [FindN], the choice
      of the next thread and of the interrupt that fires, loading of programs, the
      fetch of strings, multiplication, overflow, delay slots, a session with the
      whole file system on a formatted disk.
    - Round trips: directory and file, allocate and free
      ([Deallocate_Allocate_inverse]), create and remove ([Create_Remove_restores]),
      write, start again and read ([written_data_survives_restart]), copy in and print
      ([Copy_Print_roundtrip]), user copies, from an object file through converter and
      loader to user memory ([coff2noff_program_runs]).
    - Equivalence: the two simulators of the processor, instruction by instruction
      ([simulators_agree]).
    - Errors and bugs, each as a theorem about the code as it is: lost wakeups,
      switches inside interrupt handlers, pages lost by an eviction, stale copies on
      Fork, stale headers, uninitialised variables, OR and SRL, two writers at once,
      hurrying elevators, a character taken for the end of the input, lost carries and
      sign extensions of the interpreter, contiguous sections refused.

    ** Bounds and fuel

    Loops over an array or a counter are structural.  Fuel is used where the length is
    data: the nesting of [ExtendWrapper] (one level, the free map has a fixed size),
    the depth of paths (the length of the name), nested directories in [Remove] (39
    levels, the length of a name, [Remove_directory_removes_subtree]), string
    arguments ([length + 1] rounds are enough, [fetch_string_correct]), the loops of
    [Copy] and [Print] (the length of the file, [Copy_Print_roundtrip]), the wait of
    Join, and the digits of [itoa] (32 for an [int]).  Runs of the kernel have any
    length: they are sequences of steps.

    ** Assumptions of the components

    The simulated machine relies of [interrupt->OneTick()] on time being all that changes
    ([InterruptLaws]), which holds between two switches to threads with address spaces: a
    switch empties the TLB ([SaveState]).  The theorems on user memory are about one
    program alone in memory between such switches; [eviction_loses_page] shows that they
    fail for two programs.  The instruction interpreter relies on the kernel to return with
    well-formed registers ([TrapLaws]); Exception.v proves that of [ExceptionHandler]
    ([full_laws]), given services that keep the registers and return [int]s
    ([ServiceLaws]).  SynchDisk.v is about calls by one thread at a time.  The theorems on the
    file system are about names whose directory is in the tree;
    [missing_grandparent_undefined] shows what happens without one.  [Remove] of a
    directory that has entries needs them stored under names that are not cut
    ([named]; kept by creating such names and by removing), and nothing open below it;
    [Remove_not_atomic] shows the other case.

    [FileHeader::Allocate] reads its variable [NSecIndex] uninitialised for a file of at
    most 6 blocks.  The theorems allow every value ([garbage_ok]) but the six largest
    [int]s, where an addition overflows, and -5 to -1, where fewer sectors are reserved
    than used: [Allocate_uninit_overlap] shows that the file then gets a sector of another
    one.  A positive value makes [Allocate] mark that many sectors too many ([spare],
    [gained]), which no file owns and [Remove] does not free, and makes it abort where no
    run is that long ([no_run]); [format_makes_empty_tree] says from which value on
    formatting aborts.  [Allocate] also tests [NumClear] after [FindN] has marked the run,
    so that a file [fits] only when as many sectors as it has blocks are free besides the
    run.

    Simulated times are [int]s in the source.  In Kernel.v a tick or a time that leaves
    the range is undefined; in Disk.v, Machine.v and Elevator.v times are integers, and
    the theorems are about runs of fewer than 2^31 ticks ([moving_elevator_arrives] states
    the bound).  [AddrSpace] loads the code segment at address 0 whatever its
    [virtualAddr] ([start_program_loads], [coff2noff_program_runs]).  A keyboard that
    reaches its end of file makes the next poll of the console fail an assertion, and a
    typed byte 0xFF is overtaken by the next one ([console_delivers] is about the other
    runs).  In
    Interleaving.v, [Condition::Wait] releases the lock and queues the thread in one
    step, which is right for threads of equal priority as threadtest.cc forks them.

    The network assumes of UNIX sockets that packets arrive whole and
    in the order sent; random numbers and the contents of fresh memory are arguments,
    and so are the calls of UNIX made by the interpreter of bin/.  Arithmetic of both
    MIPS simulators wraps at 32 bits.

    ** Not modelled

    The UNIX layer (machine/sysdep.cc), assembly code, the command line, debugging and
    printing, the build with [DiskImage], the other tools in bin/ (disassembler, flat
    files, tracing), the tests that only print, the threads that ex7_test of
    filesys/fstest.cc forks, and the user programs in test/: these either call UNIX, are
    assembly code or MIPS binaries, or have no effect but their output. *)

From Stdlib Require Export ZArith Lia.
From stdpp Require Export prelude list gmap numbers.

#[global] Open Scope Z_scope.

(** ** Outcomes of a computation

    A routine of the kernel either returns ([Ok]), or stops: an [ASSERT] of
    utility.h fails and [Abort] is called ([AssertFailed]); the C++ program has
    no defined behaviour, e.g. an access outside an array ([Undefined]); or the
    only running thread goes to sleep on a semaphore ([Blocked]). *)
Inductive stop := AssertFailed | Undefined | Blocked.

Inductive result (A : Type) :=
| Ok (a : A)
| Stop (e : stop).
Arguments Ok {A} a.
Arguments Stop {A} e.

#[export] Instance stop_eq_dec : EqDecision stop.
Proof. solve_decision. Defined.
#[export] Instance result_eq_dec `{EqDecision A} : EqDecision (result A).
Proof. solve_decision. Defined.

#[export] Instance result_ret : MRet result := @Ok.
#[export] Instance result_bind : MBind result := λ A B f m,
  match m with Ok a => f a | Stop e => Stop e end.

(** The macro [ASSERT] of utility.h. *)
Definition ASSERT (condition : bool) : result () :=
  if condition then Ok () else Stop AssertFailed.

(** *** Stateful routines: state passing over [result] *)
Definition ST (S A : Type) : Type := S → result (A * S).

#[export] Instance ST_ret S : MRet (ST S) := λ A a s, Ok (a, s).
#[export] Instance ST_bind S : MBind (ST S) := λ A B f m s,
  match m s with Ok (a, s') => f a s' | Stop e => Stop e end.

Definition lift {S A} (m : result A) : ST S A := λ s,
  match m with Ok a => Ok (a, s) | Stop e => Stop e end.
Definition getS {S} : ST S S := λ s, Ok (s, s).
Definition putS {S} (s : S) : ST S () := λ _, Ok ((), s).

Lemma bind_Ok {A B} (m : result A) (f : A → result B) b :
  (m ≫= f) = Ok b ↔ ∃ a, m = Ok a ∧ f a = Ok b.
Proof. destruct m; cbn; split; naive_solver. Qed.

Lemma ST_bind_Ok {S A B} (m : ST S A) (f : A → ST S B) s b s' :
  (m ≫= f) s = Ok (b, s') ↔ ∃ a s1, m s = Ok (a, s1) ∧ f a s1 = Ok (b, s').
Proof.
  unfold mbind, ST_bind. destruct (m s) as [[a s1]|e]; split; naive_solver.
Qed.

(** Running one step of a routine whose result is known. *)
Lemma lift_step {S A B} (m : result A) (a : A) (f : A → ST S B) s :
  m = Ok a → (lift m ≫= f) s = f a s.
Proof. by intros ->. Qed.
Lemma lift_stop {S A B} (m : result A) e (f : A → ST S B) s :
  m = Stop e → (lift m ≫= f) s = Stop e.
Proof. by intros ->. Qed.
Lemma ST_step {S A B} (m : ST S A) (a : A) (f : A → ST S B) s s' :
  m s = Ok (a, s') → (m ≫= f) s = f a s'.
Proof. intros E. unfold mbind, ST_bind. by rewrite E. Qed.
Lemma ST_stop {S A B} (m : ST S A) e (f : A → ST S B) s :
  m s = Stop e → (m ≫= f) s = Stop e.
Proof. intros E. unfold mbind, ST_bind. by rewrite E. Qed.

Lemma ASSERT_true b : b = true → ASSERT b = Ok ().
Proof. by intros ->. Qed.
Lemma ASSERT_false b : b = false → ASSERT b = Stop AssertFailed.
Proof. by intros ->. Qed.

(** *** Loops

    [for_each f l s] is [for (x in l) s = f(x, s)], stopping at the first
    iteration that stops. *)
Fixpoint for_each {A S} (f : A → S → result S) (l : list A) (s : S) : result S :=
  match l with
  | [] => Ok s
  | x :: l' => s' ← f x s; for_each f l' s'
  end.

Lemma for_each_app {A S} (f : A → S → result S) l1 l2 s :
  for_each f (l1 ++ l2) s = (s' ← for_each f l1 s; for_each f l2 s').
Proof.
  revert s. induction l1 as [|x l1 IH]; intros s; [done|].
  cbn. destruct (f x s); cbn; [apply IH|done].
Qed.

(** The rule of a counting loop: an invariant indexed by the counter, which
    each iteration re-establishes for the next value, holds at the bound. *)
Lemma for_each_seqZ {S} (f : Z → S → result S) (I : Z → S → Prop) a n s :
  0 ≤ n → I a s →
  (∀ i s1, a ≤ i < a + n → I i s1 → ∃ s2, f i s1 = Ok s2 ∧ I (i + 1) s2) →
  ∃ s', for_each f (seqZ a n) s = Ok s' ∧ I (a + n) s'.
Proof.
  intros Hn. remember (Z.to_nat n) as k eqn:Hk. revert a n s Hn Hk.
  induction k as [|k IH]; intros a n s Hn Hk HI Hstep.
  - replace n with 0 in * by lia. rewrite Z.add_0_r. cbn. eauto.
  - rewrite seqZ_cons by lia. cbn.
    destruct (Hstep a s ltac:(lia) HI) as (s2 & -> & HI2). cbn.
    destruct (IH (Z.succ a) (Z.pred n) s2) as (s' & -> & HI'); [lia|lia|by rewrite <-Z.add_1_r| |].
    + intros i s1 Hi HIi. apply Hstep; [lia|done].
    + exists s'. split; [done|]. by replace (a + n) with (Z.succ a + Z.pred n) by lia.
Qed.

(** ** Machine integers

    The host is an i386 ([HOST_i386] in Makefile.dep): [int] and [unsigned]
    have 32 bits, [char] 8, bytes are little-endian. *)
Definition W32 : Z := 2 ^ 32.
Definition u32 (x : Z) : Z := x mod 2 ^ 32.
Definition s32 (x : Z) : Z := (x + 2 ^ 31) mod 2 ^ 32 - 2 ^ 31.
Definition is_u32 (x : Z) : Prop := 0 ≤ x < 2 ^ 32.
Definition is_s32 (x : Z) : Prop := - 2 ^ 31 ≤ x < 2 ^ 31.
Definition is_byte (x : Z) : Prop := 0 ≤ x < 256.

(** [divRoundDown] and [divRoundUp] of utility.h; C division truncates. *)
Definition divRoundDown (n s : Z) : Z := Z.quot n s.
Definition divRoundUp (n s : Z) : Z :=
  Z.quot n s + (if Z.rem n s >? 0 then 1 else 0).

Lemma u32_range x : is_u32 (u32 x).
Proof. unfold is_u32, u32. apply Z.mod_pos_bound. lia. Qed.
Lemma u32_small x : is_u32 x → u32 x = x.
Proof. unfold is_u32, u32. intros. by apply Z.mod_small. Qed.
Lemma s32_range x : is_s32 (s32 x).
Proof.
  unfold is_s32, s32. pose proof (Z.mod_pos_bound (x + 2 ^ 31) (2 ^ 32)). lia.
Qed.
Lemma s32_small x : is_s32 x → s32 x = x.
Proof. unfold is_s32, s32. intros. rewrite Z.mod_small; lia. Qed.
Lemma u32_s32 x : u32 (s32 x) = u32 x.
Proof.
  unfold u32, s32. rewrite Zminus_mod, Z.mod_mod, <-Zminus_mod by lia.
  f_equal. lia.
Qed.
Lemma s32_u32 x : s32 (u32 x) = s32 x.
Proof. unfold u32, s32. by rewrite Zplus_mod_idemp_l. Qed.

Lemma divRoundDown_div n s : 0 ≤ n → 0 < s → divRoundDown n s = n / s.
Proof. intros. apply Z.quot_div_nonneg; lia. Qed.
Lemma divRoundUp_div n s : 0 ≤ n → 0 < s → divRoundUp n s = (n + s - 1) / s.
Proof.
  intros Hn Hs. unfold divRoundUp.
  rewrite Z.quot_div_nonneg, Z.rem_mod_nonneg by lia.
  destruct (Z.gtb_spec (n mod s) 0); pose proof (Z.mod_pos_bound n s);
    apply (Z.div_unique_pos _ _ _ (if n mod s =? 0 then s - 1 else n mod s - 1));
    destruct (Z.eqb_spec (n mod s) 0); Z.to_euclidean_division_equations; nia.
Qed.

(** Bits of the masks the code builds with shifts. *)
Lemma testbit_shiftl1 k j : 0 ≤ k → Z.testbit (Z.shiftl 1 k) j = bool_decide (j = k).
Proof.
  intros Hk. rewrite Z.shiftl_1_l. case_bool_decide as Hj.
  - subst. by apply Z.pow2_bits_true.
  - by apply Z.pow2_bits_false.
Qed.
Lemma testbit_u32 x j : 0 ≤ j → Z.testbit (u32 x) j = (j <? 32) && Z.testbit x j.
Proof.
  intros Hj. unfold u32. destruct (Z.ltb_spec j 32); cbn.
  - by apply Z.mod_pow2_bits_low.
  - by apply Z.mod_pow2_bits_high.
Qed.

(** ** Arrays

    C arrays indexed by an [int]; an index outside the array is undefined. *)
Definition znth {A} (l : list A) (i : Z) : option A :=
  if i <? 0 then None else l !! Z.to_nat i.
Definition zset {A} (l : list A) (i : Z) (x : A) : list A :=
  if i <? 0 then l else <[Z.to_nat i := x]> l.
Definition zlen {A} (l : list A) : Z := Z.of_nat (length l).

Definition aget {A} (l : list A) (i : Z) : result A :=
  match znth l i with Some x => Ok x | None => Stop Undefined end.
Definition aset {A} (l : list A) (i : Z) (x : A) : result (list A) :=
  match znth l i with Some _ => Ok (zset l i x) | None => Stop Undefined end.

Section arrays.
Context {A : Type}.
Implicit Types (l : list A) (i j : Z) (x y : A).

Lemma znth_Some_range l i x : znth l i = Some x → 0 ≤ i < zlen l.
Proof.
  unfold znth, zlen. destruct (Z.ltb_spec i 0); [done|].
  intros ?%lookup_lt_Some. lia.
Qed.
Lemma znth_range l i : 0 ≤ i < zlen l → ∃ x, znth l i = Some x.
Proof.
  unfold znth, zlen. intros Hi. destruct (Z.ltb_spec i 0); [lia|].
  apply lookup_lt_is_Some. lia.
Qed.
Lemma znth_None l i : znth l i = None ↔ ¬ (0 ≤ i < zlen l).
Proof.
  split.
  - intros HN Hi. destruct (znth_range l i Hi) as [x Hx]. congruence.
  - intros Hi. destruct (znth l i) eqn:E; [|done].
    apply znth_Some_range in E. lia.
Qed.
Lemma zlen_nonneg l : 0 ≤ zlen l.
Proof. unfold zlen. lia. Qed.
Lemma zlen_zset l i x : zlen (zset l i x) = zlen l.
Proof. unfold zlen, zset. case_match; [done|]. by rewrite length_insert. Qed.
Lemma znth_zset l i j x :
  znth (zset l i x) j =
    if bool_decide (j = i ∧ 0 ≤ i < zlen l) then Some x else znth l j.
Proof.
  unfold znth, zset, zlen.
  destruct (Z.ltb_spec i 0), (Z.ltb_spec j 0); case_bool_decide; try lia; try done.
  - destruct_and!. subst. apply list_lookup_insert_eq. lia.
  - destruct (decide (Z.to_nat i = Z.to_nat j)) as [E|E].
    + assert (j = i) as -> by lia.
      rewrite !lookup_ge_None_2; [done|lia|rewrite length_insert; lia].
    + by apply list_lookup_insert_ne.
Qed.
Lemma znth_zset_eq l i x : 0 ≤ i < zlen l → znth (zset l i x) i = Some x.
Proof. intros. rewrite znth_zset, bool_decide_true; [done|lia]. Qed.
Lemma znth_zset_ne l i j x : i ≠ j → znth (zset l i x) j = znth l j.
Proof. intros. rewrite znth_zset, bool_decide_false; [done|lia]. Qed.

Lemma aget_Ok l i x : aget l i = Ok x ↔ znth l i = Some x.
Proof. unfold aget. destruct (znth l i); split; naive_solver. Qed.
Lemma aset_Ok l i x l' :
  aset l i x = Ok l' ↔ 0 ≤ i < zlen l ∧ l' = zset l i x.
Proof.
  unfold aset. destruct (znth l i) eqn:E.
  - apply znth_Some_range in E. naive_solver.
  - apply znth_None in E. naive_solver.
Qed.
Lemma aset_in l i x : 0 ≤ i < zlen l → aset l i x = Ok (zset l i x).
Proof. intros. by apply aset_Ok. Qed.
Lemma Forall_zset (P : A → Prop) l i x :
  Forall P l → P x → Forall P (zset l i x).
Proof. intros. unfold zset. case_match; [done|]. by apply Forall_insert. Qed.
Lemma Forall_znth (P : A → Prop) l i x :
  Forall P l → znth l i = Some x → P x.
Proof.
  unfold znth. intros HF. case_match; [done|]. intros Hx.
  by apply (Forall_lookup_1 _ _ _ _ HF Hx).
Qed.
Lemma znth_ext l1 l2 :
  zlen l1 = zlen l2 → (∀ i, 0 ≤ i < zlen l1 → znth l1 i = znth l2 i) → l1 = l2.
Proof.
  unfold zlen. intros Hlen Heq. apply list_eq. intros i.
  destruct (decide (i < length l1)%nat) as [Hi|Hi].
  - specialize (Heq (Z.of_nat i) ltac:(lia)). unfold znth in Heq.
    destruct (Z.ltb_spec (Z.of_nat i) 0); [lia|]. by rewrite Nat2Z.id in Heq.
  - rewrite !lookup_ge_None_2 by lia. done.
Qed.
End arrays.

Lemma zset_same {A} (l : list A) i x : znth l i = Some x → zset l i x = l.
Proof.
  unfold znth, zset. case_match; [done|]. intros. by apply list_insert_id.
Qed.
Lemma zset_twice {A} (l : list A) i (x y : A) : zset (zset l i x) i y = zset l i y.
Proof. unfold zset. case_match; [done|]. apply list_insert_insert_eq. Qed.

Lemma znth_replicate {A} (k : Z) (x : A) i : 0 ≤ i < k → znth (replicate (Z.to_nat k) x) i = Some x.
Proof.
  intros. unfold znth. destruct (Z.ltb_spec i 0); [lia|]. apply lookup_replicate_2. lia.
Qed.
Lemma zlen_replicate {A} (k : Z) (x : A) : 0 ≤ k → zlen (replicate (Z.to_nat k) x) = k.
Proof. intros. unfold zlen. rewrite length_replicate. lia. Qed.


(** ** Bytes

    A buffer or a file is the list of its bytes; [read_at] and [write_at] are the
    transfers of [memcpy], [bcopy] and the UNIX file operations at an offset. *)
Definition read_at (f : list Z) (off n : Z) : list Z :=
  take (Z.to_nat n) (drop (Z.to_nat off) f).
Definition write_at (f : list Z) (off : Z) (data : list Z) : list Z :=
  take (Z.to_nat off) f ++ data ++ drop (Z.to_nat off + length data) f.

Lemma zlen_app {A} (l1 l2 : list A) : zlen (l1 ++ l2) = zlen l1 + zlen l2.
Proof. unfold zlen. rewrite length_app. lia. Qed.
Lemma read_at_length f off n :
  0 ≤ off ∧ 0 ≤ n ∧ off + n ≤ zlen f → zlen (read_at f off n) = n.
Proof. unfold zlen, read_at. rewrite length_take, length_drop. lia. Qed.
Lemma write_at_length f off data :
  0 ≤ off → off + zlen data ≤ zlen f → zlen (write_at f off data) = zlen f.
Proof.
  unfold zlen, write_at. rewrite !length_app, length_take, length_drop. lia.
Qed.
Lemma read_write_same f off data :
  0 ≤ off → off + zlen data ≤ zlen f → read_at (write_at f off data) off (zlen data) = data.
Proof.
  unfold read_at, write_at, zlen. intros. rewrite Nat2Z.id.
  rewrite drop_app_length' by (rewrite length_take; lia).
  by rewrite take_app_length.
Qed.
Lemma lookup_write_at f off data (i : nat) :
  0 ≤ off → off + zlen data ≤ zlen f →
  write_at f off data !! i =
    if bool_decide (off ≤ Z.of_nat i < off + zlen data)
    then data !! (i - Z.to_nat off)%nat else f !! i.
Proof.
  unfold write_at, zlen. intros. case_bool_decide.
  - rewrite lookup_app_r by (rewrite length_take; lia).
    rewrite length_take, lookup_app_l by lia. f_equal. lia.
  - destruct (decide (Z.of_nat i < off)).
    + rewrite lookup_app_l by (rewrite length_take; lia). apply lookup_take_lt. lia.
    + rewrite lookup_app_r by (rewrite length_take; lia).
      rewrite lookup_app_r by (rewrite length_take; lia).
      rewrite lookup_drop, length_take. f_equal. lia.
Qed.
Lemma read_write_disjoint f off data off' n :
  0 ≤ off → 0 ≤ off' → 0 ≤ n → off + zlen data ≤ zlen f → off' + n ≤ zlen f →
  off' + n ≤ off ∨ off + zlen data ≤ off' →
  read_at (write_at f off data) off' n = read_at f off' n.
Proof.
  intros. unfold read_at. apply list_eq. intros i.
  destruct (decide (i < Z.to_nat n)%nat).
  - rewrite !lookup_take_lt, !lookup_drop, lookup_write_at by lia.
    rewrite bool_decide_false by lia. done.
  - rewrite !lookup_take_ge by lia. done.
Qed.

Lemma znth_write_at f off data i :
  0 ≤ off → off + zlen data ≤ zlen f →
  znth (write_at f off data) i =
    if bool_decide (off ≤ i < off + zlen data) then znth data (i - off) else znth f i.
Proof.
  intros Ho Hl. unfold znth. destruct (Z.ltb_spec i 0).
  - rewrite bool_decide_false by lia. done.
  - rewrite lookup_write_at, Z2Nat.id by lia. case_bool_decide; [|done].
    destruct (Z.ltb_spec (i - off) 0); [lia|]. f_equal. lia.
Qed.
Lemma znth_read_at f off n i :
  0 ≤ off → 0 ≤ i < n → off + n ≤ zlen f → znth (read_at f off n) i = znth f (off + i).
Proof.
  intros. unfold znth, read_at.
  destruct (Z.ltb_spec i 0), (Z.ltb_spec (off + i) 0); try lia.
  rewrite lookup_take_lt, lookup_drop by lia. f_equal. lia.
Qed.

(** *** Little-endian integers *)

(** The bytes of an [int], least significant first. *)
Fixpoint le_split (n : nat) (w : Z) : list Z :=
  match n with
  | O => []
  | S n' => w mod 256 :: le_split n' (w / 256)
  end.
Fixpoint le_combine (l : list Z) : Z :=
  match l with [] => 0 | b :: l' => b + 256 * le_combine l' end.

Lemma length_le_split n w : length (le_split n w) = n.
Proof. revert w. induction n; intros; cbn; auto. Qed.
Lemma le_combine_split n w :
  le_combine (le_split n w) = w mod 2 ^ (8 * Z.of_nat n).
Proof.
  revert w. induction n as [|n IH]; intros w; cbn [le_split le_combine].
  - by rewrite Z.mod_1_r.
  - rewrite IH. replace (8 * Z.of_nat (S n)) with (8 + 8 * Z.of_nat n) by lia.
    rewrite Z.pow_add_r by lia. change (2 ^ 8) with 256.
    rewrite Z.rem_mul_r; [done|lia|apply Z.pow_pos_nonneg; lia].
Qed.
Lemma le_combine_bound l : Forall is_byte l → 0 ≤ le_combine l < 2 ^ (8 * zlen l).
Proof.
  unfold zlen, is_byte. induction 1 as [|b l Hb _ IH]; [cbn; lia|].
  cbn [le_combine length]. replace (8 * Z.of_nat (S (length l))) with (8 + 8 * Z.of_nat (length l)) by lia.
  rewrite Z.pow_add_r by lia. change (2 ^ 8) with 256. lia.
Qed.
Lemma le_split_combine l : Forall is_byte l → le_split (length l) (le_combine l) = l.
Proof.
  unfold is_byte. induction 1 as [|b l Hb _ IH]; [done|]. cbn.
  rewrite (Z.mul_comm 256), Z.mod_add, Z.mod_small, Z.div_add, Z.div_small, Z.add_0_l by lia.
  by rewrite IH.
Qed.
Lemma le_split_byte n w : Forall is_byte (le_split n w).
Proof.
  revert w. induction n; intros; cbn; constructor; [|done].
  apply Z.mod_pos_bound. lia.
Qed.

#[global] Arguments le_split : simpl never.

(** Arrays of [int]s in memory. *)
Definition enc_ints (l : list Z) : list Z := concat (le_split 4 <$> l).
Definition int_at (b : list Z) (off : Z) : Z := s32 (le_combine (read_at b off 4)).
Definition dec_ints (n : Z) (b : list Z) : list Z := (λ i, int_at b (4 * i)) <$> seqZ 0 n.

Lemma zlen_enc_ints l : zlen (enc_ints l) = 4 * zlen l.
Proof.
  unfold zlen, enc_ints. induction l as [|x l IH]; [done|].
  rewrite fmap_cons. cbn [concat length]. rewrite length_app, length_le_split. lia.
Qed.
Lemma read_at_app_r l1 l2 off n :
  zlen l1 ≤ off → read_at (l1 ++ l2) off n = read_at l2 (off - zlen l1) n.
Proof.
  unfold read_at, zlen. intros. rewrite drop_app_ge by lia. do 2 f_equal. lia.
Qed.
Lemma read_at_app_l l1 l2 off n :
  0 ≤ off → 0 ≤ n → off + n ≤ zlen l1 → read_at (l1 ++ l2) off n = read_at l1 off n.
Proof.
  unfold read_at, zlen. intros. rewrite drop_app_le by lia.
  by rewrite take_app_le by (rewrite length_drop; lia).
Qed.
Lemma read_at_all l n : zlen l = n → read_at l 0 n = l.
Proof. unfold read_at, zlen. intros. rewrite drop_0. apply take_ge. lia. Qed.
Lemma read_enc_ints l i x : znth l i = Some x → read_at (enc_ints l) (4 * i) 4 = le_split 4 x.
Proof.
  revert i. induction l as [|y l IH]; intros i Hi.
  { apply znth_Some_range in Hi. unfold zlen in Hi; cbn in Hi. lia. }
  pose proof (znth_Some_range _ _ _ Hi) as Hr. unfold enc_ints. rewrite fmap_cons. cbn [concat].
  assert (zlen (le_split 4 y) = 4) as H4 by (unfold zlen; by rewrite length_le_split).
  destruct (decide (i = 0)) as [->|Hne].
  - rewrite read_at_app_l by lia. cbn in Hi. injection Hi as ->.
    rewrite Z.mul_0_r. by apply read_at_all.
  - rewrite read_at_app_r by lia. rewrite H4. replace (4 * i - 4) with (4 * (i - 1)) by lia.
    apply IH. unfold znth in *. destruct (Z.ltb_spec i 0), (Z.ltb_spec (i - 1) 0); try lia.
    replace (Z.to_nat i) with (S (Z.to_nat (i - 1))) in Hi by lia. done.
Qed.
Lemma int_at_enc l i x : znth l i = Some x → is_s32 x → int_at (enc_ints l) (4 * i) = x.
Proof.
  intros Hi Hx. unfold int_at. rewrite (read_enc_ints _ _ _ Hi), le_combine_split.
  change (8 * Z.of_nat 4) with 32. fold (u32 x). rewrite s32_u32. by apply s32_small.
Qed.
Lemma zlen_fmap {A B} (f : A → B) l : zlen (f <$> l) = zlen l.
Proof. unfold zlen. by rewrite length_fmap. Qed.
Lemma zlen_seqZ a n : 0 ≤ n → zlen (seqZ a n) = n.
Proof. intros. unfold zlen. rewrite length_seqZ. lia. Qed.
Lemma znth_fmap {A B} (f : A → B) l i : znth (f <$> l) i = f <$> znth l i.
Proof. unfold znth. case_match; [done|]. apply list_lookup_fmap. Qed.
Lemma znth_seqZ a n i : 0 ≤ i < n → znth (seqZ a n) i = Some (a + i).
Proof.
  intros. unfold znth. destruct (Z.ltb_spec i 0); [lia|].
  rewrite lookup_seqZ_lt by lia. f_equal. lia.
Qed.
Lemma znth_dec_ints n b i : 0 ≤ i < n → znth (dec_ints n b) i = Some (int_at b (4 * i)).
Proof. intros. unfold dec_ints. by rewrite znth_fmap, znth_seqZ. Qed.
Lemma dec_enc_ints l : Forall is_s32 l → dec_ints (zlen l) (enc_ints l) = l.
Proof.
  intros HF. pose proof (zlen_nonneg l).
  assert (zlen (dec_ints (zlen l) (enc_ints l)) = zlen l) as Hl
    by (unfold dec_ints; by rewrite zlen_fmap, zlen_seqZ).
  apply znth_ext; [done|]. intros i Hi. rewrite Hl in Hi.
  destruct (znth_range l i Hi) as [x Hx].
  rewrite znth_dec_ints, Hx by done. f_equal. apply int_at_enc; [done|].
  by apply (Forall_znth _ _ _ _ HF Hx).
Qed.

(** ** Automation *)
Create HintDb nachos.
Create Rewrite HintDb nachos.
#[export] Hint Resolve zlen_nonneg u32_range s32_range : nachos.
#[export] Hint Rewrite @zlen_zset : nachos.

(** [step H] runs the first step of the goal's routine with its equation [H]. *)
Ltac step H :=
  first [erewrite lift_step by exact H | erewrite ST_step by exact H
        | erewrite lift_stop by exact H | erewrite ST_stop by exact H]; cbv beta iota.

(** Decompose the result of a monadic computation in a hypothesis. *)
Ltac inv_bind :=
  repeat match goal with
  | H : (_ ≫= _) = Ok _ |- _ => apply bind_Ok in H as (? & ? & H)
  | H : (_ ≫= _) _ = Ok (_, _) |- _ => apply ST_bind_Ok in H as (? & ? & ? & H)
  | H : mret _ = Ok _ |- _ => injection H as ?; subst
  | H : Ok _ = Ok _ |- _ => injection H as ?; subst
  | H : Stop _ = Ok _ |- _ => discriminate H
  | H : ASSERT ?b = Ok _ |- _ => unfold ASSERT in H; destruct b eqn:?
  end.
