(* ===== verification/BitMap.v ===== *)
(** * The free map: userprog/bitmap.cc

    A bitmap is an array of 32-bit words.  [marked] abstracts it to the finite
    set of the bits that are set; every operation is proved against that set. *)

From S2P Require Import Prelude.

Definition BitsInByte : Z := 8.
Definition BitsInWord : Z := 32.

(** The data members of class [BitMap]; [map] holds unsigned words. *)
Record BitMap := mkBitMap {
  numBits : Z;
  numWords : Z;
  map : list Z
}.

(** The mask [1 << k] of an [int], as the unsigned word it is combined with. *)
Definition mask (k : Z) : Z := u32 (Z.shiftl 1 k).

Definition Mark (bm : BitMap) (which : Z) : result BitMap :=
  ASSERT ((which >=? 0) && (which <? numBits bm));;
  w ← aget (map bm) (Z.quot which BitsInWord);
  m ← aset (map bm) (Z.quot which BitsInWord)
        (Z.lor w (mask (Z.rem which BitsInWord)));
  Ok (mkBitMap (numBits bm) (numWords bm) m).

Definition Clear (bm : BitMap) (which : Z) : result BitMap :=
  ASSERT ((which >=? 0) && (which <? numBits bm));;
  w ← aget (map bm) (Z.quot which BitsInWord);
  m ← aset (map bm) (Z.quot which BitsInWord)
        (Z.land w (u32 (Z.lnot (Z.shiftl 1 (Z.rem which BitsInWord)))));
  Ok (mkBitMap (numBits bm) (numWords bm) m).

Definition Test (bm : BitMap) (which : Z) : result bool :=
  ASSERT ((which >=? 0) && (which <? numBits bm));;
  w ← aget (map bm) (Z.quot which BitsInWord);
  Ok (negb (Z.land w (mask (Z.rem which BitsInWord)) =? 0)).

(** [BitMap::BitMap(nitems)].  [new unsigned int\[numWords\]] leaves the words
    uninitialised: [uninit] is what they hold. *)
Definition BitMap_new (nitems : Z) (uninit : list Z) : result BitMap :=
  for_each (λ i bm, Clear bm i) (seqZ 0 nitems)
    (mkBitMap nitems (divRoundUp nitems BitsInWord) uninit).

(** The scan of [BitMap::Find] over the remaining indices. *)
Fixpoint Find_from (bm : BitMap) (l : list Z) : result (Z * BitMap) :=
  match l with
  | [] => Ok (-1, bm)
  | i :: l' =>
      b ← Test bm i;
      if (b : bool) then Find_from bm l'
      else bm' ← Mark bm i; Ok (i, bm')
  end.
Definition Find (bm : BitMap) : result (Z * BitMap) :=
  Find_from bm (seqZ 0 (numBits bm)).

Definition NumClear (bm : BitMap) : result Z :=
  for_each (λ i count, b ← Test bm i; Ok (if (b : bool) then count else count + 1))
    (seqZ 0 (numBits bm)) 0.

(** The inner test of [BitMap::FindN]: [flag] for the run starting at [i].  The
    loop does not stop at the first bit that is set. *)
Definition FindN_flag (bm : BitMap) (i cnt : Z) : result bool :=
  for_each (λ j flag, b ← Test bm (i + j); Ok (if (b : bool) then false else flag))
    (seqZ 0 cnt) true.
Fixpoint FindN_from (bm : BitMap) (cnt : Z) (l : list Z) : result (Z * BitMap) :=
  match l with
  | [] => Ok (-1, bm)
  | i :: l' =>
      flag ← FindN_flag bm i cnt;
      if (flag : bool) then
        bm' ← for_each (λ j b, Mark b (i + j)) (seqZ 0 cnt) bm; Ok (i, bm')
      else FindN_from bm cnt l'
  end.
Definition FindN (bm : BitMap) (cnt : Z) : result (Z * BitMap) :=
  FindN_from bm cnt (seqZ 0 (numBits bm)).

#[global] Arguments Mark : simpl never.
#[global] Arguments Clear : simpl never.
#[global] Arguments Test : simpl never.
#[global] Arguments Find : simpl never.
#[global] Arguments NumClear : simpl never.
#[global] Arguments FindN_flag : simpl never.
#[global] Arguments FindN : simpl never.

(** ** Abstraction *)

(** Bit [i], read off the words. *)
Definition bit (bm : BitMap) (i : Z) : bool :=
  match znth (map bm) (i / 32) with
  | Some w => Z.testbit w (i mod 32)
  | None => false
  end.

(** The set of the bits that are set: what the bitmap stands for. *)
Definition marked (bm : BitMap) : gset Z :=
  list_to_set (filter (λ i, bit bm i = true) (seqZ 0 (numBits bm))).

(** Well-formedness: the words are 32-bit values and cover [numBits] bits. *)
Record wf (bm : BitMap) : Prop := {
  wf_bits : 0 ≤ numBits bm;
  wf_words : numWords bm = divRoundUp (numBits bm) BitsInWord;
  wf_len : zlen (map bm) = numWords bm;
  wf_u32 : Forall is_u32 (map bm)
}.

Lemma elem_of_marked bm i :
  i ∈ marked bm ↔ 0 ≤ i < numBits bm ∧ bit bm i = true.
Proof.
  unfold marked. rewrite elem_of_list_to_set, list_elem_of_filter, elem_of_seqZ.
  naive_solver lia.
Qed.

Section wf.
Context (bm : BitMap) (WF : wf bm).

Lemma word_index i : 0 ≤ i < numBits bm → 0 ≤ i / 32 < zlen (map bm).
Proof.
  intros Hi. rewrite (wf_len _ WF), (wf_words _ WF).
  rewrite divRoundUp_div by (unfold BitsInWord; lia).
  unfold BitsInWord. Z.to_euclidean_division_equations. lia.
Qed.

Lemma word_at i :
  0 ≤ i < numBits bm →
  ∃ w, znth (map bm) (i / 32) = Some w ∧ is_u32 w ∧ bit bm i = Z.testbit w (i mod 32).
Proof.
  intros Hi. destruct (znth_range _ _ (word_index i Hi)) as [w Hw].
  exists w. split_and!; [done|by apply (Forall_znth _ _ _ _ (wf_u32 _ WF) Hw)|].
  unfold bit. by rewrite Hw.
Qed.
End wf.

Lemma in_bounds bm i :
  0 ≤ i < numBits bm → (i >=? 0) && (i <? numBits bm) = true.
Proof. intros. apply andb_true_intro. split; lia. Qed.

Lemma Test_spec bm i : wf bm → 0 ≤ i < numBits bm → Test bm i = Ok (bit bm i).
Proof.
  intros WF Hi. unfold Test. rewrite in_bounds by done. cbn.
  rewrite Z.quot_div_nonneg, Z.rem_mod_nonneg by (unfold BitsInWord; lia).
  destruct (word_at bm WF i Hi) as (w & Hw & Hu & ->).
  unfold BitsInWord, aget. rewrite Hw. cbn. f_equal.
  set (k := i mod 32). assert (0 ≤ k < 32) by (apply Z.mod_pos_bound; lia).
  destruct (Z.testbit w k) eqn:E; destruct (Z.eqb_spec (Z.land w (mask k)) 0) as [H0|H0]; try done; exfalso.
  - apply (f_equal (λ z, Z.testbit z k)) in H0. unfold mask in H0.
    rewrite Z.land_spec, testbit_u32, testbit_shiftl1, E, Z.bits_0 in H0 by lia.
    rewrite bool_decide_true in H0 by done. destruct (Z.ltb_spec k 32); [done|lia].
  - apply H0. apply Z.bits_inj'. intros j Hj. unfold mask.
    rewrite Z.land_spec, testbit_u32, testbit_shiftl1, Z.bits_0 by lia.
    case_bool_decide; subst; rewrite ?E; by rewrite ?andb_false_r.
Qed.

Lemma Test_out bm i : ¬ (0 ≤ i < numBits bm) → Test bm i = Stop AssertFailed.
Proof.
  intros Hi. unfold Test. rewrite ASSERT_false; [done|].
  destruct (Z.geb_spec i 0), (Z.ltb_spec i (numBits bm)); cbn; lia || done.
Qed.
Lemma Mark_out bm i : ¬ (0 ≤ i < numBits bm) → Mark bm i = Stop AssertFailed.
Proof.
  intros Hi. unfold Mark. rewrite ASSERT_false; [done|].
  destruct (Z.geb_spec i 0), (Z.ltb_spec i (numBits bm)); cbn; lia || done.
Qed.

(** Both updates rewrite one word; [upd_spec] is what they share: if the new
    word differs from the old one in bit [i mod 32] only, the bitmap differs in
    bit [i] only. *)
Lemma upd_spec bm i w w' v :
  wf bm → 0 ≤ i < numBits bm →
  znth (map bm) (i / 32) = Some w → is_u32 w' →
  (∀ k, 0 ≤ k < 32 → Z.testbit w' k = if bool_decide (k = i mod 32) then v else Z.testbit w k) →
  let bm' := mkBitMap (numBits bm) (numWords bm) (zset (map bm) (i / 32) w') in
  wf bm' ∧ ∀ j, bit bm' j = if bool_decide (j = i) then v else bit bm j.
Proof.
  intros WF Hi Hw Hu' Hk bm'. pose proof (word_index bm WF i Hi) as Hidx. split.
  - destruct WF. split; cbn; [done|done|by rewrite zlen_zset|by apply Forall_zset].
  - intros j. unfold bit, bm'; cbn. rewrite znth_zset.
    pose proof (Z.mod_pos_bound j 32 ltac:(lia)) as Hj.
    pose proof (Z.div_mod j 32 ltac:(lia)). pose proof (Z.div_mod i 32 ltac:(lia)).
    destruct (decide (j / 32 = i / 32)) as [E|E].
    + rewrite bool_decide_true by lia. rewrite Hk by lia. rewrite E, Hw.
      repeat case_bool_decide; lia || done.
    + rewrite bool_decide_false by lia. rewrite bool_decide_false; [done|].
      intros ->. lia.
Qed.

Lemma u32_lor a b : is_u32 a → is_u32 b → is_u32 (Z.lor a b).
Proof.
  unfold is_u32. intros Ha Hb. split; [apply Z.lor_nonneg; lia|].
  destruct (Z.eq_dec (Z.lor a b) 0) as [->|]; [lia|].
  apply Z.log2_lt_pow2; [pose proof (proj2 (Z.lor_nonneg a b)); lia|].
  rewrite Z.log2_lor by lia. apply Z.max_lub_lt.
  - destruct (Z.eq_dec a 0) as [->|]; [cbn; lia|]. apply Z.log2_lt_pow2; lia.
  - destruct (Z.eq_dec b 0) as [->|]; [cbn; lia|]. apply Z.log2_lt_pow2; lia.
Qed.
Lemma u32_land a b : is_u32 a → is_u32 b → is_u32 (Z.land a b).
Proof.
  unfold is_u32. intros Ha Hb. split; [apply Z.land_nonneg; lia|].
  assert (Z.land a b ≤ b); [|lia].
  apply Z.ldiff_le; [lia|]. apply Z.bits_inj'. intros k Hk.
  rewrite Z.ldiff_spec, Z.land_spec, Z.bits_0. by destruct (Z.testbit a k), (Z.testbit b k).
Qed.

Lemma Mark_spec bm i :
  wf bm → 0 ≤ i < numBits bm →
  ∃ bm', Mark bm i = Ok bm' ∧ wf bm' ∧ numBits bm' = numBits bm ∧
    ∀ j, bit bm' j = if bool_decide (j = i) then true else bit bm j.
Proof.
  intros WF Hi. unfold Mark. rewrite in_bounds by done. cbn.
  rewrite Z.quot_div_nonneg, Z.rem_mod_nonneg by (unfold BitsInWord; lia).
  destruct (word_at bm WF i Hi) as (w & Hw & Hu & _).
  unfold BitsInWord, aget. rewrite Hw. cbn.
  rewrite aset_in by (by apply word_index). cbn. eexists. split; [done|].
  destruct (upd_spec bm i w (Z.lor w (mask (i mod 32))) true) as [? ?]; try done.
  - apply u32_lor; [done|apply u32_range].
  - intros k Hk. unfold mask. pose proof (Z.mod_pos_bound i 32).
    rewrite Z.lor_spec, testbit_u32, testbit_shiftl1 by lia.
    case_bool_decide; [|by rewrite andb_false_r, orb_false_r].
    destruct (Z.ltb_spec k 32); [|lia]. by rewrite orb_true_r.
Qed.

Lemma Clear_spec bm i :
  wf bm → 0 ≤ i < numBits bm →
  ∃ bm', Clear bm i = Ok bm' ∧ wf bm' ∧ numBits bm' = numBits bm ∧
    ∀ j, bit bm' j = if bool_decide (j = i) then false else bit bm j.
Proof.
  intros WF Hi. unfold Clear. rewrite in_bounds by done. cbn.
  rewrite Z.quot_div_nonneg, Z.rem_mod_nonneg by (unfold BitsInWord; lia).
  destruct (word_at bm WF i Hi) as (w & Hw & Hu & _).
  unfold BitsInWord, aget. rewrite Hw. cbn.
  rewrite aset_in by (by apply word_index). cbn. eexists. split; [done|].
  destruct (upd_spec bm i w (Z.land w (u32 (Z.lnot (Z.shiftl 1 (i mod 32))))) false) as [? ?]; try done.
  - apply u32_land; [done|apply u32_range].
  - intros k Hk. pose proof (Z.mod_pos_bound i 32).
    rewrite Z.land_spec, testbit_u32, Z.lnot_spec, testbit_shiftl1 by lia.
    destruct (Z.ltb_spec k 32); [|lia].
    case_bool_decide; by rewrite ?andb_false_r, ?andb_true_r.
Qed.

(** In terms of the abstraction. *)
Lemma Mark_marked bm i :
  wf bm → 0 ≤ i < numBits bm →
  ∃ bm', Mark bm i = Ok bm' ∧ wf bm' ∧ numBits bm' = numBits bm ∧
    marked bm' = {[i]} ∪ marked bm.
Proof.
  intros WF Hi. destruct (Mark_spec bm i WF Hi) as (bm' & HM & WF' & Hn & Hb).
  exists bm'. split_and!; try done. apply set_eq. intros j.
  rewrite elem_of_union, elem_of_singleton, !elem_of_marked, Hn, Hb.
  case_bool_decide; naive_solver.
Qed.
Lemma Clear_marked bm i :
  wf bm → 0 ≤ i < numBits bm →
  ∃ bm', Clear bm i = Ok bm' ∧ wf bm' ∧ numBits bm' = numBits bm ∧
    marked bm' = marked bm ∖ {[i]}.
Proof.
  intros WF Hi. destruct (Clear_spec bm i WF Hi) as (bm' & HM & WF' & Hn & Hb).
  exists bm'. split_and!; try done. apply set_eq. intros j.
  rewrite elem_of_difference, elem_of_singleton, !elem_of_marked, Hn, Hb.
  case_bool_decide; naive_solver.
Qed.
Lemma Test_marked bm i :
  wf bm → 0 ≤ i < numBits bm → Test bm i = Ok (bool_decide (i ∈ marked bm)).
Proof.
  intros WF Hi. rewrite Test_spec by done. f_equal.
  destruct (bit bm i) eqn:E; symmetry.
  - apply bool_decide_true, elem_of_marked. done.
  - apply bool_decide_false. rewrite elem_of_marked. rewrite E. by intros [? ?].
Qed.

(** A bitmap whose words do not matter: two bitmaps are equivalent when they
    have the same size and the same set of marked bits (the unused bits of the
    last word may differ). *)
Definition same_bits (b1 b2 : BitMap) : Prop :=
  wf b1 ∧ wf b2 ∧ numBits b1 = numBits b2 ∧ marked b1 = marked b2.

(** ** The constructor *)

Lemma BitMap_new_spec n uninit :
  0 ≤ n → zlen uninit = divRoundUp n BitsInWord → Forall is_u32 uninit →
  ∃ bm, BitMap_new n uninit = Ok bm ∧ wf bm ∧ numBits bm = n ∧ marked bm = ∅.
Proof.
  intros Hn Hlen Hu. unfold BitMap_new.
  destruct (for_each_seqZ (λ i bm, Clear bm i)
    (λ i bm, wf bm ∧ numBits bm = n ∧ ∀ j, 0 ≤ j < i → bit bm j = false)
    0 n (mkBitMap n (divRoundUp n BitsInWord) uninit)) as (bm & Hbm & WF & Hb & Hc).
  - done.
  - split_and!; [by split| done | lia].
  - intros i bm Hi (WF & Hb & Hc).
    destruct (Clear_spec bm i WF) as (bm' & HC & WF' & Hn' & Hbit); [lia|].
    exists bm'. split_and!; [done|done|lia|]. intros j Hj. rewrite Hbit.
    case_bool_decide; [done|]. apply Hc. lia.
  - exists bm. split_and!; try done. apply set_eq. intros j.
    rewrite elem_of_marked. rewrite Hb. split; [|set_solver].
    intros [Hj HT]. rewrite Hc in HT by lia. done.
Qed.

(** ** Find *)

Lemma Find_from_spec bm l :
  wf bm → (∀ i, i ∈ l → 0 ≤ i < numBits bm) →
  ((∀ i, i ∈ l → i ∈ marked bm) ∧ Find_from bm l = Ok (-1, bm)) ∨
  (∃ l1 i l2 bm', l = l1 ++ i :: l2 ∧ (∀ j, j ∈ l1 → j ∈ marked bm) ∧
     i ∉ marked bm ∧ Find_from bm l = Ok (i, bm') ∧ Mark bm i = Ok bm').
Proof.
  intros WF. induction l as [|i l IH]; intros Hl.
  { left. split; [intros i Hi; by apply elem_of_nil in Hi|done]. }
  assert (0 ≤ i < numBits bm) as Hi by (apply Hl; left).
  cbn. rewrite Test_marked by done. cbn. case_bool_decide as Hm.
  - destruct IH as [[Hall HF]|(l1 & i' & l2 & bm' & -> & Hl1 & Hi' & HF & HM)].
    + intros j Hj. apply Hl. by right.
    + left. split; [|done]. intros j [->|Hj]%elem_of_cons; auto.
    + right. exists (i :: l1), i', l2, bm'. split_and!; try done.
      intros j [->|Hj]%elem_of_cons; auto.
  - right. destruct (Mark_marked bm i WF Hi) as (bm' & HM & _).
    exists [], i, l, bm'. rewrite HM. split_and!; [done|set_solver|done|done|done].
Qed.

Lemma seqZ_split a n l1 i l2 :
  seqZ a n = l1 ++ i :: l2 → i = a + zlen l1 ∧ (∀ j, j ∈ l1 ↔ a ≤ j < i) ∧ i < a + n.
Proof.
  intros E.
  assert (∀ k : nat, (k < length l1 + S (length l2))%nat →
            seqZ a n !! k = Some (a + Z.of_nat k)) as HL.
  { intros k Hk. apply lookup_seqZ_lt.
    apply (f_equal length) in E. rewrite length_seqZ, length_app in E. cbn in E. lia. }
  assert (i = a + zlen l1) as ->.
  { specialize (HL (length l1) ltac:(lia)). rewrite E, list_lookup_middle in HL by done.
    by injection HL. }
  split; [done|]. split.
  - intros j. rewrite list_elem_of_lookup. unfold zlen. split.
    + intros [k Hk]. pose proof (lookup_lt_Some _ _ _ Hk).
      specialize (HL k ltac:(lia)). rewrite E, lookup_app_l in HL by done.
      rewrite Hk in HL. injection HL. lia.
    + intros Hj. exists (Z.to_nat (j - a)).
      specialize (HL (Z.to_nat (j - a)) ltac:(lia)).
      rewrite E, lookup_app_l in HL by lia. rewrite HL. f_equal. lia.
  - apply (f_equal length) in E. rewrite length_seqZ, length_app in E. cbn in E.
    unfold zlen. lia.
Qed.

Lemma Find_spec bm :
  wf bm →
  ∃ i bm', Find bm = Ok (i, bm') ∧ wf bm' ∧ numBits bm' = numBits bm ∧
    ((i = -1 ∧ bm' = bm ∧ ∀ j, 0 ≤ j < numBits bm → j ∈ marked bm) ∨
     (0 ≤ i < numBits bm ∧ i ∉ marked bm ∧ (∀ j, 0 ≤ j < i → j ∈ marked bm) ∧
      marked bm' = {[i]} ∪ marked bm)).
Proof.
  intros WF.
  destruct (Find_from_spec bm (seqZ 0 (numBits bm)) WF)
    as [[Hall HF] | (l1 & i & l2 & bm' & Hs & Hl1 & Hi & HF & HM)].
  - intros i Hi. apply elem_of_seqZ in Hi. lia.
  - exists (-1), bm. split_and!; try done. left. split_and!; try done.
    intros j Hj. apply Hall, elem_of_seqZ. lia.
  - apply seqZ_split in Hs as (Hi0 & Hj & Hlt). pose proof (zlen_nonneg l1).
    destruct (Mark_marked bm i WF) as (b & HM' & WF' & Hn & Hm); [lia|].
    rewrite HM in HM'. injection HM' as <-.
    exists i, bm'. split_and!; try done. right. split_and!; try done; try lia.
    intros j Hj'. by apply Hl1, Hj.
Qed.

(** [BitMap::Find] allocates the first clear bit.  On a well-formed bitmap it
    always returns; the result is -1 with the bitmap unchanged exactly when all
    bits are marked, and otherwise it is the least unmarked index, which is then
    marked, nothing else being changed. *)
Theorem Find_first_clear bm :
  wf bm →
  ∃ i bm', Find bm = Ok (i, bm') ∧ wf bm' ∧ numBits bm' = numBits bm ∧
    ((i = -1 ∧ bm' = bm ∧ ∀ j, 0 ≤ j < numBits bm → j ∈ marked bm) ∨
     (0 ≤ i < numBits bm ∧ i ∉ marked bm ∧ (∀ j, 0 ≤ j < i → j ∈ marked bm) ∧
      marked bm' = {[i]} ∪ marked bm)).
Proof. apply Find_spec. Qed.

(** ** NumClear *)

Lemma NumClear_spec bm :
  wf bm → NumClear bm = Ok (numBits bm - Z.of_nat (size (marked bm))).
Proof.
  intros WF. unfold NumClear.
  set (upto i := list_to_set (filter (λ j, bit bm j = true) (seqZ 0 i)) : gset Z).
  destruct (for_each_seqZ
    (λ i count, b ← Test bm i; Ok (if (b : bool) then count else count + 1))
    (λ i count, count = i - Z.of_nat (size (upto i))) 0 (numBits bm) 0)
    as (c & -> & ->); [apply WF|done| |done].
  intros i c Hi ->. rewrite Test_spec by done. cbn. eexists. split; [done|].
  unfold upto. rewrite (seqZ_app 0 i 1), list.filter_app, list_to_set_app_L by lia.
  rewrite Z.add_0_l. cbn [seqZ]. replace (seqZ i 1) with [i] by (by rewrite seqZ_cons by lia).
  destruct (bit bm i) eqn:E.
  - rewrite filter_cons_True, filter_nil by done. cbn [list_to_set]. rewrite union_empty_r_L.
    rewrite size_union, size_singleton; [lia|].
    apply disjoint_singleton_r. rewrite elem_of_list_to_set, list_elem_of_filter, elem_of_seqZ. lia.
  - rewrite filter_cons_False, filter_nil by congruence. cbn [list_to_set]. rewrite union_empty_r_L. lia.
Qed.

(** [BitMap::NumClear] counts the unmarked bits. *)
Theorem NumClear_count bm :
  wf bm → NumClear bm = Ok (numBits bm - Z.of_nat (size (marked bm))).
Proof. apply NumClear_spec. Qed.

(** ** FindN *)

(** [cnt] consecutive unmarked bits from [i], all inside the map. *)
Definition free_run (bm : BitMap) (i cnt : Z) : Prop :=
  0 ≤ i ∧ i + cnt ≤ numBits bm ∧ ∀ j, i ≤ j < i + cnt → j ∉ marked bm.
Definition interval (i cnt : Z) : gset Z := list_to_set (seqZ i cnt).

Lemma elem_of_interval i cnt j : j ∈ interval i cnt ↔ i ≤ j < i + cnt.
Proof. unfold interval. rewrite elem_of_list_to_set, elem_of_seqZ. lia. Qed.

Lemma FindN_flag_in bm i cnt :
  wf bm → 0 ≤ cnt → 0 ≤ i → i + cnt ≤ numBits bm →
  ∃ flag, FindN_flag bm i cnt = Ok flag ∧ (flag = true ↔ free_run bm i cnt).
Proof.
  intros WF Hc Hi Hn. unfold FindN_flag.
  destruct (for_each_seqZ
    (λ j flag, b ← Test bm (i + j); Ok (if (b : bool) then false else flag))
    (λ j flag, flag = true ↔ ∀ k, 0 ≤ k < j → i + k ∉ marked bm) 0 cnt true)
    as (flag & HF & HI); [done|split; [lia|done]| |].
  - intros j flag Hj Hflag. rewrite Test_marked by (done || lia). cbn.
    eexists. split; [done|]. case_bool_decide as Hm.
    + split; [done|]. intros HA. exfalso. apply (HA j); [lia|done].
    + rewrite Hflag. split.
      * intros HA k Hk. destruct (decide (k = j)) as [->|]; [done|]. apply HA. lia.
      * intros HA k Hk. apply HA. lia.
  - exists flag. split; [done|]. rewrite HI. unfold free_run. split.
    + intros HA. split_and!; [lia|lia|]. intros j Hj.
      replace j with (i + (j - i)) by lia. apply HA. lia.
    + intros (_ & _ & HA) k Hk. apply HA. lia.
Qed.

(** A window that sticks out of the map runs into the [ASSERT] of [Test]. *)
Lemma FindN_flag_out bm i cnt :
  wf bm → 0 ≤ i ≤ numBits bm → numBits bm < i + cnt →
  FindN_flag bm i cnt = Stop AssertFailed.
Proof.
  intros WF Hi Hn. unfold FindN_flag.
  set (f := λ j flag, b ← Test bm (i + j); Ok (if (b : bool) then false else flag)).
  replace cnt with ((numBits bm - i) + (cnt - (numBits bm - i))) at 1 by lia.
  rewrite seqZ_app, for_each_app by lia.
  destruct (for_each_seqZ f (λ _ _, True) 0 (numBits bm - i) true) as (s & -> & _).
  - lia.
  - done.
  - intros j s Hj _. unfold f. rewrite Test_marked by (done || lia). cbn. eauto.
  - cbn [mbind result_bind]. rewrite seqZ_cons by lia. cbn [for_each]. unfold f at 2.
    by rewrite Test_out by lia.
Qed.

Lemma Mark_run bm i cnt :
  wf bm → 0 ≤ cnt → 0 ≤ i → i + cnt ≤ numBits bm →
  ∃ bm', for_each (λ j b, Mark b (i + j)) (seqZ 0 cnt) bm = Ok bm' ∧
    wf bm' ∧ numBits bm' = numBits bm ∧ marked bm' = interval i cnt ∪ marked bm.
Proof.
  intros WF Hc Hi Hn.
  destruct (for_each_seqZ (λ j b, Mark b (i + j))
    (λ j b, wf b ∧ numBits b = numBits bm ∧ marked b = interval i j ∪ marked bm)
    0 cnt bm) as (bm' & HF & HI); [done| |  |by exists bm'].
  - split_and!; [done..|]. apply set_eq. intros x.
    rewrite elem_of_union, elem_of_interval. naive_solver lia.
  - intros j b Hj (WFb & Hnb & Hm).
    destruct (Mark_marked b (i + j) WFb) as (b' & HM & WF' & Hn' & Hm'); [lia|].
    exists b'. split_and!; [done|done|lia|]. rewrite Hm', Hm. apply set_eq. intros x.
    rewrite !elem_of_union, !elem_of_interval, elem_of_singleton.
    destruct (decide (x ∈ marked bm)); [tauto|]. intuition lia.
Qed.

Lemma FindN_from_skip bm cnt l1 l2 :
  wf bm → 0 ≤ cnt →
  (∀ j, j ∈ l1 → 0 ≤ j ∧ j + cnt ≤ numBits bm ∧ ¬ free_run bm j cnt) →
  FindN_from bm cnt (l1 ++ l2) = FindN_from bm cnt l2.
Proof.
  intros WF Hc. induction l1 as [|i l1 IH]; intros Hl; [done|]. cbn.
  destruct (Hl i) as (H0 & Hn & Hr); [left|].
  destruct (FindN_flag_in bm i cnt WF Hc H0 Hn) as ([] & -> & Hf); cbn.
  - by destruct Hr; apply Hf.
  - apply IH. intros j Hj. apply Hl. by right.
Qed.

Lemma FindN_hit bm i cnt :
  wf bm → 0 < cnt → free_run bm i cnt → (∀ j, 0 ≤ j < i → ¬ free_run bm j cnt) →
  ∃ bm', FindN bm cnt = Ok (i, bm') ∧ wf bm' ∧ numBits bm' = numBits bm ∧
    marked bm' = interval i cnt ∪ marked bm.
Proof.
  intros WF Hc Hrun Hmin. pose proof Hrun as (Hi & Hn & _). unfold FindN.
  replace (seqZ 0 (numBits bm)) with (seqZ 0 (i + (numBits bm - i))) by (f_equal; lia).
  rewrite seqZ_app by lia. rewrite FindN_from_skip; [|done|lia|].
  - rewrite Z.add_0_l, seqZ_cons by lia. cbn.
    destruct (FindN_flag_in bm i cnt WF ltac:(lia) Hi Hn) as (flag & -> & Hf).
    rewrite (proj2 Hf Hrun). cbn.
    destruct (Mark_run bm i cnt WF ltac:(lia) Hi Hn) as (bm' & -> & HM). by exists bm'.
  - intros j Hj%elem_of_seqZ. split_and!; [lia|lia|]. apply Hmin. lia.
Qed.

(** Without a run the scan ends in the [ASSERT] of [Test], except that a request
    for a single bit never looks outside the map and gets -1. *)
Definition FindN_failure (bm : BitMap) (cnt : Z) : result (Z * BitMap) :=
  if cnt =? 1 then Ok (-1, bm) else Stop AssertFailed.

Lemma FindN_miss bm cnt :
  wf bm → 0 < numBits bm → 0 < cnt → (∀ i, ¬ free_run bm i cnt) →
  FindN bm cnt = FindN_failure bm cnt.
Proof.
  intros WF Hb Hc Hno. unfold FindN, FindN_failure.
  set (k := Z.max 0 (numBits bm - cnt + 1)).
  replace (seqZ 0 (numBits bm)) with (seqZ 0 (k + (numBits bm - k))) by (f_equal; lia).
  rewrite seqZ_app by lia. rewrite FindN_from_skip; [|done|lia|].
  - destruct (Z.eqb_spec cnt 1); [by rewrite seqZ_nil by lia|].
    rewrite seqZ_cons by lia. cbn. by rewrite FindN_flag_out by (done || lia).
  - intros j Hj%elem_of_seqZ. split_and!; [lia|lia|apply Hno].
Qed.

(** A request for no bits succeeds at once, at index 0. *)
Lemma FindN_nonpos bm cnt :
  0 < numBits bm → cnt ≤ 0 → FindN bm cnt = Ok (0, bm).
Proof.
  intros Hb Hc. unfold FindN. rewrite seqZ_cons by lia. cbn.
  unfold FindN_flag. by rewrite !seqZ_nil by lia.
Qed.

#[export] Instance free_run_dec bm i cnt : Decision (free_run bm i cnt).
Proof.
  unfold free_run.
  destruct (decide (0 ≤ i ∧ i + cnt ≤ numBits bm)) as [[? ?]|Hn]; [|right; tauto].
  destruct (decide (Forall (λ x, x ∉ marked bm) (seqZ i cnt))) as [HA|HA].
  - left. split_and!; [done..|]. intros x Hx. rewrite list.Forall_forall in HA.
    apply HA, elem_of_seqZ. lia.
  - right. intros (_ & _ & HB). apply HA, list.Forall_forall. intros x Hx%elem_of_seqZ.
    apply HB. lia.
Defined.

Lemma least_free_run bm cnt :
  0 < cnt →
  (∃ i, free_run bm i cnt ∧ ∀ j, 0 ≤ j < i → ¬ free_run bm j cnt) ∨
  (∀ i, ¬ free_run bm i cnt).
Proof.
  intros Hc.
  assert (∀ n : nat, (∃ i, free_run bm i cnt ∧ ∀ j, 0 ≤ j < i → ¬ free_run bm j cnt) ∨
            (∀ j, 0 ≤ j < Z.of_nat n → ¬ free_run bm j cnt)) as Hn.
  { induction n as [|n [IH|IH]]; [right; lia|by left|].
    destruct (decide (free_run bm (Z.of_nat n) cnt)).
    - left. by exists (Z.of_nat n).
    - right. intros j Hj. destruct (decide (j = Z.of_nat n)) as [->|]; [done|].
      apply IH. lia. }
  destruct (Hn (Z.to_nat (numBits bm))) as [?|HA]; [by left|right].
  intros i Hr. apply (HA i); [destruct Hr; lia|done].
Qed.

(** C38: [BitMap::FindN] is a first-fit allocator of contiguous runs.  If the map
    has [cnt] consecutive clear bits, it returns the least index such a run starts
    at and marks exactly that run.  If it has none and [cnt] is 1, it returns -1;
    if it has none and [cnt] is larger, [FindN] does not return: the scan leaves the
    map and the [ASSERT] of [BitMap::Test] stops the system. *)
Theorem FindN_first_fit_or_abort bm cnt :
  wf bm → 0 < numBits bm → 0 < cnt →
  (∃ i bm', free_run bm i cnt ∧ (∀ j, 0 ≤ j < i → ¬ free_run bm j cnt) ∧
     FindN bm cnt = Ok (i, bm') ∧ wf bm' ∧ numBits bm' = numBits bm ∧
     marked bm' = interval i cnt ∪ marked bm) ∨
  ((∀ i, ¬ free_run bm i cnt) ∧
   FindN bm cnt = if cnt =? 1 then Ok (-1, bm) else Stop AssertFailed).
Proof.
  intros WF Hb Hc. destruct (least_free_run bm cnt Hc) as [(i & Hr & Hmin)|Hno].
  - left. destruct (FindN_hit bm i cnt WF Hc Hr Hmin) as (bm' & ? & ? & ? & ?).
    by exists i, bm'.
  - right. split; [done|]. exact (FindN_miss bm cnt WF Hb Hc Hno).
Qed.

Lemma FindN_result bm cnt i bm' :
  wf bm → 0 < cnt → 0 < numBits bm → FindN bm cnt = Ok (i, bm') →
  (free_run bm i cnt ∧ wf bm' ∧ numBits bm' = numBits bm ∧
   marked bm' = interval i cnt ∪ marked bm) ∨
  (i = -1 ∧ bm' = bm ∧ cnt = 1 ∧ ∀ j, 0 ≤ j < numBits bm → j ∈ marked bm).
Proof.
  intros WF Hc Hb HF. destruct (least_free_run bm cnt Hc) as [(j & Hr & Hmin)|Hno].
  - left. destruct (FindN_hit bm j cnt WF Hc Hr Hmin) as (b & HF' & ? & ? & ?).
    rewrite HF in HF'. by injection HF' as -> ->.
  - right. rewrite FindN_miss in HF by done. unfold FindN_failure in HF.
    destruct (Z.eqb_spec cnt 1) as [->|]; [|done]. injection HF as <- <-.
    split_and!; try done. intros j Hj. destruct (decide (j ∈ marked bm)) as [|Hn]; [done|].
    destruct (Hno j). unfold free_run. split_and!; [lia|lia|].
    intros x Hx. by replace x with j by lia.
Qed.

(** ** Examples *)

(** Eight bits, all marked but bit 2. *)
Definition example_map : BitMap := mkBitMap 8 1 [251].
Lemma example_map_wf : wf example_map.
Proof. split; cbn; [lia|done|by repeat constructor|repeat constructor; unfold is_u32; lia]. Qed.

Lemma Find_first_clear_witness : Find example_map = Ok (2, mkBitMap 8 1 [255]) ∧
  ∃ i bm', Find example_map = Ok (i, bm') ∧ wf bm' ∧ numBits bm' = 8 ∧
    ((i = -1 ∧ bm' = example_map ∧ ∀ j, 0 ≤ j < 8 → j ∈ marked example_map) ∨
     (0 ≤ i < 8 ∧ i ∉ marked example_map ∧ (∀ j, 0 ≤ j < i → j ∈ marked example_map) ∧
      marked bm' = {[i]} ∪ marked example_map)).
Proof. split; [vm_compute; reflexivity|]. exact (Find_first_clear example_map example_map_wf). Defined.

Lemma NumClear_count_witness : NumClear example_map = Ok 1 ∧
  NumClear example_map = Ok (8 - Z.of_nat (size (marked example_map))).
Proof. split; [vm_compute; reflexivity|]. exact (NumClear_count example_map example_map_wf). Defined.

Lemma FindN_first_fit_or_abort_witness : FindN example_map 2 = Stop AssertFailed ∧
  ((∃ i bm', free_run example_map i 2 ∧ (∀ j, 0 ≤ j < i → ¬ free_run example_map j 2) ∧
     FindN example_map 2 = Ok (i, bm') ∧ wf bm' ∧ numBits bm' = 8 ∧
     marked bm' = interval i 2 ∪ marked example_map) ∨
   ((∀ i, ¬ free_run example_map i 2) ∧
    FindN example_map 2 = if 2 =? 1 then Ok (-1, example_map) else Stop AssertFailed)).
Proof.
  split; [vm_compute; reflexivity|].
  apply (FindN_first_fit_or_abort example_map 2 example_map_wf); [cbn; lia|lia].
Defined.
