(* ===== verification/Disk.v ===== *)
(** * The simulated disk: machine/disk.cc

    The disk is a UNIX file: a magic number followed by the sectors.  A request
    transfers its sector at once and schedules the interrupt that reports
    completion [ComputeLatency] ticks later. *)

From S2P Require Import Prelude.

Definition SectorSize : Z := 128.
Definition SectorsPerTrack : Z := 32.
Definition NumTracks : Z := 32.
Definition NumSectors : Z := SectorsPerTrack * NumTracks.

Definition MagicNumber : Z := 0x456789ab.
Definition MagicSize : Z := 4.
Definition DiskSize : Z := MagicSize + NumSectors * SectorSize.

(** From machine/stats.h. *)
Definition SystemTick : Z := 10.
Definition RotationTime : Z := 500.
Definition SeekTime : Z := 500.

(** The statistics the disk keeps and the simulated clock (machine/stats.h). *)
Record Statistics := mkStats {
  totalTicks : Z;
  idleTicks : Z;
  systemTicks : Z;
  numDiskReads : Z;
  numDiskWrites : Z
}.

(** Class [Disk]; [file] is the content of the UNIX file [fileno] refers to,
    [pending] the time of the scheduled [DiskDone] interrupt, if any. *)
Record Disk := mkDisk {
  file : list Z;
  active : bool;
  lastSector : Z;
  bufferInit : Z;
  pending : option Z
}.

(** ** Latency *)

Definition TimeToSeek (d : Disk) (now newSector : Z) : Z * Z :=
  let newTrack := Z.quot newSector SectorsPerTrack in
  let oldTrack := Z.quot (lastSector d) SectorsPerTrack in
  let seek := Z.abs (newTrack - oldTrack) * SeekTime in
  let over := Z.rem (now + seek) RotationTime in
  (seek, if over >? 0 then RotationTime - over else 0).

Definition ModuloDiff (to from : Z) : Z :=
  let toOffset := Z.rem to SectorsPerTrack in
  let fromOffset := Z.rem from SectorsPerTrack in
  Z.rem ((toOffset - fromOffset) + SectorsPerTrack) SectorsPerTrack.

Definition ComputeLatency (d : Disk) (now newSector : Z) (writing : bool) : Z :=
  let '(seek, rotation) := TimeToSeek d now newSector in
  let timeAfter := now + seek + rotation in
  if negb writing && (seek =? 0) &&
     (Z.quot (timeAfter - bufferInit d) RotationTime
        >? ModuloDiff newSector (Z.quot (bufferInit d) RotationTime))
  then RotationTime
  else
    let rotation := rotation +
      ModuloDiff newSector (Z.quot timeAfter RotationTime) * RotationTime in
    seek + rotation + RotationTime.

Definition UpdateLast (d : Disk) (now newSector : Z) : Disk :=
  let '(seek, rotate) := TimeToSeek d now newSector in
  mkDisk (file d) (active d) newSector
    (if seek =? 0 then bufferInit d else now + seek + rotate) (pending d).

(** ** Requests *)

(** Where sector [n] starts in the file. *)
Definition sector_off (n : Z) : Z := SectorSize * n + MagicSize.

(** [Interrupt::Schedule] as the disk uses it. *)
Definition ScheduleDone (d : Disk) (now fromNow : Z) : result Disk :=
  ASSERT (fromNow >? 0);;
  Ok (mkDisk (file d) (active d) (lastSector d) (bufferInit d) (Some (now + fromNow))).

Definition set_active (d : Disk) (b : bool) : Disk :=
  mkDisk (file d) b (lastSector d) (bufferInit d) (pending d).
Definition set_file (d : Disk) (f : list Z) : Disk :=
  mkDisk f (active d) (lastSector d) (bufferInit d) (pending d).

Definition valid_sector (n : Z) : bool := (n >=? 0) && (n <? NumSectors).

Definition ReadRequest (sectorNumber : Z) (ds : Disk * Statistics) :
    result (list Z * (Disk * Statistics)) :=
  let '(d, st) := ds in
  let now := totalTicks st in
  let ticks := ComputeLatency d now sectorNumber false in
  ASSERT (negb (active d));;
  ASSERT (valid_sector sectorNumber);;
  let data := read_at (file d) (sector_off sectorNumber) SectorSize in
  let d1 := UpdateLast (set_active d true) now sectorNumber in
  d2 ← ScheduleDone d1 now ticks;
  Ok (data, (d2, mkStats now (idleTicks st) (systemTicks st)
                   (numDiskReads st + 1) (numDiskWrites st))).

Definition WriteRequest (sectorNumber : Z) (data : list Z) (ds : Disk * Statistics) :
    result (Disk * Statistics) :=
  let '(d, st) := ds in
  let now := totalTicks st in
  let ticks := ComputeLatency d now sectorNumber true in
  ASSERT (negb (active d));;
  ASSERT (valid_sector sectorNumber);;
  let d0 := set_file d (write_at (file d) (sector_off sectorNumber) data) in
  let d1 := UpdateLast (set_active d0 true) now sectorNumber in
  d2 ← ScheduleDone d1 now ticks;
  Ok (d2, mkStats now (idleTicks st) (systemTicks st)
            (numDiskReads st) (numDiskWrites st + 1)).

(** [Disk::HandleInterrupt], the call of the handler left to the caller. *)
Definition HandleInterrupt (d : Disk) : Disk :=
  mkDisk (file d) false (lastSector d) (bufferInit d) None.

(** ** Opening the disk *)

(** What the constructor writes to a new file: the magic number, then a hole up
    to the last word, then a zero. *)
Definition fresh_image : list Z :=
  le_split 4 MagicNumber ++ replicate (Z.to_nat (DiskSize - MagicSize - 4)) 0 ++ le_split 4 0.

(** [Disk::Disk]: [unix] is the UNIX file of that name, if it exists. *)
Definition Disk_new (unix : option (list Z)) : result Disk :=
  match unix with
  | Some f =>
      ASSERT (le_combine (read_at f 0 MagicSize) =? MagicNumber);;
      Ok (mkDisk f false 0 0 None)
  | None => Ok (mkDisk fresh_image false 0 0 None)
  end.

#[global] Arguments ComputeLatency : simpl never.
#[global] Arguments UpdateLast : simpl never.
#[global] Arguments ReadRequest : simpl never.
#[global] Arguments WriteRequest : simpl never.

(** ** Properties *)

(** The content of sector [n]. *)
Definition sector_of (f : list Z) (n : Z) : list Z :=
  read_at f (sector_off n) SectorSize.

Record disk_ok (d : Disk) : Prop := {
  dok_len : zlen (file d) = DiskSize;
  dok_last : 0 ≤ lastSector d < NumSectors;
  dok_buf : 0 ≤ bufferInit d
}.

Lemma valid_sector_true n : valid_sector n = true ↔ 0 ≤ n < NumSectors.
Proof. unfold valid_sector. rewrite andb_true_iff. lia. Qed.
Lemma valid_sector_false n : valid_sector n = false ↔ ¬ (0 ≤ n < NumSectors).
Proof. rewrite <-valid_sector_true. by destruct (valid_sector n). Qed.

Lemma TimeToSeek_bounds d now n seek rot :
  0 ≤ now → 0 ≤ lastSector d < NumSectors → 0 ≤ n < NumSectors →
  TimeToSeek d now n = (seek, rot) →
  0 ≤ seek ≤ 31 * SeekTime ∧ 0 ≤ rot < RotationTime ∧ (now + seek + rot) mod RotationTime = 0.
Proof.
  unfold TimeToSeek, NumSectors, NumTracks, SectorsPerTrack, SeekTime, RotationTime.
  intros Hnow Hl Hn [= <- <-].
  assert (0 ≤ n ÷ 32 ≤ 31) by (Z.to_euclidean_division_equations; lia).
  assert (0 ≤ lastSector d ÷ 32 ≤ 31) by (Z.to_euclidean_division_equations; lia).
  set (s := Z.abs (n ÷ 32 - lastSector d ÷ 32) * 500).
  assert (0 ≤ s ≤ 31 * 500) by lia.
  rewrite Z.rem_mod_nonneg by lia.
  pose proof (Z.mod_pos_bound (now + s) 500). pose proof (Z.div_mod (now + s) 500).
  destruct (Z.gtb_spec ((now + s) mod 500) 0); (split_and!; [lia..|]).
  - replace (now + s + _) with (((now + s) / 500 + 1) * 500) by lia. apply Z.mod_mul. lia.
  - rewrite Z.add_0_r. lia.
Qed.

Lemma ModuloDiff_bounds to from :
  0 ≤ to → 0 ≤ from →
  0 ≤ ModuloDiff to from < SectorsPerTrack ∧
  (from + ModuloDiff to from) mod SectorsPerTrack = to mod SectorsPerTrack.
Proof.
  unfold ModuloDiff, SectorsPerTrack. intros.
  rewrite (Z.rem_mod_nonneg to), (Z.rem_mod_nonneg from) by lia.
  pose proof (Z.mod_pos_bound to 32). pose proof (Z.mod_pos_bound from 32).
  rewrite Z.rem_mod_nonneg by lia. split; [apply Z.mod_pos_bound; lia|].
  rewrite Zplus_mod_idemp_r. Z.to_euclidean_division_equations. lia.
Qed.

Lemma ComputeLatency_pos d now n writing :
  disk_ok d → 0 ≤ now → 0 ≤ n < NumSectors →
  0 < ComputeLatency d now n writing ∧ (ComputeLatency d now n writing >? 0) = true.
Proof.
  intros [_ Hlast Hbuf] Hnow Hn. rewrite Z.gtb_lt.
  assert (0 < ComputeLatency d now n writing); [|done]. unfold ComputeLatency.
  destruct (TimeToSeek d now n) as [seek rot] eqn:E.
  apply TimeToSeek_bounds in E as (Hs & Hr & Hm); [|done..].
  unfold RotationTime, SeekTime in *. case_match; [lia|].
  destruct (ModuloDiff_bounds n (Z.quot (now + seek + rot) 500)) as [Hd _]; [lia| |lia].
  apply Z.quot_pos; lia.
Qed.

(** The latency of a request is positive, so that [Interrupt::Schedule]
    accepts it, and at most a full seek, a partial and a full rotation.  Unless the
    sector comes from the track buffer, the transfer of one sector ends at a sector
    boundary, and began when the requested sector was under the head. *)
Theorem ComputeLatency_timing d now n writing :
  disk_ok d → 0 ≤ now → 0 ≤ n < NumSectors →
  let l := ComputeLatency d now n writing in
  RotationTime ≤ l ≤ 31 * SeekTime + (RotationTime - 1) + 32 * RotationTime ∧
  (l = RotationTime ∧ writing = false ∨
   (now + l) mod RotationTime = 0 ∧
   ((now + l) / RotationTime - 1) mod SectorsPerTrack = n mod SectorsPerTrack).
Proof.
  intros [_ Hlast Hbuf] Hnow Hn. cbv zeta. unfold ComputeLatency.
  destruct (TimeToSeek d now n) as [seek rot] eqn:E.
  apply TimeToSeek_bounds in E as (Hs & Hr & Hm); [|done..].
  unfold RotationTime, SeekTime, SectorsPerTrack in *.
  destruct (negb writing && (seek =? 0) && _) eqn:Eb.
  - split; [lia|]. left. split; [done|]. by destruct writing.
  - set (t := now + seek + rot) in *. assert (0 ≤ t) by lia.
    rewrite Z.quot_div_nonneg by lia.
    destruct (ModuloDiff_bounds n (t / 500)) as [Hd Hmd];
      [lia|apply Z.div_pos; lia|].
    unfold SectorsPerTrack in *. set (m := ModuloDiff n (t / 500)) in *.
    split; [lia|]. right.
    assert (t = 500 * (t / 500)) as Ht by (pose proof (Z.div_mod t 500); lia).
    replace (now + (seek + (rot + m * 500) + 500)) with ((t / 500 + m + 1) * 500) by lia.
    rewrite Z.mod_mul, Z.div_mul by lia. split; [done|]. by rewrite Z.add_simpl_r.
Qed.

Lemma sector_off_range n :
  0 ≤ n < NumSectors → 0 ≤ sector_off n ∧ sector_off n + SectorSize ≤ DiskSize.
Proof. unfold sector_off, DiskSize, SectorSize, MagicSize, NumSectors, SectorsPerTrack, NumTracks. lia. Qed.

Lemma sector_of_length f n :
  zlen f = DiskSize → 0 ≤ n < NumSectors → zlen (sector_of f n) = SectorSize.
Proof.
  intros Hf Hn. apply read_at_length. pose proof (sector_off_range n Hn).
  unfold SectorSize in *. lia.
Qed.

Lemma sector_of_write f n m data :
  zlen f = DiskSize → 0 ≤ n < NumSectors → 0 ≤ m < NumSectors → zlen data = SectorSize →
  sector_of (write_at f (sector_off n) data) m =
    if bool_decide (m = n) then data else sector_of f m.
Proof.
  intros Hf Hn Hm Hd. pose proof (sector_off_range n Hn). pose proof (sector_off_range m Hm).
  unfold sector_of. case_bool_decide as E.
  - subst. rewrite <-Hd. apply read_write_same; lia.
  - unfold SectorSize in *. apply read_write_disjoint; [lia..|].
    unfold sector_off, SectorSize, MagicSize in *. lia.
Qed.

Lemma UpdateLast_ok d now n :
  disk_ok d → 0 ≤ now → 0 ≤ n < NumSectors →
  disk_ok (UpdateLast d now n) ∧ file (UpdateLast d now n) = file d ∧
  active (UpdateLast d now n) = active d.
Proof.
  intros [] Hnow Hn. unfold UpdateLast. destruct (TimeToSeek d now n) as [seek rot] eqn:E.
  apply TimeToSeek_bounds in E as (? & ? & _); [|done..].
  split_and!; [|done..]. split; cbn; [done|done|]. case_match; lia.
Qed.

(** A request on an idle disk for an existing sector succeeds. *)
Lemma ReadRequest_ok d st n :
  disk_ok d → active d = false → 0 ≤ totalTicks st → 0 ≤ n < NumSectors →
  ∃ d' st' w, ReadRequest n (d, st) = Ok (sector_of (file d) n, (d', st')) ∧
    disk_ok d' ∧ file d' = file d ∧ active d' = true ∧ pending d' = Some w ∧
    totalTicks st < w ∧ totalTicks st' = totalTicks st.
Proof.
  intros OK Ha Ht Hn. unfold ReadRequest.
  rewrite Ha, (proj2 (valid_sector_true n) Hn). cbn.
  destruct (ComputeLatency_pos d (totalTicks st) n false OK Ht Hn) as [Hl Hs].
  destruct (UpdateLast_ok (set_active d true) (totalTicks st) n) as (OK' & Hf & Ha');
    [by destruct OK|done|done|].
  unfold ScheduleDone. rewrite ASSERT_true by done. cbn.
  do 3 eexists. split; [done|]. cbn. split_and!; try done; [|lia].
  destruct OK'. by split.
Qed.

Lemma WriteRequest_ok d st n data :
  disk_ok d → active d = false → 0 ≤ totalTicks st → 0 ≤ n < NumSectors →
  zlen data = SectorSize →
  ∃ d' st' w, WriteRequest n data (d, st) = Ok (d', st') ∧
    disk_ok d' ∧ file d' = write_at (file d) (sector_off n) data ∧ active d' = true ∧
    pending d' = Some w ∧ totalTicks st < w ∧ totalTicks st' = totalTicks st.
Proof.
  intros OK Ha Ht Hn Hd. unfold WriteRequest.
  rewrite Ha, (proj2 (valid_sector_true n) Hn). cbn.
  destruct (ComputeLatency_pos d (totalTicks st) n true OK Ht Hn) as [Hl Hs].
  pose proof (sector_off_range n Hn).
  destruct (UpdateLast_ok (set_active (set_file d (write_at (file d) (sector_off n) data)) true)
              (totalTicks st) n) as (OK' & Hf & Ha').
  { destruct OK. split; cbn; [|done|done]. by rewrite write_at_length by lia. }
  { done. } { done. }
  unfold ScheduleDone. rewrite ASSERT_true by done. cbn.
  do 3 eexists. split; [done|]. cbn. split_and!; try done; [|lia].
  destruct OK'. by split.
Qed.

Lemma ReadRequest_bad d st n :
  active d = false → ¬ (0 ≤ n < NumSectors) → ReadRequest n (d, st) = Stop AssertFailed.
Proof.
  intros Ha Hn. unfold ReadRequest. by rewrite Ha, (proj2 (valid_sector_false n) Hn).
Qed.

Lemma fresh_image_length : zlen fresh_image = DiskSize.
Proof.
  unfold zlen, fresh_image. rewrite !length_app, !length_le_split, length_replicate.
  rewrite !Nat2Z.inj_add, Z2Nat.id by done. done.
Qed.
Lemma Disk_new_ok : disk_ok (mkDisk fresh_image false 0 0 None).
Proof. split; [apply fresh_image_length|done|done]. Qed.

Lemma ComputeLatency_timing_witness :
  let d := mkDisk fresh_image false 0 0 None in
  let l := ComputeLatency d 1234 40 true in
  l = 3266 ∧ RotationTime ≤ l ≤ 31 * SeekTime + (RotationTime - 1) + 32 * RotationTime ∧
  (l = RotationTime ∧ true = false ∨
   (1234 + l) mod RotationTime = 0 ∧
   ((1234 + l) / RotationTime - 1) mod SectorsPerTrack = 40 mod SectorsPerTrack).
Proof.
  intros d l. split; [vm_compute; reflexivity|].
  apply (ComputeLatency_timing d 1234 40 true); [apply Disk_new_ok|lia|].
  unfold NumSectors, SectorsPerTrack, NumTracks. lia.
Defined.
