(* ===== verification/SectorStore.v ===== *)
(** * What the file system expects of the disk

    filehdr.cc, openfile.cc and filesys.cc use the global [synchDisk] only through
    the methods of class [SynchDisk] (filesys/synchdisk.h).  [SectorStore] is that
    interface and [SectorStoreLaws] what it promises; SynchDisk.v shows that the
    cached disk keeps the promise. *)

From S2P Require Import Prelude Disk.

(** The state of the reader/writer lock of one file header sector. *)
Inductive rwstate := Readers (n : Z) | Writer.
#[export] Instance rwstate_eq_dec : EqDecision rwstate.
Proof. solve_decision. Defined.

(** [ReadSector n buf] returns the caller's buffer after the call, [buf] being
    its 128 bytes before. *)
Class SectorStore (S : Type) := {
  ReadSector : Z → list Z → ST S (list Z);
  WriteSector : Z → list Z → ST S ();
  StartRead : Z → ST S ();
  EndRead : Z → ST S ();
  StartWrite : Z → ST S ();
  EndWrite : Z → ST S ();
  OpenSector : Z → ST S ();
  CloseSector : Z → ST S ();
  GetOpenStart : Z → ST S Z
}.

(** Two states that store the same sectors, counters and lock states. *)
Definition upd {A} (f : Z → A) (i : Z) (x : A) : Z → A :=
  λ j, if bool_decide (j = i) then x else f j.

Lemma upd_eq {A} (f : Z → A) i x : upd f i x i = x.
Proof. unfold upd. by rewrite bool_decide_true. Qed.
Lemma upd_ne {A} (f : Z → A) i j x : j ≠ i → upd f i x j = f j.
Proof. intros. unfold upd. by rewrite bool_decide_false. Qed.

(** The abstract state: the 1024 sectors, how often each header is open, and the
    reader/writer locks.  [reach s c o r] says that [s] is a state between two
    calls whose abstract state is [c], [o], [r]. *)
Class SectorStoreLaws (S : Type) `{SectorStore S} := {
  represents : S → (Z → list Z) → (Z → Z) → (Z → rwstate) → Prop;

  contents_length s c o r n :
    represents s c o r → 0 ≤ n < NumSectors → zlen (c n) = SectorSize;

  ReadSector_ok s c o r n buf :
    represents s c o r → 0 ≤ n < NumSectors → zlen buf = SectorSize →
    ∃ s', ReadSector n buf s = Ok (c n, s') ∧ represents s' c o r;
  ReadSector_bad s c o r n buf :
    represents s c o r → ¬ (0 ≤ n < NumSectors) →
    ReadSector n buf s = Stop AssertFailed;
  WriteSector_ok s c o r n data :
    represents s c o r → 0 ≤ n < NumSectors → zlen data = SectorSize →
    ∃ s', WriteSector n data s = Ok ((), s') ∧ represents s' (upd c n data) o r;
  WriteSector_bad s c o r n data :
    represents s c o r → ¬ (0 ≤ n < NumSectors) →
    WriteSector n data s = Stop AssertFailed;

  readers_nonneg s c o r h k :
    represents s c o r → 0 ≤ h < NumSectors → r h = Readers k → 0 ≤ k;
  StartRead_ok s c o r h k :
    represents s c o r → 0 ≤ h < NumSectors → r h = Readers k →
    ∃ s', StartRead h s = Ok ((), s') ∧ represents s' c o (upd r h (Readers (k + 1)));
  EndRead_ok s c o r h k :
    represents s c o r → 0 ≤ h < NumSectors → r h = Readers k → 0 < k →
    ∃ s', EndRead h s = Ok ((), s') ∧ represents s' c o (upd r h (Readers (k - 1)));
  StartWrite_ok s c o r h :
    represents s c o r → 0 ≤ h < NumSectors → r h = Readers 0 →
    ∃ s', StartWrite h s = Ok ((), s') ∧ represents s' c o (upd r h Writer);
  EndWrite_ok s c o r h :
    represents s c o r → 0 ≤ h < NumSectors → r h = Writer →
    ∃ s', EndWrite h s = Ok ((), s') ∧ represents s' c o (upd r h (Readers 0));

  OpenSector_ok s c o r h :
    represents s c o r → 0 ≤ h < NumSectors →
    ∃ s', OpenSector h s = Ok ((), s') ∧ represents s' c (upd o h (o h + 1)) r;
  OpenSector_bad s c o r h :
    represents s c o r → ¬ (0 ≤ h < NumSectors) → OpenSector h s = Stop Undefined;
  CloseSector_ok s c o r h :
    represents s c o r → 0 ≤ h < NumSectors →
    ∃ s', CloseSector h s = Ok ((), s') ∧ represents s' c (upd o h (o h - 1)) r;
  GetOpenStart_ok s c o r h :
    represents s c o r → 0 ≤ h < NumSectors →
    ∃ s', GetOpenStart h s = Ok (o h, s') ∧ represents s' c o r;

  (** The abstract state is determined on the existing sectors only. *)
  represents_ext s c o r c' o' r' :
    represents s c o r →
    (∀ n, 0 ≤ n < NumSectors → c' n = c n ∧ o' n = o n ∧ r' n = r n) →
    represents s c' o' r'
}.
