(* ===== verification/SynchDisk.v ===== *)
(** * The synchronous disk with its sector cache: filesys/synchdisk.cc

    [SynchDisk] waits for the disk interrupt with a semaphore, serialises
    requests with a lock, keeps the eight most recently used sectors in a
    write-back cache, and offers a reader/writer lock and an open count per
    sector.  The model is that of one running thread (a thread that would sleep
    with no one to wake it is [Blocked]); [synchdisk_laws] shows that the cache
    is transparent. *)

From S2P Require Import Prelude Disk SectorStore.

Definition CacheSize : Z := 8.

Record CacheEntry := mkEntry {
  valid : bool;
  dirty : bool;
  sector : Z;
  lru : Z;
  data : list Z
}.

(** Class [Lock] (threads/synch.h): a binary semaphore and the owner's id. *)
Record Lock := mkLock { mutex : Z; OwnerId : Z }.

(** The part of [SynchDisk] that talks to the device: the disk, the clock, the
    semaphore the interrupt handler signals, the lock. *)
Record Dev := mkDev {
  disk : Disk;
  stats : Statistics;
  semaphore : Z;
  lock : Lock
}.

(** The counters and semaphores per sector. *)
Record Counters := mkCounters {
  readerCnt : list Z;
  openerCnt : list Z;
  rCntMutex : list Z;
  oCntMutex : list Z;
  RW : list Z
}.

Record SynchDisk := mkSD {
  dev : Dev;
  CacheTable : list CacheEntry;
  counters : Counters;
  curTid : Z  (* the id of the running thread *)
}.

(** ** Waiting and locking, for the one running thread *)

(** [SynchDisk::RequestDone], called by [Disk::HandleInterrupt]: [semaphore->V()]. *)
Definition RequestDone (d : Dev) : Dev :=
  mkDev (HandleInterrupt (disk d)) (stats d) (semaphore d + 1) (lock d).

Definition set_clock (st : Statistics) (total idle system : Z) : Statistics :=
  mkStats total idle system (numDiskReads st) (numDiskWrites st).

(** [Interrupt::OneTick], which every re-enabling of interrupts runs: the clock
    advances and a disk interrupt that is due is delivered. *)
Definition OneTick (d : Dev) : Dev :=
  let st := stats d in
  let now := totalTicks st + SystemTick in
  let d1 := mkDev (disk d) (set_clock st now (idleTicks st) (systemTicks st + SystemTick))
              (semaphore d) (lock d) in
  match pending (disk d) with
  | Some when => if when >? now then d1 else RequestDone d1
  | None => d1
  end.

(** [semaphore->P()]: if the value is 0 the thread sleeps, the machine idles and
    the clock is advanced to the pending interrupt, whose handler increments the
    value; then the value is decremented and interrupts are enabled again. *)
Definition Semaphore_P (d : Dev) : result Dev :=
  d1 ← (if semaphore d =? 0 then
          match pending (disk d) with
          | None => Stop Blocked
          | Some when =>
              let st := stats d in
              let now := totalTicks st in
              let st' := if when >? now
                         then set_clock st when (idleTicks st + (when - now)) (systemTicks st)
                         else st in
              Ok (RequestDone (mkDev (disk d) st' (semaphore d) (lock d)))
          end
        else Ok d);
  Ok (OneTick (mkDev (disk d1) (stats d1) (semaphore d1 - 1) (lock d1))).

(** [Lock::Acquire] and [Lock::Release] by thread [tid]. *)
Definition Acquire (tid : Z) (d : Dev) : result Dev :=
  if mutex (lock d) =? 0 then Stop Blocked
  else Ok (OneTick (mkDev (disk d) (stats d) (semaphore d)
                      (mkLock (mutex (lock d) - 1) tid))).
Definition Release (tid : Z) (d : Dev) : result Dev :=
  ASSERT (OwnerId (lock d) =? tid);;
  Ok (OneTick (mkDev (disk d) (stats d) (semaphore d)
                 (mkLock (mutex (lock d) + 1) (-1)))).

Definition set_disk (d : Dev) (ds : Disk * Statistics) : Dev :=
  mkDev (ds.1) (ds.2) (semaphore d) (lock d).

(** The two forms of "request, then wait for the interrupt". *)
Definition read_and_wait (n : Z) (d : Dev) : result (list Z * Dev) :=
  '(bytes, ds) ← ReadRequest n (disk d, stats d);
  d' ← Semaphore_P (set_disk d ds);
  Ok (bytes, d').
Definition write_and_wait (n : Z) (bytes : list Z) (d : Dev) : result Dev :=
  ds ← WriteRequest n bytes (disk d, stats d);
  Semaphore_P (set_disk d ds).

(** ** The cache *)

Definition hits (e : CacheEntry) (n : Z) : bool := valid e && (sector e =? n).

(** The scan of [CacheMiss] for the entry to replace: the first invalid one,
    else the least recently used one. *)
Fixpoint choose_evict (ct : list CacheEntry) (l : list Z) (evict : Z) : result Z :=
  match l with
  | [] => Ok evict
  | i :: l' =>
      e ← aget ct i;
      if negb (valid e) then Ok i
      else v ← aget ct evict;
           choose_evict ct l' (if lru e <? lru v then i else evict)
  end.

(** The first half of [CacheMiss]: a dirty victim is written to its sector. *)
Definition write_back (tid : Z) (e : CacheEntry) (d : Dev) : result Dev :=
  if valid e && dirty e then
    d ← Acquire tid d;
    d ← write_and_wait (sector e) (data e) d;
    Release tid d
  else Ok d.

(** [SynchDisk::CacheMiss].  The flags the write-back clears are overwritten by
    the second half, which installs the new sector in the same entry. *)
Definition CacheMiss (n : Z) (s : SynchDisk) : result SynchDisk :=
  let tid := curTid s in
  evict ← choose_evict (CacheTable s) (seqZ 0 CacheSize) 0;
  e ← aget (CacheTable s) evict;
  d ← write_back tid e (dev s);
  d ← Acquire tid d;
  '(bytes, d) ← read_and_wait n d;
  let e2 := mkEntry true false n (totalTicks (stats d)) bytes in
  d ← Release tid d;
  ct ← aset (CacheTable s) evict e2;
  Ok (mkSD d ct (counters s) tid).

(** One iteration of the lookup loops of [ReadSector] and [WriteSector]. *)
Definition read_step (n : Z) (i : Z) (x : list Z * bool * SynchDisk) :
    result (list Z * bool * SynchDisk) :=
  let '(buf, hit, s) := x in
  d ← Acquire (curTid s) (dev s);
  e ← aget (CacheTable s) i;
  '(buf', hit', ct) ←
    (if hits e n then
       ct ← aset (CacheTable s) i
              (mkEntry (valid e) (dirty e) (sector e) (totalTicks (stats d)) (data e));
       Ok (data e, true, ct)
     else Ok (buf, hit, CacheTable s));
  d' ← Release (curTid s) d;
  Ok (buf', hit', mkSD d' ct (counters s) (curTid s)).

Definition write_step (n : Z) (bytes : list Z) (i : Z) (x : bool * SynchDisk) :
    result (bool * SynchDisk) :=
  let '(hit, s) := x in
  d ← Acquire (curTid s) (dev s);
  e ← aget (CacheTable s) i;
  '(hit', ct) ←
    (if hits e n then
       ct ← aset (CacheTable s) i
              (mkEntry (valid e) true (sector e) (totalTicks (stats d)) bytes);
       Ok (true, ct)
     else Ok (hit, CacheTable s));
  d' ← Release (curTid s) d;
  Ok (hit', mkSD d' ct (counters s) (curTid s)).

Definition SD_ReadSector (n : Z) (buf : list Z) : ST SynchDisk (list Z) := λ s,
  '(buf1, hit, s1) ← for_each (read_step n) (seqZ 0 CacheSize) (buf, false, s);
  if (hit : bool) then Ok (buf1, s1)
  else
    s2 ← CacheMiss n s1;
    '(buf2, _, s3) ← for_each (read_step n) (seqZ 0 CacheSize) (buf1, false, s2);
    Ok (buf2, s3).

Definition SD_WriteSector (n : Z) (bytes : list Z) : ST SynchDisk () := λ s,
  '(hit, s1) ← for_each (write_step n bytes) (seqZ 0 CacheSize) (false, s);
  if (hit : bool) then Ok ((), s1)
  else
    s2 ← CacheMiss n s1;
    '(_, s3) ← for_each (write_step n bytes) (seqZ 0 CacheSize) (false, s2);
    Ok ((), s3).

(** ** Readers, writers and open counts *)

(** [P] and [V] on a semaphore of an array, by a thread running alone. *)
Definition arr_P (l : list Z) (h : Z) (d : Dev) : result (list Z * Dev) :=
  v ← aget l h;
  if v =? 0 then Stop Blocked
  else l' ← aset l h (v - 1); Ok (l', OneTick d).
Definition arr_V (l : list Z) (h : Z) (d : Dev) : result (list Z * Dev) :=
  v ← aget l h;
  l' ← aset l h (v + 1); Ok (l', OneTick d).

Definition SD_StartRead (h : Z) : ST SynchDisk () := λ s,
  let c := counters s in
  '(rm, d) ← arr_P (rCntMutex c) h (dev s);
  cnt ← aget (readerCnt c) h;
  '(rw, d) ← (if cnt =? 0 then arr_P (RW c) h d else Ok (RW c, d));
  rc ← aset (readerCnt c) h (cnt + 1);
  '(rm, d) ← arr_V rm h d;
  Ok ((), mkSD d (CacheTable s) (mkCounters rc (openerCnt c) rm (oCntMutex c) rw) (curTid s)).

Definition SD_EndRead (h : Z) : ST SynchDisk () := λ s,
  let c := counters s in
  '(rm, d) ← arr_P (rCntMutex c) h (dev s);
  cnt ← aget (readerCnt c) h;
  rc ← aset (readerCnt c) h (cnt - 1);
  '(rw, d) ← (if cnt - 1 =? 0 then arr_V (RW c) h d else Ok (RW c, d));
  '(rm, d) ← arr_V rm h d;
  Ok ((), mkSD d (CacheTable s) (mkCounters rc (openerCnt c) rm (oCntMutex c) rw) (curTid s)).

Definition SD_StartWrite (h : Z) : ST SynchDisk () := λ s,
  let c := counters s in
  '(rw, d) ← arr_P (RW c) h (dev s);
  Ok ((), mkSD d (CacheTable s)
            (mkCounters (readerCnt c) (openerCnt c) (rCntMutex c) (oCntMutex c) rw) (curTid s)).

Definition SD_EndWrite (h : Z) : ST SynchDisk () := λ s,
  let c := counters s in
  '(rw, d) ← arr_V (RW c) h (dev s);
  Ok ((), mkSD d (CacheTable s)
            (mkCounters (readerCnt c) (openerCnt c) (rCntMutex c) (oCntMutex c) rw) (curTid s)).

(** [SynchDisk::Open] and [SynchDisk::Close] add [delta] = 1 or -1. *)
Definition count_openers (delta h : Z) : ST SynchDisk () := λ s,
  let c := counters s in
  '(om, d) ← arr_P (oCntMutex c) h (dev s);
  cnt ← aget (openerCnt c) h;
  oc ← aset (openerCnt c) h (cnt + delta);
  '(om, d) ← arr_V om h d;
  Ok ((), mkSD d (CacheTable s) (mkCounters (readerCnt c) oc (rCntMutex c) om (RW c)) (curTid s)).
Definition SD_Open (h : Z) : ST SynchDisk () := count_openers 1 h.
Definition SD_Close (h : Z) : ST SynchDisk () := count_openers (-1) h.

Definition SD_GetOpenStart (h : Z) : ST SynchDisk Z := λ s,
  cnt ← aget (openerCnt (counters s)) h; Ok (cnt, s).

#[export] Instance synchdisk_store : SectorStore SynchDisk := {
  ReadSector := SD_ReadSector;
  WriteSector := SD_WriteSector;
  StartRead := SD_StartRead;
  EndRead := SD_EndRead;
  StartWrite := SD_StartWrite;
  EndWrite := SD_EndWrite;
  OpenSector := SD_Open;
  CloseSector := SD_Close;
  GetOpenStart := SD_GetOpenStart
}.

(** [SynchDisk::SynchDisk]: [unix] is the UNIX file of that name, [uninit] what
    the entries [new CacheEntry()] allocates hold. *)
Definition SynchDisk_new (unix : option (list Z)) (uninit : list Z) (st : Statistics)
    (tid : Z) : result SynchDisk :=
  d ← Disk_new unix;
  Ok (mkSD (mkDev d st 0 (mkLock 1 (-1)))
        (replicate (Z.to_nat CacheSize) (mkEntry false false 0 (totalTicks st) uninit))
        (mkCounters (replicate (Z.to_nat NumSectors) 0) (replicate (Z.to_nat NumSectors) 0)
           (replicate (Z.to_nat NumSectors) 1) (replicate (Z.to_nat NumSectors) 1)
           (replicate (Z.to_nat NumSectors) 1)) tid).

#[global] Arguments OneTick : simpl never.
#[global] Arguments Semaphore_P : simpl never.
#[global] Arguments Acquire : simpl never.
#[global] Arguments Release : simpl never.
#[global] Arguments read_and_wait : simpl never.
#[global] Arguments write_and_wait : simpl never.
#[global] Arguments arr_P : simpl never.
#[global] Arguments arr_V : simpl never.

(** ** The device, between and during requests *)

(** [dev_state m d]: no request is outstanding and the lock's semaphore is [m]. *)
Record dev_state (m : Z) (d : Dev) : Prop := {
  ds_disk : disk_ok (disk d);
  ds_active : active (disk d) = false;
  ds_pending : pending (disk d) = None;
  ds_sem : semaphore d = 0;
  ds_mutex : mutex (lock d) = m;
  ds_time : 0 ≤ totalTicks (stats d)
}.

Lemma OneTick_state m d :
  dev_state m d →
  dev_state m (OneTick d) ∧ file (disk (OneTick d)) = file (disk d) ∧
  lock (OneTick d) = lock d.
Proof.
  intros [????? Ht]. unfold OneTick. rewrite ds_pending0. cbn. split; [|done].
  split; try done. cbn. unfold SystemTick. lia.
Qed.

Lemma Acquire_ok tid d :
  dev_state 1 d →
  ∃ d', Acquire tid d = Ok d' ∧ dev_state 0 d' ∧ OwnerId (lock d') = tid ∧
    file (disk d') = file (disk d).
Proof.
  intros H. unfold Acquire. rewrite (ds_mutex _ _ H). cbn. eexists. split; [done|].
  destruct (OneTick_state 0 (mkDev (disk d) (stats d) (semaphore d)
    (mkLock (mutex (lock d) - 1) tid))) as (? & ? & Hl).
  { destruct H. split; try done. cbn. lia. }
  rewrite (ds_mutex _ _ H) in *. rewrite Hl. done.
Qed.
Lemma Release_ok tid d :
  dev_state 0 d → OwnerId (lock d) = tid →
  ∃ d', Release tid d = Ok d' ∧ dev_state 1 d' ∧ file (disk d') = file (disk d).
Proof.
  intros H Ho. unfold Release. rewrite Ho, Z.eqb_refl. cbn. eexists. split; [done|].
  destruct (OneTick_state 1 (mkDev (disk d) (stats d) (semaphore d)
    (mkLock (mutex (lock d) + 1) (-1)))) as (? & ? & Hl); [|done].
  destruct H. split; try done. cbn. lia.
Qed.

(** Waiting for a request that has just been issued. *)
Lemma Semaphore_P_ok d w m :
  disk_ok (disk d) → pending (disk d) = Some w → semaphore d = 0 →
  mutex (lock d) = m → 0 ≤ totalTicks (stats d) < w →
  ∃ d', Semaphore_P d = Ok d' ∧ dev_state m d' ∧ file (disk d') = file (disk d) ∧
    lock d' = lock d.
Proof.
  intros Hd Hp Hs Hm Ht. unfold Semaphore_P. rewrite Hs, Hp. cbn.
  destruct (Z.gtb_spec w (totalTicks (stats d))); [|lia]. eexists. split; [done|].
  destruct Hd.
  match goal with |- context [OneTick ?d1] =>
    destruct (OneTick_state m d1) as (? & ? & ?); [|done] end.
  split; cbn; try done; lia.
Qed.

Lemma read_and_wait_ok n d m :
  dev_state m d → 0 ≤ n < NumSectors →
  ∃ d', read_and_wait n d = Ok (sector_of (file (disk d)) n, d') ∧ dev_state m d' ∧
    file (disk d') = file (disk d) ∧ lock d' = lock d.
Proof.
  intros [Hd Ha Hp Hs Hm Ht] Hn. unfold read_and_wait.
  destruct (ReadRequest_ok (disk d) (stats d) n) as (dk & st & w & -> & ? & ? & ? & ? & ? & ?);
    [done..|]. cbn.
  destruct (Semaphore_P_ok (set_disk d (dk, st)) w m) as (d' & -> & ? & Hf & ?);
    [cbn; try done; lia..|].
  exists d'. cbn in *. split_and!; try done. congruence.
Qed.
Lemma write_and_wait_ok n bytes d m :
  dev_state m d → 0 ≤ n < NumSectors → zlen bytes = SectorSize →
  ∃ d', write_and_wait n bytes d = Ok d' ∧ dev_state m d' ∧
    file (disk d') = write_at (file (disk d)) (sector_off n) bytes ∧ lock d' = lock d.
Proof.
  intros [Hd Ha Hp Hs Hm Ht] Hn Hb. unfold write_and_wait.
  destruct (WriteRequest_ok (disk d) (stats d) n bytes) as (dk & st & w & -> & ? & ? & ? & ? & ? & ?);
    [done..|]. cbn.
  destruct (Semaphore_P_ok (set_disk d (dk, st)) w m) as (d' & -> & ? & Hf & ?);
    [cbn; try done; lia..|].
  exists d'. cbn in *. split_and!; try done. congruence.
Qed.

(** ** The cache invariant *)

Record cache_ok (f : list Z) (ct : list CacheEntry) : Prop := {
  co_len : zlen ct = CacheSize;
  co_entry i e : znth ct i = Some e → valid e = true →
    0 ≤ sector e < NumSectors ∧ zlen (data e) = SectorSize ∧
    (dirty e = false → data e = sector_of f (sector e));
  co_uniq i j e e' : znth ct i = Some e → znth ct j = Some e' →
    valid e = true → valid e' = true → sector e = sector e' → i = j
}.

(** What a client sees in sector [n]: the cached copy if there is one, otherwise
    the disk. *)
Definition no_hit (ct : list CacheEntry) (n : Z) : Prop :=
  ∀ i e, znth ct i = Some e → hits e n = false.
Definition cache_view (f : list Z) (ct : list CacheEntry) (n : Z) (c : list Z) : Prop :=
  (∃ i e, znth ct i = Some e ∧ hits e n = true ∧ c = data e) ∨
  (no_hit ct n ∧ c = sector_of f n).

Lemma hits_true e n : hits e n = true ↔ valid e = true ∧ sector e = n.
Proof. unfold hits. rewrite andb_true_iff, Z.eqb_eq. done. Qed.

Lemma hit_dec ct n :
  (∃ i e, znth ct i = Some e ∧ hits e n = true) ∨ no_hit ct n.
Proof.
  destruct (decide (Exists (λ e, hits e n = true) ct)) as [H|H].
  - left. apply list.Exists_exists in H as (e & He & Hh).
    apply list_elem_of_lookup in He as [i Hi]. exists (Z.of_nat i), e.
    unfold znth. destruct (Z.ltb_spec (Z.of_nat i) 0); [lia|]. by rewrite Nat2Z.id.
  - right. intros i e He. destruct (hits e n) eqn:E; [|done]. destruct H.
    apply list.Exists_exists. exists e. split; [|done]. unfold znth in He.
    case_match; [done|]. apply list_elem_of_lookup. eauto.
Qed.

Lemma cache_view_exists f ct n : ∃ c, cache_view f ct n c.
Proof. unfold cache_view. destruct (hit_dec ct n) as [(i & e & ? & ?)|?]; naive_solver. Qed.

Lemma cache_view_length f ct n c :
  zlen f = DiskSize → cache_ok f ct → 0 ≤ n < NumSectors → cache_view f ct n c →
  zlen c = SectorSize.
Proof.
  intros Hf OK Hn [(i & e & He & Hh & ->)|[_ ->]].
  - apply hits_true in Hh as [Hv _]. by apply (co_entry _ _ OK i e).
  - by apply sector_of_length.
Qed.

(** Tables related entry by entry. *)
Definition trel (P : Z → CacheEntry → CacheEntry → Prop) (ct ct' : list CacheEntry) : Prop :=
  zlen ct' = zlen ct ∧
  ∀ j e, znth ct j = Some e → ∃ e', znth ct' j = Some e' ∧ P j e e'.

(** Equal up to the time stamp. *)
Definition sim (e e' : CacheEntry) : Prop :=
  valid e' = valid e ∧ dirty e' = dirty e ∧ sector e' = sector e ∧ data e' = data e.
(** The entry for [n] holds [bytes] and is dirty; other entries are kept. *)
Definition written (n : Z) (bytes : list Z) (e e' : CacheEntry) : Prop :=
  if hits e n
  then valid e' = true ∧ dirty e' = true ∧ sector e' = n ∧ data e' = bytes
  else e' = e.

Lemma trel_inv P ct ct' j e' :
  trel P ct ct' → znth ct' j = Some e' → ∃ e, znth ct j = Some e ∧ P j e e'.
Proof.
  intros [Hl HT] He'. pose proof (znth_Some_range _ _ _ He') as Hr.
  destruct (znth_range ct j) as [e He]; [lia|]. exists e. split; [done|].
  destruct (HT j e He) as (e2 & He2 & HP). congruence.
Qed.

Lemma trel_refl (P : Z → CacheEntry → CacheEntry → Prop) ct :
  (∀ j e, P j e e) → trel P ct ct.
Proof. intros HP. split; [done|]. eauto. Qed.

(** Rewriting entry [i] extends a relation proved below [i]. *)
Lemma trel_step (P : CacheEntry → CacheEntry → Prop) ct ct1 i e e1 :
  trel (λ j a b, if j <? i then P a b else b = a) ct ct1 →
  znth ct i = Some e → P e e1 →
  trel (λ j a b, if j <? i + 1 then P a b else b = a) ct (zset ct1 i e1).
Proof.
  intros [Hl HT] He HP. split; [by rewrite zlen_zset|]. intros j a Ha.
  pose proof (znth_Some_range _ _ _ He) as Hr.
  destruct (HT j a Ha) as (b & Hb & HPb). rewrite znth_zset.
  case_bool_decide as Ej.
  - destruct Ej as [-> _]. assert (a = e) as -> by congruence.
    exists e1. destruct (Z.ltb_spec i (i + 1)); [done|lia].
  - exists b. split; [done|].
    destruct (Z.ltb_spec j i), (Z.ltb_spec j (i + 1)); try lia; done.
Qed.
Lemma trel_keep (P : CacheEntry → CacheEntry → Prop) ct ct1 i e :
  trel (λ j a b, if j <? i then P a b else b = a) ct ct1 →
  znth ct i = Some e → P e e →
  trel (λ j a b, if j <? i + 1 then P a b else b = a) ct ct1.
Proof.
  intros [Hl HT] He HP. split; [done|]. intros j a Ha.
  destruct (HT j a Ha) as (b & Hb & HPb). exists b. split; [done|].
  destruct (Z.ltb_spec j i), (Z.ltb_spec j (i + 1)); try lia; try done.
  assert (j = i) as -> by lia. congruence.
Qed.
Lemma trel_cur (P : CacheEntry → CacheEntry → Prop) ct ct1 i e :
  trel (λ j a b, if j <? i then P a b else b = a) ct ct1 →
  znth ct i = Some e → znth ct1 i = Some e.
Proof.
  intros [_ HT] He. destruct (HT i e He) as (b & Hb & HP).
  destruct (Z.ltb_spec i i); [lia|]. congruence.
Qed.
Lemma trel_all (P : CacheEntry → CacheEntry → Prop) ct ct1 i :
  zlen ct ≤ i → trel (λ j a b, if j <? i then P a b else b = a) ct ct1 →
  trel (λ _, P) ct ct1.
Proof.
  intros Hi [Hl HT]. split; [done|]. intros j a Ha.
  destruct (HT j a Ha) as (b & Hb & HP). exists b. split; [done|].
  apply znth_Some_range in Ha. destruct (Z.ltb_spec j i); [done|lia].
Qed.

Lemma cache_ok_sim f ct ct' :
  trel (λ _, sim) ct ct' → cache_ok f ct → cache_ok f ct'.
Proof.
  intros HT OK. split.
  - rewrite (proj1 HT). apply OK.
  - intros i e' He' Hv. destruct (trel_inv _ _ _ _ _ HT He') as (e & He & Ev & Ed & Es & Eb).
    rewrite Ed, Es, Eb. apply (co_entry _ _ OK i); congruence.
  - intros i j a b Ha Hb Hva Hvb Hs.
    destruct (trel_inv _ _ _ _ _ HT Ha) as (a0 & Ha0 & Ea & _ & Esa & _).
    destruct (trel_inv _ _ _ _ _ HT Hb) as (b0 & Hb0 & Eb & _ & Esb & _).
    apply (co_uniq _ _ OK i j a0 b0); congruence.
Qed.
Lemma no_hit_sim ct ct' n : trel (λ _, sim) ct ct' → no_hit ct n → no_hit ct' n.
Proof.
  intros HT HN i e' He'. destruct (trel_inv _ _ _ _ _ HT He') as (e & He & Ev & _ & Es & _).
  specialize (HN i e He). unfold hits in *. congruence.
Qed.
Lemma cache_view_sim f ct ct' n c :
  trel (λ _, sim) ct ct' → cache_view f ct n c → cache_view f ct' n c.
Proof.
  intros HT [(i & e & He & Hh & ->)|[HN ->]]; [left|right].
  - destruct (proj2 HT i e He) as (e' & He' & Ev & Ed & Es & Eb).
    exists i, e'. split_and!; [done|unfold hits in *; congruence|done].
  - split; [by eapply no_hit_sim|done].
Qed.

Lemma cache_ok_written f ct ct' n bytes :
  trel (λ _, written n bytes) ct ct' → zlen bytes = SectorSize →
  cache_ok f ct → cache_ok f ct'.
Proof.
  intros HT Hb OK.
  assert (∀ i e', znth ct' i = Some e' → valid e' = true → ∃ e, znth ct i = Some e ∧
    valid e = true ∧ sector e' = sector e ∧ (e' = e ∨ dirty e' = true ∧ data e' = bytes)) as Hinv.
  { intros i e' He' Hv. destruct (trel_inv _ _ _ _ _ HT He') as (e & He & HW).
    exists e. unfold written in HW. destruct (hits e n) eqn:Eh.
    - apply hits_true in Eh as [? ?]. destruct HW as (? & ? & ? & ?).
      split_and!; try done; [congruence|by right].
    - subst. split_and!; try done. by left. }
  split.
  - rewrite (proj1 HT). apply OK.
  - intros i e' He' Hv. destruct (Hinv i e' He' Hv) as (e & He & Hve & -> & Hd).
    destruct (co_entry _ _ OK i e He Hve) as (Hs & Hl & Hc).
    destruct Hd as [->|[Hd Hdat]]; [done|]. split_and!; [lia|lia|congruence|congruence].
  - intros i j a b Ha Hb' Hva Hvb Hs.
    destruct (Hinv i a Ha Hva) as (a0 & Ha0 & ? & Hsa & _).
    destruct (Hinv j b Hb' Hvb) as (b0 & Hb0 & ? & Hsb & _).
    apply (co_uniq _ _ OK i j a0 b0); congruence.
Qed.

Lemma cache_view_written f ct ct' n bytes m c :
  trel (λ _, written n bytes) ct ct' →
  (∃ i e, znth ct i = Some e ∧ hits e n = true) →
  cache_view f ct m c →
  cache_view f ct' m (if bool_decide (m = n) then bytes else c).
Proof.
  intros HT (k & ek & Hk & Hhk) HV. case_bool_decide as E.
  - subst. left. destruct (proj2 HT k ek Hk) as (e' & He' & HW).
    unfold written in HW. rewrite Hhk in HW. destruct HW as (? & ? & ? & <-).
    exists k, e'. split_and!; try done. by apply hits_true.
  - destruct HV as [(i & e & He & Hh & ->)|[HN ->]]; [left|right].
    + destruct (proj2 HT i e He) as (e' & He' & HW). unfold written in HW.
      destruct (hits e n) eqn:Eh.
      * apply hits_true in Eh as [_ ?]. apply hits_true in Hh as [_ ?]. congruence.
      * subst. eauto.
    + split; [|done]. intros i e' He'.
      destruct (trel_inv _ _ _ _ _ HT He') as (e & He & HW). unfold written in HW.
      destruct (hits e n) eqn:Eh; [|subst; by apply (HN i)].
      destruct HW as (_ & _ & Hs & _). unfold hits. rewrite Hs.
      destruct (Z.eqb_spec n m); [congruence|]. by rewrite andb_false_r.
Qed.

(** ** The lookup loops *)

(** What stays fixed while the cache table is scanned. *)
Definition same_rest (s s' : SynchDisk) : Prop :=
  dev_state 1 (dev s') ∧ file (disk (dev s')) = file (disk (dev s)) ∧
  counters s' = counters s ∧ curTid s' = curTid s.

Lemma same_rest_step s s' d ct :
  same_rest s s' → dev_state 1 d → file (disk d) = file (disk (dev s')) →
  same_rest s (mkSD d ct (counters s') (curTid s')).
Proof. intros (? & ? & ? & ?) ??. unfold same_rest; cbn. split_and!; try done. congruence. Qed.

Lemma read_loop_ok n buf s :
  dev_state 1 (dev s) → cache_ok (file (disk (dev s))) (CacheTable s) →
  ∃ buf' hit s', for_each (read_step n) (seqZ 0 CacheSize) (buf, false, s) = Ok (buf', hit, s') ∧
    same_rest s s' ∧ trel (λ _, sim) (CacheTable s) (CacheTable s') ∧
    ((∃ i e, znth (CacheTable s) i = Some e ∧ hits e n = true ∧ hit = true ∧ buf' = data e) ∨
     (no_hit (CacheTable s) n ∧ hit = false ∧ buf' = buf)).
Proof.
  intros HD OK. set (ct := CacheTable s).
  pose proof (co_len _ _ OK) as Hlen. fold ct in Hlen.
  destruct (for_each_seqZ (read_step n)
    (λ i x, ∃ buf' hit s', x = (buf', hit, s') ∧ same_rest s s' ∧
      trel (λ j a b, if j <? i then sim a b else b = a) ct (CacheTable s') ∧
      ((∃ k e, k < i ∧ znth ct k = Some e ∧ hits e n = true ∧ hit = true ∧ buf' = data e) ∨
       ((∀ k e, k < i → znth ct k = Some e → hits e n = false) ∧ hit = false ∧ buf' = buf)))
    0 CacheSize (buf, false, s)) as (x & HF & buf' & hit & s' & -> & HR & HT & HC).
  - done.
  - exists buf, false, s. split_and!; try done.
    + apply trel_refl. intros. case_match; [|done]. done.
    + right. split; [|done]. intros k e Hk He. apply znth_Some_range in He. lia.
  - intros i x Hi (buf' & hit & s' & -> & HR & HT & HC).
    pose proof HR as (HD' & _).
    destruct (znth_range ct i) as [e He]; [lia|].
    destruct (Acquire_ok (curTid s') (dev s') HD') as (d & HA & HD0 & Ho & Hfd).
    destruct (Release_ok (curTid s') d HD0 Ho) as (d' & HRel & HD1 & Hfd').
    pose proof (trel_cur _ _ _ _ _ HT He) as He'. pose proof (proj1 HT) as Hl'.
    cbn. rewrite HA. cbn. rewrite (proj2 (aget_Ok _ _ _) He'). cbn.
    destruct (hits e n) eqn:Eh.
    + rewrite aset_in by lia. cbn. rewrite HRel. cbn. eexists. split; [done|].
      eexists _, _, _. split; [done|].
      split; [apply same_rest_step; [done|done|congruence]|]. split; cbn.
      * by apply trel_step with e.
      * left. exists i, e. split_and!; try done. lia.
    + cbn. rewrite HRel. cbn. eexists. split; [done|].
      eexists _, _, _. split; [done|].
      split; [apply same_rest_step; [done|done|congruence]|]. split; cbn.
      * by apply trel_keep with e.
      * destruct HC as [(k & ek & ? & ? & ? & -> & ->)|(Hno & -> & ->)].
        -- left. exists k, ek. split_and!; try done. lia.
        -- right. split; [|done]. intros k ek Hk Hek.
           destruct (decide (k = i)) as [->|]; [congruence|]. apply (Hno k); [lia|done].
  - exists buf', hit, s'. split; [done|]. split; [done|].
    split; [by apply trel_all with (0 + CacheSize); [lia|]|].
    destruct HC as [(k & ek & ? & ? & ? & -> & ->)|(Hno & -> & ->)]; [left|right].
    + by exists k, ek.
    + split; [|done]. intros k ek Hek. apply (Hno k); [|done].
      apply znth_Some_range in Hek. lia.
Qed.

Lemma write_loop_ok n bytes s :
  dev_state 1 (dev s) → cache_ok (file (disk (dev s))) (CacheTable s) →
  ∃ hit s', for_each (write_step n bytes) (seqZ 0 CacheSize) (false, s) = Ok (hit, s') ∧
    same_rest s s' ∧ trel (λ _, written n bytes) (CacheTable s) (CacheTable s') ∧
    ((∃ i e, znth (CacheTable s) i = Some e ∧ hits e n = true) ∧ hit = true ∨
     no_hit (CacheTable s) n ∧ hit = false).
Proof.
  intros HD OK. set (ct := CacheTable s).
  pose proof (co_len _ _ OK) as Hlen. fold ct in Hlen.
  destruct (for_each_seqZ (write_step n bytes)
    (λ i x, ∃ hit s', x = (hit, s') ∧ same_rest s s' ∧
      trel (λ j a b, if j <? i then written n bytes a b else b = a) ct (CacheTable s') ∧
      ((∃ k e, k < i ∧ znth ct k = Some e ∧ hits e n = true) ∧ hit = true ∨
       (∀ k e, k < i → znth ct k = Some e → hits e n = false) ∧ hit = false))
    0 CacheSize (false, s)) as (x & HF & hit & s' & -> & HR & HT & HC).
  - done.
  - exists false, s. split_and!; try done.
    + split; [done|]. intros j e He. exists e. split; [done|].
      apply znth_Some_range in He. destruct (Z.ltb_spec j 0); [lia|done].
    + right. split; [|done]. intros k e Hk He. apply znth_Some_range in He. lia.
  - intros i x Hi (hit & s' & -> & HR & HT & HC).
    pose proof HR as (HD' & _).
    destruct (znth_range ct i) as [e He]; [lia|].
    destruct (Acquire_ok (curTid s') (dev s') HD') as (d & HA & HD0 & Ho & Hfd).
    destruct (Release_ok (curTid s') d HD0 Ho) as (d' & HRel & HD1 & Hfd').
    pose proof (trel_cur _ _ _ _ _ HT He) as He'. pose proof (proj1 HT) as Hl'.
    cbn. rewrite HA. cbn. rewrite (proj2 (aget_Ok _ _ _) He'). cbn.
    destruct (hits e n) eqn:Eh.
    + rewrite aset_in by lia. cbn. rewrite HRel. cbn. eexists. split; [done|].
      eexists _, _. split; [done|].
      split; [apply same_rest_step; [done|done|congruence]|]. split; cbn.
      * apply trel_step with e; [done|done|]. unfold written. rewrite Eh.
        apply hits_true in Eh as [? ?]. done.
      * left. split; [|done]. exists i, e. split_and!; try done. lia.
    + cbn. rewrite HRel. cbn. eexists. split; [done|].
      eexists _, _. split; [done|].
      split; [apply same_rest_step; [done|done|congruence]|]. split; cbn.
      * apply trel_keep with e; [done|done|]. unfold written. by rewrite Eh.
      * destruct HC as [[(k & ek & ? & ? & ?) ->]|[Hno ->]].
        -- left. split; [|done]. exists k, ek. split_and!; try done. lia.
        -- right. split; [|done]. intros k ek Hk Hek.
           destruct (decide (k = i)) as [->|]; [congruence|]. apply (Hno k); [lia|done].
  - exists hit, s'. split; [done|]. split; [done|].
    split; [by apply trel_all with (0 + CacheSize); [lia|]|].
    destruct HC as [[(k & ek & ? & ? & ?) ->]|[Hno ->]]; [left|right].
    + split; [|done]. by exists k, ek.
    + split; [|done]. intros k ek Hek. apply (Hno k); [|done].
      apply znth_Some_range in Hek. lia.
Qed.

(** ** Replacement *)

Lemma choose_evict_from ct i k :
  0 ≤ i ≤ zlen ct → 0 ≤ k < zlen ct → k < Z.max 1 i →
  (∀ j e, j < i → znth ct j = Some e → valid e = true) →
  (∀ j e v, j < i → znth ct j = Some e → znth ct k = Some v → lru v ≤ lru e) →
  ∃ r v, choose_evict ct (seqZ i (zlen ct - i)) k = Ok r ∧ znth ct r = Some v ∧
    (∀ j e, j < r → znth ct j = Some e → valid v = false → valid e = true) ∧
    (∀ j e, znth ct j = Some e → valid v = true → valid e = true ∧ lru v ≤ lru e).
Proof.
  remember (Z.to_nat (zlen ct - i)) as m eqn:Hm. revert i k Hm.
  induction m as [|m IH]; intros i k Hm Hi Hk Hki Hval Hmin.
  - assert (i = zlen ct) as -> by lia. rewrite Z.sub_diag. cbn.
    destruct (znth_range ct k Hk) as [v Hv]. exists k, v. split_and!; try done.
    + intros j e Hj He _. apply (Hval j); [lia|done].
    + intros j e He _. pose proof (znth_Some_range _ _ _ He). split.
      * apply (Hval j); [lia|done].
      * apply (Hmin j); [lia|done|done].
  - destruct (znth_range ct i) as [e He]; [lia|]. destruct (znth_range ct k Hk) as [v Hv].
    rewrite seqZ_cons by lia. cbn. rewrite (proj2 (aget_Ok _ _ _) He). cbn.
    destruct (valid e) eqn:Ev; cbn.
    + rewrite (proj2 (aget_Ok _ _ _) Hv). cbn.
      replace (Z.pred (zlen ct - i)) with (zlen ct - Z.succ i) by lia.
      apply IH; [lia|lia|case_match; lia|case_match; lia| |].
      * intros j e' Hj He'. destruct (decide (j = i)) as [->|]; [congruence|].
        apply (Hval j); [lia|done].
      * intros j e' v' Hj He' Hv'. destruct (Z.ltb_spec (lru e) (lru v)) as [Hlt|Hge].
        -- assert (v' = e) as -> by congruence.
           destruct (decide (j = i)) as [->|]; [assert (e' = e) as -> by congruence; lia|].
           specialize (Hmin j e' v ltac:(lia) He' Hv). lia.
        -- assert (v' = v) as -> by congruence.
           destruct (decide (j = i)) as [->|]; [assert (e' = e) as -> by congruence; lia|].
           apply (Hmin j); [lia|done|done].
    + exists i, e. split_and!; try done.
      * intros j e' Hj He' _. apply (Hval j); done.
      * congruence.
Qed.

(** What the disk looks like once the victim [e] can be dropped: its sector holds
    [e]'s data, the other sectors are as before. *)
Definition flushed (f f' : list Z) (e : CacheEntry) : Prop :=
  (∀ m, 0 ≤ m < NumSectors → (valid e = true → m ≠ sector e) →
     sector_of f' m = sector_of f m) ∧
  (valid e = true → sector_of f' (sector e) = data e).

Lemma write_back_ok tid d ct k e :
  dev_state 1 d → cache_ok (file (disk d)) ct → znth ct k = Some e →
  ∃ d', write_back tid e d = Ok d' ∧ dev_state 1 d' ∧
    flushed (file (disk d)) (file (disk d')) e.
Proof.
  intros HD OK He. unfold write_back.
  destruct (valid e) eqn:Ev; cbn; [destruct (dirty e) eqn:Ed|].
  - destruct (co_entry _ _ OK k e He Ev) as (Hs & Hl & _).
    destruct (Acquire_ok tid d HD) as (da & -> & HDa & Ho & Hfa). cbn.
    destruct (write_and_wait_ok (sector e) (data e) da 0 HDa Hs Hl)
      as (db & -> & HDb & Hfb & Hlb). cbn.
    destruct (Release_ok tid db HDb) as (dc & -> & HDc & Hfc); [congruence|]. cbn.
    pose proof (dok_len _ (ds_disk _ _ HD)).
    exists dc. rewrite Hfc, Hfb, Hfa. split_and!; [done|done|split].
    + intros m Hm Hne. rewrite sector_of_write by done. rewrite bool_decide_false; [done|]. by apply Hne.
    + intros _. rewrite sector_of_write by done. by rewrite bool_decide_true.
  - exists d. split_and!; [done|done|split; [done|]]. intros _. symmetry.
    by apply (co_entry _ _ OK k e).
  - exists d. split_and!; [done|done|split; congruence].
Qed.

(** Replacing the victim by the sector read from the flushed disk. *)
Section replace.
Context (f f' : list Z) (ct : list CacheEntry) (k n t : Z) (e : CacheEntry).
Context (OK : cache_ok f ct) (Hf' : zlen f' = DiskSize) (He : znth ct k = Some e).
Context (HF : flushed f f' e) (HN : no_hit ct n) (Hn : 0 ≤ n < NumSectors).
Let ct' := zset ct k (mkEntry true false n t (sector_of f' n)).

Lemma replace_ne : valid e = true → n ≠ sector e.
Proof.
  intros Hv ->. specialize (HN k e He). unfold hits in HN.
  by rewrite Hv, Z.eqb_refl in HN.
Qed.

Lemma replace_hit : ∃ i e', znth ct' i = Some e' ∧ hits e' n = true.
Proof.
  eexists k, _. unfold ct'. rewrite znth_zset_eq by (by eapply znth_Some_range).
  split; [done|]. by apply hits_true.
Qed.

Lemma replace_ok : cache_ok f' ct'.
Proof.
  unfold ct'. split.
  - rewrite zlen_zset. apply OK.
  - intros i ei Hi Hv. rewrite znth_zset in Hi. case_bool_decide as Eik.
    + injection Hi as <-. cbn. split_and!; [lia|lia| |done]. by apply sector_of_length.
    + destruct (co_entry _ _ OK i ei Hi Hv) as (Hs & Hl & Hc). split_and!; [lia|lia|done|].
      intros Hd. rewrite (Hc Hd). symmetry. apply HF; [done|].
      intros Hve E. apply Eik. split; [|by eapply znth_Some_range].
      by apply (co_uniq _ _ OK i k ei e).
  - assert (∀ j b, znth ct j = Some b → valid b = true → sector b ≠ n) as Hno.
    { intros j b Hb Hv Hs. specialize (HN j b Hb). unfold hits in HN.
      by rewrite Hv, Hs, Z.eqb_refl in HN. }
    intros i j a b Ha Hb Hva Hvb Hs. rewrite znth_zset in Ha, Hb.
    repeat case_bool_decide; try lia.
    + injection Hb as <-. by destruct (Hno i a Ha Hva).
    + injection Ha as <-. by destruct (Hno j b Hb Hvb).
    + by apply (co_uniq _ _ OK i j a b).
Qed.

Lemma replace_view m c :
  0 ≤ m < NumSectors → cache_view f ct m c → cache_view f' ct' m c.
Proof.
  pose proof (znth_Some_range _ _ _ He) as Hk. unfold ct'.
  intros Hm [(i & ei & Hi & Hh & ->)|[HNm ->]].
  - pose proof (proj1 (hits_true _ _) Hh) as [Hv Hs].
    destruct (decide (i = k)) as [->|Hik];
      [|left; exists i, ei; by rewrite znth_zset_ne by done].
    assert (ei = e) as -> by congruence. right. split; [|rewrite <-Hs; symmetry; by apply HF].
    intros j ej Hj. rewrite znth_zset in Hj. case_bool_decide as Ej.
    + injection Hj as <-. unfold hits; cbn. apply Z.eqb_neq. rewrite <-Hs. by apply replace_ne.
    + destruct (hits ej m) eqn:Eh; [|done]. apply hits_true in Eh as [? ?].
      destruct Ej. split; [|done]. apply (co_uniq _ _ OK j k ej e); congruence.
  - destruct (decide (m = n)) as [->|Hmn].
    + left. eexists k, _. rewrite znth_zset_eq by done. split; [done|].
      split; [by apply hits_true|]. cbn. symmetry. apply HF; [done|apply replace_ne].
    + right. split.
      * intros j ej Hj. rewrite znth_zset in Hj. case_bool_decide; [|by apply (HNm j)].
        injection Hj as <-. unfold hits; cbn. apply Z.eqb_neq. done.
      * symmetry. apply HF; [done|]. intros Hv ->. specialize (HNm k e He).
        unfold hits in HNm. by rewrite Hv, Z.eqb_refl in HNm.
Qed.
End replace.

Lemma choose_evict_index ct :
  zlen ct = CacheSize →
  ∃ k e, choose_evict ct (seqZ 0 CacheSize) 0 = Ok k ∧ znth ct k = Some e.
Proof.
  intros Hl. unfold CacheSize in *.
  destruct (choose_evict_from ct 0 0) as (k & e & HE & He & _ & _); [lia..| | |].
  { intros j e Hj He. apply znth_Some_range in He. lia. }
  { intros j e v Hj He. apply znth_Some_range in He. lia. }
  exists k, e. split; [|done]. by rewrite Hl in HE.
Qed.

Lemma CacheMiss_ok n s :
  dev_state 1 (dev s) → cache_ok (file (disk (dev s))) (CacheTable s) →
  no_hit (CacheTable s) n → 0 ≤ n < NumSectors →
  ∃ s', CacheMiss n s = Ok s' ∧ dev_state 1 (dev s') ∧ counters s' = counters s ∧
    cache_ok (file (disk (dev s'))) (CacheTable s') ∧
    (∃ i e, znth (CacheTable s') i = Some e ∧ hits e n = true) ∧
    (∀ m c, 0 ≤ m < NumSectors → cache_view (file (disk (dev s))) (CacheTable s) m c →
       cache_view (file (disk (dev s'))) (CacheTable s') m c).
Proof.
  intros HD OK HN Hn.
  destruct (choose_evict_index _ (co_len _ _ OK)) as (k & e & HE & He).
  unfold CacheMiss. rewrite HE. cbn. rewrite (proj2 (aget_Ok _ _ _) He). cbn.
  destruct (write_back_ok (curTid s) (dev s) _ k e HD OK He) as (d1 & -> & HD1 & HF). cbn.
  destruct (Acquire_ok (curTid s) d1 HD1) as (da & -> & HDa & Ho & Hfa). cbn.
  destruct (read_and_wait_ok n da 0 HDa Hn) as (db & -> & HDb & Hfb & Hlb). cbn.
  destruct (Release_ok (curTid s) db HDb) as (dc & -> & HDc & Hfc); [congruence|]. cbn.
  rewrite aset_in by (by eapply znth_Some_range). cbn. eexists. split; [done|]. cbn.
  assert (file (disk dc) = file (disk d1)) as Ef by congruence. rewrite Hfa, Ef.
  assert (zlen (file (disk d1)) = DiskSize) by apply (dok_len _ (ds_disk _ _ HD1)).
  split_and!; [done|done| | |].
  - by eapply replace_ok.
  - by eapply replace_hit.
  - intros m c. by eapply replace_view.
Qed.

(** ** The counters *)

(** The lock of sector [h] in terms of its reader count and its semaphore [RW]. *)
Definition rw_ok (st : rwstate) (cnt rw : Z) : Prop :=
  match st with
  | Readers k => 0 ≤ k ∧ cnt = k ∧ rw = (if k =? 0 then 1 else 0)
  | Writer => cnt = 0 ∧ rw = 0
  end.

Record counters_ok (c : Counters) (o : Z → Z) (r : Z → rwstate) : Prop := {
  cn_len : zlen (openerCnt c) = NumSectors ∧ zlen (oCntMutex c) = NumSectors ∧
    zlen (rCntMutex c) = NumSectors ∧ zlen (readerCnt c) = NumSectors ∧
    zlen (RW c) = NumSectors;
  cn_open h : 0 ≤ h < NumSectors →
    znth (openerCnt c) h = Some (o h) ∧ znth (oCntMutex c) h = Some 1;
  cn_rw h : 0 ≤ h < NumSectors → znth (rCntMutex c) h = Some 1 ∧
    ∃ cnt rw, znth (readerCnt c) h = Some cnt ∧ znth (RW c) h = Some rw ∧ rw_ok (r h) cnt rw
}.

Lemma arr_P_ok l h d v :
  dev_state 1 d → znth l h = Some v → v ≠ 0 →
  ∃ d', arr_P l h d = Ok (zset l h (v - 1), d') ∧ dev_state 1 d' ∧
    file (disk d') = file (disk d).
Proof.
  intros HD Hv Hne. unfold arr_P. rewrite (proj2 (aget_Ok _ _ _) Hv). cbn.
  destruct (Z.eqb_spec v 0); [done|]. rewrite aset_in by (by eapply znth_Some_range). cbn.
  destruct (OneTick_state 1 d HD) as (? & ? & _). eauto.
Qed.
Lemma arr_V_ok l h d v :
  dev_state 1 d → znth l h = Some v →
  ∃ d', arr_V l h d = Ok (zset l h (v + 1), d') ∧ dev_state 1 d' ∧
    file (disk d') = file (disk d).
Proof.
  intros HD Hv. unfold arr_V. rewrite (proj2 (aget_Ok _ _ _) Hv). cbn.
  rewrite aset_in by (by eapply znth_Some_range). cbn.
  destruct (OneTick_state 1 d HD) as (? & ? & _). eauto.
Qed.

(** Lookups in arrays updated at one or two places. *)
Ltac arr_simpl :=
  repeat (first
    [ rewrite znth_zset_eq by (rewrite ?zlen_zset; lia)
    | rewrite znth_zset_ne by done
    | rewrite zlen_zset ]).

(** Setting the lock of sector [h], the other sectors being untouched. *)
Lemma counters_ok_rw c o r h st cnt rw rm :
  counters_ok c o r → 0 ≤ h < NumSectors → rw_ok st cnt rw →
  zlen rm = NumSectors → (∀ j, 0 ≤ j < NumSectors → znth rm j = Some 1) →
  counters_ok (mkCounters (zset (readerCnt c) h cnt) (openerCnt c) rm (oCntMutex c)
                 (zset (RW c) h rw)) o (upd r h st).
Proof.
  intros [(L1 & L2 & L3 & L4 & L5) HO HR] Hh Hst Hl Hrm. split; cbn.
  - rewrite !zlen_zset. done.
  - done.
  - intros j Hj. split; [by apply Hrm|]. destruct (decide (j = h)) as [->|Hne].
    + rewrite upd_eq. exists cnt, rw. by arr_simpl.
    + rewrite upd_ne by done. rewrite !znth_zset_ne by done. by apply HR.
Qed.

Definition sd_represents (s : SynchDisk) (c : Z → list Z) (o : Z → Z) (r : Z → rwstate) : Prop :=
  dev_state 1 (dev s) ∧ cache_ok (file (disk (dev s))) (CacheTable s) ∧
  (∀ n, 0 ≤ n < NumSectors → cache_view (file (disk (dev s))) (CacheTable s) n (c n)) ∧
  counters_ok (counters s) o r.

Lemma SD_ReadSector_ok s c o r n buf :
  sd_represents s c o r → 0 ≤ n < NumSectors →
  ∃ s', SD_ReadSector n buf s = Ok (c n, s') ∧ sd_represents s' c o r.
Proof.
  intros (HD & OK & HV & HC) Hn. unfold SD_ReadSector.
  destruct (read_loop_ok n buf s HD OK) as (b1 & h1 & s1 & -> & (HD1 & Hf1 & Hc1 & Ht1) & HT1 & Hres).
  cbn. assert (cache_ok (file (disk (dev s1))) (CacheTable s1)) as OK1
    by (rewrite Hf1; by apply cache_ok_sim with (CacheTable s)).
  assert (∀ m, 0 ≤ m < NumSectors → cache_view (file (disk (dev s1))) (CacheTable s1) m (c m)) as HV1
    by (intros; rewrite Hf1; apply cache_view_sim with (CacheTable s); auto).
  destruct Hres as [(i & e & He & Hh & -> & ->)|(HN & -> & ->)].
  - exists s1. split; [|unfold sd_represents; by rewrite Hc1]. do 2 f_equal.
    destruct (HV n Hn) as [(j & e' & He' & Hh' & ->)|[HN _]].
    + apply hits_true in Hh as [? ?], Hh' as [? ?].
      assert (i = j) as -> by (apply (co_uniq _ _ OK i j e e'); congruence). congruence.
    + specialize (HN i e He). congruence.
  - assert (no_hit (CacheTable s1) n) as HN1 by (by apply no_hit_sim with (CacheTable s)).
    destruct (CacheMiss_ok n s1 HD1 OK1 HN1 Hn) as (s2 & -> & HD2 & Hc2 & OK2 & (i2 & e2 & He2 & Hh2) & HV2).
    cbn. destruct (read_loop_ok n buf s2 HD2 OK2)
      as (b3 & h3 & s3 & -> & (HD3 & Hf3 & Hc3 & Ht3) & HT3 & Hres3). cbn.
    destruct Hres3 as [(i & e & He & Hh & -> & ->)|(HN3 & _)];
      [|specialize (HN3 i2 e2 He2); congruence].
    exists s3. split.
    + do 2 f_equal. destruct (HV2 n (c n) Hn (HV1 n Hn)) as [(j & e' & He' & Hh' & ->)|[HNn _]].
      * apply hits_true in Hh as [? ?], Hh' as [? ?].
        assert (i = j) as -> by (apply (co_uniq _ _ OK2 i j e e'); congruence). congruence.
      * specialize (HNn i e He). congruence.
    + split_and!; [done| | |by rewrite Hc3, Hc2, Hc1].
      * rewrite Hf3. by apply cache_ok_sim with (CacheTable s2).
      * intros m Hm. rewrite Hf3. apply cache_view_sim with (CacheTable s2); auto.
Qed.

Lemma cache_view_upd f ct ct' n bytes (c : Z → list Z) :
  trel (λ _, written n bytes) ct ct' → (∃ i e, znth ct i = Some e ∧ hits e n = true) →
  (∀ m, 0 ≤ m < NumSectors → cache_view f ct m (c m)) →
  ∀ m, 0 ≤ m < NumSectors → cache_view f ct' m (upd c n bytes m).
Proof. intros HT HE HV m Hm. unfold upd. apply cache_view_written with ct; auto. Qed.

(** Nothing is written to a table that does not hold the sector. *)
Lemma written_no_hit n bytes ct ct' :
  trel (λ _, written n bytes) ct ct' → no_hit ct n → ct' = ct.
Proof.
  intros HT HN. apply znth_ext; [apply HT|]. intros i Hi. destruct (znth_range _ _ Hi) as [e' He'].
  destruct (trel_inv _ _ _ _ _ HT He') as (e & He & HW). unfold written in HW.
  rewrite (HN i e He) in HW. congruence.
Qed.

Lemma SD_WriteSector_ok s c o r n bytes :
  sd_represents s c o r → 0 ≤ n < NumSectors → zlen bytes = SectorSize →
  ∃ s', SD_WriteSector n bytes s = Ok ((), s') ∧ sd_represents s' (upd c n bytes) o r.
Proof.
  intros (HD & OK & HV & HC) Hn Hb. unfold SD_WriteSector.
  destruct (write_loop_ok n bytes s HD OK) as (h1 & s1 & -> & (HD1 & Hf1 & Hc1 & Ht1) & HT1 & Hres).
  cbn. assert (cache_ok (file (disk (dev s1))) (CacheTable s1)) as OK1
    by (rewrite Hf1; by apply (cache_ok_written _ _ _ _ _ HT1)).
  destruct Hres as [[HE ->]|[HN ->]].
  - exists s1. split; [done|]. split_and!; [done|done| |by rewrite Hc1].
    rewrite Hf1. by apply cache_view_upd with (CacheTable s).
  - assert (CacheTable s1 = CacheTable s) as Ect by (by eapply written_no_hit).
    rewrite <-Ect in HN. rewrite <-Hf1, <-Ect in HV.
    destruct (CacheMiss_ok n s1 HD1 OK1 HN Hn) as (s2 & -> & HD2 & Hc2 & OK2 & HE2 & HV2).
    cbn. destruct (write_loop_ok n bytes s2 HD2 OK2)
      as (h3 & s3 & -> & (HD3 & Hf3 & Hc3 & Ht3) & HT3 & _). cbn.
    exists s3. split; [done|]. split_and!; [done| | |by rewrite Hc3, Hc2, Hc1].
    + rewrite Hf3. by apply (cache_ok_written _ _ _ _ _ HT3).
    + rewrite Hf3. apply cache_view_upd with (CacheTable s2); auto.
Qed.

(** A sector number outside the disk misses in the cache and fails in the
    [ASSERT] of [Disk::ReadRequest]. *)
Lemma CacheMiss_bad n s :
  dev_state 1 (dev s) → cache_ok (file (disk (dev s))) (CacheTable s) →
  ¬ (0 ≤ n < NumSectors) → CacheMiss n s = Stop AssertFailed.
Proof.
  intros HD OK Hn. destruct (choose_evict_index _ (co_len _ _ OK)) as (k & e & HE & He).
  unfold CacheMiss. rewrite HE. cbn. rewrite (proj2 (aget_Ok _ _ _) He). cbn.
  destruct (write_back_ok (curTid s) (dev s) _ k e HD OK He) as (d1 & -> & HD1 & HF). cbn.
  destruct (Acquire_ok (curTid s) d1 HD1) as (da & -> & HDa & Ho & Hfa). cbn.
  unfold read_and_wait. by rewrite ReadRequest_bad by (done || apply HDa).
Qed.
Lemma no_hit_bad f ct n : cache_ok f ct → ¬ (0 ≤ n < NumSectors) → no_hit ct n.
Proof.
  intros OK Hn i e He. destruct (hits e n) eqn:Eh; [|done].
  apply hits_true in Eh as [Hv <-]. by destruct (co_entry _ _ OK i e He Hv).
Qed.

Lemma SD_ReadSector_bad s c o r n buf :
  sd_represents s c o r → ¬ (0 ≤ n < NumSectors) → SD_ReadSector n buf s = Stop AssertFailed.
Proof.
  intros (HD & OK & _) Hn. unfold SD_ReadSector.
  destruct (read_loop_ok n buf s HD OK) as (b1 & h1 & s1 & -> & (HD1 & Hf1 & _) & HT1 & Hres).
  cbn. pose proof (no_hit_bad _ _ n OK Hn) as HN.
  destruct Hres as [(i & e & He & Hh & _)|(_ & -> & ->)]; [specialize (HN i e He); congruence|].
  rewrite CacheMiss_bad; [done|done| |done].
  rewrite Hf1. by apply cache_ok_sim with (CacheTable s).
Qed.
Lemma SD_WriteSector_bad s c o r n bytes :
  sd_represents s c o r → ¬ (0 ≤ n < NumSectors) → SD_WriteSector n bytes s = Stop AssertFailed.
Proof.
  intros (HD & OK & _) Hn. unfold SD_WriteSector.
  destruct (write_loop_ok n bytes s HD OK) as (h1 & s1 & -> & (HD1 & Hf1 & _) & HT1 & Hres).
  cbn. pose proof (no_hit_bad _ _ n OK Hn) as HN.
  destruct Hres as [[(i & e & He & Hh) _]|[_ ->]]; [specialize (HN i e He); congruence|].
  assert (CacheTable s1 = CacheTable s) as Ect by (by eapply written_no_hit).
  rewrite CacheMiss_bad; [done|done| |done]. by rewrite Hf1, Ect.
Qed.

(** The calls that only touch the counters keep the cache and the disk. *)
Lemma sd_represents_counters s c o r d cn o' r' :
  sd_represents s c o r → dev_state 1 d → file (disk d) = file (disk (dev s)) →
  counters_ok cn o' r' → sd_represents (mkSD d (CacheTable s) cn (curTid s)) c o' r'.
Proof. intros (_ & ? & ? & _) ? Hf ?. unfold sd_represents; cbn. by rewrite Hf. Qed.

Ltac use_P := match goal with
  | HD : dev_state 1 ?d, Hv : znth ?l ?h = Some ?v |- context [arr_P ?l ?h ?d] =>
      let d' := fresh "d" in let HD' := fresh "HD" in let Hf := fresh "Hf" in
      destruct (arr_P_ok l h d v HD Hv) as (d' & -> & HD' & Hf); [lia|]; cbn
  end.
Ltac use_V := match goal with
  | HD : dev_state 1 ?d, Hv : znth ?l ?h = Some ?v |- context [arr_V ?l ?h ?d] =>
      let d' := fresh "d" in let HD' := fresh "HD" in let Hf := fresh "Hf" in
      destruct (arr_V_ok l h d v HD Hv) as (d' & -> & HD' & Hf); cbn
  end.

(** A mutex taken and given back. *)
Lemma mutex_back l h : znth l h = Some 1 → znth (zset l h (1 - 1)) h = Some 0 ∧
  zset (zset l h (1 - 1)) h (0 + 1) = l.
Proof.
  intros Hv. split; [apply znth_zset_eq; by eapply znth_Some_range|].
  rewrite zset_twice. by apply zset_same.
Qed.

Section counters.
Context (s : SynchDisk) (c : Z → list Z) (o : Z → Z) (r : Z → rwstate) (h : Z).
Context (HR : sd_represents s c o r) (Hh : 0 ≤ h < NumSectors).

Lemma SD_StartRead_ok k :
  r h = Readers k →
  ∃ s', SD_StartRead h s = Ok ((), s') ∧ sd_represents s' c o (upd r h (Readers (k + 1))).
Proof using HR Hh.
  intros Hr. pose proof HR as (HD & _ & _ & HC). pose proof (cn_len _ _ _ HC) as Hlen.
  destruct (cn_rw _ _ _ HC h Hh) as (Hm & cnt & rw & Hcnt & Hrw & Hok).
  rewrite Hr in Hok. destruct Hok as (Hk & -> & ->).
  destruct (mutex_back _ _ Hm) as [Hm0 Hm1].
  unfold SD_StartRead. use_P. rewrite (proj2 (aget_Ok _ _ _) Hcnt). cbn.
  assert (∃ d', (if k =? 0 then arr_P (RW (counters s)) h d else Ok (RW (counters s), d))
            = Ok (zset (RW (counters s)) h 0, d') ∧ dev_state 1 d' ∧
            file (disk d') = file (disk d)) as (d2 & -> & HD2 & Hf2).
  { destruct (Z.eqb_spec k 0) as [->|Hne]; [use_P; eauto|].
    exists d. by rewrite zset_same. }
  cbn. rewrite aset_in by lia. cbn. use_V. eexists. split; [done|].
  eapply sd_represents_counters; [done|done|congruence|]. rewrite Hm1.
  apply counters_ok_rw; [done|done| |tauto|intros; by apply HC].
  cbn. destruct (Z.eqb_spec (k + 1) 0); lia.
Qed.

Lemma SD_EndRead_ok k :
  r h = Readers k → 0 < k →
  ∃ s', SD_EndRead h s = Ok ((), s') ∧ sd_represents s' c o (upd r h (Readers (k - 1))).
Proof using HR Hh.
  intros Hr Hpos. pose proof HR as (HD & _ & _ & HC). pose proof (cn_len _ _ _ HC) as Hlen.
  destruct (cn_rw _ _ _ HC h Hh) as (Hm & cnt & rw & Hcnt & Hrw & Hok).
  rewrite Hr in Hok. destruct Hok as (Hk & -> & ->).
  destruct (Z.eqb_spec k 0) as [|_]; [lia|].
  destruct (mutex_back _ _ Hm) as [Hm0 Hm1].
  unfold SD_EndRead. use_P. rewrite (proj2 (aget_Ok _ _ _) Hcnt). cbn.
  rewrite aset_in by lia. cbn.
  assert (∃ d', (if k - 1 =? 0 then arr_V (RW (counters s)) h d else Ok (RW (counters s), d))
            = Ok (zset (RW (counters s)) h (if k - 1 =? 0 then 1 else 0), d') ∧
            dev_state 1 d' ∧ file (disk d') = file (disk d)) as (d2 & -> & HD2 & Hf2).
  { destruct (Z.eqb_spec (k - 1) 0) as [Hz|Hne]; [use_V; eauto|].
    exists d. by rewrite zset_same. }
  cbn. use_V. eexists. split; [done|].
  eapply sd_represents_counters; [done|done|congruence|]. rewrite Hm1.
  apply counters_ok_rw; [done|done| |tauto|intros; by apply HC].
  cbn. lia.
Qed.

Lemma counters_RW st rw :
  counters_ok (counters s) o r → rw_ok st 0 rw → znth (readerCnt (counters s)) h = Some 0 →
  counters_ok (mkCounters (readerCnt (counters s)) (openerCnt (counters s))
                 (rCntMutex (counters s)) (oCntMutex (counters s))
                 (zset (RW (counters s)) h rw)) o (upd r h st).
Proof using Hh.
  intros HC Hst Hcnt. rewrite <-(zset_same _ _ _ Hcnt) at 1.
  apply counters_ok_rw; [done|done|done|apply HC|intros; by apply HC].
Qed.

Lemma SD_StartWrite_ok :
  r h = Readers 0 →
  ∃ s', SD_StartWrite h s = Ok ((), s') ∧ sd_represents s' c o (upd r h Writer).
Proof using HR Hh.
  intros Hr. pose proof HR as (HD & _ & _ & HC).
  destruct (cn_rw _ _ _ HC h Hh) as (Hm & cnt & rw & Hcnt & Hrw & Hok).
  rewrite Hr in Hok. destruct Hok as (_ & -> & ->). cbn in Hrw.
  unfold SD_StartWrite. use_P. eexists. split; [done|].
  eapply sd_represents_counters; [done|done|congruence|]. by apply counters_RW.
Qed.
Lemma SD_EndWrite_ok :
  r h = Writer →
  ∃ s', SD_EndWrite h s = Ok ((), s') ∧ sd_represents s' c o (upd r h (Readers 0)).
Proof using HR Hh.
  intros Hr. pose proof HR as (HD & _ & _ & HC).
  destruct (cn_rw _ _ _ HC h Hh) as (Hm & cnt & rw & Hcnt & Hrw & Hok).
  rewrite Hr in Hok. destruct Hok as (-> & ->).
  unfold SD_EndWrite. use_V. eexists. split; [done|].
  eapply sd_represents_counters; [done|done|congruence|]. by apply counters_RW.
Qed.

Lemma count_openers_ok delta :
  ∃ s', count_openers delta h s = Ok ((), s') ∧
    sd_represents s' c (upd o h (o h + delta)) r.
Proof using HR Hh.
  pose proof HR as (HD & _ & _ & HC). pose proof (cn_len _ _ _ HC) as Hlen.
  destruct (cn_open _ _ _ HC h Hh) as (Ho & Hm).
  destruct (mutex_back _ _ Hm) as [Hm0 Hm1].
  unfold count_openers. use_P. rewrite (proj2 (aget_Ok _ _ _) Ho). cbn.
  rewrite aset_in by lia. cbn. use_V. eexists. split; [done|].
  eapply sd_represents_counters; [done|done|congruence|]. rewrite Hm1.
  split; cbn; [by rewrite zlen_zset| |apply HC].
  intros j Hj. split; [|by apply HC]. destruct (decide (j = h)) as [->|Hne].
  - rewrite upd_eq. by arr_simpl.
  - rewrite upd_ne, znth_zset_ne by done. by apply HC.
Qed.
End counters.

Lemma SD_Open_bad s c o r h :
  sd_represents s c o r → ¬ (0 ≤ h < NumSectors) → SD_Open h s = Stop Undefined.
Proof.
  intros (_ & _ & _ & HC) Hh. pose proof (cn_len _ _ _ HC) as (_ & Hl & _).
  unfold SD_Open, count_openers, arr_P, aget.
  rewrite (proj2 (znth_None (oCntMutex (counters s)) h)); [done|lia].
Qed.

#[export] Instance synchdisk_laws : SectorStoreLaws SynchDisk.
Proof.
  refine {| represents := sd_represents |}.
  - intros s c o r n (HD & OK & HV & _) Hn. eapply cache_view_length; [|done|done|by apply HV].
    apply (dok_len _ (ds_disk _ _ HD)).
  - intros. by apply SD_ReadSector_ok.
  - intros. by eapply SD_ReadSector_bad.
  - intros. by apply SD_WriteSector_ok.
  - intros. by eapply SD_WriteSector_bad.
  - intros s c o r h k (_ & _ & _ & HC) Hh Hr.
    destruct (cn_rw _ _ _ HC h Hh) as (_ & cnt & rw & _ & _ & Hok). rewrite Hr in Hok. apply Hok.
  - intros. by apply SD_StartRead_ok.
  - intros. by apply SD_EndRead_ok.
  - intros. by apply SD_StartWrite_ok.
  - intros. by apply SD_EndWrite_ok.
  - intros. by apply count_openers_ok.
  - intros. by eapply SD_Open_bad.
  - intros. by apply (count_openers_ok s c o r h).
  - intros s c o r h HR Hh. exists s. split; [|done]. cbn. unfold SD_GetOpenStart.
    destruct HR as (_ & _ & _ & HC).
    by rewrite (proj2 (aget_Ok _ _ _) (proj1 (cn_open _ _ _ HC h Hh))).
  - intros s c o r c' o' r' (HD & OK & HV & [Hl HO HW]) HE. split_and!; [done|done| |].
    + intros n Hn. destruct (HE n Hn) as (-> & _). by apply HV.
    + split; [done| |]; intros n Hn; destruct (HE n Hn) as (_ & Ho & Hr);
        rewrite ?Ho, ?Hr; auto.
Defined.

(** ** A fresh disk *)

Definition zero_sector : list Z := replicate (Z.to_nat SectorSize) 0.

Lemma fresh_sector n : 0 ≤ n < NumSectors → sector_of fresh_image n = zero_sector.
Proof.
  intros Hn. pose proof (sector_off_range n Hn) as Hoff.
  pose proof (sector_of_length _ n fresh_image_length Hn) as Hl.
  symmetry. apply replicate_as_Forall. split; [unfold zlen in Hl; lia|].
  unfold sector_of, read_at, fresh_image.
  change (le_split 4 0) with (replicate 4 0). rewrite <-replicate_add. apply Forall_take.
  rewrite drop_app_ge by (rewrite length_le_split; unfold sector_off, MagicSize, SectorSize in *; lia).
  rewrite length_le_split. apply Forall_drop, Forall_replicate. done.
Qed.

Lemma SynchDisk_new_represents uninit st tid :
  0 ≤ totalTicks st →
  ∃ s, SynchDisk_new None uninit st tid = Ok s ∧
    represents s (λ _, zero_sector) (λ _, 0) (λ _, Readers 0).
Proof.
  intros Ht. unfold SynchDisk_new. cbn [Disk_new mbind result_bind].
  eexists. split; [reflexivity|].
  assert (∀ i e, znth (replicate (Z.to_nat CacheSize)
     (mkEntry false false 0 (totalTicks st) uninit)) i = Some e → valid e = false) as Hinv.
  { intros i e He. unfold znth in He. case_match; [done|].
    apply lookup_replicate in He as [-> _]. done. }
  split_and!; cbn [dev disk CacheTable counters].
  - split; [apply Disk_new_ok|done..].
  - split; [by apply zlen_replicate|..].
    + intros i e He Hv. rewrite (Hinv i e He) in Hv. done.
    + intros i j e e' He _ Hv. rewrite (Hinv i e He) in Hv. done.
  - intros n Hn. right. split; [|symmetry; by apply fresh_sector]. intros i e He.
    unfold hits. by rewrite (Hinv i e He).
  - split; cbn [readerCnt openerCnt rCntMutex oCntMutex RW].
    + by rewrite !zlen_replicate.
    + intros h Hh. by rewrite !znth_replicate.
    + intros h Hh. split; [by rewrite znth_replicate|]. exists 0, 1.
      rewrite !znth_replicate by done. done.
Qed.

(** ** The cache is transparent *)

(** Client requests, and what an array of sectors answers to them. *)
Inductive request := Get (n : Z) | Put (n : Z) (bytes : list Z).

Fixpoint run (reqs : list request) (s : SynchDisk) : result (list (list Z) * SynchDisk) :=
  match reqs with
  | [] => Ok ([], s)
  | Get n :: reqs' =>
      '(bytes, s) ← ReadSector n zero_sector s;
      '(answers, s) ← run reqs' s; Ok (bytes :: answers, s)
  | Put n bytes :: reqs' => '(_, s) ← WriteSector n bytes s; run reqs' s
  end.

Fixpoint flat_run (reqs : list request) (c : Z → list Z) : result (list (list Z)) :=
  match reqs with
  | [] => Ok []
  | Get n :: reqs' =>
      ASSERT (valid_sector n);; answers ← flat_run reqs' c; Ok (c n :: answers)
  | Put n bytes :: reqs' => ASSERT (valid_sector n);; flat_run reqs' (upd c n bytes)
  end.

Definition whole_sectors (reqs : list request) : Prop :=
  Forall (λ q, match q with Get _ => True | Put _ bytes => zlen bytes = SectorSize end) reqs.

Definition answers_of {A S} (x : result (A * S)) : result A :=
  '(a, _) ← x; Ok a.

Lemma run_flat reqs s c o r :
  represents s c o r → whole_sectors reqs → answers_of (run reqs s) = flat_run reqs c.
Proof.
  intros HR HW. revert s c HR. induction HW as [|q reqs Hq HW IH]; intros s c HR; [done|].
  destruct q as [n|n bytes]; cbn [run flat_run];
    (destruct (valid_sector n) eqn:Ev;
      [apply valid_sector_true in Ev|apply valid_sector_false in Ev]).
  - destruct (ReadSector_ok s c o r n zero_sector HR Ev) as (s' & -> & HR'); [done|].
    cbn [mbind result_bind ASSERT]. rewrite <-(IH s' c HR').
    by destruct (run reqs s') as [[? ?]|].
  - by rewrite (ReadSector_bad s c o r n zero_sector HR Ev).
  - destruct (WriteSector_ok s c o r n bytes HR Ev Hq) as (s' & -> & HR').
    cbn [mbind result_bind ASSERT]. by apply IH.
  - by rewrite (WriteSector_bad s c o r n bytes HR Ev).
Qed.

(** C2: the cached disk is an array of sectors.  On a disk that has just been
    created, any sequence of reads and writes of whole sectors, whatever it hits,
    misses and evicts in the cache, gives the answers of an array of 1024 zeroed
    sectors, and stops with a failed assertion exactly at the first request for a
    sector that does not exist. *)
Theorem SynchDisk_refines_array uninit st tid reqs :
  0 ≤ totalTicks st → whole_sectors reqs →
  answers_of ('(s) ← SynchDisk_new None uninit st tid; run reqs s) =
    flat_run reqs (λ _, zero_sector).
Proof.
  intros Ht HW. destruct (SynchDisk_new_represents uninit st tid Ht) as (s & -> & HR).
  by apply (run_flat _ _ _ _ _ HR).
Qed.

Lemma SynchDisk_refines_array_witness :
  flat_run [Put 3 (replicate 128 7); Get 3; Get 1024] (λ _, zero_sector) = Stop AssertFailed ∧
  answers_of ('(s) ← SynchDisk_new None [] (mkStats 0 0 0 0 0) 0;
              run [Put 3 (replicate 128 7); Get 3; Get 4] s) =
    flat_run [Put 3 (replicate 128 7); Get 3; Get 4] (λ _, zero_sector).
Proof.
  split; [vm_compute; reflexivity|].
  apply (SynchDisk_refines_array [] (mkStats 0 0 0 0 0) 0).
  - cbn. lia.
  - repeat constructor.
Defined.

(** The victim of a cache miss is an entry of the table: the first free one if
    there is a free one, otherwise one that was used least recently. *)
Theorem CacheMiss_victim_lru ct :
  zlen ct = CacheSize →
  ∃ k v, choose_evict ct (seqZ 0 CacheSize) 0 = Ok k ∧ znth ct k = Some v ∧
    (valid v = false → ∀ j e, j < k → znth ct j = Some e → valid e = true) ∧
    (valid v = true → ∀ j e, znth ct j = Some e → valid e = true ∧ lru v ≤ lru e).
Proof.
  intros Hl. destruct (choose_evict_from ct 0 0) as (k & e & HE & He & H1 & H2);
    [unfold CacheSize in *; lia..| | |].
  { intros j e Hj He. apply znth_Some_range in He. lia. }
  { intros j e v Hj He. apply znth_Some_range in He. lia. }
  exists k, e. rewrite Hl, Z.sub_0_r in HE. split_and!; try done; eauto.
Qed.

Lemma CacheMiss_victim_lru_witness :
  let ct := map (λ t, mkEntry true false t (100 - t) []) (seqZ 0 8) in
  ∃ k v, choose_evict ct (seqZ 0 CacheSize) 0 = Ok k ∧ znth ct k = Some v ∧
    (valid v = false → ∀ j e, j < k → znth ct j = Some e → valid e = true) ∧
    (valid v = true → ∀ j e, znth ct j = Some e → valid e = true ∧ lru v ≤ lru e).
Proof. intros ct. apply (CacheMiss_victim_lru ct). reflexivity. Defined.

(** The lock of a file header admits any number of readers or one writer.
    [StartRead] returns exactly when no writer holds the lock and [StartWrite]
    exactly when nobody does; in the other cases the caller blocks. *)
Theorem StartRead_StartWrite_exclusion s c o r h :
  represents s c o r → 0 ≤ h < NumSectors →
  match r h with
  | Writer => SD_StartRead h s = Stop Blocked ∧ SD_StartWrite h s = Stop Blocked
  | Readers k =>
      (∃ s', SD_StartRead h s = Ok ((), s') ∧
         represents s' c o (upd r h (Readers (k + 1)))) ∧
      (if k =? 0
       then ∃ s', SD_StartWrite h s = Ok ((), s') ∧ represents s' c o (upd r h Writer)
       else SD_StartWrite h s = Stop Blocked)
  end.
Proof.
  intros HR Hh. pose proof HR as (HD & _ & _ & HC).
  destruct (cn_rw _ _ _ HC h Hh) as (Hm & cnt & rw & Hcnt & Hrw & Hok).
  destruct (r h) as [k|] eqn:Er; cbn in Hok.
  - split; [by apply SD_StartRead_ok|]. destruct (Z.eqb_spec k 0) as [->|Hne].
    + by apply SD_StartWrite_ok.
    + destruct Hok as (_ & _ & ->). unfold SD_StartWrite, arr_P.
      by rewrite (proj2 (aget_Ok _ _ _) Hrw).
  - destruct Hok as [-> ->]. split.
    + unfold SD_StartRead. use_P. rewrite (proj2 (aget_Ok _ _ _) Hcnt). cbn.
      unfold arr_P. by rewrite (proj2 (aget_Ok _ _ _) Hrw).
    + unfold SD_StartWrite, arr_P. by rewrite (proj2 (aget_Ok _ _ _) Hrw).
Qed.

Lemma StartRead_StartWrite_exclusion_witness :
  ∃ s, represents s (λ _, zero_sector) (λ _, 0) (λ _, Readers 0) ∧
    ∃ s', SD_StartWrite 5 s = Ok ((), s') ∧
      represents s' (λ _, zero_sector) (λ _, 0) (upd (λ _, Readers 0) 5 Writer) ∧
      SD_StartRead 5 s' = Stop Blocked.
Proof.
  destruct (SynchDisk_new_represents [] (mkStats 0 0 0 0 0) 0) as (s & _ & HR); [cbn; lia|].
  exists s. split; [exact HR|].
  destruct (StartRead_StartWrite_exclusion s _ _ _ 5 HR) as [_ (s' & HE & HR')];
    [unfold NumSectors, SectorsPerTrack, NumTracks; lia|].
  exists s'. split; [exact HE|]. split; [exact HR'|].
  apply (StartRead_StartWrite_exclusion s' _ _ _ 5 HR').
  unfold NumSectors, SectorsPerTrack, NumTracks; lia.
Defined.

(** A write that hits in the cache returns without any transfer to the disk,
    whose content is unchanged; the comment of [SynchDisk::WriteSector] says that
    it returns only after the data has been written. *)
Theorem WriteSector_hit_leaves_disk s c o r n bytes i e :
  represents s c o r → znth (CacheTable s) i = Some e → hits e n = true →
  ∃ s', SD_WriteSector n bytes s = Ok ((), s') ∧
    file (disk (dev s')) = file (disk (dev s)) ∧
    ∃ e', znth (CacheTable s') i = Some e' ∧ sector e' = n ∧ dirty e' = true ∧ data e' = bytes.
Proof.
  intros (HD & OK & _) He Hh. unfold SD_WriteSector.
  destruct (write_loop_ok n bytes s HD OK) as (h1 & s1 & -> & (_ & Hf1 & _) & HT1 & Hres).
  cbn. destruct Hres as [[_ ->]|[HN _]]; [|specialize (HN i e He); congruence].
  exists s1. split_and!; [done|done|].
  destruct (proj2 HT1 i e He) as (e' & He' & HW). unfold written in HW. rewrite Hh in HW.
  exists e'. split_and!; [done|apply HW..].
Qed.

Lemma WriteSector_hit_leaves_disk_witness :
  ∃ s i e, represents s (λ _, zero_sector) (λ _, 0) (λ _, Readers 0) ∧
    znth (CacheTable s) i = Some e ∧ hits e 3 = true ∧
    ∃ s', SD_WriteSector 3 (replicate 128 7) s = Ok ((), s') ∧
      file (disk (dev s')) = file (disk (dev s)).
Proof.
  destruct (SynchDisk_new_represents [] (mkStats 0 0 0 0 0) 0) as (s & _ & HR); [cbn; lia|].
  destruct HR as (HD & OK & HV & HC).
  destruct (hit_dec (CacheTable s) 3) as [(i & e & He & Hh)|HN].
  - exists s, i, e. split; [exact (conj HD (conj OK (conj HV HC)))|]. split; [exact He|].
    split; [exact Hh|].
    destruct (WriteSector_hit_leaves_disk s _ _ _ 3 (replicate 128 7) i e
      (conj HD (conj OK (conj HV HC))) He Hh) as (s' & HE & Hf & _).
    exists s'. exact (conj HE Hf).
  - destruct (CacheMiss_ok 3 s HD OK HN) as (s2 & _ & HD2 & Hc2 & OK2 & (i & e & He & Hh) & HV2);
      [unfold NumSectors, SectorsPerTrack, NumTracks; lia|].
    assert (sd_represents s2 (λ _, zero_sector) (λ _, 0) (λ _, Readers 0)) as HR2.
    { split; [exact HD2|]. split; [exact OK2|]. split; [|rewrite Hc2; exact HC].
      intros m Hm. apply HV2; [exact Hm|]. apply HV. exact Hm. }
    exists s2, i, e. split; [exact HR2|]. split; [exact He|]. split; [exact Hh|].
    destruct (WriteSector_hit_leaves_disk s2 _ _ _ 3 (replicate 128 7) i e HR2 He Hh)
      as (s' & HE & Hf & _).
    exists s'. exact (conj HE Hf).
Defined.
