(* ===== verification/FileHdr.v ===== *)
(** * File headers: filesys/filehdr.cc

    A header lists the sectors of a file: six direct ones and five index sectors
    of 32 entries each.  [layout] says what a header and the index sectors on the
    disk describe; [Allocate], [extendLength], [Deallocate] and [ByteToSector] are
    proved against it, for any disk that keeps the promises of [SectorStoreLaws]. *)

From S2P Require Import Prelude BitMap Disk SectorStore.

(** ** Constants and data *)

(** [sizeof(int)] is 4, so the macros of filehdr.h evaluate as follows. *)
Definition FCBEntrySize : Z := 2 * 4 + 3 * 25.
Definition NumSecondIndex : Z := 5.
Definition SecondDirect : Z := SectorSize / 4.
Definition NumDirect : Z := (SectorSize - FCBEntrySize - NumSecondIndex * 4) / 4.
Definition NumIndirect : Z := NumSecondIndex * SectorSize / 4.
Definition MaxFileSize : Z := NumDirect * SectorSize + NumIndirect * SectorSize.

(** Class [FileHeader]; [pad] is the byte the compiler inserts before [numBytes]. *)
Record FileHeader := mkHdr {
  create_time : list Z;
  visit_time : list Z;
  modify_time : list Z;
  pad : list Z;
  numBytes : Z;
  numSectors : Z;
  dataSectors : list Z
}.

Definition set_size (h : FileHeader) (bytes sectors : Z) (ds : list Z) : FileHeader :=
  mkHdr (create_time h) (visit_time h) (modify_time h) (pad h) bytes sectors ds.

(** The object in memory, which [FetchFrom] and [WriteBack] copy from and to a
    sector. *)
Definition encode (h : FileHeader) : list Z :=
  create_time h ++ visit_time h ++ modify_time h ++ pad h ++
  le_split 4 (numBytes h) ++ le_split 4 (numSectors h) ++ enc_ints (dataSectors h).
Definition decode (b : list Z) : FileHeader :=
  mkHdr (read_at b 0 25) (read_at b 25 25) (read_at b 50 25) (read_at b 75 1)
    (int_at b 76) (int_at b 80) (dec_ints (NumDirect + NumSecondIndex) (read_at b 84 44)).

(** [strncpy(dst, src, 25)] followed by [dst[24] = '\0']; [now] is what
    [asctime(gmtime(&timep))] returns. *)
Definition set_time (now : list Z) : list Z := take 24 (now ++ replicate 25 0) ++ [0].
Definition set_create_time (now : list Z) (h : FileHeader) : FileHeader :=
  mkHdr (set_time now) (visit_time h) (modify_time h) (pad h) (numBytes h)
    (numSectors h) (dataSectors h).
Definition set_visit_time (now : list Z) (h : FileHeader) : FileHeader :=
  mkHdr (create_time h) (set_time now) (modify_time h) (pad h) (numBytes h)
    (numSectors h) (dataSectors h).
Definition set_modify_time (now : list Z) (h : FileHeader) : FileHeader :=
  mkHdr (create_time h) (visit_time h) (set_time now) (pad h) (numBytes h)
    (numSectors h) (dataSectors h).

Definition FileLength (h : FileHeader) : Z := numBytes h.

(** An uninitialised buffer of one sector. *)
Definition blank : list Z := replicate (Z.to_nat SectorSize) 0.

Section operations.
Context {S : Type} `{SectorStore S}.

Definition FetchFrom (n : Z) (h : FileHeader) : ST S FileHeader :=
  b ← ReadSector n (encode h); mret (decode b).
Definition WriteBack (n : Z) (h : FileHeader) : ST S () := WriteSector n (encode h).

(** [NumDirect] and [SecondDirect] are of type [size_t]: comparisons and quotients
    with them are unsigned. *)
Definition ByteToSector (h : FileHeader) (offset : Z) : ST S Z :=
  let sectorOffset := Z.quot offset SectorSize in
  if u32 sectorOffset <? NumDirect then
    lift (aget (dataSectors h) (Z.quot offset SectorSize))
  else
    let sectorsLeft := sectorOffset - NumDirect in
    let secondIndex := u32 sectorsLeft / SecondDirect in
    ix ← lift (aget (dataSectors h) (NumDirect + secondIndex));
    b ← ReadSector ix blank;
    lift (aget (dec_ints SecondDirect b) (sectorOffset - NumDirect - secondIndex * SecondDirect)).

(** ** Allocation *)

(** The next sector of the file: the next one of the run at [beg] if a run was
    found, else the first free one. *)
Definition take_sector (conse : bool) (a : Z * BitMap) : result (Z * (Z * BitMap)) :=
  let '(beg, bm) := a in
  if conse then Ok (beg, (beg + 1, bm))
  else '(x, bm) ← Find bm; Ok (x, (beg, bm)).

(** [for (i = from; i < from + n; i++) arr[i] = next sector]. *)
Definition fill (conse : bool) (from n : Z) (arr : list Z) (a : Z * BitMap) :
    result (list Z * (Z * BitMap)) :=
  for_each (λ i x, let '(arr, a) := x in
    '(y, a) ← take_sector conse a; arr ← aset arr i y; Ok (arr, a)) (seqZ from n) (arr, a).

(** The loop over the index sectors.  [heap i] are the 32 words of memory from the
    start of the [i]-th array [new int[num1]]: [WriteSector] copies all of them, also
    those past the end of the array. *)
Fixpoint alloc_second (heap : Z → list Z) (conse : bool) (fuel : nat) (i rest : Z)
    (ds : list Z) (a : Z * BitMap) : ST S (list Z * (Z * BitMap)) :=
  if rest >? 0 then
    match fuel with
    | O => lift (Stop Undefined)
    | Datatypes.S fuel' =>
        '(x, a) ← lift (take_sector conse a);
        ds ← lift (aset ds (NumDirect + i) x);
        let num1 := if rest <? SecondDirect then rest else SecondDirect in
        '(sectors, a) ← lift (fill conse 0 num1 (heap i) a);
        WriteSector x (enc_ints sectors);;
        alloc_second heap conse fuel' (i + 1) (rest - num1) ds a
    end
  else mret (ds, a).

(** The part of [Allocate] after the two checks. *)
Definition place (heap : Z → list Z) (conse : bool) (h : FileHeader) (a : Z * BitMap)
    (fileSize n : Z) : ST S (bool * FileHeader * BitMap) :=
  if (u32 n <=? NumDirect : bool) then
    '(ds, a) ← lift (fill conse 0 n (dataSectors h) a);
    mret (true, set_size h fileSize n ds, a.2)
  else
    '(ds, a) ← lift (fill conse 0 NumDirect (dataSectors h) a);
    '(ds, a) ← alloc_second heap conse (Z.to_nat NumSecondIndex) 0 (n - NumDirect) ds a;
    mret (true, set_size h fileSize n ds, a.2).

(** [FileHeader::Allocate]; [uninit] is the value of the variable [NSecIndex], which
    is not initialised when no index sector is needed. *)
Definition Allocate (uninit : Z) (heap : Z → list Z) (h : FileHeader) (freeMap : BitMap)
    (fileSize : Z) : ST S (bool * FileHeader * BitMap) :=
  let n := divRoundUp fileSize SectorSize in
  let h1 := set_size h fileSize n (dataSectors h) in
  let NSecIndex := if u32 n >? NumDirect
                   then s32 (divRoundUp (u32 (n - NumDirect)) SecondDirect) else uninit in
  '(beg, freeMap) ← lift (FindN freeMap (s32 (n + NSecIndex)));
  clear ← lift (NumClear freeMap);
  if (clear <? n : bool) then mret (false, h1, freeMap)
  else if (u32 fileSize >? MaxFileSize : bool) then mret (false, h1, freeMap)
  else place heap (beg >? 0) h (beg, freeMap) fileSize n.

(** ** Deallocation *)

Definition free_sector (x : Z) (bm : BitMap) : result BitMap :=
  t ← Test bm x; ASSERT t;; Clear bm x.

Fixpoint dealloc_second (h : FileHeader) (fuel : nat) (i rest : Z) (bm : BitMap) :
    ST S BitMap :=
  if rest >? 0 then
    match fuel with
    | O => lift (Stop Undefined)
    | Datatypes.S fuel' =>
        let num1 := if rest <? SecondDirect then rest else SecondDirect in
        ix ← lift (aget (dataSectors h) (NumDirect + i));
        b ← ReadSector ix blank;
        bm ← lift (for_each (λ j bm, x ← aget (dec_ints SecondDirect b) j; free_sector x bm)
                     (seqZ 0 num1) bm);
        bm ← lift (free_sector ix bm);
        dealloc_second h fuel' (i + 1) (rest - num1) bm
    end
  else mret bm.

Definition dealloc_direct (h : FileHeader) (n : Z) (bm : BitMap) : result BitMap :=
  for_each (λ i bm, x ← aget (dataSectors h) i; free_sector x bm) (seqZ 0 n) bm.

Definition Deallocate (h : FileHeader) (freeMap : BitMap) : ST S BitMap :=
  if u32 (numSectors h) <=? NumDirect then lift (dealloc_direct h (numSectors h) freeMap)
  else
    bm ← lift (dealloc_direct h NumDirect freeMap);
    dealloc_second h (Z.to_nat (numSectors h)) 0 (numSectors h - NumDirect) bm.

(** ** Extension *)

(** The inner loops of [extendLength]: entries [l] of [arr] receive free sectors
    while [rest] > 0. *)
Fixpoint ext_fill (l : list Z) (arr : list Z) (n rest : Z) (bm : BitMap) :
    result (list Z * Z * Z * BitMap) :=
  match l with
  | [] => Ok (arr, n, rest, bm)
  | j :: l' =>
      if rest >? 0 then
        '(x, bm) ← Find bm; arr ← aset arr j x; ext_fill l' arr (n + 1) (rest - 1) bm
      else Ok (arr, n, rest, bm)
  end.

(** One iteration of the loop over the index sectors: the first statement opens
    index sector [i - 1], the second one fills it up. *)
Definition ext_new (heap : Z → list Z) (i : Z) (ds : list Z) (n rest : Z) (bm : BitMap) :
    ST S (list Z * Z * Z * BitMap) :=
  if u32 n =? NumDirect + (i - 1) * SecondDirect then
    '(x, bm) ← lift (Find bm);
    ds ← lift (aset ds (NumDirect + i - 1) x);
    '(sectors, n, rest, bm) ← lift (ext_fill (seqZ 0 SecondDirect) (heap i) n rest bm);
    WriteSector x (enc_ints sectors);;
    mret (ds, n, rest, bm)
  else mret (ds, n, rest, bm).
Definition ext_more (i : Z) (ds : list Z) (n rest : Z) (bm : BitMap) :
    ST S (list Z * Z * Z * BitMap) :=
  if (u32 n >? NumDirect + (i - 1) * SecondDirect) && (u32 n <? NumDirect + i * SecondDirect)
     && (rest >? 0) then
    x ← lift (aget ds (NumDirect + i - 1));
    b ← ReadSector x blank;
    let index := u32 (n - NumDirect) mod SecondDirect in
    '(sectors, n, rest, bm) ←
      lift (ext_fill (seqZ index (SecondDirect - index)) (dec_ints SecondDirect b) n rest bm);
    WriteSector x (enc_ints sectors);;
    mret (ds, n, rest, bm)
  else mret (ds, n, rest, bm).

Definition ext_iter (heap : Z → list Z) (i : Z) (ds : list Z) (n rest : Z) (bm : BitMap) :
    ST S (list Z * Z * Z * BitMap) :=
  '(ds, n, rest, bm) ← ext_new heap i ds n rest bm;
  if (rest <=? 0 : bool) then mret (ds, n, rest, bm) else ext_more i ds n rest bm.

(** The loop; the [break]s at the end of the body are the test of the next round. *)
Fixpoint ext_second (heap : Z → list Z) (l : list Z) (ds : list Z) (n rest : Z)
    (bm : BitMap) : ST S (list Z * Z * Z * BitMap) :=
  match l with
  | [] => mret (ds, n, rest, bm)
  | i :: l' =>
      if rest <=? 0 then mret (ds, n, rest, bm) else
      '(ds, n, rest, bm) ← ext_iter heap i ds n rest bm;
      ext_second heap l' ds n rest bm
  end.

(** [FileHeader::extendLength]; [heap i] is the memory of the array of 32 words
    allocated in iteration [i]. *)
Definition extendLength (heap : Z → list Z) (h : FileHeader) (newNumBytes sectorNum : Z)
    (freeMap : BitMap) : ST S (bool * FileHeader * BitMap) :=
  '(ds, n, rest, bm) ←
    lift (if (u32 (numSectors h) <? NumDirect) && (sectorNum >? 0)
          then ext_fill (seqZ (numSectors h) (NumDirect - numSectors h)) (dataSectors h)
                 (numSectors h) sectorNum freeMap
          else Ok (dataSectors h, numSectors h, sectorNum, freeMap));
  '(ds, n, rest, bm) ← ext_second heap (seqZ 1 NumSecondIndex) ds n rest bm;
  if (rest <=? 0 : bool) then mret (true, set_size h newNumBytes n ds, bm)
  else mret (false, set_size h (numBytes h) n ds, bm).
End operations.

#[global] Arguments fill : simpl never.
#[global] Arguments take_sector : simpl never.
#[global] Arguments free_sector : simpl never.

(** ** What a header describes *)

Ltac consts :=
  change NumDirect with 6 in *; change SecondDirect with 32 in *;
  change NumSecondIndex with 5 in *; change SectorSize with 128 in *;
  change NumSectors with 1024 in *; change MaxFileSize with 21248 in *.

(** Index sector [i] of the table [ds], and the sector of data block [j], found in
    [ds] or in an index sector of the disk [c]. *)
Definition index_sector (ds : list Z) (i : Z) : Z := default (-1) (znth ds (NumDirect + i)).
Definition block (ds : list Z) (c : Z → list Z) (j : Z) : Z :=
  if j <? NumDirect then default (-1) (znth ds j)
  else int_at (c (index_sector ds ((j - NumDirect) / SecondDirect)))
         (4 * ((j - NumDirect) mod SecondDirect)).

(** The sectors of a file with [n] data blocks and [k] index sectors. *)
Definition footprint (ds : list Z) (c : Z → list Z) (n k : Z) : list Z :=
  (block ds c <$> seqZ 0 n) ++ (index_sector ds <$> seqZ 0 k).
Definition fpset (ds : list Z) (c : Z → list Z) (n k : Z) : gset Z :=
  list_to_set (footprint ds c n k).

(** How many index sectors [n] data blocks need. *)
Definition nidx (n : Z) : Z := if n <=? NumDirect then 0 else (n - NumDirect + 31) / 32.

(** [n] blocks and [k] index sectors are described by distinct, existing sectors;
    all index sectors but the last one are full. *)
Record layout (ds : list Z) (c : Z → list Z) (n k : Z) : Prop := {
  ly_len : zlen ds = NumDirect + NumSecondIndex;
  ly_n : 0 ≤ n;
  ly_k : 0 ≤ k ≤ NumSecondIndex;
  ly_fit : n ≤ NumDirect + SecondDirect * k ∧
    (0 < k → NumDirect + SecondDirect * (k - 1) ≤ n);
  ly_nodup : NoDup (footprint ds c n k);
  ly_valid : Forall (λ x, 0 ≤ x < NumSectors) (footprint ds c n k)
}.

Definition hdr_ok (h : FileHeader) (c : Z → list Z) : Prop :=
  layout (dataSectors h) c (numSectors h) (nidx (numSectors h)).

(** The blocks and index sectors below [n] and [k] are the same. *)
Definition agree (ds ds' : list Z) (c c' : Z → list Z) (n k : Z) : Prop :=
  (∀ j, 0 ≤ j < n → block ds' c' j = block ds c j) ∧
  (∀ i, 0 ≤ i < k → index_sector ds' i = index_sector ds i).

Lemma agree_refl ds c n k : agree ds ds c c n k.
Proof. by split. Qed.
Lemma agree_trans ds1 ds2 ds3 c1 c2 c3 n k n' k' :
  agree ds1 ds2 c1 c2 n k → agree ds2 ds3 c2 c3 n' k' → n ≤ n' → k ≤ k' →
  agree ds1 ds3 c1 c3 n k.
Proof.
  intros [A1 B1] [A2 B2] Hn Hk. split; intros.
  - rewrite A2 by lia. by apply A1.
  - rewrite B2 by lia. by apply B1.
Qed.

Lemma footprint_agree ds ds' c c' n k :
  agree ds ds' c c' n k → footprint ds' c' n k = footprint ds c n k.
Proof.
  intros [Hb Hi]. unfold footprint.
  f_equal; apply list_fmap_ext; intros ? x Hx%list_elem_of_lookup_2%elem_of_seqZ.
  - apply Hb. lia.
  - apply Hi. lia.
Qed.
Lemma layout_agree ds ds' c c' n k :
  layout ds c n k → zlen ds' = zlen ds → agree ds ds' c c' n k → layout ds' c' n k.
Proof.
  intros [] Hl HA. split; try done; [congruence|..]; by rewrite (footprint_agree _ _ _ _ _ _ HA).
Qed.

Lemma footprint_block ds c n k :
  0 ≤ n → footprint ds c (n + 1) k ≡ₚ block ds c n :: footprint ds c n k.
Proof.
  intros Hn. unfold footprint. rewrite seqZ_app, fmap_app by lia. cbn [seqZ].
  replace (seqZ (0 + n) 1) with [n] by (rewrite seqZ_cons by lia; by rewrite Z.add_0_l).
  rewrite <-app_assoc. by rewrite Permutation_middle.
Qed.
Lemma footprint_index ds c n k :
  0 ≤ k → footprint ds c n (k + 1) ≡ₚ index_sector ds k :: footprint ds c n k.
Proof.
  intros Hn. unfold footprint. rewrite (seqZ_app 0 k), fmap_app by lia.
  replace (seqZ (0 + k) 1) with [k] by (rewrite seqZ_cons by lia; by rewrite Z.add_0_l).
  rewrite app_assoc, (Permutation_app_comm _ (_ <$> [k])). done.
Qed.

Lemma elem_of_footprint ds c n k x :
  x ∈ footprint ds c n k ↔
  (∃ j, 0 ≤ j < n ∧ x = block ds c j) ∨ (∃ i, 0 ≤ i < k ∧ x = index_sector ds i).
Proof.
  unfold footprint. rewrite elem_of_app, !list_elem_of_fmap.
  setoid_rewrite elem_of_seqZ. setoid_rewrite Z.add_0_l. naive_solver.
Qed.

(** Adding one sector [x] to a layout. *)
Definition grows (ds ds' : list Z) (c c' : Z → list Z) (n n' k k' x : Z) : Prop :=
  layout ds' c' n' k' ∧ footprint ds' c' n' k' ≡ₚ x :: footprint ds c n k ∧
  agree ds ds' c c' n k.

Lemma grows_intro ds ds' c c' n n' k k' x :
  layout ds c n k → zlen ds' = zlen ds → agree ds ds' c c' n k →
  (n' = n + 1 ∧ k' = k ∧ block ds' c' n = x ∨ n' = n ∧ k' = k + 1 ∧ index_sector ds' k = x) →
  0 ≤ k' ≤ NumSecondIndex → n' ≤ NumDirect + SecondDirect * k' →
  (0 < k' → NumDirect + SecondDirect * (k' - 1) ≤ n') →
  x ∉ footprint ds c n k → 0 ≤ x < NumSectors →
  grows ds ds' c c' n n' k k' x.
Proof.
  intros L Hl HA Hx Hk Hf1 Hf2 Hnew Hv. destruct L.
  assert (footprint ds' c' n' k' ≡ₚ x :: footprint ds c n k) as HP.
  { rewrite <-(footprint_agree _ _ _ _ _ _ HA).
    destruct Hx as [(-> & -> & <-)|(-> & -> & <-)].
    - by apply footprint_block.
    - apply footprint_index. lia. }
  split; [|done]. split; try done.
  - congruence.
  - lia.
  - rewrite HP. by constructor.
  - rewrite HP. by constructor.
Qed.

Lemma index_sector_inj ds c n k i i' :
  layout ds c n k → 0 ≤ i < k → 0 ≤ i' < k → index_sector ds i = index_sector ds i' → i = i'.
Proof.
  intros L Hi Hi' HE. pose proof (ly_nodup _ _ _ _ L) as HN.
  unfold footprint in HN. apply list.NoDup_app in HN as (_ & _ & HN).
  assert (∀ a, 0 ≤ a < k → (index_sector ds <$> seqZ 0 k) !! Z.to_nat a = Some (index_sector ds a)) as Hlk.
  { intros a Ha. rewrite list_lookup_fmap, lookup_seqZ_lt by lia. cbn. do 2 f_equal. lia. }
  pose proof (Hlk i Hi) as H1. pose proof (Hlk i' Hi') as H2. rewrite HE in H1.
  pose proof (NoDup_lookup _ _ _ _ HN H1 H2). lia.
Qed.

Lemma block_index ds c n k j :
  layout ds c n k → NumDirect ≤ j < n → 0 ≤ (j - NumDirect) / SecondDirect < k.
Proof. intros [_ ? Hk [Hf _] _ _] Hj. consts. Z.to_euclidean_division_equations. lia. Qed.

(** The three ways the code adds a sector: a direct block, an index sector, an
    entry of the last index sector. *)
Lemma grow_direct ds c n x :
  layout ds c n 0 → n < NumDirect → x ∉ footprint ds c n 0 → 0 ≤ x < NumSectors →
  grows ds (zset ds n x) c c n (n + 1) 0 0 x.
Proof.
  intros L Hn Hnew Hv. pose proof (ly_len _ _ _ _ L). pose proof (ly_n _ _ _ _ L). consts.
  apply grows_intro; try done; try (consts; lia).
  - apply zlen_zset.
  - split; [|lia]. intros j Hj. unfold block. consts. destruct (Z.ltb_spec j 6); [|lia].
    by rewrite znth_zset_ne by lia.
  - left. split_and!; [done..|]. unfold block. consts. destruct (Z.ltb_spec n 6); [|lia].
    by rewrite znth_zset_eq by lia.
Qed.

Lemma grow_index ds c n k x :
  layout ds c n k → n = NumDirect + SecondDirect * k → k < NumSecondIndex →
  x ∉ footprint ds c n k → 0 ≤ x < NumSectors →
  grows ds (zset ds (NumDirect + k) x) c c n n k (k + 1) x.
Proof.
  intros L Hn Hk Hnew Hv. pose proof (ly_len _ _ _ _ L). pose proof (ly_k _ _ _ _ L). consts.
  assert (∀ i, i ≠ k → index_sector (zset ds (6 + k) x) i = index_sector ds i) as Hix.
  { intros i Hi. unfold index_sector. consts. by rewrite znth_zset_ne by lia. }
  apply grows_intro; try done; try (consts; lia).
  - apply zlen_zset.
  - split; [|intros; apply Hix; lia]. intros j Hj. unfold block. consts.
    destruct (Z.ltb_spec j 6); [by rewrite znth_zset_ne by lia|].
    rewrite Hix; [done|]. pose proof (block_index _ _ _ _ j L) as HB. consts. lia.
  - right. split_and!; [done..|]. unfold index_sector. consts. by rewrite znth_zset_eq by lia.
Qed.

(** Entries of an index sector held in memory as the words [arr]. *)
Lemma entry_zset arr p q x :
  0 ≤ p < zlen arr → 0 ≤ q < zlen arr → is_s32 x →
  int_at (enc_ints (zset arr p x)) (4 * q) =
    if bool_decide (q = p) then x else int_at (enc_ints arr) (4 * q).
Proof.
  intros Hp Hq Hx. case_bool_decide as E.
  - subst. apply int_at_enc; [|done]. by apply znth_zset_eq.
  - destruct (znth_range arr q Hq) as [w Hw]. unfold int_at.
    rewrite (read_enc_ints arr q w Hw), (read_enc_ints _ q w); [done|].
    by rewrite znth_zset_ne by done.
Qed.

Lemma grow_entry ds c n k x ix arr :
  layout ds (upd c ix (enc_ints arr)) n k → 0 < k → n < NumDirect + SecondDirect * k →
  ix = index_sector ds (k - 1) → zlen arr = SecondDirect →
  x ∉ footprint ds (upd c ix (enc_ints arr)) n k → 0 ≤ x < NumSectors →
  grows ds ds (upd c ix (enc_ints arr))
    (upd c ix (enc_ints (zset arr (n - (NumDirect + SecondDirect * (k - 1))) x)))
    n (n + 1) k k x.
Proof.
  intros L Hk Hn Hix Harr Hnew Hv. pose proof (ly_fit _ _ _ _ L) as [_ Hf]. specialize (Hf Hk).
  pose proof (ly_k _ _ _ _ L). consts.
  set (p := n - (6 + 32 * (k - 1))). set (c' := upd c ix (enc_ints (zset arr p x))).
  assert (∀ j, 6 + 32 * (k - 1) ≤ j < 6 + 32 * k →
    ∀ a, zlen a = 32 → block ds (upd c ix (enc_ints a)) j =
      int_at (enc_ints a) (4 * (j - (6 + 32 * (k - 1))))) as Hlast.
  { intros j Hj a Ha. unfold block. consts. destruct (Z.ltb_spec j 6); [lia|].
    assert ((j - 6) / 32 = k - 1 ∧ (j - 6) mod 32 = j - (6 + 32 * (k - 1))) as [-> ->]
      by (Z.to_euclidean_division_equations; lia).
    by rewrite <-Hix, upd_eq. }
  apply grows_intro; try done; try (consts; lia).
  - split; [|done]. intros j Hj. destruct (decide (6 + 32 * (k - 1) ≤ j)) as [Hj'|Hj'].
    + unfold c'. rewrite !Hlast by (rewrite ?zlen_zset; lia).
      rewrite entry_zset, bool_decide_false; unfold is_s32; lia.
    + unfold block. consts. destruct (Z.ltb_spec j 6); [done|].
      assert (0 ≤ (j - 6) / 32 < k - 1) by (Z.to_euclidean_division_equations; lia).
      assert (index_sector ds ((j - 6) / 32) ≠ ix).
      { intros E. rewrite Hix in E. eapply index_sector_inj in E; [|done|lia|lia]. lia. }
      unfold c'. by rewrite !upd_ne.
  - left. split_and!; [done..|]. unfold c'. rewrite Hlast by (rewrite ?zlen_zset; lia).
    rewrite entry_zset, bool_decide_true; unfold is_s32; lia.
Qed.

(** ** Where the sectors come from *)

(** [supply M0 B conse a A m]: starting from a map whose marked set is [M0], the sectors
    [A] have been handed out and at least [m] more can be.  With a run ([conse]) the
    bits of the whole run were set by [FindN], giving [B]; otherwise [Find] sets them one by one. *)
Record supply (M0 B : gset Z) (conse : bool) (a : Z * BitMap) (A : gset Z) (m : Z) : Prop := {
  su_wf : wf a.2;
  su_bits : numBits a.2 = NumSectors;
  su_fresh : A ## M0;
  su_mono : M0 ∪ A ⊆ marked a.2;
  su_kind : if conse
            then marked a.2 = B ∧
              ∀ j, a.1 ≤ j < a.1 + m → 0 ≤ j < NumSectors ∧ j ∉ A ∧ j ∉ M0 ∧ j ∈ B
            else marked a.2 = M0 ∪ A ∧ m ≤ NumSectors - Z.of_nat (size (marked a.2))
}.

(** Handing out one sector does not touch the set of other bits. *)
Lemma take_sector_ok M0 B conse a A m :
  supply M0 B conse a A m → 0 < m →
  ∃ x a', take_sector conse a = Ok (x, a') ∧ x ∉ A ∧ x ∉ M0 ∧ 0 ≤ x < NumSectors ∧
    supply M0 B conse a' ({[x]} ∪ A) (m - 1).
Proof.
  intros [WF Hb HF HM HK] Hm. destruct a as [beg bm]. cbn in *. unfold take_sector.
  destruct conse.
  - destruct HK as [HB HK]. destruct (HK beg ltac:(lia)) as (Hv & HA & HM0 & Hin).
    exists beg, (beg + 1, bm). split_and!; try done; try lia. split; cbn; try done.
    + set_solver.
    + set_solver.
    + split; [done|]. intros j Hj. destruct (HK j ltac:(lia)) as (? & ? & ? & ?).
      split_and!; try done; try lia. rewrite elem_of_union, elem_of_singleton. intros [->|]; [lia|done].
  - destruct HK as [HE Hc].
    destruct (Find_spec bm WF) as (x & bm' & -> & WF' & Hb' & [(-> & -> & Hall)|(Hx & Hnew & _ & HE')]).
    + exfalso. assert (marked bm = list_to_set (seqZ 0 (numBits bm))) as E.
      { apply set_eq. intros j. rewrite elem_of_list_to_set, elem_of_seqZ. split.
        - rewrite elem_of_marked. lia.
        - intros. apply Hall. lia. }
      rewrite E, size_list_to_set, length_seqZ in Hc by apply NoDup_seqZ. lia.
    + cbn. rewrite HE in Hnew. exists x, (beg, bm'). split_and!; try done; try lia; [set_solver..|].
      split; cbn; try done; try lia; [set_solver..|]. split; [rewrite HE', HE; clear; set_solver|].
      rewrite HE', size_union, size_singleton by set_solver. lia.
Qed.

(** [fill] adds sectors one by one to whatever structure [P], whose sectors are [F],
    takes the sector of block [n] in entry [n - base]. *)
Section fill.
Context (P : list Z → Z → Prop) (F : list Z → Z → list Z) (base hi : Z).
Context (HP : ∀ arr n x, P arr n → n < hi → x ∉ F arr n → 0 ≤ x < NumSectors →
  0 ≤ n - base < zlen arr ∧
  P (zset arr (n - base) x) (n + 1) ∧ F (zset arr (n - base) x) (n + 1) ≡ₚ x :: F arr n).

Lemma fill_ok M0 B F0 conse arr n cnt a A m :
  P arr n → 0 ≤ cnt → n + cnt ≤ hi → F0 ⊆ M0 →
  supply M0 B conse a A m → cnt ≤ m → list_to_set (F arr n) = F0 ∪ A →
  ∃ arr' a' A', fill conse (n - base) cnt arr a = Ok (arr', a') ∧ P arr' (n + cnt) ∧
    supply M0 B conse a' A' (m - cnt) ∧ list_to_set (F arr' (n + cnt)) = F0 ∪ A' ∧
    zlen arr' = zlen arr.
Proof using HP.
  intros HPn Hc Hhi HF0 HS Hm HE. unfold fill.
  destruct (for_each_seqZ
    (λ i x, let '(arr, a) := x in
       '(y, a) ← take_sector conse a; arr ← aset arr i y; Ok (arr, a))
    (λ i x, ∃ A', P x.1 (i + base) ∧ supply M0 B conse x.2 A' (m - (i + base - n)) ∧
       list_to_set (F x.1 (i + base)) = F0 ∪ A' ∧ zlen x.1 = zlen arr)
    (n - base) cnt (arr, a)) as ([arr' a'] & HF & A' & H1 & H2 & H3 & H4).
  - done.
  - exists A. cbn. replace (n - base + base) with n by lia. split_and!; try done.
    by replace (m - (n - n)) with m by lia.
  - intros i [ar b] Hi (A' & H1 & H2 & H3 & H4). cbn in *.
    destruct (take_sector_ok _ _ _ _ _ _ H2 ltac:(lia)) as (x & b' & -> & HxA & HxM & Hv & HS').
    cbn. destruct (HP ar (i + base) x H1) as (Hr & HP' & HF'); [lia| |done|].
    { rewrite <-(elem_of_list_to_set (C := gset Z)), H3. set_solver. }
    replace (i + base - base) with i in * by lia. rewrite aset_in by done. cbn.
    eexists. split; [done|]. exists ({[x]} ∪ A'). cbn.
    replace (i + 1 + base) with (i + base + 1) by lia. split_and!.
    + done.
    + by replace (m - (i + base + 1 - n)) with (m - (i + base - n) - 1) by lia.
    + rewrite HF'. cbn. rewrite H3. set_solver.
    + by rewrite zlen_zset.
  - cbn in *. replace (n - base + cnt + base) with (n + cnt) in * by lia.
    replace (n + cnt - n) with cnt in * by lia. exists arr', a', A'. done.
Qed.
End fill.

(** Only index sectors are written. *)
Definition frame (ds : list Z) (k : Z) (c c' : Z → list Z) : Prop :=
  ∀ x, (∀ i, 0 ≤ i < k → x ≠ index_sector ds i) → c' x = c x.

Lemma frame_trans ds1 ds2 k1 k2 c1 c2 c3 :
  frame ds1 k1 c1 c2 → frame ds2 k2 c2 c3 → k1 ≤ k2 →
  (∀ i, 0 ≤ i < k1 → index_sector ds2 i = index_sector ds1 i) → frame ds2 k2 c1 c3.
Proof.
  intros F1 F2 Hk HE x Hx. rewrite F2 by done. apply F1. intros i Hi.
  rewrite <-HE by done. apply Hx. lia.
Qed.

Lemma fmap_seqZ_shift {A} (f : Z → A) a n :
  f <$> seqZ a n = (λ j, f (a + j)) <$> seqZ 0 n.
Proof.
  apply list_eq. intros i. rewrite !list_lookup_fmap.
  destruct (decide (Z.of_nat i < n)).
  - rewrite !lookup_seqZ_lt by lia. done.
  - rewrite !lookup_seqZ_ge by lia. done.
Qed.

(** The direct blocks. *)
(** The words of the header stay [int]s. *)
Definition ints_kept (ds ds' : list Z) : Prop := Forall is_s32 ds → Forall is_s32 ds'.
Lemma ints_kept_refl ds : ints_kept ds ds.
Proof. by intros HI. Qed.
#[export] Hint Resolve ints_kept_refl : core.
Lemma ints_kept_zset ds ds' i x : ints_kept ds ds' → 0 ≤ x < NumSectors → ints_kept ds (zset ds' i x).
Proof. intros HI Hx HF. apply Forall_zset; [by apply HI|]. unfold is_s32. consts. lia. Qed.

Lemma fill_direct M0 B F0 conse ds c cnt a A m n :
  layout ds c n 0 → 0 ≤ cnt → n + cnt ≤ NumDirect → F0 ⊆ M0 →
  supply M0 B conse a A m → cnt ≤ m → fpset ds c n 0 = F0 ∪ A →
  ∃ ds' a' A', fill conse n cnt ds a = Ok (ds', a') ∧ layout ds' c (n + cnt) 0 ∧
    agree ds ds' c c n 0 ∧
    supply M0 B conse a' A' (m - cnt) ∧ fpset ds' c (n + cnt) 0 = F0 ∪ A' ∧ ints_kept ds ds'.
Proof.
  intros L Hc Hn HF0 HS Hm HE.
  destruct (fill_ok (λ ds' n', layout ds' c n' 0 ∧ n ≤ n' ∧ agree ds ds' c c n 0 ∧ ints_kept ds ds')
    (λ ds' n', footprint ds' c n' 0) 0 NumDirect) with M0 B F0 conse ds n cnt a A m
    as (ds' & a' & A' & HF & (L' & _ & HA & HI) & HS' & HE' & _); try done.
  - intros arr n' x (L' & Hn' & HA & HI) Hlt Hnew Hv. rewrite Z.sub_0_r.
    destruct (grow_direct arr c n' x L' Hlt Hnew Hv) as (L2 & HP & HA2).
    pose proof (ly_len _ _ _ _ L'). pose proof (ly_n _ _ _ _ L'). consts.
    split_and!; try done; try lia; try (eapply agree_trans; [done|done|lia|lia]);
      by apply ints_kept_zset.
  - rewrite Z.sub_0_r in HF. by exists ds', a', A'.
Qed.

(** The entries of the last index sector, held in memory as [arr]. *)
Lemma fill_entries M0 B F0 conse ds c k ix arr cnt a A m n :
  layout ds (upd c ix (enc_ints arr)) n k → 0 < k → ix = index_sector ds (k - 1) →
  zlen arr = SecondDirect → 0 ≤ cnt → n + cnt ≤ NumDirect + SecondDirect * k → F0 ⊆ M0 →
  supply M0 B conse a A m → cnt ≤ m → fpset ds (upd c ix (enc_ints arr)) n k = F0 ∪ A →
  ∃ arr' a' A',
    fill conse (n - (NumDirect + SecondDirect * (k - 1))) cnt arr a = Ok (arr', a') ∧
    layout ds (upd c ix (enc_ints arr')) (n + cnt) k ∧ zlen arr' = SecondDirect ∧
    agree ds ds (upd c ix (enc_ints arr)) (upd c ix (enc_ints arr')) n k ∧
    supply M0 B conse a' A' (m - cnt) ∧ fpset ds (upd c ix (enc_ints arr')) (n + cnt) k = F0 ∪ A'.
Proof.
  intros L Hk Hix Harr Hc Hn HF0 HS Hm HE.
  destruct (fill_ok (λ arr' n', layout ds (upd c ix (enc_ints arr')) n' k ∧ n ≤ n' ∧
      zlen arr' = SecondDirect ∧
      agree ds ds (upd c ix (enc_ints arr)) (upd c ix (enc_ints arr')) n k)
    (λ arr' n', footprint ds (upd c ix (enc_ints arr')) n' k)
    (NumDirect + SecondDirect * (k - 1)) (NumDirect + SecondDirect * k))
    with M0 B F0 conse arr n cnt a A m
    as (arr' & a' & A' & HF & (L' & _ & Hl & HA) & HS' & HE' & _); try done.
  - intros ar n' x (L' & Hn' & Hl & HA) Hlt Hnew Hv.
    destruct (grow_entry ds c n' k x ix ar L' Hk Hlt Hix Hl Hnew Hv) as (L2 & HP & HA2).
    pose proof (ly_fit _ _ _ _ L') as [_ Hf]. specialize (Hf Hk). rewrite zlen_zset. consts.
    split_and!; try done; try lia; try (eapply agree_trans; [done|done|lia|lia]).
  - by exists arr', a', A'.
Qed.

Section proofs.
Context {S : Type} `{SectorStoreLaws S}.
Implicit Types (s : S) (c : Z → list Z) (o : Z → Z) (r : Z → rwstate).

(** Opening an index sector, filling it and writing it to the disk. *)
Lemma alloc_index M0 B F0 conse ds c k arr cnt a A m s o r :
  layout ds c (NumDirect + SecondDirect * k) k → 0 ≤ k < NumSecondIndex → F0 ⊆ M0 →
  supply M0 B conse a A m → fpset ds c (NumDirect + SecondDirect * k) k = F0 ∪ A →
  0 ≤ cnt ≤ SecondDirect → cnt + 1 ≤ m → zlen arr = SecondDirect → represents s c o r →
  ∃ x a1 arr' a2 A' s' c',
    take_sector conse a = Ok (x, a1) ∧ aset ds (NumDirect + k) x = Ok (zset ds (NumDirect + k) x) ∧
    fill conse 0 cnt arr a1 = Ok (arr', a2) ∧ WriteSector x (enc_ints arr') s = Ok ((), s') ∧
    represents s' c' o r ∧
    let ds' := zset ds (NumDirect + k) x in
    let n' := NumDirect + SecondDirect * k + cnt in
    layout ds' c' n' (k + 1) ∧ supply M0 B conse a2 A' (m - (cnt + 1)) ∧
    fpset ds' c' n' (k + 1) = F0 ∪ A' ∧
    agree ds ds' c c' (NumDirect + SecondDirect * k) k ∧ frame ds' (k + 1) c c' ∧ ints_kept ds ds'.
Proof.
  intros L Hk HF0 HS HE Hc Hm Harr HR.
  destruct (take_sector_ok _ _ _ _ _ _ HS ltac:(lia)) as (x & a1 & HT & HxA & HxM & Hv & HS1).
  set (n := NumDirect + SecondDirect * k) in *. set (ds' := zset ds (NumDirect + k) x).
  assert (x ∉ footprint ds c n k) as Hnew.
  { rewrite <-(elem_of_list_to_set (C := gset Z)). fold (fpset ds c n k). rewrite HE. set_solver. }
  destruct (grow_index ds c n k x L eq_refl ltac:(lia) Hnew Hv) as (L1 & HP1 & HA1).
  pose proof (ly_len _ _ _ _ L) as Hlen.
  assert (index_sector ds' k = x) as Hix.
  { unfold index_sector, ds'. rewrite znth_zset_eq; [done|]. consts. lia. }
  assert (agree ds' ds' c (upd c x (enc_ints arr)) n (k + 1)) as HA2.
  { split; [|done]. intros j Hj. unfold block. destruct (Z.ltb_spec j NumDirect); [done|].
    rewrite upd_ne; [done|]. rewrite <-Hix. intros E.
    eapply index_sector_inj in E; [|exact L1|..]; unfold n in *; consts;
      Z.to_euclidean_division_equations; lia. }
  pose proof (layout_agree _ _ _ _ _ _ L1 eq_refl HA2) as L2.
  destruct (fill_entries M0 B F0 conse ds' c (k + 1) x arr cnt a1 ({[x]} ∪ A) (m - 1) n)
    as (arr' & a2 & A' & HF & L3 & Hl3 & HA3 & HS3 & HE3); try done; try lia.
  { by replace (k + 1 - 1) with k by lia. }
  { unfold fpset. rewrite (footprint_agree _ _ _ _ _ _ HA2). fold ds' in HP1. rewrite HP1.
    cbn. fold (fpset ds c n k). rewrite HE. set_solver. }
  replace (n - _) with 0 in HF by (unfold n; lia).
  destruct (WriteSector_ok s c o r x (enc_ints arr') HR Hv) as (s' & HW & HR').
  { rewrite zlen_enc_ints. consts. lia. }
  exists x, a1, arr', a2, A', s', (upd c x (enc_ints arr')). cbv zeta.
  fold n ds'. split_and!; try done.
  - apply aset_in. consts. lia.
  - by replace (m - (cnt + 1)) with (m - 1 - cnt) by lia.
  - eapply agree_trans; [exact HA1| |reflexivity|].
    + eapply agree_trans; [exact HA2|exact HA3|lia|lia].
    + lia.
  - intros y Hy. apply upd_ne. rewrite <-Hix. apply Hy. lia.
  - by apply ints_kept_zset.
Qed.

(** Number of index sectors [rest] more blocks need. *)
Definition chunks (rest : Z) : Z := (rest + 31) / 32.

Lemma alloc_second_ok heap conse M0 B F0 fuel k rest ds c a A m s o r :
  (∀ i, zlen (heap i) = SecondDirect) →
  layout ds c (NumDirect + SecondDirect * k) k → 0 ≤ k → 0 ≤ rest →
  k + chunks rest ≤ NumSecondIndex → chunks rest ≤ Z.of_nat fuel → F0 ⊆ M0 →
  supply M0 B conse a A m → fpset ds c (NumDirect + SecondDirect * k) k = F0 ∪ A →
  rest + chunks rest ≤ m → represents s c o r →
  ∃ ds' a' A' s' c',
    alloc_second heap conse fuel k rest ds a s = Ok ((ds', a'), s') ∧ represents s' c' o r ∧
    layout ds' c' (NumDirect + SecondDirect * k + rest) (k + chunks rest) ∧
    supply M0 B conse a' A' (m - (rest + chunks rest)) ∧
    fpset ds' c' (NumDirect + SecondDirect * k + rest) (k + chunks rest) = F0 ∪ A' ∧
    agree ds ds' c c' (NumDirect + SecondDirect * k) k ∧ frame ds' (k + chunks rest) c c' ∧
    ints_kept ds ds'.
Proof.
  intros Hheap. revert k rest ds c a A m s.
  induction fuel as [|fuel IH]; intros k rest ds c a A m s L Hk Hr Hki Hfu HF0 HS HE Hm HR.
  - assert (rest = 0) as -> by (unfold chunks in *; Z.to_euclidean_division_equations; lia).
    exists ds, a, A, s, c. change (chunks 0) with 0. rewrite !Z.add_0_r, Z.sub_0_r. done.
  - destruct (decide (rest = 0)) as [->|Hne].
    { exists ds, a, A, s, c. change (chunks 0) with 0. rewrite !Z.add_0_r, Z.sub_0_r. done. }
    remember (if rest <? SecondDirect then rest else SecondDirect) as num1 eqn:Enum.
    assert (1 ≤ num1 ≤ 32 ∧ num1 ≤ rest ∧ chunks rest = 1 + chunks (rest - num1) ∧
      0 ≤ chunks (rest - num1) ∧ (num1 < 32 → rest - num1 = 0)) as (Hn1 & Hn2 & Hch & Hch0 & Hfull).
    { rewrite Enum. unfold chunks. consts. destruct (Z.ltb_spec rest 32);
        Z.to_euclidean_division_equations; lia. }
    destruct (alloc_index M0 B F0 conse ds c k (heap k) num1 a A m s o r)
      as (x & a1 & arr' & a2 & A' & s' & c' & HT & HAs & HF & HW & HR' & L' & HS' & HE' & HA' & HFr & HI);
      try done; try lia; try (consts; lia).
    cbn [alloc_second]. destruct (Z.gtb_spec rest 0); [|lia].
    unfold mbind, ST_bind, lift. rewrite HT, HAs, <-Enum, HF, HW. clear Enum.
    destruct (decide (rest - num1 = 0)) as [Hz|Hnz].
    + rewrite Hz in *. change (chunks 0) with 0 in *.
      assert (rest = num1) as -> by lia. rewrite Hch.
      replace (k + (1 + 0)) with (k + 1) by lia. replace (num1 + (1 + 0)) with (num1 + 1) by lia.
      assert (alloc_second heap conse fuel (k + 1) 0 (zset ds (NumDirect + k) x) a2 s' =
        Ok ((zset ds (NumDirect + k) x, a2), s')) as -> by (by destruct fuel).
      eexists _, _, A', s', c'. split; [done|]. done.
    + assert (num1 = 32) as E1 by lia. rewrite E1 in *.
      replace (NumDirect + SecondDirect * k + 32) with (NumDirect + SecondDirect * (k + 1)) in *
        by (consts; lia).
      destruct (IH (k + 1) (rest - 32) (zset ds (NumDirect + k) x) c' a2 A' (m - (32 + 1)) s')
        as (ds2 & a3 & A2 & s2 & c2 & HEq & HR2 & L2 & HS2 & HE2 & HA2 & HFr2 & HI2); try done; try lia.
      exists ds2, a3, A2, s2, c2. rewrite Hch.
      replace (NumDirect + SecondDirect * k + rest) with
        (NumDirect + SecondDirect * (k + 1) + (rest - 32)) by (consts; lia).
      replace (k + (1 + chunks (rest - 32))) with (k + 1 + chunks (rest - 32)) by lia.
      split_and!; try done.
      * by replace (m - (rest + (1 + chunks (rest - 32))))
          with (m - (32 + 1) - (rest - 32 + chunks (rest - 32))) by lia.
      * eapply agree_trans; [exact HA'|exact HA2|consts; lia|lia].
      * eapply frame_trans; [exact HFr|exact HFr2|lia|]. intros i Hi. by apply HA2.
      * intros HF'. by apply HI2, HI.
Qed.
(** The state after a successful allocation of [n] blocks in a map [bm]: the header
    describes [n] blocks on fresh sectors, which are marked now; no other sector of
    the disk changes. *)
Record allocated (bm bm' : BitMap) (c c' : Z → list Z) (h' : FileHeader) (fileSize n : Z) : Prop := {
  al_bytes : numBytes h' = fileSize;
  al_sectors : numSectors h' = n;
  al_hdr : hdr_ok h' c';
  al_wf : wf bm' ∧ numBits bm' = NumSectors;
  al_fresh : fpset (dataSectors h') c' n (nidx n) ## marked bm;
  al_marked : marked bm ∪ fpset (dataSectors h') c' n (nidx n) ⊆ marked bm';
  al_frame : ∀ x, x ∉ fpset (dataSectors h') c' n (nidx n) → c' x = c x
}.

(** The header object of the new file: times and padding are what they were. *)
Definition sized (h h' : FileHeader) (fileSize n : Z) : Prop :=
  ∃ ds, h' = set_size h fileSize n ds ∧ ints_kept (dataSectors h) ds.

Lemma frame_fpset ds c c' n k x :
  frame ds k c c' → x ∉ fpset ds c' n k → c' x = c x.
Proof.
  intros HF Hx. apply HF. intros i Hi ->. destruct Hx. unfold fpset.
  rewrite elem_of_list_to_set. apply elem_of_footprint. right. eauto.
Qed.

Lemma layout_empty ds c : zlen ds = NumDirect + NumSecondIndex → layout ds c 0 0.
Proof. intros. split; try done; try (consts; lia). constructor. Qed.

Lemma place_ok heap conse h a bm B fileSize n m s c o r :
  (∀ i, zlen (heap i) = SecondDirect) → zlen (dataSectors h) = NumDirect + NumSecondIndex →
  0 ≤ n ≤ 166 → supply (marked bm) B conse a ∅ m → n + nidx n ≤ m → represents s c o r →
  ∃ h' bm' s' c', place heap conse h a fileSize n s = Ok ((true, h', bm'), s') ∧
    represents s' c' o r ∧ allocated bm bm' c c' h' fileSize n ∧
    (marked bm' = if conse then B else marked bm ∪ fpset (dataSectors h') c' n (nidx n)) ∧
    sized h h' fileSize n.
Proof.
  intros Hheap Hlen Hn HS Hm HR.
  assert (∀ ds a' c' A', layout ds c' n (nidx n) → supply (marked bm) B conse a' A' (m - (n + nidx n)) →
    fpset ds c' n (nidx n) = ∅ ∪ A' → frame ds (nidx n) c c' → ints_kept (dataSectors h) ds →
    allocated bm a'.2 c c' (set_size h fileSize n ds) fileSize n ∧
    (marked a'.2 = if conse then B else marked bm ∪ fpset ds c' n (nidx n)) ∧
    sized h (set_size h fileSize n ds) fileSize n) as Hpost.
  { intros ds a' c' A' L [] HE HF HI. rewrite union_empty_l_L in HE. split_and!; [| |by exists ds].
    - split; cbn; try done; rewrite ?HE; try done. intros x Hx. eapply frame_fpset; [done|by rewrite HE].
    - rewrite HE. destruct conse; apply su_kind0. }
  unfold place, mbind, ST_bind, lift, mret, ST_ret. rewrite u32_small by (unfold is_u32; lia).
  assert (∀ n1, 0 ≤ n1 ≤ NumDirect → n1 ≤ n →
    ∃ ds a' A', fill conse 0 n1 (dataSectors h) a = Ok (ds, a') ∧ layout ds c n1 0 ∧
      supply (marked bm) B conse a' A' (m - n1) ∧ fpset ds c n1 0 = ∅ ∪ A' ∧
      ints_kept (dataSectors h) ds) as Hdir.
  { intros n1 Hn1 Hle. destruct (fill_direct (marked bm) B ∅ conse (dataSectors h) c n1 a ∅ m 0)
      as (ds & a' & A' & HF & L & _ & HS' & HE & HI); try done; try lia.
    - by apply layout_empty.
    - unfold nidx in Hm. consts. destruct (Z.leb_spec n 6); Z.to_euclidean_division_equations; lia.
    - by exists ds, a', A'. }
  unfold nidx in *. destruct (Z.leb_spec n NumDirect).
  - destruct (Hdir n) as (ds & a' & A' & -> & L & HS' & HE & HI); [lia|lia|].
    rewrite Z.add_0_r in Hpost. eexists _, _, s, c. split; [done|]. split; [done|].
    by eapply Hpost.
  - destruct (Hdir NumDirect) as (ds & a' & A' & -> & L & HS' & HE & HI); [consts; lia|lia|].
    change (n - NumDirect + 31) with (n - NumDirect + 31) in *. fold (chunks (n - NumDirect)) in *.
    destruct (alloc_second_ok heap conse (marked bm) B ∅ (Z.to_nat NumSecondIndex) 0 (n - NumDirect)
      ds c a' A' (m - NumDirect) s o r)
      as (ds' & a2 & A2 & s' & c' & -> & HR' & L' & HS2 & HE2 & HA2 & HFr & HI2); try done.
    + consts. lia.
    + unfold chunks. consts. Z.to_euclidean_division_equations. lia.
    + unfold chunks. consts. Z.to_euclidean_division_equations. lia.
    + lia.
    + rewrite Z.mul_0_r, Z.add_0_r, Z.add_0_l, Zplus_minus in *.
      replace (m - NumDirect - _) with (m - (n + chunks (n - NumDirect))) in HS2 by lia.
      eexists _, _, s', c'. split; [done|]. split; [done|]. eapply Hpost; try done.
      intros HF. by apply HI2, HI.
Qed.
(** The uninitialised variable [NSecIndex] of [Allocate], read for a file of at most
    [NumDirect] blocks: every [int] but the largest ones, with which the addition
    overflows, and -5 to -1, with which [FindN] is asked for fewer sectors than the file
    has blocks (see [Allocate_uninit_overlap] in FileHdrExtend.v). *)
Definition garbage_ok (uninit : Z) : Prop :=
  - 2 ^ 31 ≤ uninit ≤ - NumDirect ∨ 0 ≤ uninit < 2 ^ 31 - NumDirect.

(** What [Allocate] asks of [FindN]: the blocks and the index sectors, or, for a file
    without index sectors, the blocks and whatever [NSecIndex] holds; nothing if the sum
    is negative. *)
Definition wanted (uninit n : Z) : Z := Z.max 0 (n + (if n <=? NumDirect then uninit else nidx n)).

(** The sectors [FindN] marks that no block and no index of the file is on. *)
Definition spare (uninit n : Z) : Z := if n <=? NumDirect then Z.max 0 uninit else 0.

Lemma wanted_eq uninit n :
  0 ≤ n ≤ 2 ^ 24 → garbage_ok uninit →
  let k := s32 (n + (if u32 n >? NumDirect
                     then s32 (divRoundUp (u32 (n - NumDirect)) SecondDirect) else uninit)) in
  Z.max 0 k = wanted uninit n ∧ (0 < wanted uninit n → wanted uninit n = n + nidx n + spare uninit n) ∧
  (wanted uninit n = 0 → nidx n = 0 ∧ spare uninit n = 0 ∧ n ≤ NumDirect).
Proof.
  intros Hn Hu. unfold wanted, nidx, spare, garbage_ok in *. consts. cbv zeta.
  rewrite (u32_small n) by (unfold is_u32; lia).
  destruct (Z.gtb_spec n 6), (Z.leb_spec n 6); try lia.
  - rewrite u32_small by (unfold is_u32; lia). rewrite divRoundUp_div by lia.
    replace (n - 6 + 32 - 1) with (n - 6 + 31) by lia.
    assert (0 ≤ (n - 6 + 31) / 32 ≤ 2 ^ 24) by (Z.to_euclidean_division_equations; lia).
    rewrite (s32_small ((n - 6 + 31) / 32)), s32_small by (unfold is_s32; lia). lia.
  - rewrite s32_small by (unfold is_s32; lia). lia.
Qed.

Lemma size_interval i cnt : 0 ≤ cnt → Z.of_nat (size (interval i cnt)) = cnt.
Proof.
  intros. unfold interval. rewrite size_list_to_set, length_seqZ by apply NoDup_seqZ. lia.
Qed.

(** The map after an allocation of [n] blocks on the sectors [X]: these are marked, and
    the spare ones of the run are marked too. *)
Definition gained (uninit n : Z) (bm bm' : BitMap) (X : gset Z) : Prop :=
  ∃ L, marked bm' = marked bm ∪ X ∪ L ∧ L ## marked bm ∪ X ∧
    Z.of_nat (size L) ≤ spare uninit n ∧ (0 < n → Z.of_nat (size L) = spare uninit n).

Lemma gained_exact uninit n bm bm' X :
  gained uninit n bm bm' X → spare uninit n = 0 → marked bm' = marked bm ∪ X.
Proof.
  intros (L & -> & _ & Hle & _) Hs. assert (L ≡ ∅) as HL by (apply size_empty_inv; lia). set_solver.
Qed.

(** The supply of a run [FindN] has just marked. *)
Lemma supply_run bm bm' i cnt :
  free_run bm i cnt → wf bm' → numBits bm = NumSectors → numBits bm' = numBits bm →
  marked bm' = interval i cnt ∪ marked bm →
  supply (marked bm) (marked bm') true (i, bm') ∅ cnt.
Proof.
  intros (Hi & Hn & Hfree) WF' Hb Hb' HM. split; cbn; try done; [lia|set_solver|].
  split; [done|]. intros j Hj. split_and!; [lia|lia|set_solver|by apply Hfree|].
  rewrite HM, elem_of_union, elem_of_interval. left. lia.
Qed.

(** The supply of [Find]. *)
Lemma supply_find bm B m :
  wf bm → numBits bm = NumSectors → m ≤ NumSectors - Z.of_nat (size (marked bm)) →
  ∀ beg, supply (marked bm) B false (beg, bm) ∅ m.
Proof. intros WF Hb Hm beg. split; cbn; try done; [set_solver..|]. by rewrite union_empty_r_L. Qed.

Section allocate.
Context (uninit fileSize : Z) (heap : Z → list Z) (h : FileHeader) (bm : BitMap).
Context (s : S) (c : Z → list Z) (o : Z → Z) (r : Z → rwstate).
Context (Hheap : ∀ i, zlen (heap i) = SecondDirect).
Context (Hlen : zlen (dataSectors h) = NumDirect + NumSecondIndex).
Context (WF : wf bm) (Hbits : numBits bm = NumSectors) (Hzero : 0 ∈ marked bm).
Context (Hsize : 0 ≤ fileSize < 2 ^ 31) (Huninit : garbage_ok uninit).
Context (HR : represents s c o r).
Let n := divRoundUp fileSize SectorSize.
Let cnt := wanted uninit n.

Lemma blocks_range : 0 ≤ n ≤ 2 ^ 24 ∧ (fileSize ≤ MaxFileSize → n ≤ 166).
Proof.
  unfold n. consts. rewrite divRoundUp_div by lia. Z.to_euclidean_division_equations. lia.
Qed.

Lemma Allocate_unfold :
  Allocate uninit heap h bm fileSize s =
    ('(beg, bm1) ← FindN bm cnt;
     clear ← NumClear bm1;
     if (clear <? n) || (MaxFileSize <? fileSize)
     then Ok ((false, set_size h fileSize n (dataSectors h), bm1), s)
     else place heap (beg >? 0) h (beg, bm1) fileSize n s).
Proof using Hsize Huninit Hbits.
  destruct blocks_range as [Hn _]. destruct (wanted_eq uninit n Hn Huninit) as [HE _].
  unfold Allocate, mbind, ST_bind, result_bind, lift. fold n. set (k := s32 _) in *.
  assert (FindN bm k = FindN bm cnt) as ->.
  { unfold cnt. rewrite <-HE. destruct (Z.max_spec 0 k) as [[? ->]|[? ->]]; [done|].
    by rewrite !FindN_nonpos by (rewrite ?Hbits; consts; lia). }
  destruct (FindN bm cnt) as [[beg bm1]|]; [|done]. destruct (NumClear bm1) as [cl|]; [|done].
  destruct (Z.ltb_spec cl n); [done|]. rewrite u32_small by (unfold is_u32; lia).
  cbn [orb]. rewrite Z.gtb_ltb. by destruct (MaxFileSize <? fileSize).
Qed.

(** [FindN] has marked a run of [cnt] > 0 sectors: the file is placed on it. *)
Lemma Allocate_run i :
  0 < cnt → free_run bm i cnt → (∀ j, 0 ≤ j < i → ¬ free_run bm j cnt) →
  ∃ bm1, FindN bm cnt = Ok (i, bm1) ∧ NumClear bm1 = Ok (NumSectors - (Z.of_nat (size (marked bm)) + cnt)) ∧
    0 < i ∧ supply (marked bm) (marked bm1) true (i, bm1) ∅ cnt ∧ marked bm1 = interval i cnt ∪ marked bm.
Proof using WF Hbits Hzero.
  intros Hc Hi Hmin. destruct (FindN_hit bm i cnt WF Hc Hi Hmin) as (bm1 & HF & WF1 & Hb1 & HM1).
  exists bm1. split_and!; try done.
  - rewrite NumClear_spec by done. rewrite HM1, size_union, Hb1, Hbits, Nat2Z.inj_add, size_interval by
      (lia || (intros j Hj%elem_of_interval Hm; by apply (proj2 (proj2 Hi) j))). do 2 f_equal. lia.
  - destruct Hi as (? & _ & Hfree). destruct (decide (i = 0)) as [->|]; [|lia]. by destruct (Hfree 0); [lia|].
  - by apply supply_run.
Qed.

(** The sectors of the run that the file is not on are the spare ones. *)
Lemma run_gained bm' i X :
  0 < cnt → X ## marked bm → Z.of_nat (size X) = n + nidx n → marked bm ∪ X ⊆ marked bm' →
  marked bm' = interval i cnt ∪ marked bm → interval i cnt ## marked bm → gained uninit n bm bm' X.
Proof using All.
  intros Hc Hfresh HX Hsub HM Hdis. destruct (wanted_eq uninit n (proj1 blocks_range) Huninit) as (_ & Hle & _).
  specialize (Hle Hc). fold cnt in Hle.
  assert (X ⊆ interval i cnt) as HXsub by (rewrite HM in Hsub; clear -Hsub Hfresh; set_solver).
  assert (Z.of_nat (size (interval i cnt ∖ X)) = spare uninit n) as HL.
  { rewrite size_difference, Nat2Z.inj_sub, size_interval by (try apply subseteq_size; done || lia). lia. }
  exists (interval i cnt ∖ X). split_and!; try lia.
  - rewrite HM. apply set_eq. intros x. destruct (decide (x ∈ X)); set_solver.
  - clear -Hdis. set_solver.
Qed.

Lemma Allocate_found :
  (∃ i, free_run bm i cnt) → Z.of_nat (size (marked bm)) + cnt + n ≤ NumSectors → fileSize ≤ MaxFileSize →
  ∃ h' bm' s' c', Allocate uninit heap h bm fileSize s = Ok ((true, h', bm'), s') ∧
    represents s' c' o r ∧ allocated bm bm' c c' h' fileSize n ∧
    gained uninit n bm bm' (fpset (dataSectors h') c' n (nidx n)) ∧ sized h h' fileSize n.
Proof using All.
  intros [i0 Hrun] Hroom Hmax. destruct blocks_range as [Hn Hn2]. specialize (Hn2 Hmax).
  destruct (wanted_eq uninit n Hn Huninit) as (_ & Hle & Hz). fold cnt in Hle, Hz.
  rewrite Allocate_unfold. destruct (Z.ltb_spec MaxFileSize fileSize); [lia|].
  destruct (decide (0 < cnt)) as [Hc|Hc].
  - destruct (least_free_run bm cnt Hc) as [(i & Hi & Hmin)|Hno]; [|by destruct (Hno i0)].
    destruct (Allocate_run i Hc Hi Hmin) as (bm1 & -> & E2 & Hpos & HS & HM1). cbn. rewrite E2. cbn.
    destruct (Z.ltb_spec (NumSectors - (Z.of_nat (size (marked bm)) + cnt)) n); [lia|]. cbn.
    destruct (Z.gtb_spec i 0); [|lia].
    destruct (place_ok heap true h (i, bm1) bm (marked bm1) fileSize n cnt s c o r)
      as (h' & bm' & s' & c' & HP & HR' & HA & HE & HZ); try done; try lia.
    { unfold spare in Hle. case_match; lia. }
    exists h', bm', s', c'. split_and!; try done. apply (run_gained bm' i); try done; try apply HA.
    + pose proof (al_hdr _ _ _ _ _ _ _ HA) as HL. unfold hdr_ok in HL. rewrite (al_sectors _ _ _ _ _ _ _ HA) in HL.
      unfold fpset. rewrite size_list_to_set by apply HL. unfold footprint.
      rewrite length_app, !length_fmap, !length_seqZ. pose proof (ly_k _ _ _ _ HL). lia.
    + by rewrite HE, HM1.
    + intros j Hj%elem_of_interval Hm. by apply (proj2 (proj2 Hi) j).
  - assert (cnt = 0) as Hc0 by (unfold cnt, wanted in *; lia). destruct (Hz Hc0) as (Hk & Hsp & Hle2).
    rewrite FindN_nonpos by (rewrite ?Hbits; consts; lia). cbn. rewrite NumClear_spec, Hbits by done. cbn.
    destruct (Z.ltb_spec (NumSectors - Z.of_nat (size (marked bm))) n); [lia|]. cbn [orb].
    destruct (place_ok heap false h (0, bm) bm ∅ fileSize n n s c o r)
      as (h' & bm' & s' & c' & HP & HR' & HA & HE & HZ); try done; try lia.
    { by apply supply_find. }
    exists h', bm', s', c'. split_and!; try done. exists ∅. rewrite HE, Hsp.
    split_and!; try done; [clear; set_solver..].
Qed.

Lemma Allocate_refused :
  (∃ i, free_run bm i cnt) → NumSectors < Z.of_nat (size (marked bm)) + cnt + n ∨ MaxFileSize < fileSize →
  ∃ bm', Allocate uninit heap h bm fileSize s =
    Ok ((false, set_size h fileSize n (dataSectors h), bm'), s).
Proof using All.
  intros [i0 Hrun] Hroom. rewrite Allocate_unfold. destruct (decide (0 < cnt)) as [Hc|Hc].
  - destruct (least_free_run bm cnt Hc) as [(i & Hi & Hmin)|Hno]; [|by destruct (Hno i0)].
    destruct (Allocate_run i Hc Hi Hmin) as (bm1 & -> & E2 & _). cbn. rewrite E2. cbn.
    destruct (Z.ltb_spec (NumSectors - (Z.of_nat (size (marked bm)) + cnt)) n); [eauto|].
    destruct (Z.ltb_spec MaxFileSize fileSize); [eauto|lia].
  - assert (cnt = 0) as Hc0 by (unfold cnt, wanted in *; lia).
    rewrite FindN_nonpos by (rewrite ?Hbits; consts; lia). cbn. rewrite NumClear_spec, Hbits by done. cbn.
    destruct (Z.ltb_spec (NumSectors - Z.of_nat (size (marked bm))) n); [eauto|].
    destruct (Z.ltb_spec MaxFileSize fileSize); [eauto|lia].
Qed.

Lemma Allocate_no_run :
  cnt ≠ 1 → (∀ i, ¬ free_run bm i cnt) →
  Allocate uninit heap h bm fileSize s = Stop AssertFailed.
Proof using All.
  intros Hc Hno. assert (0 < numBits bm) as Hpos by (rewrite Hbits; consts; lia).
  assert (0 < cnt) as Hc0.
  { apply Z.nle_gt. intros Hle. destruct (Hno 0). split_and!; [lia|lia|]. intros j. lia. }
  rewrite Allocate_unfold, (FindN_miss bm cnt WF Hpos Hc0 Hno).
  unfold FindN_failure. by destruct (Z.eqb_spec cnt 1); [lia|].
Qed.

(** A single sector is asked for and there is none: a file of one block is refused, an
    empty file needs none. *)
Lemma Allocate_one :
  cnt = 1 → (∀ i, ¬ free_run bm i cnt) →
  (0 < n ∧ Allocate uninit heap h bm fileSize s = Ok ((false, set_size h fileSize n (dataSectors h), bm), s)) ∨
  (n = 0 ∧ ∃ h' bm' s' c', Allocate uninit heap h bm fileSize s = Ok ((true, h', bm'), s') ∧
     represents s' c' o r ∧ allocated bm bm' c c' h' fileSize n ∧
     gained uninit n bm bm' (fpset (dataSectors h') c' n (nidx n)) ∧ sized h h' fileSize n).
Proof using All.
  intros Hc Hno. assert (0 < numBits bm) as Hpos by (rewrite Hbits; consts; lia).
  rewrite Allocate_unfold, (FindN_miss bm cnt WF Hpos ltac:(lia) Hno). unfold FindN_failure.
  destruct (Z.eqb_spec cnt 1); [|lia]. cbn. rewrite NumClear_spec by done. cbn.
  assert (marked bm = interval 0 NumSectors) as HM.
  { apply set_eq. intros j. rewrite elem_of_interval, <-Hbits. split.
    - intros Hj%elem_of_marked. lia.
    - intros Hj. destruct (decide (j ∈ marked bm)) as [|Hj']; [done|].
      destruct (Hno j). split_and!; [lia|lia|]. intros j2 Hj2. by replace j2 with j by lia. }
  destruct blocks_range as [Hn _].
  assert (Z.of_nat (size (marked bm)) = NumSectors) as Hs by (rewrite HM; apply size_interval; done).
  rewrite Hbits, Hs. destruct (Z.ltb_spec (NumSectors - NumSectors) n); [by left; split; [lia|]|].
  right. assert (n = 0) as Hn0 by lia. split; [done|]. cbn [orb].
  assert (fileSize = 0) as Hf0.
  { unfold n in Hn0. revert Hn0. consts. rewrite divRoundUp_div by lia. Z.to_euclidean_division_equations. lia. }
  destruct (Z.ltb_spec MaxFileSize fileSize); [consts; lia|].
  destruct (place_ok heap false h (-1, bm) bm ∅ fileSize n n s c o r)
    as (h' & bm' & s' & c' & HP & HR' & HA & HE & HZ); try done; try lia.
  { apply supply_find; try done. lia. } { rewrite Hn0. done. }
  exists h', bm', s', c'. split_and!; try done. exists ∅. rewrite HE.
  split_and!; [clear; set_solver|clear; set_solver|rewrite size_empty; unfold spare; case_match; lia|lia].
Qed.

(** The run is the first one there is. *)
Lemma Allocate_first_fit i h' bm' s' :
  0 < cnt → free_run bm i cnt → (∀ j, 0 ≤ j < i → ¬ free_run bm j cnt) →
  Allocate uninit heap h bm fileSize s = Ok ((true, h', bm'), s') → marked bm' = interval i cnt ∪ marked bm.
Proof using All.
  intros Hc Hi Hmin HE. destruct blocks_range as [Hn Hn2].
  destruct (wanted_eq uninit n Hn Huninit) as (_ & Hle & _). specialize (Hle Hc). fold cnt in Hle.
  destruct (Allocate_run i Hc Hi Hmin) as (bm1 & E1 & E2 & Hpos & HS & HM1).
  rewrite Allocate_unfold, E1 in HE. cbn in HE. rewrite E2 in HE. cbn in HE.
  destruct (Z.ltb_spec (NumSectors - (Z.of_nat (size (marked bm)) + cnt)) n); [done|].
  destruct (Z.ltb_spec MaxFileSize fileSize); [done|]. specialize (Hn2 ltac:(lia)). cbn [orb] in HE.
  destruct (Z.gtb_spec i 0); [|lia].
  destruct (place_ok heap true h (i, bm1) bm (marked bm1) fileSize n cnt s c o r)
    as (h2 & bm2 & s2 & c2 & HP & _ & _ & HM & _); try done; try lia.
  { unfold spare in Hle. case_match; lia. }
  rewrite HP in HE. injection HE as <- <- <-. by rewrite HM.
Qed.
End allocate.

(** The room [Allocate] needs. *)
Definition room (uninit fileSize : Z) (bm : BitMap) : Prop :=
  let n := divRoundUp fileSize SectorSize in
  let cnt := wanted uninit n in
  fileSize ≤ MaxFileSize ∧
  ((∃ i, free_run bm i cnt) ∧ Z.of_nat (size (marked bm)) + cnt + n ≤ NumSectors ∨ n = 0 ∧ cnt = 1).
(** [FindN] runs past the end of the map. *)
Definition overrun (uninit fileSize : Z) (bm : BitMap) : Prop :=
  let cnt := wanted uninit (divRoundUp fileSize SectorSize) in cnt ≠ 1 ∧ ∀ i, ¬ free_run bm i cnt.

Lemma room_overrun uninit fileSize bm : room uninit fileSize bm → ¬ overrun uninit fileSize bm.
Proof. intros [_ [[[i Hi] _]|[_ H1]]] [H2 H3]; [by apply (H3 i)|done]. Qed.

Lemma run_or_none bm cnt : wf bm → (∃ i, free_run bm i cnt) ∨ ∀ i, ¬ free_run bm i cnt.
Proof.
  intros WF. destruct (decide (0 < cnt)) as [Hc|Hc].
  - destruct (least_free_run bm cnt Hc) as [(i & Hi & _)|Hno]; eauto.
  - left. exists 0. pose proof (wf_bits _ WF). split_and!; [lia|lia|]. intros j. lia.
Qed.

(** The three outcomes of [Allocate]. *)
Lemma Allocate_cases_of uninit fileSize heap h bm s c o r :
  (∀ i, zlen (heap i) = SecondDirect) → zlen (dataSectors h) = NumDirect + NumSecondIndex →
  wf bm → numBits bm = NumSectors → 0 ∈ marked bm →
  0 ≤ fileSize < 2 ^ 31 → garbage_ok uninit → represents s c o r →
  let n := divRoundUp fileSize SectorSize in
  (∃ h' bm' s' c', Allocate uninit heap h bm fileSize s = Ok ((true, h', bm'), s') ∧
     represents s' c' o r ∧ allocated bm bm' c c' h' fileSize n ∧
     gained uninit n bm bm' (fpset (dataSectors h') c' n (nidx n)) ∧ sized h h' fileSize n ∧
     room uninit fileSize bm) ∨
  (∃ h' bm', Allocate uninit heap h bm fileSize s = Ok ((false, h', bm'), s) ∧
     ¬ room uninit fileSize bm ∧ ¬ overrun uninit fileSize bm) ∨
  (Allocate uninit heap h bm fileSize s = Stop AssertFailed ∧ overrun uninit fileSize bm).
Proof.
  intros Hheap Hl WF Hb H0in Hsz Hu HR n. set (cnt := wanted uninit n).
  destruct (run_or_none bm cnt WF) as [Hrun|Hno'].
  - assert (¬ overrun uninit fileSize bm) as Hov by (destruct Hrun as [i Hi]; intros [_ Hn]; by apply (Hn i)).
    destruct (decide (Z.of_nat (size (marked bm)) + cnt + n ≤ NumSectors ∧ fileSize ≤ MaxFileSize)) as [[H1 H2]|H1].
    + left. destruct (Allocate_found uninit fileSize heap h bm s c o r)
        as (h' & bm' & s' & c' & HE & HR' & HA & HM & HZ); try done.
      exists h', bm', s', c'. split_and!; try done. split; [done|by left].
    + right; left. destruct (Allocate_refused uninit fileSize heap h bm s c o r) as (bm' & HE); try done.
      { fold n. fold cnt. lia. }
      eexists _, _. split_and!; [exact HE| |done]. intros [H2 [[_ H3]|[H3 H4]]]; fold n in H3; fold cnt in H3; [by apply H1|].
      fold n in H4. fold cnt in H4. destruct Hrun as [i (Hi & Hr & Hf)].
      assert (Z.of_nat (size (interval i cnt ∪ marked bm)) ≤ NumSectors) as Hle.
      { rewrite <-(size_interval 0 NumSectors) by done. apply Nat2Z.inj_le, subseteq_size. intros x.
        rewrite elem_of_union, !elem_of_interval. intros [?|[? _]%elem_of_marked]; lia. }
      rewrite size_union, Nat2Z.inj_add, size_interval in Hle by (lia || (intros x Hx%elem_of_interval; by apply Hf)). lia.
  - destruct (decide (cnt = 1)) as [Hc|Hc].
    + destruct (Allocate_one uninit fileSize heap h bm s c o r)
        as [[Hn HE]|(Hn & h' & bm' & s' & c' & HE & HR' & HA & HG & HZ)]; try done; fold n in Hn.
      * right; left. eexists _, bm. split_and!; [exact HE| |by intros [? _]].
        intros [_ [[[i Hi] _]|[H3 _]]]; [by apply (Hno' i)|fold n in H3; lia].
      * left. exists h', bm', s', c'. split_and!; try done. split; [|by right].
        assert (fileSize = 0) as ->; [|done]. unfold n in Hn. revert Hn. consts. rewrite divRoundUp_div by lia.
        Z.to_euclidean_division_equations. lia.
    + right; right. split; [|done]. by eapply Allocate_no_run.
Qed.
(** ** Deallocation *)

Lemma free_sector_ok bm x :
  wf bm → x ∈ marked bm →
  ∃ bm', free_sector x bm = Ok bm' ∧ wf bm' ∧ numBits bm' = numBits bm ∧
    marked bm' = marked bm ∖ {[x]}.
Proof.
  intros WF Hx. pose proof (proj1 (elem_of_marked _ _) Hx) as [Hr _]. unfold free_sector.
  rewrite Test_marked, bool_decide_true by done. cbn. by apply Clear_marked.
Qed.

(** Freeing the sectors [f i] for [i] in [l]. *)
Lemma free_all (g : Z → result Z) (f : Z → Z) l bm :
  (∀ i, i ∈ l → g i = Ok (f i)) → NoDup (f <$> l) → wf bm →
  (∀ x, x ∈ f <$> l → x ∈ marked bm) →
  ∃ bm', for_each (λ i bm, x ← g i; free_sector x bm) l bm = Ok bm' ∧ wf bm' ∧
    numBits bm' = numBits bm ∧ marked bm' = marked bm ∖ list_to_set (f <$> l).
Proof.
  revert bm. induction l as [|i l IH]; intros bm Hg HN WF HM.
  { exists bm. split_and!; try done. cbn. set_solver. }
  rewrite fmap_cons in HN, HM. apply list.NoDup_cons in HN as [Hni HN]. cbn [for_each].
  rewrite (Hg i) by left. cbn.
  destruct (free_sector_ok bm (f i) WF) as (b1 & -> & WF1 & Hb1 & HM1); [apply HM; left|]. cbn.
  destruct (IH b1) as (bm' & -> & WF' & Hb' & HM'); try done.
  - intros j Hj. apply Hg. by right.
  - intros x Hx. rewrite HM1. apply elem_of_difference. split; [apply HM; by right|].
    rewrite elem_of_singleton. by intros ->.
  - exists bm'. split_and!; try done; [congruence|]. rewrite HM', HM1. cbn. set_solver.
Qed.

Lemma block_direct ds c j : 0 ≤ j < NumDirect → zlen ds = NumDirect + NumSecondIndex →
  aget ds j = Ok (block ds c j).
Proof.
  intros Hj Hl. destruct (znth_range ds j) as [x Hx]; [consts; lia|].
  rewrite (proj2 (aget_Ok _ _ _) Hx). unfold block. destruct (Z.ltb_spec j NumDirect); [|lia].
  by rewrite Hx.
Qed.
Lemma index_aget ds i : 0 ≤ i < NumSecondIndex → zlen ds = NumDirect + NumSecondIndex →
  aget ds (NumDirect + i) = Ok (index_sector ds i).
Proof.
  intros Hj Hl. destruct (znth_range ds (NumDirect + i)) as [x Hx]; [consts; lia|].
  rewrite (proj2 (aget_Ok _ _ _) Hx). unfold index_sector. by rewrite Hx.
Qed.
Lemma block_entry ds c i j :
  0 ≤ i → 0 ≤ j < SecondDirect →
  aget (dec_ints SecondDirect (c (index_sector ds i))) j =
    Ok (block ds c (NumDirect + SecondDirect * i + j)).
Proof.
  intros Hi Hj. apply aget_Ok. rewrite znth_dec_ints by done. unfold block. consts.
  destruct (Z.ltb_spec (6 + 32 * i + j) 6); [lia|].
  replace (6 + 32 * i + j - 6) with (j + i * 32) by lia.
  by rewrite Z.div_add, Z.div_small, Z.mod_add, Z.mod_small, Z.add_0_l by lia.
Qed.

Lemma dealloc_direct_ok h c n bm :
  zlen (dataSectors h) = NumDirect + NumSecondIndex → 0 ≤ n ≤ NumDirect → wf bm →
  NoDup (block (dataSectors h) c <$> seqZ 0 n) →
  (∀ x, x ∈ block (dataSectors h) c <$> seqZ 0 n → x ∈ marked bm) →
  ∃ bm', dealloc_direct h n bm = Ok bm' ∧ wf bm' ∧ numBits bm' = numBits bm ∧
    marked bm' = marked bm ∖ list_to_set (block (dataSectors h) c <$> seqZ 0 n).
Proof.
  intros Hl Hn WF HN HM. apply free_all; try done.
  intros i Hi%elem_of_seqZ. apply block_direct; [lia|done].
Qed.

(** The sectors the loop over the index sectors still has to free. *)
Definition tail (ds : list Z) (c : Z → list Z) (i rest k : Z) : list Z :=
  (block ds c <$> seqZ (NumDirect + SecondDirect * i) rest) ++
  (index_sector ds <$> seqZ i (k - i)).

Lemma tail_step ds c i rest k num1 :
  i < k → 0 ≤ num1 ≤ rest → (rest - num1 = 0 ∨ num1 = SecondDirect) →
  tail ds c i rest k ≡ₚ
    (block ds c <$> seqZ (NumDirect + SecondDirect * i) num1) ++
    index_sector ds i :: tail ds c (i + 1) (rest - num1) k.
Proof.
  intros Hi Hn Hc. unfold tail.
  replace (seqZ (NumDirect + SecondDirect * i) rest) with
    (seqZ (NumDirect + SecondDirect * i) (num1 + (rest - num1))) by (f_equal; lia).
  rewrite seqZ_app, fmap_app by lia. rewrite (seqZ_cons i) by lia. rewrite fmap_cons.
  replace (Z.succ i) with (i + 1) by lia. replace (Z.pred (k - i)) with (k - (i + 1)) by lia.
  rewrite <-app_assoc. f_equiv.
  replace (seqZ (NumDirect + SecondDirect * i + num1) (rest - num1)) with
    (seqZ (NumDirect + SecondDirect * (i + 1)) (rest - num1)); [by rewrite Permutation_middle|].
  destruct Hc as [Hc|Hc]; rewrite Hc; [done|]. f_equal. lia.
Qed.

Lemma dealloc_second_ok h c fuel i rest k bm s o r :
  zlen (dataSectors h) = NumDirect + NumSecondIndex → 0 ≤ i → 0 ≤ rest →
  k = i + chunks rest → k ≤ NumSecondIndex → chunks rest ≤ Z.of_nat fuel →
  NoDup (tail (dataSectors h) c i rest k) → wf bm → numBits bm = NumSectors →
  (∀ x, x ∈ tail (dataSectors h) c i rest k → x ∈ marked bm) → represents s c o r →
  ∃ bm' s', dealloc_second h fuel i rest bm s = Ok (bm', s') ∧ represents s' c o r ∧
    wf bm' ∧ numBits bm' = NumSectors ∧
    marked bm' = marked bm ∖ list_to_set (tail (dataSectors h) c i rest k).
Proof.
  intros Hl. revert i rest bm s.
  induction fuel as [|fuel IH]; intros i rest bm s Hi Hr Hk Hk5 Hfu HN WF Hb HM HR;
    (destruct (decide (rest = 0)) as [->|Hne];
      [assert (k = i) as -> by (change (chunks 0) with 0 in Hk; lia); exists bm, s;
       split_and!; try done; unfold tail; rewrite !seqZ_nil by lia; cbn; set_solver|]).
  { exfalso. unfold chunks in *. Z.to_euclidean_division_equations. lia. }
  remember (if rest <? SecondDirect then rest else SecondDirect) as num1 eqn:Enum.
  assert (1 ≤ num1 ≤ 32 ∧ num1 ≤ rest ∧ chunks rest = 1 + chunks (rest - num1) ∧
    0 ≤ chunks (rest - num1) ∧ (rest - num1 = 0 ∨ num1 = SecondDirect)) as (Hn1 & Hn2 & Hch & Hch0 & Hfull).
  { rewrite Enum. unfold chunks. consts. destruct (Z.ltb_spec rest 32);
      Z.to_euclidean_division_equations; lia. }
  set (ds := dataSectors h) in *. set (ix := index_sector ds i).
  rewrite (tail_step ds c i rest k num1) in HN by (done || lia).
  assert (∀ x, x ∈ (block ds c <$> seqZ (NumDirect + SecondDirect * i) num1) ++
     ix :: tail ds c (i + 1) (rest - num1) k → x ∈ marked bm) as HM'.
  { intros x Hx. apply HM. by rewrite (tail_step ds c i rest k num1) by (done || lia). }
  apply list.NoDup_app in HN as (HN1 & HN12 & HN2). apply list.NoDup_cons in HN2 as [HNx HN2].
  destruct (ReadSector_ok s c o r ix blank HR) as (s1 & HRd & HR1).
  { assert (ix ∈ marked bm) as Hix by (apply HM'; rewrite elem_of_app, elem_of_cons; tauto).
    apply elem_of_marked in Hix. rewrite Hb in Hix. tauto. }
  { done. }
  destruct (free_all (λ j, aget (dec_ints SecondDirect (c ix)) j)
    (λ j, block ds c (NumDirect + SecondDirect * i + j)) (seqZ 0 num1) bm)
    as (b1 & HF1 & WF1 & Hb1 & HM1).
  { intros j Hj%elem_of_seqZ. apply block_entry; [done|]. consts. lia. }
  { by rewrite <-fmap_seqZ_shift. }
  { done. }
  { intros x Hx. apply HM'. rewrite <-fmap_seqZ_shift in Hx. apply elem_of_app. by left. }
  rewrite <-fmap_seqZ_shift in HM1.
  destruct (free_sector_ok b1 ix WF1) as (b2 & HF2 & WF2 & Hb2 & HM2).
  { rewrite HM1, elem_of_difference, elem_of_list_to_set. split.
    - apply HM'. rewrite elem_of_app, elem_of_cons. tauto.
    - intros Hin. apply (HN12 _ Hin). by left. }
  destruct (IH (i + 1) (rest - num1) b2 s1) as (bm' & s' & HE & HR' & WF' & Hb' & HM3);
    try done; try lia.
  { intros x Hx. rewrite HM2, HM1, !elem_of_difference, elem_of_list_to_set, elem_of_singleton.
    split_and!.
    - apply HM'. rewrite elem_of_app, elem_of_cons. tauto.
    - intros Hin. apply (HN12 _ Hin). by right.
    - by intros ->. }
  exists bm', s'. split_and!; try done.
  - cbn [dealloc_second]. destruct (Z.gtb_spec rest 0); [|lia].
    step (index_aget ds i ltac:(lia) Hl). step HRd. rewrite <-Enum. step HF1. by step HF2.
  - rewrite HM3, HM2, HM1. assert (i < k) as Hik by lia.
    rewrite (list_to_set_perm_L _ _ (tail_step ds c i rest k num1 Hik ltac:(lia) Hfull)).
    fold ix. rewrite list_to_set_app_L. cbn [list_to_set]. clear. set_solver.
Qed.

Lemma nidx_chunks n : NumDirect < n → nidx n = chunks (n - NumDirect).
Proof. intros. unfold nidx. by destruct (Z.leb_spec n NumDirect); [lia|]. Qed.
Lemma nidx_small n : n ≤ NumDirect → nidx n = 0.
Proof. intros. unfold nidx. by destruct (Z.leb_spec n NumDirect); [|lia]. Qed.
Lemma layout_bound ds c n k : layout ds c n k → 0 ≤ n ≤ 166.
Proof. intros []. consts. lia. Qed.

Lemma Deallocate_ok h c bm s o r :
  hdr_ok h c → wf bm → numBits bm = NumSectors → represents s c o r →
  fpset (dataSectors h) c (numSectors h) (nidx (numSectors h)) ⊆ marked bm →
  ∃ bm' s', Deallocate h bm s = Ok (bm', s') ∧ represents s' c o r ∧
    wf bm' ∧ numBits bm' = NumSectors ∧
    marked bm' = marked bm ∖ fpset (dataSectors h) c (numSectors h) (nidx (numSectors h)).
Proof.
  intros L WF Hb HR HM. unfold hdr_ok in L. set (n := numSectors h) in *.
  set (ds := dataSectors h) in *. pose proof (ly_len _ _ _ _ L) as Hl.
  pose proof (layout_bound _ _ _ _ L) as Hn. pose proof (ly_nodup _ _ _ _ L) as HN.
  assert (∀ x, x ∈ footprint ds c n (nidx n) → x ∈ marked bm) as HM'.
  { intros x Hx. apply HM. by apply elem_of_list_to_set. }
  unfold Deallocate. fold n. rewrite u32_small by (unfold is_u32; lia).
  unfold fpset in *. destruct (Z.leb_spec n NumDirect) as [Hs|Hs].
  - rewrite nidx_small in * by done. unfold footprint in *.
    change (index_sector ds <$> seqZ 0 0) with (@nil Z) in *. rewrite app_nil_r in *.
    destruct (dealloc_direct_ok h c n bm) as (bm' & HD & WF' & Hb' & HM2); try done; [lia|].
    exists bm', s. split_and!; try done; [by rewrite HD|congruence].
  - rewrite nidx_chunks in * by done. set (k := chunks (n - NumDirect)) in *.
    assert (footprint ds c n k ≡ₚ (block ds c <$> seqZ 0 NumDirect) ++ tail ds c 0 (n - NumDirect) k) as HP.
    { unfold footprint, tail. rewrite Z.mul_0_r, Z.add_0_r, Z.sub_0_r.
      replace (seqZ 0 n) with (seqZ 0 (NumDirect + (n - NumDirect))) by (f_equal; lia).
      rewrite seqZ_app, fmap_app, app_assoc by (consts; lia). done. }
    rewrite HP in HN. apply list.NoDup_app in HN as (HN1 & HN12 & HN2).
    setoid_rewrite HP in HM'. setoid_rewrite elem_of_app in HM'.
    destruct (dealloc_direct_ok h c NumDirect bm) as (b1 & HD1 & WF1 & Hb1 & HM1); try done;
      [by auto|].
    destruct (dealloc_second_ok h c (Z.to_nat n) 0 (n - NumDirect) k b1 s o r)
      as (bm' & s' & HD2 & HR' & WF' & Hb' & HM2); try done; try lia.
    + pose proof (ly_k _ _ _ _ L). lia.
    + unfold chunks. consts. Z.to_euclidean_division_equations. lia.
    + intros x Hx. rewrite HM1, elem_of_difference, elem_of_list_to_set. split; [auto|].
      intros Hin. by apply (HN12 x).
    + exists bm', s'. step HD1. fold n. split_and!; try done.
      rewrite HM2, HM1, (list_to_set_perm_L _ _ HP), list_to_set_app_L. clear. set_solver.
Qed.

(** ** Translation of offsets *)

Lemma ByteToSector_ok h c offset k s o r :
  layout (dataSectors h) c (numSectors h) k → represents s c o r →
  0 ≤ offset < numSectors h * SectorSize →
  ∃ s', ByteToSector h offset s = Ok (block (dataSectors h) c (offset / SectorSize), s') ∧
    represents s' c o r.
Proof.
  intros L HR Ho. pose proof (ly_len _ _ _ _ L) as Hl. pose proof (layout_bound _ _ _ _ L) as Hn.
  unfold ByteToSector. rewrite Z.quot_div_nonneg by (consts; lia).
  set (q := offset / SectorSize) in *.
  assert (0 ≤ q < numSectors h) as Hq by (unfold q; consts; Z.to_euclidean_division_equations; lia).
  rewrite u32_small by (unfold is_u32; lia). destruct (Z.ltb_spec q NumDirect) as [Hd|Hd].
  - exists s. split; [|done]. unfold lift. by rewrite (block_direct _ c) by (done || lia).
  - rewrite u32_small by (unfold is_u32; consts; lia).
    pose proof (block_index _ _ _ _ q L ltac:(lia)) as Hi. pose proof (ly_k _ _ _ _ L) as Hk.
    set (i := (q - NumDirect) / SecondDirect) in *.
    step (index_aget (dataSectors h) i ltac:(lia) Hl).
    assert (0 ≤ index_sector (dataSectors h) i < NumSectors) as Hix.
    { pose proof (ly_valid _ _ _ _ L) as HV. rewrite list.Forall_forall in HV. apply HV.
      apply elem_of_footprint. right. eauto. }
    destruct (ReadSector_ok s c o r _ blank HR Hix) as (s' & HRd & HR'); [done|]. step HRd.
    exists s'. split; [|done]. unfold lift.
    assert (0 ≤ q - NumDirect - i * SecondDirect < SecondDirect) as Hj
      by (unfold i; consts; Z.to_euclidean_division_equations; lia).
    rewrite block_entry by (done || lia). do 3 f_equal. lia.
Qed.
End proofs.

(** ** Headers on disk *)

Record hdr_bytes (h : FileHeader) : Prop := {
  hb_create : zlen (create_time h) = 25;
  hb_visit : zlen (visit_time h) = 25;
  hb_modify : zlen (modify_time h) = 25;
  hb_pad : zlen (pad h) = 1;
  hb_bytes : is_s32 (numBytes h);
  hb_sectors : is_s32 (numSectors h);
  hb_ds : zlen (dataSectors h) = NumDirect + NumSecondIndex ∧ Forall is_s32 (dataSectors h)
}.

Lemma zlen_le_split n w : zlen (le_split n w) = Z.of_nat n.
Proof. unfold zlen. by rewrite length_le_split. Qed.

Lemma encode_length h : hdr_bytes h → zlen (encode h) = SectorSize.
Proof.
  intros []. unfold encode. rewrite !zlen_app, !zlen_le_split, zlen_enc_ints. consts. lia.
Qed.

Lemma int_at_split w l : is_s32 w → int_at (le_split 4 w ++ l) 0 = w.
Proof.
  intros Hw. unfold int_at. rewrite read_at_app_l by (rewrite ?zlen_le_split; lia).
  rewrite read_at_all by apply zlen_le_split. rewrite le_combine_split.
  change (8 * Z.of_nat 4) with 32. fold (u32 w). rewrite s32_u32. by apply s32_small.
Qed.
Lemma int_at_app_r l1 l2 off : zlen l1 ≤ off → int_at (l1 ++ l2) off = int_at l2 (off - zlen l1).
Proof. intros. unfold int_at. by rewrite read_at_app_r. Qed.
Lemma read_at_app_eq l1 l2 n : zlen l1 = n → read_at (l1 ++ l2) 0 n = l1.
Proof.
  intros. pose proof (zlen_nonneg l1). rewrite read_at_app_l by lia. by apply read_at_all.
Qed.

Lemma decode_encode h : hdr_bytes h → decode (encode h) = h.
Proof.
  intros [H1 H2 H3 H4 H5 H6 [H7 H8]]. unfold decode, encode. destruct h as [ct vt mt pd nb ns ds].
  cbn in *. f_equal.
  - by apply read_at_app_eq.
  - rewrite read_at_app_r by lia. rewrite H1. by apply read_at_app_eq.
  - rewrite !read_at_app_r by lia. rewrite H1, H2. by apply read_at_app_eq.
  - rewrite !read_at_app_r by lia. rewrite H1, H2, H3. by apply read_at_app_eq.
  - rewrite !int_at_app_r by lia. rewrite H1, H2, H3, H4. by apply int_at_split.
  - rewrite !int_at_app_r by (rewrite ?zlen_le_split; lia).
    rewrite H1, H2, H3, H4, zlen_le_split. by apply int_at_split.
  - rewrite !read_at_app_r by (rewrite ?zlen_le_split; lia).
    rewrite H1, H2, H3, H4, !zlen_le_split.
    replace (84 - 25 - 25 - 25 - 1 - Z.of_nat 4 - Z.of_nat 4) with 0 by lia.
    fold (enc_ints ds). rewrite (read_at_all (enc_ints ds) 44) by (rewrite zlen_enc_ints, H7; done).
    rewrite <-H7. by apply dec_enc_ints.
Qed.
