(* ===== verification/FileHdrExtend.v ===== *)
(** * Extending a file: [FileHeader::extendLength]

    Functional correctness of the extension when the disk has room, the behaviour
    when it has not, and the properties of filehdr.cc that follow from FileHdr.v. *)

From S2P Require Import Prelude BitMap Disk SectorStore SynchDisk FileHdr.

Lemma take_sector_find b bm :
  take_sector false (b, bm) = ('(x, bm) ← Find bm; Ok (x, (b, bm))).
Proof. done. Qed.

(** The guarded loops of [extendLength] are [fill]s of the right length. *)
Lemma ext_fill_fill b p q arr n rest bm :
  0 ≤ q → 0 ≤ rest →
  ext_fill (seqZ p q) arr n rest bm =
    ('(arr', a) ← fill false p (Z.min q rest) arr (b, bm);
     Ok (arr', n + Z.min q rest, rest - Z.min q rest, a.2)).
Proof.
  remember (Z.to_nat q) as k eqn:Hk. revert p q arr n rest bm Hk.
  induction k as [|k IH]; intros p q arr n rest bm Hk Hq Hr.
  - assert (q = 0) as -> by lia. rewrite Z.min_l by lia. unfold fill. cbn.
    by rewrite Z.add_0_r, Z.sub_0_r.
  - rewrite seqZ_cons by lia. cbn [ext_fill]. destruct (Z.gtb_spec rest 0) as [Hp|Hp].
    + unfold fill. rewrite (seqZ_cons p) by lia. cbn [for_each]. rewrite take_sector_find.
      destruct (Find bm) as [[x bm1]|]; [|done]. cbn. destruct (aset arr p x) as [arr1|]; [|done].
      cbn. rewrite IH by lia. unfold fill.
      replace (Z.pred (Z.min q rest)) with (Z.min (Z.pred q) (rest - 1)) by lia.
      destruct (for_each _ _ _) as [[ar [b' bm']]|]; [|done]. cbn. do 3 f_equal; [f_equal|]; lia.
    + assert (rest = 0) as -> by lia. rewrite Z.min_r by lia. unfold fill. cbn.
      by rewrite Z.add_0_r.
Qed.

Lemma nidx_mono n n' : 0 ≤ n ≤ n' → 0 ≤ nidx n ≤ nidx n'.
Proof.
  intros Hn. unfold nidx. consts. destruct (Z.leb_spec n 6), (Z.leb_spec n' 6);
    Z.to_euclidean_division_equations; lia.
Qed.
Lemma nidx_full k : 0 ≤ k → nidx (NumDirect + SecondDirect * k) = k.
Proof.
  intros. unfold nidx. consts. destruct (Z.leb_spec (6 + 32 * k) 6); [lia|].
  Z.to_euclidean_division_equations. lia.
Qed.
Lemma nidx_part k n :
  0 ≤ k → NumDirect + SecondDirect * k < n ≤ NumDirect + SecondDirect * (k + 1) → nidx n = k + 1.
Proof.
  intros. unfold nidx. consts. destruct (Z.leb_spec n 6); [lia|].
  Z.to_euclidean_division_equations. lia.
Qed.

Section extend.
Context {S : Type} `{SectorStoreLaws S}.
Context (heap : Z → list Z) (Hheap : ∀ i, zlen (heap i) = SecondDirect).
Context (ds0 : list Z) (c0 : Z → list Z) (n0 : Z) (M0 F0 : gset Z) (HF0 : F0 ⊆ M0).
Context (o : Z → Z) (r : Z → rwstate).

(** The state during the extension of the file [ds0], [c0], [n0], whose sectors are
    [F0], on a disk whose map was [M0]; [m] sectors can still be found. *)
Record ext_state (ds : list Z) (c : Z → list Z) (n : Z) (bm : BitMap) (m : Z) : Prop := {
  ex_layout : layout ds c n (nidx n);
  ex_supply : ∃ A, supply M0 ∅ false (0, bm) A m ∧ fpset ds c n (nidx n) = F0 ∪ A;
  ex_agree : agree ds0 ds c0 c n0 (nidx n0);
  ex_frame : frame ds (nidx n) c0 c;
  ex_n : n0 ≤ n;
  ex_ints : ints_kept ds0 ds
}.

(** One more step with the same index sectors known so far. *)
Lemma ext_state_step ds c n bm m ds' c' n' bm' m' A' :
  ext_state ds c n bm m → n ≤ n' → layout ds' c' n' (nidx n') →
  supply M0 ∅ false (0, bm') A' m' → fpset ds' c' n' (nidx n') = F0 ∪ A' →
  agree ds ds' c c' n (nidx n) → frame ds' (nidx n') c c' → ints_kept ds ds' → 0 ≤ n0 →
  ext_state ds' c' n' bm' m'.
Proof.
  intros [L (A & HS & HE) HA HF Hn HI] Hnn L' HS' HE' HA' HF' HI' Hn0.
  assert (nidx n ≤ nidx n' ∧ nidx n0 ≤ nidx n) as [Hk Hk0].
  { pose proof (ly_n _ _ _ _ L). split; apply nidx_mono; lia. }
  split; [done|by exists A'| | |lia|by intros ?%HI%HI'].
  - eapply agree_trans; [exact HA|exact HA'|lia|lia].
  - eapply frame_trans; [exact HF|exact HF'|lia|]. apply HA'.
Qed.

Lemma ext_direct_ok ds c n bm m rest :
  ext_state ds c n bm m → 0 ≤ n0 → n < NumDirect → 0 ≤ rest → rest ≤ m →
  ∃ ds' bm', ext_fill (seqZ n (NumDirect - n)) ds n rest bm =
      Ok (ds', n + Z.min (NumDirect - n) rest, rest - Z.min (NumDirect - n) rest, bm') ∧
    ext_state ds' c (n + Z.min (NumDirect - n) rest) bm' (m - Z.min (NumDirect - n) rest).
Proof.
  intros HX Hn0 Hn Hr Hm. pose proof HX as [L (A & HS & HE) _ _ _ _].
  pose proof (ly_n _ _ _ _ L) as Hnn. set (t := Z.min (NumDirect - n) rest).
  assert (0 ≤ t ∧ n + t ≤ NumDirect ∧ t ≤ m) as (Ht0 & Ht1 & Ht2) by lia.
  rewrite nidx_small in L, HE by lia.
  destruct (fill_direct M0 ∅ F0 false ds c t (0, bm) A m n)
    as (ds' & [b' bm'] & A' & HF & L' & HA' & HS' & HE' & HI'); try done; try lia.
  exists ds', bm'. rewrite (ext_fill_fill 0) by lia. fold t. rewrite HF. cbn. split; [done|].
  eapply ext_state_step with (A' := A'); try done; rewrite ?nidx_small by lia; try done; [lia|].
  by destruct HS'.
Qed.

(** The two statements of one iteration. *)
Lemma ext_new_ok ds c k bm m rest s :
  let n := NumDirect + SecondDirect * k in
  ext_state ds c n bm m → 0 ≤ n0 → 0 ≤ k < NumSecondIndex → 0 < rest →
  Z.min SecondDirect rest + 1 ≤ m → represents s c o r →
  ∃ ds' bm' s' c', ext_new heap (k + 1) ds n rest bm s =
      Ok ((ds', n + Z.min SecondDirect rest, rest - Z.min SecondDirect rest, bm'), s') ∧
    represents s' c' o r ∧
    ext_state ds' c' (n + Z.min SecondDirect rest) bm' (m - (Z.min SecondDirect rest + 1)).
Proof.
  cbv zeta. intros HX Hn0 Hk Hr Hm HR. pose proof HX as [L (A & HS & HE) _ _ _ _].
  rewrite nidx_full in L, HE by lia. set (t := Z.min SecondDirect rest) in *.
  assert (1 ≤ t ≤ 32) as Ht by (unfold t; consts; lia).
  destruct (alloc_index M0 ∅ F0 false ds c k (heap (k + 1)) t (0, bm) A m s o r)
    as (x & [b1 bm1] & arr' & [b2 bm2] & A' & s' & c' & HT & HAs & HFi & HW & HR' & L' & HS' & HE' & HA' & HFr & HI');
    try done; try (consts; lia).
  rewrite take_sector_find in HT. destruct (Find bm) as [[x' bm']|] eqn:HFd; [|done].
  cbn in HT. injection HT as -> <- ->.
  assert (ext_fill (seqZ 0 SecondDirect) (heap (k + 1)) (NumDirect + SecondDirect * k) rest bm1 =
    Ok (arr', NumDirect + SecondDirect * k + t, rest - t, bm2)) as HEF.
  { rewrite (ext_fill_fill 0) by (consts; lia). fold t. by rewrite HFi. }
  exists (zset ds (NumDirect + k) x), bm2, s', c'. split_and!.
  - unfold ext_new. rewrite u32_small by (unfold is_u32; consts; lia).
    replace (k + 1 - 1) with k by lia. rewrite (Z.mul_comm k), Z.eqb_refl. step HFd.
    replace (NumDirect + (k + 1) - 1) with (NumDirect + k) by lia. step HAs. step HEF. by step HW.
  - done.
  - assert (nidx (NumDirect + SecondDirect * k + t) = k + 1) as Hk1 by (apply nidx_part; consts; lia).
    eapply ext_state_step with (A' := A'); try done; rewrite ?Hk1, ?nidx_full; try done; try lia.
    by destruct HS'.
Qed.

Lemma ext_more_ok ds c k bm m rest n s :
  ext_state ds c n bm m → 0 ≤ n0 → 0 ≤ k →
  NumDirect + SecondDirect * k < n < NumDirect + SecondDirect * (k + 1) →
  0 < rest → rest ≤ m → represents s c o r →
  let t := Z.min (NumDirect + SecondDirect * (k + 1) - n) rest in
  ∃ bm' s' c', ext_more (k + 1) ds n rest bm s = Ok ((ds, n + t, rest - t, bm'), s') ∧
    represents s' c' o r ∧ ext_state ds c' (n + t) bm' (m - t).
Proof.
  intros HX Hn0 Hk Hn Hr Hm HR t. pose proof HX as [L (A & HS & HE) _ _ _ _].
  assert (nidx n = k + 1) as Hk1 by (apply nidx_part; lia). rewrite Hk1 in L, HE.
  pose proof (ly_k _ _ _ _ L) as Hk5. pose proof (ly_len _ _ _ _ L) as Hl.
  assert (1 ≤ t ∧ t ≤ rest ∧ n + t ≤ NumDirect + SecondDirect * (k + 1)) as (Ht1 & Ht2 & Ht3) by lia.
  set (ix := index_sector ds k). set (arr := dec_ints SecondDirect (c ix)).
  assert (0 ≤ ix < NumSectors) as Hix.
  { pose proof (ly_valid _ _ _ _ L) as HV. rewrite list.Forall_forall in HV. apply HV.
    apply elem_of_footprint. right. exists k. split; [lia|done]. }
  assert (zlen arr = SecondDirect) as Harr.
  { unfold arr, dec_ints. by rewrite zlen_fmap, zlen_seqZ. }
  assert (agree ds ds c (upd c ix (enc_ints arr)) n (k + 1)) as HA1.
  { split; [|done]. intros j Hj. unfold block. destruct (Z.ltb_spec j NumDirect); [done|].
    unfold upd. case_bool_decide as E; [|done]. rewrite E.
    apply int_at_enc; [|apply s32_range]. unfold arr. apply znth_dec_ints.
    apply Z.mod_pos_bound. consts. lia. }
  destruct (ReadSector_ok s c o r ix blank HR Hix) as (s1 & HRd & HR1); [done|].
  destruct (fill_entries M0 ∅ F0 false ds c (k + 1) ix arr t (0, bm) A m n)
    as (arr' & [b' bm'] & A' & HFi & L' & Hl' & HA' & HS' & HE'); try done; try lia.
  { eapply layout_agree; [exact L|done|exact HA1]. }
  { by replace (k + 1 - 1) with k by lia. }
  { unfold fpset. by rewrite (footprint_agree _ _ _ _ _ _ HA1). }
  destruct (WriteSector_ok s1 c o r ix (enc_ints arr') HR1 Hix) as (s2 & HW & HR2).
  { rewrite zlen_enc_ints. consts. lia. }
  exists bm', s2, (upd c ix (enc_ints arr')). split_and!.
  - unfold ext_more. rewrite u32_small by (unfold is_u32; consts; lia).
    replace (k + 1 - 1) with k by lia.
    rewrite (proj2 (Z.gtb_lt n _)) by lia. rewrite (proj2 (Z.ltb_lt n _)) by lia.
    rewrite (proj2 (Z.gtb_lt rest 0)) by lia. cbn [andb].
    replace (NumDirect + (k + 1) - 1) with (NumDirect + k) by lia.
    step (index_aget ds k ltac:(lia) Hl). fold ix. step HRd. fold arr.
    rewrite u32_small by (unfold is_u32; consts; lia).
    replace ((n - NumDirect) mod SecondDirect) with (n - (NumDirect + SecondDirect * k))
      by (consts; Z.to_euclidean_division_equations; lia).
    assert (ext_fill (seqZ (n - (NumDirect + SecondDirect * k))
      (SecondDirect - (n - (NumDirect + SecondDirect * k)))) arr n rest bm =
      Ok (arr', n + t, rest - t, bm')) as HEF.
    { rewrite (ext_fill_fill 0) by lia.
      replace (Z.min (SecondDirect - _) rest) with t by (unfold t; consts; lia).
      replace (k + 1 - 1) with k in HFi by lia. by rewrite HFi. }
    step HEF. by step HW.
  - done.
  - assert (nidx (n + t) = k + 1) as Hk2 by (apply nidx_part; lia).
    eapply ext_state_step with (A' := A'); try done; rewrite ?Hk1, ?Hk2; try done; try lia.
    + by destruct HS'.
    + eapply agree_trans; [exact HA1|exact HA'|lia|lia].
    + intros y Hy. apply upd_ne. apply Hy. lia.
Qed.

(** One iteration with room in the index sector adds [t] blocks. *)
Definition ext_adds (k : Z) (ds : list Z) (n rest : Z) (bm : BitMap) (m : Z) (s : S) : Prop :=
  ∃ t ds' bm' s' c', ext_iter heap (k + 1) ds n rest bm s = Ok ((ds', n + t, rest - t, bm'), s') ∧
    represents s' c' o r ∧ ext_state ds' c' (n + t) bm' (m - (t + (nidx (n + t) - nidx n))) ∧
    0 < t ≤ rest ∧ (t < rest → n + t = NumDirect + SecondDirect * (k + 1)).

Lemma ext_iter_new ds c k bm m rest s :
  let n := NumDirect + SecondDirect * k in
  0 ≤ k < NumSecondIndex → 0 ≤ n0 → ext_state ds c n bm m → 0 < rest →
  rest + (nidx (n + rest) - nidx n) ≤ m → represents s c o r → ext_adds k ds n rest bm m s.
Proof.
  cbv zeta. intros Hk Hn0 HX Hr Hm HR. rewrite (nidx_full k) in Hm by lia.
  pose proof (nidx_mono (NumDirect + SecondDirect * k + 1) (NumDirect + SecondDirect * k + rest)) as HM.
  rewrite (nidx_part k) in HM by (consts; lia).
  destruct (ext_new_ok ds c k bm m rest s HX) as (ds1 & bm1 & s1 & c1 & HE & HR1 & HX1);
    try done; try (consts; lia).
  set (t := Z.min SecondDirect rest) in *. assert (0 < t ≤ rest) by (unfold t; consts; lia).
  assert (nidx (NumDirect + SecondDirect * k + t) = k + 1) as Hk1
    by (apply nidx_part; unfold t; consts; lia).
  exists t, ds1, bm1, s1, c1. rewrite Hk1, nidx_full by lia. split_and!; try done; try lia.
  - unfold ext_iter. step HE. destruct (Z.leb_spec (rest - t) 0) as [|Hp]; [done|].
    assert (t = 32) as Et by (unfold t in *; consts; lia). rewrite Et.
    unfold ext_more. rewrite u32_small by (unfold is_u32; consts; lia).
    rewrite (proj2 (Z.ltb_ge _ (NumDirect + (k + 1) * SecondDirect))) by (consts; lia).
    by rewrite andb_false_r.
  - by replace (k + 1 - k) with 1 by lia.
Qed.

Lemma ext_iter_more ds c k bm m rest n s :
  0 ≤ k → 0 ≤ n0 → ext_state ds c n bm m → 0 < rest ≤ m →
  NumDirect + SecondDirect * k < n < NumDirect + SecondDirect * (k + 1) →
  represents s c o r → ext_adds k ds n rest bm m s.
Proof.
  intros Hk Hn0 HX Hr Hn HR. pose proof (layout_bound _ _ _ _ (ex_layout _ _ _ _ _ HX)) as Hb.
  destruct (ext_more_ok ds c k bm m rest n s HX) as (bm1 & s1 & c1 & HE & HR1 & HX1); try done; try lia.
  set (t := Z.min (NumDirect + SecondDirect * (k + 1) - n) rest) in *.
  exists t, ds, bm1, s1, c1. rewrite !(nidx_part k), Z.sub_diag, Z.add_0_r by lia.
  split_and!; try done; try lia.
  assert (ext_new heap (k + 1) ds n rest bm s = Ok ((ds, n, rest, bm), s)) as HN.
  { unfold ext_new. rewrite u32_small by (unfold is_u32; lia).
    replace (k + 1 - 1) with k by lia. by rewrite (proj2 (Z.eqb_neq n _)) by lia. }
  unfold ext_iter. step HN. by destruct (Z.leb_spec rest 0); [lia|].
Qed.

(** An index sector that is already full is skipped. *)
Lemma ext_iter_skip ds k bm rest n s :
  0 ≤ k → n ≤ 166 → NumDirect + SecondDirect * (k + 1) ≤ n →
  ext_iter heap (k + 1) ds n rest bm s = Ok ((ds, n, rest, bm), s).
Proof.
  intros Hk Hb Hn. unfold ext_iter.
  assert (ext_new heap (k + 1) ds n rest bm s = Ok ((ds, n, rest, bm), s)) as HN.
  { unfold ext_new. rewrite u32_small by (unfold is_u32; consts; lia).
    by rewrite (proj2 (Z.eqb_neq n _)) by (consts; lia). }
  step HN. destruct (rest <=? 0); [done|].
  unfold ext_more. rewrite u32_small by (unfold is_u32; consts; lia).
  rewrite (proj2 (Z.ltb_ge n (NumDirect + (k + 1) * SecondDirect))) by (consts; lia).
  by rewrite andb_false_r.
Qed.

Lemma ext_second_done l ds n bm s : ext_second heap l ds n 0 bm s = Ok ((ds, n, 0, bm), s).
Proof. by destruct l. Qed.

Lemma ext_second_ok j k ds c bm m rest n s :
  5 - k = Z.of_nat j → 0 ≤ k → 0 ≤ n0 → NumDirect + SecondDirect * k ≤ n →
  ext_state ds c n bm m → 0 ≤ rest → n + rest ≤ 166 →
  rest + (nidx (n + rest) - nidx n) ≤ m → represents s c o r →
  ∃ ds' bm' s' c', ext_second heap (seqZ (k + 1) (5 - k)) ds n rest bm s =
      Ok ((ds', n + rest, 0, bm'), s') ∧ represents s' c' o r ∧
    ext_state ds' c' (n + rest) bm' (m - (rest + (nidx (n + rest) - nidx n))).
Proof.
  revert k ds c bm m rest n s.
  induction j as [|j IH]; intros k ds c bm m rest n s Hj Hk Hn0 Hn HX Hr Hmax Hm HR;
    (destruct (decide (rest = 0)) as [->|Hne];
      [rewrite ext_second_done, Z.add_0_r, Z.sub_diag, Z.add_0_r, Z.sub_0_r; by exists ds, bm, s, c|]).
  { consts. lia. }
  rewrite seqZ_cons by lia. cbn [ext_second]. destruct (Z.leb_spec rest 0); [lia|].
  replace (Z.succ (k + 1)) with (k + 1 + 1) by lia.
  replace (Z.pred (5 - k)) with (5 - (k + 1)) by lia.
  pose proof (ly_n _ _ _ _ (ex_layout _ _ _ _ _ HX)) as Hn1.
  pose proof (nidx_mono n (n + rest)) as HM.
  destruct (decide (NumDirect + SecondDirect * (k + 1) ≤ n)) as [Hge|Hlt].
  { step (ext_iter_skip ds k bm rest n s Hk ltac:(lia) Hge). eapply IH; try done; lia. }
  assert (ext_adds k ds n rest bm m s) as (t & ds1 & bm1 & s1 & c1 & HE & HR1 & HX1 & Ht & Hfull).
  { destruct (decide (n = NumDirect + SecondDirect * k)) as [->|Hn'].
    - eapply ext_iter_new; try done; consts; lia.
    - eapply ext_iter_more; try done; lia. }
  step HE. destruct (decide (t = rest)) as [->|Ht'].
  { rewrite Z.sub_diag, ext_second_done. by exists ds1, bm1, s1, c1. }
  destruct (IH (k + 1) ds1 c1 bm1 (m - (t + (nidx (n + t) - nidx n))) (rest - t) (n + t) s1)
    as (ds2 & bm2 & s2 & c2 & HE2 & HR2 & HX2); try done; try lia.
  { replace (n + t + (rest - t)) with (n + rest) by lia. lia. }
  replace (n + t + (rest - t)) with (n + rest) in * by lia.
  exists ds2, bm2, s2, c2. split_and!; try done.
  by replace (m - (rest + (nidx (n + rest) - nidx n))) with
    (m - (t + (nidx (n + t) - nidx n)) - (rest - t + (nidx (n + rest) - nidx (n + t)))) by lia.
Qed.
End extend.

(** What a successful extension of [h] by [extra] blocks means. *)
Record extended (h h' : FileHeader) (c c' : Z → list Z) (bm bm' : BitMap) (bytes extra : Z) : Prop := {
  xt_bytes : numBytes h' = bytes;
  xt_sectors : numSectors h' = numSectors h + extra;
  xt_hdr : hdr_ok h' c';
  xt_blocks : ∀ j, 0 ≤ j < numSectors h →
    block (dataSectors h') c' j = block (dataSectors h) c j;
  xt_wf : wf bm' ∧ numBits bm' = NumSectors;
  xt_fresh : ∀ j, numSectors h ≤ j < numSectors h + extra →
    block (dataSectors h') c' j ∉ marked bm;
  xt_marked : marked bm' =
    marked bm ∪ fpset (dataSectors h') c' (numSectors h') (nidx (numSectors h'));
  xt_frame : frame (dataSectors h') (nidx (numSectors h')) c c';
  xt_grown : ∃ A, A ## marked bm ∧ fpset (dataSectors h') c' (numSectors h') (nidx (numSectors h')) =
    fpset (dataSectors h) c (numSectors h) (nidx (numSectors h)) ∪ A;
  xt_ints : ints_kept (dataSectors h) (dataSectors h');
  xt_times : create_time h' = create_time h ∧ visit_time h' = visit_time h ∧
    modify_time h' = modify_time h ∧ pad h' = pad h
}.

Lemma block_valid ds c n k j : layout ds c n k → 0 ≤ j < n → 0 ≤ block ds c j < NumSectors.
Proof.
  intros L Hj. pose proof (ly_valid _ _ _ _ L) as HV. rewrite list.Forall_forall in HV.
  apply HV, elem_of_footprint. left. by exists j.
Qed.
Lemma block_inj ds c n k j j' :
  layout ds c n k → 0 ≤ j < n → 0 ≤ j' < n → block ds c j = block ds c j' → j = j'.
Proof.
  intros L Hj Hj' HE. pose proof (ly_nodup _ _ _ _ L) as HN.
  unfold footprint in HN. apply list.NoDup_app in HN as (HN & _ & _).
  assert (∀ a, 0 ≤ a < n → (block ds c <$> seqZ 0 n) !! Z.to_nat a = Some (block ds c a)) as Hlk.
  { intros a Ha. rewrite list_lookup_fmap, lookup_seqZ_lt by lia. cbn. do 2 f_equal. lia. }
  pose proof (Hlk j Hj) as H1. rewrite HE in H1.
  pose proof (NoDup_lookup _ _ _ _ HN H1 (Hlk j' Hj')). lia.
Qed.
Lemma sector_index n off : 0 ≤ off < n * SectorSize → 0 ≤ off / SectorSize < n.
Proof. intros. consts. Z.to_euclidean_division_equations. lia. Qed.

Lemma footprint_fresh ds c n k n0 F0 M0 A :
  layout ds c n k → fpset ds c n k = F0 ∪ A → A ## M0 → 0 ≤ n0 →
  (∀ x, x ∈ F0 → (∃ j, 0 ≤ j < n0 ∧ x = block ds c j) ∨ (∃ i, 0 ≤ i < k ∧ x = index_sector ds i)) →
  ∀ j, n0 ≤ j < n → block ds c j ∉ M0.
Proof.
  intros L HE HD Hn0 HF0 j Hj HM. pose proof (ly_nodup _ _ _ _ L) as HN.
  unfold footprint in HN. apply list.NoDup_app in HN as (_ & HNI & _).
  assert (block ds c j ∈ fpset ds c n k) as Hin.
  { apply elem_of_list_to_set, elem_of_footprint. left. exists j. split; [lia|done]. }
  rewrite HE in Hin. apply elem_of_union in Hin as [Hin|Hin]; [|by apply (HD _ Hin)].
  destruct (HF0 _ Hin) as [(j' & Hj' & E)|(i & Hi & E)].
  - pose proof (block_inj _ _ _ _ j j' L ltac:(lia) ltac:(lia) E). lia.
  - apply (HNI (block ds c j)).
    + apply list_elem_of_fmap. exists j. split; [done|]. apply elem_of_seqZ. lia.
    + rewrite E. apply list_elem_of_fmap. exists i. split; [done|]. apply elem_of_seqZ. lia.
Qed.

Section theorems.
Context {S : Type} `{SectorStoreLaws S}.
Implicit Types (s : S) (c : Z → list Z) (o : Z → Z) (r : Z → rwstate).

Lemma extendLength_ok heap h c bm s o r bytes extra :
  (∀ i, zlen (heap i) = SecondDirect) → hdr_ok h c → represents s c o r →
  wf bm → numBits bm = NumSectors →
  fpset (dataSectors h) c (numSectors h) (nidx (numSectors h)) ⊆ marked bm →
  0 ≤ extra → numSectors h + extra ≤ 166 →
  Z.of_nat (size (marked bm)) + extra +
    (nidx (numSectors h + extra) - nidx (numSectors h)) ≤ NumSectors →
  ∃ h' bm' s' c', extendLength heap h bytes extra bm s = Ok ((true, h', bm'), s') ∧
    represents s' c' o r ∧ extended h h' c c' bm bm' bytes extra.
Proof.
  intros Hheap L HR WF Hb HF He Hmax Hroom. unfold hdr_ok in L.
  set (n := numSectors h) in *. set (ds := dataSectors h) in *.
  set (F0 := fpset ds c n (nidx n)) in *. pose proof (ly_n _ _ _ _ L) as Hn.
  set (m := NumSectors - Z.of_nat (size (marked bm))).
  assert (ext_state ds c n (marked bm) F0 ds c n bm m) as HX.
  { split; [done| |apply agree_refl|done|lia|done]. exists ∅. split; [|set_solver].
    split; cbn; try done; [set_solver|]. split; [set_solver|]. unfold m. lia. }
  pose proof (nidx_mono n (n + extra) ltac:(lia)) as HM.
  assert (∃ t ds1 bm1, lift (S := S) (if (u32 n <? NumDirect) && (extra >? 0)
      then ext_fill (seqZ n (NumDirect - n)) ds n extra bm else Ok (ds, n, extra, bm)) s =
      Ok ((ds1, n + t, extra - t, bm1), s) ∧ 0 ≤ t ≤ extra ∧ (t < extra → NumDirect ≤ n + t) ∧
      (n + t ≤ NumDirect ∨ t = 0) ∧
      ext_state ds c n (marked bm) F0 ds1 c (n + t) bm1 (m - t)) as (t & ds1 & bm1 & HD & Ht & Hfull & Hle & HX1).
  { rewrite u32_small by (unfold is_u32; lia).
    destruct (Z.ltb_spec n NumDirect) as [Hd|Hd], (Z.gtb_spec extra 0) as [Hp|Hp]; cbn [andb].
    - destruct (ext_direct_ok ds c n (marked bm) F0 HF ds c n bm m extra HX)
        as (ds1 & bm1 & HE & HX1); try done; try lia.
      exists (Z.min (NumDirect - n) extra), ds1, bm1. rewrite HE. split_and!; try done; lia.
    - exists 0, ds, bm. rewrite Z.add_0_r, !Z.sub_0_r. split_and!; try done; lia.
    - exists 0, ds, bm. rewrite Z.add_0_r, !Z.sub_0_r. split_and!; try done; lia.
    - exists 0, ds, bm. rewrite Z.add_0_r, !Z.sub_0_r. split_and!; try done; lia. }
  assert (nidx (n + t) = nidx n) as Ht2.
  { destruct Hle as [Hle| ->]; [|by rewrite Z.add_0_r]. rewrite !nidx_small by lia. done. }
  unfold extendLength. fold n ds. step HD.
  assert (∃ ds' bm' s' c', ext_second heap (seqZ 1 NumSecondIndex) ds1 (n + t) (extra - t) bm1 s =
      Ok ((ds', n + extra, 0, bm'), s') ∧ represents s' c' o r ∧
      ∃ m', ext_state ds c n (marked bm) F0 ds' c' (n + extra) bm' m')
    as (ds' & bm' & s' & c' & HE & HR' & m' & HX').
  { destruct (decide (t = extra)) as [->|Hne].
    { rewrite Z.sub_diag, ext_second_done. exists ds1, bm1, s, c. eauto. }
    destruct (ext_second_ok heap Hheap ds c n (marked bm) F0 HF o r 5 0 ds1 c bm1 (m - t)
      (extra - t) (n + t) s) as (ds' & bm' & s' & c' & HE & HR' & HX'); try done; try (consts; lia).
    { replace (n + t + (extra - t)) with (n + extra) by lia. rewrite Ht2. unfold m. lia. }
    replace (n + t + (extra - t)) with (n + extra) in * by lia.
    exists ds', bm', s', c'. eauto. }
  step HE. rewrite Z.leb_refl. eexists _, bm', s', c'. split; [done|]. split; [done|].
  destruct HX' as [L' (A & HS & HE') HA HFr _ HI]. destruct HS as [WF' Hb' Hfr Hmo [Hmk _]]. cbn in *.
  split; cbn; try done.
  - apply HA.
  - eapply footprint_fresh; [exact L'|exact HE'|done|done|].
    intros x [(j & Hj & ->)|(i & Hi & ->)]%elem_of_list_to_set%elem_of_footprint; [left|right].
    + exists j. split; [done|]. symmetry. by apply HA.
    + exists i. split; [lia|]. symmetry. by apply HA.
  - rewrite HE', Hmk. clear -HF. set_solver.
  - by exists A.
Qed.

(** C16: every outcome of [Allocate] of a file of any size >= 0, on a map in which sector 0
    is in use and with any [NSecIndex] of [garbage_ok].  [FindN] is asked for [cnt]
    consecutive sectors.  If there is such a run, [Allocate] succeeds exactly when after
    marking it there are still as many free sectors as the file has blocks and the file is
    not larger than [MaxFileSize]: the header then describes blocks and index sectors that
    were free, exactly these and the spare sectors of the run have been marked, and no other
    sector of the disk changes; otherwise it answers false and has written nothing.  If
    there is no run the program aborts, except that a request for one sector is answered
    with false, or with true for an empty file. *)
Theorem Allocate_outcomes uninit fileSize heap h bm s c o r :
  (∀ i, zlen (heap i) = SecondDirect) → zlen (dataSectors h) = NumDirect + NumSecondIndex →
  wf bm → numBits bm = NumSectors → 0 ∈ marked bm →
  0 ≤ fileSize < 2 ^ 31 → garbage_ok uninit → represents s c o r →
  let n := divRoundUp fileSize SectorSize in
  let cnt := wanted uninit n in
  ((∃ i, free_run bm i cnt) →
   if (Z.of_nat (size (marked bm)) + cnt + n <=? NumSectors) && (fileSize <=? MaxFileSize)
   then ∃ h' bm' s' c', Allocate uninit heap h bm fileSize s = Ok ((true, h', bm'), s') ∧
          represents s' c' o r ∧ allocated bm bm' c c' h' fileSize n ∧
          gained uninit n bm bm' (fpset (dataSectors h') c' n (nidx n))
   else ∃ h' bm', Allocate uninit heap h bm fileSize s = Ok ((false, h', bm'), s)) ∧
  ((∀ i, ¬ free_run bm i cnt) →
   if cnt =? 1
   then ∃ h' bm' s' c', Allocate uninit heap h bm fileSize s = Ok ((n =? 0, h', bm'), s') ∧
          represents s' c' o r ∧ marked bm' = marked bm
   else Allocate uninit heap h bm fileSize s = Stop AssertFailed).
Proof.
  intros Hheap Hl WF Hb H0in Hsz Hu HR n cnt. split.
  - intros Hrun. destruct (Z.leb_spec (Z.of_nat (size (marked bm)) + cnt + n) NumSectors) as [H1|H1],
      (Z.leb_spec fileSize MaxFileSize) as [H2|H2]; cbn [andb].
    + destruct (Allocate_found uninit fileSize heap h bm s c o r)
        as (h' & bm' & s' & c' & HE & HR' & HA & HM & _); try done. by exists h', bm', s', c'.
    + destruct (Allocate_refused uninit fileSize heap h bm s c o r) as (bm' & HE); eauto.
    + destruct (Allocate_refused uninit fileSize heap h bm s c o r) as (bm' & HE); eauto.
    + destruct (Allocate_refused uninit fileSize heap h bm s c o r) as (bm' & HE); eauto.
  - intros Hno. destruct (Z.eqb_spec cnt 1) as [Hc|Hc].
    + destruct (Allocate_one uninit fileSize heap h bm s c o r)
        as [[Hn HE]|(Hn & h' & bm' & s' & c' & HE & HR' & HA & _)]; try done; fold n in Hn, HE.
      * destruct (Z.eqb_spec n 0); [lia|]. eexists _, bm, s, c. split; [exact HE|done].
      * fold n in HA. rewrite Hn in *. exists h', bm', s', c'. split_and!; try done.
        destruct (al_wf _ _ _ _ _ _ _ HA) as [WF' Hb']. pose proof (al_marked _ _ _ _ _ _ _ HA) as Hsub.
        apply set_eq. intros x. split; [|set_solver]. intros [Hx _]%elem_of_marked.
        destruct (decide (x ∈ marked bm)) as [|Hnx]; [done|]. destruct (Hno x). rewrite Hc.
        split_and!; [lia|congruence || lia|]. intros y Hy. by replace y with x by lia.
    + by eapply Allocate_no_run.
Qed.


(** [ByteToSector] translates every byte of a file to an existing sector, the same
    for the bytes of one block and different ones for different blocks. *)
Theorem ByteToSector_injective h c s o r off1 off2 :
  hdr_ok h c → represents s c o r →
  0 ≤ off1 < numSectors h * SectorSize → 0 ≤ off2 < numSectors h * SectorSize →
  ∃ b1 b2 s1 s2, ByteToSector h off1 s = Ok (b1, s1) ∧ ByteToSector h off2 s1 = Ok (b2, s2) ∧
    represents s2 c o r ∧ 0 ≤ b1 < NumSectors ∧ 0 ≤ b2 < NumSectors ∧
    (b1 = b2 ↔ off1 / SectorSize = off2 / SectorSize).
Proof.
  intros L HR H1 H2.
  destruct (ByteToSector_ok h c off1 _ s o r L HR H1) as (s1 & HB1 & HR1).
  destruct (ByteToSector_ok h c off2 _ s1 o r L HR1 H2) as (s2 & HB2 & HR2).
  eexists _, _, s1, s2. split_and!; [done|done|done|..];
    [by apply (block_valid _ _ _ _ _ L), sector_index|
     by apply (block_valid _ _ _ _ _ L), sector_index|by apply (block_valid _ _ _ _ _ L), sector_index|
     by apply (block_valid _ _ _ _ _ L), sector_index|].
  split; [|by intros ->]. intros HE.
  apply (block_inj _ _ _ _ _ _ L); [by apply sector_index..|done].
Qed.

(** A header survives the disk: what [WriteBack] stores in a sector is what
    [FetchFrom] of that sector returns, whatever the header object held before. *)
Theorem FetchFrom_WriteBack h h0 n s c o r :
  hdr_bytes h → hdr_bytes h0 → represents s c o r → 0 ≤ n < NumSectors →
  ∃ s1 s2, WriteBack n h s = Ok ((), s1) ∧ FetchFrom n h0 s1 = Ok (h, s2) ∧
    represents s2 (upd c n (encode h)) o r.
Proof.
  intros Hh Hh0 HR Hn.
  destruct (WriteSector_ok s c o r n (encode h) HR Hn (encode_length h Hh)) as (s1 & HW & HR1).
  destruct (ReadSector_ok s1 _ o r n (encode h0) HR1 Hn (encode_length h0 Hh0)) as (s2 & HRd & HR2).
  exists s1, s2. split_and!; try done. unfold FetchFrom. step HRd.
  by rewrite upd_eq, decode_encode.
Qed.

(** C17: [extendLength] of a file when the disk has room for the new blocks and the new
    index sectors: it succeeds, keeps every block where it was, puts the new blocks on
    sectors that were free, marks exactly the sectors of the file, and writes only
    index sectors of the file. *)
Theorem extendLength_correct heap h c bm s o r bytes extra :
  (∀ i, zlen (heap i) = SecondDirect) → hdr_ok h c → represents s c o r →
  wf bm → numBits bm = NumSectors →
  fpset (dataSectors h) c (numSectors h) (nidx (numSectors h)) ⊆ marked bm →
  0 ≤ extra → numSectors h + extra ≤ 166 →
  Z.of_nat (size (marked bm)) + extra +
    (nidx (numSectors h + extra) - nidx (numSectors h)) ≤ NumSectors →
  ∃ h' bm' s' c', extendLength heap h bytes extra bm s = Ok ((true, h', bm'), s') ∧
    represents s' c' o r ∧ extended h h' c c' bm bm' bytes extra.
Proof. apply extendLength_ok. Qed.

(** On a full disk, extending a file by one direct block still returns true, with
    sector number -1 for the new block. *)
Theorem extendLength_full_disk heap h bm s bytes :
  wf bm → (∀ j, 0 ≤ j < numBits bm → j ∈ marked bm) →
  zlen (dataSectors h) = NumDirect + NumSecondIndex → 0 ≤ numSectors h < NumDirect →
  extendLength heap h bytes 1 bm s =
    Ok ((true, set_size h bytes (numSectors h + 1)
                 (zset (dataSectors h) (numSectors h) (-1)), bm), s).
Proof.
  intros WF Hfull Hl Hn. unfold extendLength.
  assert (ext_fill (seqZ (numSectors h) (NumDirect - numSectors h)) (dataSectors h)
    (numSectors h) 1 bm = Ok (zset (dataSectors h) (numSectors h) (-1), numSectors h + 1, 0, bm)) as HE.
  { rewrite seqZ_cons by lia. cbn [ext_fill Z.gtb Z.compare].
    destruct (Find_spec bm WF) as (x & bm' & -> & _ & _ & [(-> & -> & _)|(Hx & Hnew & _)]).
    - cbn. rewrite aset_in by (consts; lia). cbn. by destruct (seqZ _ _).
    - by destruct Hnew; apply Hfull. }
  rewrite u32_small by (unfold is_u32; consts; lia).
  destruct (Z.ltb_spec (numSectors h) NumDirect); [|lia]. cbn [andb Z.gtb Z.compare].
  step HE. by rewrite (ST_step _ _ _ _ _ (ext_second_done heap (seqZ 1 NumSecondIndex) _ _ _ s)).
Qed.
End theorems.

(** ** Concrete instances *)

(** A map of 1024 sectors of which the first word is [w] and all others are free. *)
Definition sample_map (w : Z) : BitMap := mkBitMap 1024 32 (w :: replicate 31 0).
Definition sample_heap : Z → list Z := λ _, replicate 32 0.
Definition sample_hdr (bytes sectors : Z) (ds : list Z) : FileHeader :=
  mkHdr (replicate 25 0) (replicate 25 0) (replicate 25 0) [0] bytes sectors
    (ds ++ replicate (11 - length ds) 0).

Lemma sample_wf w : is_u32 w → wf (sample_map w) ∧ numBits (sample_map w) = NumSectors.
Proof.
  intros Hw. split; [|done]. split; [done..|]. constructor; [done|]. by repeat constructor.
Qed.

Lemma sample_bits w j : 0 ≤ w < 32 → 5 ≤ j → bit (sample_map w) j = false.
Proof.
  intros Hw Hj. unfold bit, sample_map. cbn [BitMap.map].
  destruct (decide (j < 32)) as [Hs|Hs].
  - rewrite Z.div_small, Z.mod_small by lia. cbn.
    replace w with (w mod 2 ^ 5) by (apply Z.mod_small; lia). apply Z.mod_pow2_bits_high. lia.
  - assert (1 ≤ j / 32) as Hq by (Z.to_euclidean_division_equations; lia).
    unfold znth. destruct (Z.ltb_spec (j / 32) 0); [lia|].
    replace (Z.to_nat (j / 32)) with (Datatypes.S (Z.to_nat (j / 32) - 1)) by lia.
    cbn [lookup list_lookup]. destruct (replicate 31 0 !! (Z.to_nat (j / 32) - 1)%nat) eqn:E; [|done].
    apply lookup_replicate in E as [-> _]. apply Z.bits_0.
Qed.
Lemma sample_free_run w i cnt :
  0 ≤ w < 32 → 5 ≤ i → i + cnt ≤ 1024 → free_run (sample_map w) i cnt.
Proof.
  intros Hw Hi Hn. split_and!; [lia|done|]. intros j Hj Hm. apply elem_of_marked in Hm as [_ Hb].
  rewrite sample_bits in Hb by lia. done.
Qed.
Lemma sample_zero w : Z.testbit w 0 = true → 0 ∈ marked (sample_map w).
Proof. intros. apply elem_of_marked. split; [cbn; lia|]. unfold bit. by cbn. Qed.

(** With -1 in the uninitialised variable [NSecIndex], [Allocate] of a file of two
    blocks looks for one free sector only and gives the file the next one too: sector 3,
    which is in use. *)
Theorem Allocate_uninit_overlap {S} `{SectorStore S} (s : S) :
  bit (sample_map 11) 3 = true ∧
  ∃ bm', Allocate (-1) sample_heap (sample_hdr 0 0 []) (sample_map 11) 256 s =
    Ok ((true, sample_hdr 256 2 [2; 3], bm'), s).
Proof. split; [reflexivity|]. eexists. vm_compute. reflexivity. Qed.

(** The disk every witness starts from. *)
Lemma sample_disk : ∃ s : SynchDisk.SynchDisk,
  represents s (λ _, zero_sector) (λ _, 0) (λ _, Readers 0).
Proof.
  destruct (SynchDisk_new_represents [] (mkStats 0 0 0 0 0) 0) as (s & _ & HR); [cbn; lia|].
  by exists s.
Qed.

Lemma Allocate_outcomes_witness :
  ∃ (s : SynchDisk.SynchDisk) h' bm' s' c',
    Allocate 0 sample_heap (sample_hdr 0 0 []) (sample_map 3) 1000 s = Ok ((true, h', bm'), s') ∧
    represents s' c' (λ _, 0) (λ _, Readers 0) ∧
    allocated (sample_map 3) bm' (λ _, zero_sector) c' h' 1000 8.
Proof.
  destruct sample_disk as [s HR]. exists s.
  destruct (Allocate_outcomes 0 1000 sample_heap (sample_hdr 0 0 []) (sample_map 3) s
    (λ _, zero_sector) (λ _, 0) (λ _, Readers 0)) as [HA _].
  - intros i. reflexivity.
  - reflexivity.
  - apply sample_wf. unfold is_u32. lia.
  - reflexivity.
  - apply sample_zero. reflexivity.
  - lia.
  - right. consts. lia.
  - exact HR.
  - change (divRoundUp 1000 SectorSize) with 8 in HA. change (wanted 0 8) with 9 in HA.
    assert (Z.of_nat (size (marked (sample_map 3))) = 2) as Hs by (vm_compute; reflexivity).
    rewrite Hs in HA. change ((2 + 9 + 8 <=? NumSectors) && (1000 <=? MaxFileSize)) with true in HA. cbv iota in HA.
    destruct HA as (h' & bm' & s' & c' & HE & HR' & Hal & _).
    + exists 5. apply sample_free_run; lia.
    + exists h', bm', s', c'. exact (conj HE (conj HR' Hal)).
Defined.


Lemma sample_layout : hdr_ok (sample_hdr 300 3 [2; 3; 4]) (λ _, zero_sector).
Proof.
  assert (footprint (dataSectors (sample_hdr 300 3 [2; 3; 4])) (λ _, zero_sector) 3 0 = [2; 3; 4])
    as HE by reflexivity.
  split; [reflexivity|cbn; lia|split; vm_compute; discriminate|
          split; [vm_compute; discriminate|intros Hk; vm_compute in Hk; discriminate Hk]|..];
    change (nidx (numSectors (sample_hdr 300 3 [2; 3; 4]))) with 0; cbn [numSectors sample_hdr];
    change (dataSectors _) with (dataSectors (sample_hdr 300 3 [2; 3; 4])); rewrite HE.
  - apply (bool_decide_unpack _). vm_compute. exact I.
  - repeat constructor; consts; lia.
Qed.

Lemma ByteToSector_injective_witness :
  ∃ (s : SynchDisk.SynchDisk) b1 b2 s1 s2,
    ByteToSector (sample_hdr 300 3 [2; 3; 4]) 130 s = Ok (b1, s1) ∧
    ByteToSector (sample_hdr 300 3 [2; 3; 4]) 299 s1 = Ok (b2, s2) ∧ b1 ≠ b2.
Proof.
  destruct sample_disk as [s HR]. exists s.
  destruct (ByteToSector_injective (sample_hdr 300 3 [2; 3; 4]) (λ _, zero_sector) s
    (λ _, 0) (λ _, Readers 0) 130 299 sample_layout HR)
    as (b1 & b2 & s1 & s2 & H1 & H2 & _ & _ & _ & HI); [cbn; consts; lia..|].
  exists b1, b2, s1, s2. split; [exact H1|]. split; [exact H2|].
  intros E. apply HI in E. vm_compute in E. discriminate E.
Defined.

Lemma sample_bytes bytes sectors ds :
  is_s32 bytes → is_s32 sectors → (length ds ≤ 11)%nat → Forall is_s32 ds →
  hdr_bytes (sample_hdr bytes sectors ds).
Proof.
  intros Hb Hs Hl Hd. split; try done. cbn [sample_hdr dataSectors]. split.
  - unfold zlen. rewrite length_app, length_replicate. consts. lia.
  - apply Forall_app. split; [done|]. apply Forall_replicate. done.
Qed.

Lemma FetchFrom_WriteBack_witness :
  ∃ (s : SynchDisk.SynchDisk) s1 s2, WriteBack 7 (sample_hdr 300 3 [2; 3; 4]) s = Ok ((), s1) ∧
    FetchFrom 7 (sample_hdr 0 0 []) s1 = Ok (sample_hdr 300 3 [2; 3; 4], s2).
Proof.
  destruct sample_disk as [s HR]. exists s.
  destruct (FetchFrom_WriteBack (sample_hdr 300 3 [2; 3; 4]) (sample_hdr 0 0 []) 7 s
    (λ _, zero_sector) (λ _, 0) (λ _, Readers 0)) as (s1 & s2 & H1 & H2 & _).
  - apply sample_bytes; [unfold is_s32; lia..|cbn; lia|repeat constructor; unfold is_s32; lia].
  - apply sample_bytes; [unfold is_s32; lia..|cbn; lia|constructor].
  - exact HR.
  - consts. lia.
  - exists s1, s2. exact (conj H1 H2).
Defined.

Lemma extendLength_correct_witness :
  ∃ (s : SynchDisk.SynchDisk) h' bm' s' c',
    extendLength sample_heap (sample_hdr 300 3 [2; 3; 4]) 1000 5 (sample_map 31) s =
      Ok ((true, h', bm'), s') ∧
    extended (sample_hdr 300 3 [2; 3; 4]) h' (λ _, zero_sector) c' (sample_map 31) bm' 1000 5.
Proof.
  destruct sample_disk as [s HR]. exists s.
  destruct (extendLength_correct sample_heap (sample_hdr 300 3 [2; 3; 4]) (λ _, zero_sector)
    (sample_map 31) s (λ _, 0) (λ _, Readers 0) 1000 5)
    as (h' & bm' & s' & c' & HE & _ & HX).
  - intros i. reflexivity.
  - exact sample_layout.
  - exact HR.
  - apply sample_wf. unfold is_u32. lia.
  - reflexivity.
  - apply (bool_decide_unpack _). vm_compute. exact I.
  - lia.
  - cbn. lia.
  - assert (Z.of_nat (size (marked (sample_map 31))) = 5) as -> by (vm_compute; reflexivity).
    vm_compute. discriminate.
  - exists h', bm', s', c'. exact (conj HE HX).
Defined.

Lemma extendLength_full_disk_witness :
  ∃ s : SynchDisk.SynchDisk,
    extendLength sample_heap (sample_hdr 300 3 [2; 3; 4]) 400 1 (mkBitMap 4 1 [15]) s =
    Ok ((true, set_size (sample_hdr 300 3 [2; 3; 4]) 400 4
                 (zset (dataSectors (sample_hdr 300 3 [2; 3; 4])) 3 (-1)), mkBitMap 4 1 [15]), s).
Proof.
  destruct sample_disk as [s HR]. exists s.
  apply (extendLength_full_disk sample_heap (sample_hdr 300 3 [2; 3; 4]) (mkBitMap 4 1 [15]) s 400).
  - split; [done..|]. repeat constructor; unfold is_u32; lia.
  - intros j Hj. apply elem_of_marked. split; [exact Hj|]. cbn in Hj.
    assert (j = 0 ∨ j = 1 ∨ j = 2 ∨ j = 3) as [->|[->|[->| ->]]] by lia; reflexivity.
  - reflexivity.
  - cbn. consts. lia.
Defined.
