(* ===== verification/OpenFile.v ===== *)
(** * Open files: filesys/openfile.cc

    Reading and writing arbitrary byte ranges of a file on top of whole sectors.
    [file_bytes] is the content a header and a disk describe; [ReadAt] and [WriteAt]
    are proved to be the transfers of a flat byte array. *)

From S2P Require Import Prelude BitMap Disk SectorStore SynchDisk FileHdr FileHdrExtend.

(** Class [OpenFile]. *)
Record OpenFile := mkOpenFile {
  hdr : FileHeader;
  seekPosition : Z;
  headerSector : Z
}.

Definition set_hdr (f : OpenFile) (h : FileHeader) : OpenFile :=
  mkOpenFile h (seekPosition f) (headerSector f).

Definition Length (f : OpenFile) : Z := FileLength (hdr f).
Definition Seek (position : Z) (f : OpenFile) : OpenFile :=
  mkOpenFile (hdr f) position (headerSector f).

(** [a + b] on [int]s; signed overflow is undefined. *)
Definition add_int (a b : Z) : result Z :=
  if (- 2 ^ 31 <=? a + b) && (a + b <? 2 ^ 31) then Ok (a + b) else Stop Undefined.

(** [bcopy(&src[off], dst, n)] and [bcopy(src, &dst[off], n)]. *)
Definition copy_from (src : list Z) (off n : Z) : result (list Z) :=
  if (0 <=? off) && (off + n <=? zlen src) then Ok (read_at src off n) else Stop Undefined.
Definition copy_to (dst : list Z) (off : Z) (bytes : list Z) : result (list Z) :=
  if (0 <=? off) && (off + zlen bytes <=? zlen dst) then Ok (write_at dst off bytes)
  else Stop Undefined.

Section operations.
Context {S : Type} `{SectorStore S}.

(** [mem n] is the uninitialised memory [new char[n]] returns. *)
Context (mem : Z → list Z).

(** [new OpenFile(sector)] and [delete file]; [h0] is the fresh header object. *)
Definition OpenFile_new (h0 : FileHeader) (sector : Z) : ST S OpenFile :=
  OpenSector sector;;
  h ← FetchFrom sector h0;
  mret (mkOpenFile h 0 sector).
Definition OpenFile_delete (f : OpenFile) : ST S () := CloseSector (headerSector f).

(** One iteration of the loop of [ReadAt]. *)
Definition read_sector (f : OpenFile) (firstSector i : Z) (buf : list Z) : ST S (list Z) :=
  n ← ByteToSector (hdr f) (i * SectorSize);
  let off := (i - firstSector) * SectorSize in
  sub ← lift (copy_from buf off SectorSize);
  b ← ReadSector n sub;
  lift (copy_to buf off b).

Fixpoint for_sectors (body : Z → list Z → ST S (list Z)) (l : list Z) (buf : list Z) :
    ST S (list Z) :=
  match l with
  | [] => mret buf
  | i :: l' => buf ← body i buf; for_sectors body l' buf
  end.

(** [OpenFile::ReadAt]: the number of bytes read, those bytes, and the object, whose
    header has a new visit time; [now] is the result of [asctime]. *)
Definition ReadAt (now : list Z) (f : OpenFile) (numBytes position : Z) :
    ST S (Z * list Z * OpenFile) :=
  let fileLength := FileLength (hdr f) in
  if (numBytes <=? 0) || (position >=? fileLength) then mret (0, [], f) else
  last ← lift (add_int position numBytes);
  let numBytes := if last >? fileLength then fileLength - position else numBytes in
  let firstSector := divRoundDown position SectorSize in
  let lastSector := divRoundDown (position + numBytes - 1) SectorSize in
  let numSectors := 1 + lastSector - firstSector in
  StartRead (headerSector f);;
  buf ← for_sectors (read_sector f firstSector) (seqZ firstSector numSectors)
          (mem (numSectors * SectorSize));
  EndRead (headerSector f);;
  bytes ← lift (copy_from buf (position - firstSector * SectorSize) numBytes);
  let h := set_visit_time now (hdr f) in
  WriteBack (headerSector f) h;;
  mret (numBytes, bytes, set_hdr f h).

Definition write_sector (f : OpenFile) (firstSector i : Z) (buf : list Z) : ST S (list Z) :=
  n ← ByteToSector (hdr f) (i * SectorSize);
  sub ← lift (copy_from buf ((i - firstSector) * SectorSize) SectorSize);
  WriteSector n sub;;
  mret buf.

(** [extend newNumBytes headerSector hdr deltaSectors] is the call of
    [fileSystem->ExtendWrapper]: whether it succeeded, and the header object. *)
Context (extend : Z → Z → FileHeader → Z → ST S (bool * FileHeader)).

(** The read of a sector that is partially overwritten, into [buf] at [off]. *)
Definition read_partial (now : list Z) (f : OpenFile) (sector off : Z) (buf : list Z) :
    ST S (list Z * OpenFile) :=
  '(_, bytes, f) ← ReadAt now f SectorSize (sector * SectorSize);
  buf ← lift (copy_to buf off bytes);
  mret (buf, f).

(** The reads of the first and the last sector, if they are not written in full. *)
Definition prefill (now : Z → list Z) (f : OpenFile) (firstSector lastSector : Z)
    (firstAligned lastAligned : bool) (buf : list Z) : ST S (list Z * OpenFile) :=
  '(buf, f) ← (if negb firstAligned then read_partial (now 0) f firstSector 0 buf
               else mret (buf, f));
  if negb lastAligned && (negb (firstSector =? lastSector) || firstAligned)
  then read_partial (now 1) f lastSector ((lastSector - firstSector) * SectorSize) buf
  else mret (buf, f).

(** The second half of [WriteAt]: [numBytes] is final and the file is long enough. *)
Definition write_range (now : Z → list Z) (f : OpenFile) (from : list Z)
    (numBytes position : Z) : ST S (Z * OpenFile) :=
  let firstSector := divRoundDown position SectorSize in
  let lastSector := divRoundDown (position + numBytes - 1) SectorSize in
  let numSectors := 1 + lastSector - firstSector in
  let firstAligned := position =? firstSector * SectorSize in
  let lastAligned := position + numBytes =? (lastSector + 1) * SectorSize in
  '(buf, f) ← prefill now f firstSector lastSector firstAligned lastAligned
                (mem (numSectors * SectorSize));
  bytes ← lift (copy_from from 0 numBytes);
  buf ← lift (copy_to buf (position - firstSector * SectorSize) bytes);
  StartWrite (headerSector f);;
  for_sectors (write_sector f firstSector) (seqZ firstSector numSectors) buf;;
  EndWrite (headerSector f);;
  let h := set_modify_time (now 3) (set_visit_time (now 2) (hdr f)) in
  WriteBack (headerSector f) h;;
  mret (numBytes, set_hdr f h).

(** [OpenFile::WriteAt]; [from] is the caller's buffer, [now i] the result of the
    [i]-th call of [asctime]. *)
Definition WriteAt (now : Z → list Z) (f : OpenFile) (from : list Z) (numBytes position : Z) :
    ST S (Z * OpenFile) :=
  let fileLength := FileLength (hdr f) in
  if (numBytes <=? 0) || (position >=? fileLength) then mret (0, f) else
  last ← lift (add_int position numBytes);
  if (last >? fileLength : bool) then
    let originalSectors := divRoundUp fileLength SectorSize in
    let NewSectors := divRoundUp last SectorSize in
    '(ok, h) ← extend last (headerSector f) (hdr f) (NewSectors - originalSectors);
    write_range now (set_hdr f h) from (if (ok : bool) then numBytes else fileLength - position)
      position
  else write_range now f from numBytes position.

(** [OpenFile::Read] and [OpenFile::Write]. *)
Definition Read (now : list Z) (f : OpenFile) (numBytes : Z) : ST S (Z * list Z * OpenFile) :=
  '(result, bytes, f) ← ReadAt now f numBytes (seekPosition f);
  mret (result, bytes, Seek (seekPosition f + result) f).
Definition Write (now : Z → list Z) (f : OpenFile) (from : list Z) (numBytes : Z) :
    ST S (Z * OpenFile) :=
  '(result, f) ← WriteAt now f from numBytes (seekPosition f);
  mret (result, Seek (seekPosition f + result) f).
End operations.

#[global] Arguments ReadAt : simpl never.
#[global] Arguments add_int : simpl never.
#[global] Arguments copy_from : simpl never.
#[global] Arguments copy_to : simpl never.

(** ** The content of a file *)

(** Byte [p] of the blocks of a file, and the bytes of the file. *)
Definition fbyte (h : FileHeader) (c : Z → list Z) (p : Z) : Z :=
  default 0 (znth (c (block (dataSectors h) c (p / SectorSize))) (p mod SectorSize)).
Definition file_bytes (h : FileHeader) (c : Z → list Z) : list Z :=
  fbyte h c <$> seqZ 0 (numBytes h).

(** An open file whose header in memory describes it. *)
Record file_ok (f : OpenFile) (c : Z → list Z) : Prop := {
  fo_layout : hdr_ok (hdr f) c;
  fo_bytes : hdr_bytes (hdr f);
  fo_size : 0 ≤ numBytes (hdr f) ≤ numSectors (hdr f) * SectorSize;
  fo_sector : 0 ≤ headerSector f < NumSectors;
  fo_apart : headerSector f ∉
    footprint (dataSectors (hdr f)) c (numSectors (hdr f)) (nidx (numSectors (hdr f)))
}.

Lemma add_int_ok a b : - 2 ^ 31 ≤ a + b < 2 ^ 31 → add_int a b = Ok (a + b).
Proof.
  intros. unfold add_int. rewrite (proj2 (Z.leb_le _ _)), (proj2 (Z.ltb_lt _ _)) by lia. done.
Qed.
Lemma copy_from_ok src off n :
  0 ≤ off → off + n ≤ zlen src → copy_from src off n = Ok (read_at src off n).
Proof.
  intros. unfold copy_from. rewrite (proj2 (Z.leb_le _ _)), (proj2 (Z.leb_le _ _)) by lia. done.
Qed.
Lemma copy_to_ok dst off b :
  0 ≤ off → off + zlen b ≤ zlen dst → copy_to dst off b = Ok (write_at dst off b).
Proof.
  intros. unfold copy_to. rewrite (proj2 (Z.leb_le _ _)), (proj2 (Z.leb_le _ _)) by lia. done.
Qed.

Lemma file_bytes_length h c : 0 ≤ numBytes h → zlen (file_bytes h c) = numBytes h.
Proof. intros. unfold file_bytes. by rewrite zlen_fmap, zlen_seqZ. Qed.
Lemma znth_file_bytes h c p : 0 ≤ p < numBytes h → znth (file_bytes h c) p = Some (fbyte h c p).
Proof. intros. unfold file_bytes. rewrite znth_fmap, znth_seqZ by lia. done. Qed.

(** A buffer that holds bytes [lo..] of the file in positions [a..b). *)
Definition holds (h : FileHeader) (c : Z → list Z) (lo a b : Z) (buf : list Z) : Prop :=
  ∀ p, a ≤ p < b → znth buf p = Some (fbyte h c (lo + p)).

Lemma holds_read h c lo buf off n :
  holds h c lo off (off + n) buf → 0 ≤ off → 0 ≤ n → off + n ≤ zlen buf →
  0 ≤ lo + off → lo + off + n ≤ numBytes h →
  read_at buf off n = read_at (file_bytes h c) (lo + off) n.
Proof.
  intros HB Ho Hn Hl Hlo Hlen.
  assert (zlen (file_bytes h c) = numBytes h) as Hf by (apply file_bytes_length; lia).
  apply znth_ext; rewrite !read_at_length by lia; [done|].
  intros i Hi. rewrite !znth_read_at by lia. rewrite HB, znth_file_bytes by lia.
  do 2 f_equal. lia.
Qed.

Section proofs.
Context {S : Type} `{SectorStoreLaws S}.
Context (mem : Z → list Z) (Hmem : ∀ n, 0 ≤ n → zlen (mem n) = n).
Implicit Types (s : S) (c : Z → list Z) (o : Z → Z) (r : Z → rwstate).

(** Counting loops over the sectors of a request. *)
Lemma for_sectors_ok (body : Z → list Z → ST S (list Z)) (I : Z → list Z → S → Prop) a n buf s :
  0 ≤ n → I a buf s →
  (∀ i b s1, a ≤ i < a + n → I i b s1 → ∃ b' s2, body i b s1 = Ok (b', s2) ∧ I (i + 1) b' s2) →
  ∃ buf' s', for_sectors body (seqZ a n) buf s = Ok (buf', s') ∧ I (a + n) buf' s'.
Proof.
  intros Hn. remember (Z.to_nat n) as k eqn:Hk. revert a n buf s Hn Hk.
  induction k as [|k IH]; intros a n buf s Hn Hk HI Hstep.
  - replace n with 0 in * by lia. rewrite Z.add_0_r. cbn. unfold mret, ST_ret. eauto.
  - rewrite seqZ_cons by lia. cbn [for_sectors].
    destruct (Hstep a buf s ltac:(lia) HI) as (b2 & s2 & HE & HI2). step HE.
    destruct (IH (Z.succ a) (Z.pred n) b2 s2) as (b' & s' & HE' & HI'); [lia|lia|by rewrite <-Z.add_1_r| |].
    + intros i b s1 Hi HIi. apply Hstep; [lia|done].
    + exists b', s'. split; [done|]. by replace (a + n) with (Z.succ a + Z.pred n) by lia.
Qed.

Lemma block_content h c n k j s o r :
  layout (dataSectors h) c n k → represents s c o r → 0 ≤ j < n →
  zlen (c (block (dataSectors h) c j)) = SectorSize.
Proof. intros L HR Hj. eapply contents_length; [done|]. by eapply block_valid. Qed.

Lemma fbyte_block h c n k j q s o r :
  layout (dataSectors h) c n k → represents s c o r → 0 ≤ j < n → 0 ≤ q < SectorSize →
  znth (c (block (dataSectors h) c j)) q = Some (fbyte h c (j * SectorSize + q)).
Proof.
  intros L HR Hj Hq. unfold fbyte.
  replace (j * SectorSize + q) with (q + j * SectorSize) by lia.
  rewrite Z.div_add, Z.mod_add, Z.div_small, Z.mod_small, Z.add_0_l by (consts; lia).
  destruct (znth_range (c (block (dataSectors h) c j)) q) as [x Hx]; [|by rewrite Hx].
  by erewrite block_content.
Qed.

(** Reading the sectors [first .. last] into a buffer. *)
Lemma read_sectors_ok f c first n s o r :
  hdr_ok (hdr f) c → represents s c o r → 0 ≤ first → 0 ≤ n → first + n ≤ numSectors (hdr f) →
  ∃ buf s', for_sectors (read_sector f first) (seqZ first n) (mem (n * SectorSize)) s = Ok (buf, s') ∧
    represents s' c o r ∧ zlen buf = n * SectorSize ∧
    holds (hdr f) c (first * SectorSize) 0 (n * SectorSize) buf.
Proof using Hmem.
  intros L HR Hf Hn Hmax.
  destruct (for_sectors_ok (read_sector f first)
    (λ i buf s', represents s' c o r ∧ zlen buf = n * SectorSize ∧
       holds (hdr f) c (first * SectorSize) 0 ((i - first) * SectorSize) buf)
    first n (mem (n * SectorSize)) s) as (buf & s' & HE & HI); [done| | |].
  - split_and!; [done|apply Hmem; consts; lia|]. intros p Hp. lia.
  - intros i b s1 Hi (HR1 & Hl & HB). unfold read_sector.
    destruct (ByteToSector_ok (hdr f) c (i * SectorSize) _ s1 o r L HR1) as (s2 & HE & HR2);
      [consts; lia|].
    rewrite Z.div_mul in HE by (consts; lia). step HE.
    set (off := (i - first) * SectorSize) in *.
    assert (0 ≤ off ∧ off + SectorSize ≤ zlen b) as [Ho1 Ho2] by (unfold off; consts; lia).
    step (copy_from_ok b off SectorSize Ho1 Ho2).
    pose proof (block_valid _ _ _ _ i L ltac:(lia)) as Hv.
    pose proof (block_content (hdr f) c _ _ i s1 o r L HR1 ltac:(lia)) as Hcl.
    destruct (ReadSector_ok s2 c o r _ (read_at b off SectorSize) HR2 Hv) as (s3 & HE3 & HR3).
    { apply read_at_length. consts. lia. }
    step HE3. exists (write_at b off (c (block (dataSectors (hdr f)) c i))), s3.
    unfold lift. rewrite copy_to_ok by lia. split_and!; [done|done|rewrite write_at_length by lia; done|].
    intros p Hp. rewrite znth_write_at by lia. case_bool_decide as Hin.
    + erewrite fbyte_block; [|done|done|lia|lia]. do 2 f_equal. unfold off. lia.
    + apply HB. unfold off in *. lia.
  - exists buf, s'. split; [done|]. by replace (first + n - first) with n in HI by lia.
Qed.

(** Writing a sector outside the file changes nothing of the file. *)
Lemma apart_agree ds c c' n k :
  layout ds c n k → (∀ x, x ∈ footprint ds c n k → c' x = c x) → agree ds ds c c' n k.
Proof.
  intros L Hc. split; [|done]. intros j Hj. unfold block.
  destruct (Z.ltb_spec j NumDirect); [done|]. rewrite Hc; [done|].
  apply elem_of_footprint. right. exists ((j - NumDirect) / SecondDirect). split; [|done].
  apply (block_index _ _ _ _ _ L). lia.
Qed.
Lemma apart_fbyte h h' c c' n k p :
  layout (dataSectors h) c n k → dataSectors h' = dataSectors h →
  (∀ x, x ∈ footprint (dataSectors h) c n k → c' x = c x) → 0 ≤ p < n * SectorSize →
  fbyte h' c' p = fbyte h c p.
Proof.
  intros L Hds Hc Hp. unfold fbyte. rewrite Hds.
  pose proof (sector_index _ _ Hp) as Hi.
  rewrite (proj1 (apart_agree _ _ _ _ _ L Hc)) by done. rewrite Hc; [done|].
  apply elem_of_footprint. left. eauto.
Qed.

(** The header object changed in its time stamps only. *)
Definition same_but_times (h h' : FileHeader) : Prop :=
  numBytes h' = numBytes h ∧ numSectors h' = numSectors h ∧ dataSectors h' = dataSectors h ∧
  hdr_bytes h'.

Lemma file_touch f c c' h' :
  file_ok f c → same_but_times (hdr f) h' → (∀ x, x ≠ headerSector f → c' x = c x) →
  file_ok (set_hdr f h') c' ∧ file_bytes h' c' = file_bytes (hdr f) c ∧
  (∀ p, 0 ≤ p < numSectors (hdr f) * SectorSize → fbyte h' c' p = fbyte (hdr f) c p).
Proof.
  intros [L HB Hs Hh Ha] (E1 & E2 & E3 & HB') Hc.
  assert (∀ x, x ∈ footprint (dataSectors (hdr f)) c (numSectors (hdr f)) (nidx (numSectors (hdr f))) →
    c' x = c x) as Hc' by (intros x Hx; apply Hc; by intros ->).
  pose proof (apart_agree _ _ _ _ _ L Hc') as HA.
  assert (∀ p, 0 ≤ p < numSectors (hdr f) * SectorSize → fbyte h' c' p = fbyte (hdr f) c p) as Hfb.
  { intros p Hp. by eapply apart_fbyte. }
  split_and!; [split|..]; cbn; rewrite ?E1, ?E2, ?E3; try done.
  - unfold hdr_ok. rewrite E2, E3. by eapply layout_agree.
  - by rewrite (footprint_agree _ _ _ _ _ _ HA).
  - unfold file_bytes. rewrite E1. apply list_fmap_ext.
    intros ? p Hp%list_elem_of_lookup_2%elem_of_seqZ. apply Hfb. lia.
Qed.

Lemma set_time_length now : zlen (set_time now) = 25.
Proof.
  unfold zlen, set_time. rewrite length_app, length_take, length_app, length_replicate.
  change (length [0]) with 1%nat. lia.
Qed.
Lemma set_visit_same now h : hdr_bytes h → same_but_times h (set_visit_time now h).
Proof. intros []. split_and!; try done. split; cbn; try done. apply set_time_length. Qed.
Lemma set_modify_same now h : hdr_bytes h → same_but_times h (set_modify_time now h).
Proof. intros []. split_and!; try done. split; cbn; try done. apply set_time_length. Qed.
Lemma same_trans h1 h2 h3 : same_but_times h1 h2 → same_but_times h2 h3 → same_but_times h1 h3.
Proof.
  intros (?&?&?&?) (?&?&?&?). unfold same_but_times. split_and!; congruence || done.
Qed.

(** *** [ReadAt] *)

Lemma ReadAt_none now f numBytes position s :
  numBytes ≤ 0 ∨ FileLength (hdr f) ≤ position →
  ReadAt mem now f numBytes position s = Ok ((0, [], f), s).
Proof.
  intros Hc. unfold ReadAt.
  assert ((numBytes <=? 0) || (position >=? FileLength (hdr f)) = true) as ->; [|done].
  apply orb_true_iff. destruct Hc; [left; lia|right]. apply Z.geb_le. lia.
Qed.

Lemma ReadAt_ok now f c numBytes position s o r k :
  file_ok f c → represents s c o r → r (headerSector f) = Readers k →
  0 < numBytes → 0 ≤ position < FileLength (hdr f) → position + numBytes < 2 ^ 31 →
  let cnt := Z.min numBytes (FileLength (hdr f) - position) in
  let h' := set_visit_time now (hdr f) in
  ∃ s', ReadAt mem now f numBytes position s =
      Ok ((cnt, read_at (file_bytes (hdr f) c) position cnt, set_hdr f h'), s') ∧
    represents s' (upd c (headerSector f) (encode h')) o r.
Proof using Hmem.
  intros [L HB Hs Hh Ha] HR Hr Hnb Hpos Hov cnt h'. unfold FileLength in *.
  set (len := FileHdr.numBytes (hdr f)) in *. unfold ReadAt. unfold FileLength. fold len.
  assert ((numBytes <=? 0) || (position >=? len) = false) as ->.
  { apply orb_false_iff. split; [lia|]. rewrite Z.geb_leb. lia. }
  step (add_int_ok position numBytes ltac:(lia)).
  replace (if position + numBytes >? len then len - position else numBytes) with cnt
    by (unfold cnt; destruct (Z.gtb_spec (position + numBytes) len); lia).
  rewrite !divRoundDown_div by (consts; lia).
  set (first := position / SectorSize). set (last := (position + cnt - 1) / SectorSize).
  assert (0 ≤ first ∧ first ≤ last ∧ last < numSectors (hdr f) ∧
    first * SectorSize ≤ position ∧ position + cnt ≤ (last + 1) * SectorSize ∧ 0 < cnt)
    as (Hf & Hfl & Hls & Hp1 & Hp2 & Hcnt)
    by (unfold first, last, cnt; consts; Z.to_euclidean_division_equations; lia).
  destruct (StartRead_ok s c o r _ k HR Hh Hr) as (s1 & HE1 & HR1). step HE1.
  destruct (read_sectors_ok f c first (1 + last - first) s1 o _ L HR1) as (buf & s2 & HE2 & HR2 & Hl & HBuf);
    [lia..|]. step HE2.
  destruct (EndRead_ok s2 c o _ (headerSector f) (k + 1) HR2 Hh) as (s3 & HE3 & HR3).
  { apply upd_eq. }
  { pose proof (readers_nonneg s c o r _ k HR Hh Hr). lia. }
  step HE3.
  assert (represents s3 c o r) as HR3'.
  { eapply represents_ext; [exact HR3|]. intros n Hn. split_and!; try done. unfold upd.
    case_bool_decide; [|done]. subst. rewrite Hr. f_equal. lia. }
  step (copy_from_ok buf (position - first * SectorSize) cnt ltac:(lia) ltac:(lia)). fold h'.
  destruct (WriteSector_ok s3 c o r (headerSector f) (encode h') HR3' Hh) as (s4 & HE4 & HR4).
  { apply encode_length. by apply set_visit_same. }
  unfold WriteBack. step HE4. exists s4. split; [|done].
  erewrite holds_read; [|by intros p Hp; apply HBuf; lia|lia..|].
  - unfold mret, ST_ret. do 5 f_equal. lia.
  - fold len. lia.
Qed.

(** *** [WriteAt] *)

(** One write to the disk only touches the header's sector. *)
Definition off_header (f : OpenFile) (c c' : Z → list Z) : Prop :=
  ∀ x, x ≠ headerSector f → c' x = c x.

(** [f1] is [f] after calls that changed time stamps only. *)
Definition touched (f f1 : OpenFile) (c c1 : Z → list Z) : Prop :=
  file_ok f1 c1 ∧ same_but_times (hdr f) (hdr f1) ∧ headerSector f1 = headerSector f ∧
  seekPosition f1 = seekPosition f ∧ off_header f c c1.

Lemma touched_refl f c : file_ok f c → touched f f c c.
Proof. intros HF. unfold touched. split_and!; try done. split_and!; try done. apply HF. Qed.
Lemma touched_fbyte f f1 c c1 p :
  file_ok f c → touched f f1 c c1 → 0 ≤ p < numSectors (hdr f) * SectorSize →
  fbyte (hdr f1) c1 p = fbyte (hdr f) c p.
Proof. intros HF (_ & HS & _ & _ & Hc) Hp. by apply (file_touch f c c1 (hdr f1) HF HS Hc). Qed.
Lemma touched_trans f f1 f2 c c1 c2 :
  touched f f1 c c1 → touched f1 f2 c1 c2 → touched f f2 c c2.
Proof.
  intros (? & HS1 & Hh1 & Hs1 & Hc1) (? & HS2 & Hh2 & Hs2 & Hc2).
  refine (conj _ (conj _ (conj _ (conj _ _)))); try congruence; [by eapply same_trans|].
  intros x Hx. rewrite Hc2 by congruence. by apply Hc1.
Qed.
Lemma file_bytes_touched f f1 c c1 :
  file_ok f c → touched f f1 c c1 → file_bytes (hdr f1) c1 = file_bytes (hdr f) c.
Proof. intros HF (_ & HS & _ & _ & Hc). by apply (file_touch f c c1 (hdr f1) HF HS Hc). Qed.

Lemma read_partial_ok now f c sector off buf s o r k :
  file_ok f c → represents s c o r → r (headerSector f) = Readers k →
  0 ≤ sector → sector * SectorSize < FileLength (hdr f) → 0 ≤ off → off + SectorSize ≤ zlen buf →
  ∃ buf' f' s' c', read_partial mem now f sector off buf s = Ok ((buf', f'), s') ∧
    represents s' c' o r ∧ touched f f' c c' ∧ zlen buf' = zlen buf ∧
    (∀ q, 0 ≤ q < SectorSize → sector * SectorSize + q < FileLength (hdr f) →
       znth buf' (off + q) = Some (fbyte (hdr f) c (sector * SectorSize + q))) ∧
    (∀ p, p < off ∨ off + SectorSize ≤ p → znth buf' p = znth buf p).
Proof using Hmem.
  intros HF HR Hr Hs Hlt Ho Hl. pose proof HF as [L HB Hsz Hh Ha].
  pose proof (layout_bound _ _ _ _ L) as Hns. unfold FileLength in *.
  destruct (ReadAt_ok now f c SectorSize (sector * SectorSize) s o r k) as (s1 & HE & HR1);
    try done; try (unfold FileLength; consts; lia).
  unfold FileLength in *. set (cnt := Z.min _ _) in *.
  set (h' := set_visit_time now (hdr f)) in *.
  assert (0 < cnt ≤ SectorSize ∧ sector * SectorSize + cnt ≤ numBytes (hdr f)) as [Hc1 Hc2]
    by (unfold cnt; consts; lia).
  set (bytes := read_at (file_bytes (hdr f) c) (sector * SectorSize) cnt) in *.
  assert (zlen (file_bytes (hdr f) c) = numBytes (hdr f)) as Hfl by (apply file_bytes_length; lia).
  assert (zlen bytes = cnt) as Hbl by (apply read_at_length; consts; lia).
  exists (write_at buf off bytes), (set_hdr f h'), s1, (upd c (headerSector f) (encode h')).
  split_and!; try done.
  - unfold read_partial. step HE. by step (copy_to_ok buf off bytes Ho ltac:(lia)).
  - assert (off_header f c (upd c (headerSector f) (encode h'))) as Hoff
      by (intros x Hx; by apply upd_ne).
    unfold touched. split_and!; try done; try by apply set_visit_same.
    apply (file_touch f c); [done|by apply set_visit_same|done].
  - rewrite write_at_length by lia. done.
  - intros q Hq Hq2. rewrite znth_write_at, bool_decide_true by (unfold cnt in *; lia).
    replace (off + q - off) with q by lia. unfold bytes.
    rewrite znth_read_at by (unfold cnt in *; consts; lia). apply znth_file_bytes. consts. lia.
  - intros p Hp. rewrite znth_write_at, bool_decide_false by lia. done.
Qed.

Lemma prefill_ok now f c first last pos nb buf s o r k :
  file_ok f c → represents s c o r → r (headerSector f) = Readers k →
  0 < nb → 0 ≤ pos → pos + nb ≤ FileLength (hdr f) →
  first = pos / SectorSize → last = (pos + nb - 1) / SectorSize →
  zlen buf = (1 + last - first) * SectorSize →
  ∃ buf' f' s' c',
    prefill mem now f first last (pos =? first * SectorSize) (pos + nb =? (last + 1) * SectorSize)
      buf s = Ok ((buf', f'), s') ∧
    represents s' c' o r ∧ touched f f' c c' ∧ zlen buf' = zlen buf ∧
    (∀ p, first * SectorSize ≤ p < (last + 1) * SectorSize → p < FileLength (hdr f) →
       ¬ (pos ≤ p < pos + nb) → znth buf' (p - first * SectorSize) = Some (fbyte (hdr f) c p)).
Proof using Hmem.
  intros HF HR Hr Hnb Hpos Hlen Ef El Hl. pose proof HF as [L HB Hsz Hh Ha].
  unfold FileLength in *. set (len := numBytes (hdr f)) in *.
  assert (0 ≤ first ≤ last ∧ first * SectorSize ≤ pos < (first + 1) * SectorSize ∧
    last * SectorSize < pos + nb ≤ (last + 1) * SectorSize) as (Hfl & Hp1 & Hp2)
    by (subst; consts; Z.to_euclidean_division_equations; lia).
  unfold prefill.
  (* the first sector *)
  assert (∃ b1 f1 s1 c1, (if negb (pos =? first * SectorSize)
      then read_partial mem (now 0) f first 0 buf else mret (buf, f)) s = Ok ((b1, f1), s1) ∧
      represents s1 c1 o r ∧ touched f f1 c c1 ∧ zlen b1 = zlen buf ∧
      (pos ≠ first * SectorSize → ∀ q, 0 ≤ q < SectorSize → first * SectorSize + q < len →
         znth b1 q = Some (fbyte (hdr f) c (first * SectorSize + q))))
    as (b1 & f1 & s1 & c1 & HE1 & HR1 & HT1 & Hl1 & Hb1).
  { destruct (Z.eqb_spec pos (first * SectorSize)) as [E|E]; cbn [negb].
    - exists buf, f, s, c. pose proof (touched_refl f c HF). done.
    - destruct (read_partial_ok (now 0) f c first 0 buf s o r k) as
        (b1 & f1 & s1 & c1 & HE1 & HR1 & HT1 & Hl1 & Hq & _); try done; try (unfold FileLength; fold len; consts; lia).
      exists b1, f1, s1, c1. done. }
  step HE1. pose proof HT1 as (HF1 & (E1 & E2 & _) & Hh1 & _).
  destruct (negb (pos + nb =? (last + 1) * SectorSize) &&
            (negb (first =? last) || (pos =? first * SectorSize))) eqn:EB.
  - (* the last sector *)
    destruct (read_partial_ok (now 1) f1 c1 last ((last - first) * SectorSize) b1 s1 o r k)
      as (b2 & f2 & s2 & c2 & HE2 & HR2 & HT2 & Hl2 & Hq2 & Hkeep); try done;
      try (unfold FileLength; rewrite ?E1; fold len; consts; lia); [congruence|].
    exists b2, f2, s2, c2. split_and!; try done; [by eapply touched_trans|congruence|].
    intros p Hp Hpl Hout. unfold FileLength in *. rewrite E1 in Hq2. fold len in Hq2.
    rewrite andb_true_iff, orb_true_iff, !negb_true_iff, !Z.eqb_neq, Z.eqb_eq in EB.
    destruct (decide (last * SectorSize ≤ p)) as [Hge|Hlt'].
    + replace (p - first * SectorSize) with ((last - first) * SectorSize + (p - last * SectorSize)) by lia.
      rewrite Hq2 by lia. replace (last * SectorSize + (p - last * SectorSize)) with p by lia.
      f_equal. eapply touched_fbyte; [done|done|]. consts. lia.
    + assert (p < pos) by (consts; lia). rewrite Hkeep by (consts; lia).
      rewrite Hb1 by (consts; lia). do 2 f_equal. lia.
  - exists b1, f1, s1, c1. split_and!; try done. intros p Hp Hpl Hout.
    rewrite andb_false_iff, orb_false_iff, !negb_false_iff, Z.eqb_neq, !Z.eqb_eq in EB.
    assert (p < (first + 1) * SectorSize) by (consts; lia).
    rewrite Hb1 by (consts; lia). do 2 f_equal. lia.
Qed.

(** Writing data blocks leaves the index sectors alone. *)
Lemma data_agree ds c c' n k a b :
  layout ds c n k → 0 ≤ a ∧ b ≤ n →
  (∀ x, (∀ j, a ≤ j < b → x ≠ block ds c j) → c' x = c x) → agree ds ds c c' n k.
Proof.
  intros L Hab Hk. split; [|done]. intros j Hj. unfold block.
  destruct (Z.ltb_spec j NumDirect); [done|]. rewrite Hk; [done|]. intros j' Hj' E.
  pose proof (ly_nodup _ _ _ _ L) as HN. apply list.NoDup_app in HN as (_ & HN & _).
  apply (HN (block ds c j')).
  - apply list_elem_of_fmap. exists j'. split; [done|]. apply elem_of_seqZ. lia.
  - rewrite <-E. apply list_elem_of_fmap. eexists. split; [done|]. apply elem_of_seqZ.
    pose proof (block_index _ _ _ _ j L ltac:(lia)). lia.
Qed.

(** Writing the sectors of a buffer. *)
Lemma write_sectors_ok f c first n buf s o r :
  hdr_ok (hdr f) c → represents s c o r → 0 ≤ first → 0 ≤ n → first + n ≤ numSectors (hdr f) →
  zlen buf = n * SectorSize →
  let blk := block (dataSectors (hdr f)) c in
  ∃ s' c', for_sectors (write_sector f first) (seqZ first n) buf s = Ok (buf, s') ∧
    represents s' c' o r ∧
    (∀ j, first ≤ j < first + n → c' (blk j) = read_at buf ((j - first) * SectorSize) SectorSize) ∧
    (∀ x, (∀ j, first ≤ j < first + n → x ≠ blk j) → c' x = c x).
Proof.
  intros L HR Hf Hn Hmax Hl blk. set (ds := dataSectors (hdr f)) in *.
  destruct (for_sectors_ok (write_sector f first)
    (λ i b s', b = buf ∧ ∃ c', represents s' c' o r ∧
      (∀ j, first ≤ j < i → c' (blk j) = read_at buf ((j - first) * SectorSize) SectorSize) ∧
      (∀ x, (∀ j, first ≤ j < i → x ≠ blk j) → c' x = c x))
    first n buf s) as (b & s' & HE & -> & c' & HI); [done| | |by exists s', c'].
  - split; [done|]. exists c. split_and!; try done. intros j Hj. lia.
  - intros i b s1 Hi (-> & c1 & HR1 & Hw & Hk).
    assert (agree ds ds c c1 (numSectors (hdr f)) (nidx (numSectors (hdr f)))) as HA.
    { apply (data_agree _ _ _ _ _ first i L); [lia|done]. }
    assert (layout ds c1 (numSectors (hdr f)) (nidx (numSectors (hdr f)))) as L1
      by (by eapply layout_agree).
    destruct (ByteToSector_ok (hdr f) c1 (i * SectorSize) _ s1 o r L1 HR1) as (s2 & HB & HR2);
      [consts; lia|].
    rewrite Z.div_mul in HB by (consts; lia). fold ds in HB. rewrite (proj1 HA) in HB by lia.
    unfold write_sector. step HB.
    step (copy_from_ok buf ((i - first) * SectorSize) SectorSize ltac:(consts; lia) ltac:(consts; lia)).
    set (sub := read_at buf ((i - first) * SectorSize) SectorSize).
    pose proof (block_valid _ _ _ _ i L ltac:(lia)) as Hv.
    destruct (WriteSector_ok s2 c1 o r (blk i) sub HR2 Hv) as (s3 & HW & HR3).
    { apply read_at_length. consts. lia. }
    fold (blk i). step HW. exists buf, s3. split; [done|]. split; [done|]. exists (upd c1 (blk i) sub).
    split_and!; [done|..].
    + intros j Hj. destruct (decide (j = i)) as [->|Hne]; [by rewrite upd_eq|].
      rewrite upd_ne; [apply Hw; lia|]. intros E.
      pose proof (block_inj _ _ _ _ j i L ltac:(lia) ltac:(lia) E). lia.
    + intros x Hx. rewrite upd_ne by (apply Hx; lia). apply Hk. intros j Hj. apply Hx. lia.
Qed.

(** The state after writing [bytes] at [pos]: the file is [f'], its content is the old
    one with [bytes] spliced in, other sectors than those of the file are untouched. *)
Record written_at (f f' : OpenFile) (c c' : Z → list Z) (pos : Z) (bytes : list Z) : Prop := {
  wa_ok : file_ok f' c';
  wa_same : same_but_times (hdr f) (hdr f') ∧ headerSector f' = headerSector f ∧
    seekPosition f' = seekPosition f;
  wa_bytes : file_bytes (hdr f') c' = write_at (file_bytes (hdr f) c) pos bytes;
  wa_frame : ∀ x, x ≠ headerSector f →
    (∀ j, 0 ≤ j < numSectors (hdr f) → x ≠ block (dataSectors (hdr f)) c j) → c' x = c x;
  wa_header : c' (headerSector f) = encode (hdr f')
}.

(** The content after the sectors [first .. last] were replaced by [buf]. *)
Lemma splice_sectors f c c' first n buf pos bytes s' o r :
  file_ok f c → represents s' c' o r → 0 ≤ first → 0 ≤ n → first + n ≤ numSectors (hdr f) →
  zlen buf = n * SectorSize → 0 ≤ pos → pos + zlen bytes ≤ numBytes (hdr f) →
  first * SectorSize ≤ pos → pos + zlen bytes ≤ (first + n) * SectorSize →
  let blk := block (dataSectors (hdr f)) c in
  (∀ j, first ≤ j < first + n → c' (blk j) = read_at buf ((j - first) * SectorSize) SectorSize) →
  (∀ x, (∀ j, first ≤ j < first + n → x ≠ blk j) → c' x = c x) →
  (∀ p, pos ≤ p < pos + zlen bytes → znth buf (p - first * SectorSize) = znth bytes (p - pos)) →
  (∀ p, first * SectorSize ≤ p < (first + n) * SectorSize → p < numBytes (hdr f) →
     ¬ (pos ≤ p < pos + zlen bytes) → znth buf (p - first * SectorSize) = Some (fbyte (hdr f) c p)) →
  file_ok f c' ∧ file_bytes (hdr f) c' = write_at (file_bytes (hdr f) c) pos bytes.
Proof.
  intros HF HR Hf Hn Hmax Hl Hpos Hlen Hp1 Hp2 blk Hw Hk Hnew Hold.
  pose proof HF as [L HB Hsz Hh Ha]. set (ds := dataSectors (hdr f)) in *.
  assert (agree ds ds c c' (numSectors (hdr f)) (nidx (numSectors (hdr f)))) as HA.
  { apply (data_agree _ _ _ _ _ first (first + n) L); [lia|done]. }
  split.
  - split; try done; [by eapply layout_agree|]. fold ds. by rewrite (footprint_agree _ _ _ _ _ _ HA).
  - assert (zlen (file_bytes (hdr f) c) = numBytes (hdr f)) as Hfl by (apply file_bytes_length; lia).
    apply znth_ext; rewrite ?write_at_length, ?file_bytes_length by lia; [done|].
    intros p Hp. rewrite znth_file_bytes, znth_write_at by lia.
    assert (0 ≤ p / SectorSize < numSectors (hdr f)) as Hj by (apply sector_index; consts; lia).
    assert (fbyte (hdr f) c' p = default 0 (znth (c' (blk (p / SectorSize))) (p mod SectorSize))) as ->.
    { unfold fbyte. fold ds. by rewrite (proj1 HA). }
    destruct (decide (first ≤ p / SectorSize < first + n)) as [Hin|Hout].
    + rewrite Hw by done. assert (0 ≤ p mod SectorSize < SectorSize) by (apply Z.mod_pos_bound; consts; lia).
      assert (p = p / SectorSize * SectorSize + p mod SectorSize) as Ep
        by (consts; Z.to_euclidean_division_equations; lia).
      rewrite znth_read_at by (consts; lia).
      replace ((p / SectorSize - first) * SectorSize + p mod SectorSize) with (p - first * SectorSize) by lia.
      case_bool_decide as Eb.
      * rewrite Hnew by lia. destruct (znth_range bytes (p - pos)) as [x ->]; [lia|done].
      * rewrite Hold by (consts; lia). rewrite znth_file_bytes by lia. done.
    + rewrite bool_decide_false, znth_file_bytes by (consts; Z.to_euclidean_division_equations; lia).
      rewrite Hk; [done|]. intros j Hj' E.
      pose proof (block_inj _ _ _ _ (p / SectorSize) j L ltac:(lia) ltac:(lia) E). lia.
Qed.

Lemma write_range_ok now f c from nb pos s o r :
  file_ok f c → represents s c o r → r (headerSector f) = Readers 0 →
  0 < nb ≤ zlen from → 0 ≤ pos → pos + nb ≤ FileLength (hdr f) →
  ∃ f' s' c', write_range mem now f from nb pos s = Ok ((nb, f'), s') ∧
    represents s' c' o r ∧ written_at f f' c c' pos (read_at from 0 nb).
Proof using Hmem.
  intros HF HR Hr Hnb Hpos Hlen. pose proof HF as [L HB Hsz Hh Ha]. unfold FileLength in *.
  unfold write_range. rewrite !divRoundDown_div by (consts; lia).
  set (first := pos / SectorSize). set (last := (pos + nb - 1) / SectorSize).
  assert (0 ≤ first ≤ last ∧ first * SectorSize ≤ pos ∧ pos + nb ≤ (last + 1) * SectorSize ∧
    last < numSectors (hdr f)) as (Hfl & Hp1 & Hp2 & Hls)
    by (unfold first, last; consts; Z.to_euclidean_division_equations; lia).
  destruct (prefill_ok now f c first last pos nb (mem ((1 + last - first) * SectorSize)) s o r 0)
    as (b1 & f1 & s1 & c1 & HE1 & HR1 & HT1 & Hl1 & Hold); try done; try lia.
  { apply Hmem. consts. lia. }
  rewrite Hmem in Hl1 by (consts; lia). step HE1.
  pose proof HT1 as (HF1 & HS1 & Hh1 & Hsk1 & Hc1). pose proof HS1 as (E1 & E2 & E3 & HB1).
  step (copy_from_ok from 0 nb ltac:(lia) ltac:(lia)). set (bytes := read_at from 0 nb).
  assert (zlen bytes = nb) as Hbl by (apply read_at_length; lia).
  step (copy_to_ok b1 (pos - first * SectorSize) bytes ltac:(lia) ltac:(lia)).
  set (buf := write_at b1 (pos - first * SectorSize) bytes).
  assert (zlen buf = (1 + last - first) * SectorSize) as Hbuf
    by (unfold buf; rewrite write_at_length by lia; done).
  rewrite Hh1. destruct (StartWrite_ok s1 c1 o r (headerSector f) HR1 Hh Hr) as (s2 & HE2 & HR2). step HE2.
  destruct (write_sectors_ok f1 c1 first (1 + last - first) buf s2 o (upd r (headerSector f) Writer)) as
    (s3 & c3 & HE3 & HR3 & Hw & Hk); try done; try lia; [apply HF1|]. step HE3.
  destruct (EndWrite_ok s3 c3 o _ (headerSector f) HR3 Hh (upd_eq _ _ _)) as (s4 & HE4 & HR4). step HE4.
  assert (represents s4 c3 o r) as HR4'.
  { eapply represents_ext; [exact HR4|]. intros n Hn. split_and!; try done. unfold upd.
    case_bool_decide as En; [by rewrite En|done]. }
  destruct (splice_sectors f1 c1 c3 first (1 + last - first) buf pos bytes s4 o r) as [HF3 Hfb];
    try done; try lia.
  { intros p Hp. unfold buf. rewrite znth_write_at, bool_decide_true by lia. f_equal. lia. }
  { intros p Hp Hpl Hout. unfold buf. rewrite znth_write_at, bool_decide_false by lia.
    unfold FileLength in Hold. rewrite Hold by lia. f_equal. symmetry. eapply touched_fbyte; [done|done|]. consts. lia. }
  set (h4 := set_modify_time (now 3) (set_visit_time (now 2) (hdr f1))).
  assert (same_but_times (hdr f1) h4) as HS4.
  { pose proof (set_visit_same (now 2) _ HB1) as HSv. eapply same_trans; [exact HSv|].
    apply set_modify_same. apply HSv. }
  destruct (WriteSector_ok s4 c3 o r (headerSector f) (encode h4) HR4' Hh) as (s5 & HE5 & HR5).
  { apply encode_length. apply HS4. }
  unfold WriteBack. step HE5. exists (set_hdr f1 h4), s5, (upd c3 (headerSector f) (encode h4)).
  split; [done|]. split; [done|].
  destruct (file_touch f1 c3 (upd c3 (headerSector f) (encode h4)) h4 HF3 HS4) as (HF5 & Hb5 & _).
  { intros x Hx. apply upd_ne. congruence. }
  split; [done| | | |by rewrite upd_eq].
  - split_and!; try done. by eapply same_trans.
  - change (hdr (set_hdr f1 h4)) with h4. rewrite Hb5, Hfb. f_equal. by apply file_bytes_touched.
  - intros x Hx Hnb'. rewrite upd_ne by done.
    assert (agree (dataSectors (hdr f)) (dataSectors (hdr f)) c c1 (numSectors (hdr f))
      (nidx (numSectors (hdr f)))) as HA.
    { apply apart_agree; [done|]. intros y Hy. apply Hc1. by intros ->. }
    rewrite Hk; [by apply Hc1|]. intros j Hj. rewrite E3, (proj1 HA) by lia. apply Hnb'. lia.
Qed.

(** *** Both halves of [WriteAt] *)

Context (extend : Z → Z → FileHeader → Z → ST S (bool * FileHeader)).

Lemma WriteAt_none now f from nb pos s :
  nb ≤ 0 ∨ FileLength (hdr f) ≤ pos → WriteAt mem extend now f from nb pos s = Ok ((0, f), s).
Proof.
  intros Hc. unfold WriteAt.
  assert ((nb <=? 0) || (pos >=? FileLength (hdr f)) = true) as ->; [|done].
  apply orb_true_iff. destruct Hc; [left; lia|right]. apply Z.geb_le. lia.
Qed.

Lemma WriteAt_inside now f from nb pos s :
  0 < nb → 0 ≤ pos → pos + nb ≤ FileLength (hdr f) < 2 ^ 31 →
  WriteAt mem extend now f from nb pos s = write_range mem now f from nb pos s.
Proof.
  intros Hnb Hpos Hlen. unfold WriteAt.
  assert ((nb <=? 0) || (pos >=? FileLength (hdr f)) = false) as ->.
  { apply orb_false_iff. split; [lia|]. rewrite Z.geb_leb. lia. }
  step (add_int_ok pos nb ltac:(lia)).
  by destruct (Z.gtb_spec (pos + nb) (FileLength (hdr f))); [lia|].
Qed.

Lemma length_small f c : file_ok f c → 0 ≤ FileLength (hdr f) ≤ 21248.
Proof.
  intros [L _ Hs _ _]. pose proof (layout_bound _ _ _ _ L). unfold FileLength. consts. lia.
Qed.

Lemma WriteAt_ok now f c from nb pos s o r :
  file_ok f c → represents s c o r → r (headerSector f) = Readers 0 →
  0 < nb ≤ zlen from → 0 ≤ pos → pos + nb ≤ FileLength (hdr f) →
  ∃ f' s' c', WriteAt mem extend now f from nb pos s = Ok ((nb, f'), s') ∧
    represents s' c' o r ∧ written_at f f' c c' pos (read_at from 0 nb).
Proof using Hmem.
  intros HF HR Hr Hnb Hpos Hlen. pose proof (length_small f c HF).
  rewrite WriteAt_inside by lia. by apply write_range_ok.
Qed.

(** What a call of [ExtendWrapper] for [f] has done to the header and the disk: [h'] is a
    header of [len] bytes whose first bytes are those of [f]. *)
Record lengthened (f : OpenFile) (h' : FileHeader) (c c1 : Z → list Z) (len : Z) : Prop := {
  le_ok : file_ok (set_hdr f h') c1;
  le_len : numBytes h' = len;
  le_keep : ∀ p, 0 ≤ p < numBytes (hdr f) → fbyte h' c1 p = fbyte (hdr f) c p
}.

Lemma WriteAt_extends now f c c1 h' from nb pos s s1 o r :
  file_ok f c → represents s1 c1 o r → r (headerSector f) = Readers 0 →
  0 < nb ≤ zlen from → 0 ≤ pos < FileLength (hdr f) → FileLength (hdr f) < pos + nb →
  extend (pos + nb) (headerSector f) (hdr f)
    (divRoundUp (pos + nb) SectorSize - divRoundUp (FileLength (hdr f)) SectorSize) s =
    Ok ((true, h'), s1) →
  lengthened f h' c c1 (pos + nb) →
  ∃ f' s' c', WriteAt mem extend now f from nb pos s = Ok ((nb, f'), s') ∧
    represents s' c' o r ∧ file_ok f' c' ∧ headerSector f' = headerSector f ∧
    file_bytes (hdr f') c' = take (Z.to_nat pos) (file_bytes (hdr f) c) ++ read_at from 0 nb.
Proof using Hmem.
  intros HF HR Hr Hnb Hpos Hlen HE [HF1 El Hkeep].
  pose proof (length_small f c HF). pose proof (length_small _ _ HF1) as Hs1. cbn in Hs1.
  unfold FileLength in *. rewrite El in Hs1. unfold WriteAt, FileLength.
  assert ((nb <=? 0) || (pos >=? numBytes (hdr f)) = false) as ->.
  { apply orb_false_iff. split; [lia|]. rewrite Z.geb_leb. lia. }
  step (add_int_ok pos nb ltac:(lia)).
  destruct (Z.gtb_spec (pos + nb) (numBytes (hdr f))); [|lia]. step HE.
  destruct (write_range_ok now (set_hdr f h') c1 from nb pos s1 o r)
    as (f' & s' & c' & HW & HR' & HA); try done; try lia.
  { cbn. unfold FileLength. lia. }
  exists f', s', c'. split_and!; try done; [apply HA..|].
  rewrite (wa_bytes _ _ _ _ _ _ HA). change (hdr (set_hdr f h')) with h'. unfold write_at.
  assert (zlen (read_at from 0 nb) = nb) as Hrl by (apply read_at_length; lia).
  assert (zlen (file_bytes h' c1) = pos + nb) as Hfl by (rewrite file_bytes_length; lia).
  rewrite (drop_ge (file_bytes h' c1)) by (unfold zlen in *; lia). rewrite app_nil_r. f_equal.
  apply znth_ext; unfold zlen; rewrite !length_take; fold (zlen (file_bytes h' c1)).
  { pose proof (file_bytes_length (hdr f) c ltac:(lia)). unfold zlen in *. lia. }
  intros p Hp. unfold zlen in Hfl.
  change (znth (take (Z.to_nat pos) (file_bytes h' c1)) p) with
    (znth (read_at (file_bytes h' c1) 0 pos) p).
  change (znth (take (Z.to_nat pos) (file_bytes (hdr f) c)) p) with
    (znth (read_at (file_bytes (hdr f) c) 0 pos) p).
  rewrite !znth_read_at by (rewrite ?file_bytes_length; lia). rewrite Z.add_0_l.
  rewrite !znth_file_bytes by lia. f_equal. apply Hkeep. lia.
Qed.
End proofs.

Section theorems.
Context {S : Type} `{SectorStoreLaws S}.
Context (mem : Z → list Z).
Context (extend : Z → Z → FileHeader → Z → ST S (bool * FileHeader)).
Implicit Types (s : S) (c : Z → list Z) (o : Z → Z) (r : Z → rwstate).

(** C15: [ReadAt] returns the bytes of the file at [position], as many as were asked for
    and as the file has, without changing the content of the file; of the disk only the
    sector of the header changes, which gets the time of the visit; a request that is
    empty or starts at or behind the end reads nothing. *)
Theorem ReadAt_reads_file now f c nb pos s o r k :
  (∀ n, 0 ≤ n → zlen (mem n) = n) →
  file_ok f c → represents s c o r → r (headerSector f) = Readers k →
  0 ≤ pos → pos + nb < 2 ^ 31 →
  let cnt := Z.max 0 (Z.min nb (FileLength (hdr f) - pos)) in
  ∃ f' s' c', ReadAt mem now f nb pos s =
      Ok ((cnt, read_at (file_bytes (hdr f) c) pos cnt, f'), s') ∧
    represents s' c' o r ∧ file_ok f' c' ∧ file_bytes (hdr f') c' = file_bytes (hdr f) c ∧
    ∀ q, q ≠ headerSector f → c' q = c q.
Proof.
  intros Hmem HF HR Hr Hpos Hov cnt.
  destruct (decide (nb ≤ 0 ∨ FileLength (hdr f) ≤ pos)) as [Hn|Hn].
  - assert (cnt = 0) as -> by lia. exists f, s, c. rewrite ReadAt_none by done. done.
  - destruct (ReadAt_ok mem Hmem now f c nb pos s o r k) as (s' & HE & HR'); try done; try lia.
    replace (Z.min nb (FileLength (hdr f) - pos)) with cnt in HE by lia.
    eexists _, s', _. split_and!; [exact HE|exact HR'|..|intros q Hq; by apply upd_ne];
      apply (file_touch f c); try done; try (by apply set_visit_same; apply HF);
      intros x Hx; by apply upd_ne.
Qed.

(** C14: [WriteAt] inside a file replaces exactly the bytes written, including when the
    first or last sector is only partly covered, and touches no sector outside the file's
    header and data blocks. *)
Theorem WriteAt_splices_file now f c from nb pos s o r :
  (∀ n, 0 ≤ n → zlen (mem n) = n) →
  file_ok f c → represents s c o r → r (headerSector f) = Readers 0 →
  0 < nb ≤ zlen from → 0 ≤ pos → pos + nb ≤ FileLength (hdr f) →
  ∃ f' s' c', WriteAt mem extend now f from nb pos s = Ok ((nb, f'), s') ∧
    represents s' c' o r ∧ written_at f f' c c' pos (read_at from 0 nb).
Proof. intros Hmem. by apply WriteAt_ok. Qed.

(** What was written is read back: after [WriteAt] at [pos], [ReadAt] of the same
    range returns the bytes written, and [ReadAt] of a range apart from it returns what
    it would have returned before. *)
Theorem ReadAt_WriteAt_roundtrip now now' f c from nb pos n' pos' s o r :
  (∀ n, 0 ≤ n → zlen (mem n) = n) →
  file_ok f c → represents s c o r → r (headerSector f) = Readers 0 →
  0 < nb ≤ zlen from → 0 ≤ pos → pos + nb ≤ FileLength (hdr f) →
  0 < n' → 0 ≤ pos' → pos' + n' ≤ FileLength (hdr f) →
  ∃ f1 s1 f2 s2 bytes, WriteAt mem extend now f from nb pos s = Ok ((nb, f1), s1) ∧
    ReadAt mem now' f1 n' pos' s1 = Ok ((n', bytes, f2), s2) ∧
    (pos' = pos → n' = nb → bytes = read_at from 0 nb) ∧
    (pos' + n' ≤ pos ∨ pos + nb ≤ pos' → bytes = read_at (file_bytes (hdr f) c) pos' n').
Proof.
  intros Hmem HF HR Hr Hnb Hpos Hlen Hn' Hpos' Hlen'. pose proof (length_small f c HF) as Hsm.
  destruct (WriteAt_ok mem Hmem extend now f c from nb pos s o r) as (f1 & s1 & c1 & HW & HR1 & HA);
    try done.
  destruct (wa_same _ _ _ _ _ _ HA) as [(E1 & _) [Hh _]]. unfold FileLength in *.
  destruct (ReadAt_ok mem Hmem now' f1 c1 n' pos' s1 o r 0) as (s2 & HRd & HR2);
    try done; try (unfold FileLength; lia); [apply HA|congruence|].
  unfold FileLength in HRd. rewrite E1, Z.min_l in HRd by lia.
  eexists f1, s1, _, s2, _. split_and!; [exact HW|exact HRd|..];
    rewrite (wa_bytes _ _ _ _ _ _ HA);
    assert (zlen (read_at from 0 nb) = nb) as Hrl by (apply read_at_length; lia).
  - intros -> ->. rewrite <-Hrl at 2. apply read_write_same; [done|].
    rewrite file_bytes_length; lia.
  - intros Hd. apply read_write_disjoint; rewrite ?file_bytes_length; lia.
Qed.

(** A write that starts inside the file and ends behind it: if the call of
    [ExtendWrapper] lengthens the file, all bytes are written and the file ends with
    them. *)
Theorem WriteAt_extends_file now f c c1 h' from nb pos s s1 o r :
  (∀ n, 0 ≤ n → zlen (mem n) = n) →
  file_ok f c → represents s1 c1 o r → r (headerSector f) = Readers 0 →
  0 < nb ≤ zlen from → 0 ≤ pos < FileLength (hdr f) → FileLength (hdr f) < pos + nb →
  extend (pos + nb) (headerSector f) (hdr f)
    (divRoundUp (pos + nb) SectorSize - divRoundUp (FileLength (hdr f)) SectorSize) s =
    Ok ((true, h'), s1) →
  lengthened f h' c c1 (pos + nb) →
  ∃ f' s' c', WriteAt mem extend now f from nb pos s = Ok ((nb, f'), s') ∧
    represents s' c' o r ∧ file_ok f' c' ∧ headerSector f' = headerSector f ∧
    file_bytes (hdr f') c' = take (Z.to_nat pos) (file_bytes (hdr f) c) ++ read_at from 0 nb.
Proof. intros Hmem. by apply WriteAt_extends. Qed.

(** Consecutive [Read]s deliver consecutive parts of the file: two calls return the
    bytes one call for both would have returned, and the position moves to its end. *)
Theorem Read_consecutive now now' f c n1 n2 s o r k :
  (∀ n, 0 ≤ n → zlen (mem n) = n) →
  file_ok f c → represents s c o r → r (headerSector f) = Readers k →
  0 ≤ seekPosition f → 0 < n1 → 0 < n2 → seekPosition f + n1 + n2 ≤ FileLength (hdr f) →
  ∃ b1 b2 f1 f2 s1 s2, Read mem now f n1 s = Ok ((n1, b1, f1), s1) ∧
    Read mem now' f1 n2 s1 = Ok ((n2, b2, f2), s2) ∧
    b1 ++ b2 = read_at (file_bytes (hdr f) c) (seekPosition f) (n1 + n2) ∧
    seekPosition f2 = seekPosition f + n1 + n2.
Proof.
  intros Hmem HF HR Hr Hsk Hn1 Hn2 Hlen. pose proof (length_small f c HF) as Hsm.
  destruct (ReadAt_ok mem Hmem now f c n1 (seekPosition f) s o r k) as (s1 & HE1 & HR1); try done; try lia.
  rewrite Z.min_l in HE1 by lia. set (h1 := set_visit_time now (hdr f)) in *.
  set (c1 := upd c (headerSector f) (encode h1)) in *.
  destruct (file_touch f c c1 h1 HF) as (HF1 & Hb1 & _).
  { apply set_visit_same, HF. } { intros x Hx. by apply upd_ne. }
  set (f1 := Seek (seekPosition f + n1) (set_hdr f h1)).
  assert (file_ok f1 c1) as HF1' by (by destruct HF1; split).
  destruct (ReadAt_ok mem Hmem now' f1 c1 n2 (seekPosition f1) s1 o r k) as (s2 & HE2 & HR2);
    try done; try (cbn; unfold FileLength in *; cbn; lia).
  rewrite Z.min_l in HE2 by (cbn; unfold FileLength in *; cbn; lia).
  eexists _, _, f1, _, s1, s2. unfold Read. step HE1. split; [done|]. step HE2. split; [done|].
  split; [|cbn; lia]. change (hdr f1) with h1. rewrite Hb1. cbn [f1 Seek seekPosition].
  unfold read_at. replace (Z.to_nat (n1 + n2)) with (Z.to_nat n1 + Z.to_nat n2)%nat by lia.
  rewrite <-take_take_drop, drop_drop. do 3 f_equal. lia.
Qed.

(** Every read through an open file stores that object's copy of the header.  If
    another open file has lengthened the file in the meantime, so that the header on disk
    is [h2], the read puts the shorter header back and the extension is lost. *)
Theorem ReadAt_restores_stale_header now f c h2 nb pos s o r k :
  (∀ n, 0 ≤ n → zlen (mem n) = n) →
  file_ok f c → represents s c o r → r (headerSector f) = Readers k →
  decode (c (headerSector f)) = h2 → FileLength (hdr f) < FileLength h2 →
  0 < nb → 0 ≤ pos < FileLength (hdr f) → pos + nb < 2 ^ 31 →
  ∃ x s' c', ReadAt mem now f nb pos s = Ok (x, s') ∧ represents s' c' o r ∧
    FileLength (decode (c' (headerSector f))) = FileLength (hdr f).
Proof.
  intros Hmem HF HR Hr _ _ Hnb Hpos Hov.
  destruct (ReadAt_ok mem Hmem now f c nb pos s o r k) as (s' & HE & HR'); try done.
  eexists _, s', _. split; [exact HE|]. split; [exact HR'|].
  rewrite upd_eq, decode_encode; [done|]. apply set_visit_same, HF.
Qed.
End theorems.

(** ** Concrete instances *)

Definition sample_mem : Z → list Z := λ n, replicate (Z.to_nat n) 0.
Lemma sample_mem_length n : 0 ≤ n → zlen (sample_mem n) = n.
Proof. apply zlen_replicate. Qed.

(** A file of [len] bytes in sectors 2, 3 and 4, with its header in sector 1. *)
Definition sample_file (len : Z) : OpenFile := mkOpenFile (sample_hdr len 3 [2; 3; 4]) 10 1.

Lemma sample_footprint c len :
  footprint (dataSectors (sample_hdr len 3 [2; 3; 4])) c 3 0 = [2; 3; 4].
Proof. reflexivity. Qed.
Lemma sample_file_ok len c : 0 ≤ len ≤ 384 → file_ok (sample_file len) c.
Proof.
  intros Hl. split.
  - assert (layout (dataSectors (sample_hdr len 3 [2; 3; 4])) c 3 0) as L; [|exact L].
    split; rewrite ?sample_footprint; try reflexivity; try (consts; lia).
    + apply (bool_decide_unpack _). vm_compute. exact I.
    + repeat constructor; consts; lia.
  - apply sample_bytes; [unfold is_s32; lia..|cbn; lia|repeat constructor; unfold is_s32; lia].
  - cbn. consts. lia.
  - cbn. consts. lia.
  - change (1 ∉ [2; 3; 4]). apply (bool_decide_unpack _). vm_compute. exact I.
Qed.

Lemma ReadAt_reads_file_witness :
  ∃ (s : SynchDisk.SynchDisk) f' s',
    ReadAt sample_mem [] (sample_file 300) 500 100 s = Ok ((200, replicate 200 0, f'), s').
Proof.
  destruct sample_disk as [s HR]. exists s.
  destruct (ReadAt_reads_file sample_mem [] (sample_file 300) (λ _, zero_sector) 500 100 s
    (λ _, 0) (λ _, Readers 0) 0 sample_mem_length) as (f' & s' & c' & HE & _).
  - apply sample_file_ok. lia.
  - exact HR.
  - reflexivity.
  - lia.
  - lia.
  - exists f', s'. rewrite HE. vm_compute. reflexivity.
Defined.

Definition no_extend {S} : Z → Z → FileHeader → Z → ST S (bool * FileHeader) :=
  λ _ _ h _ s, Ok ((false, h), s).

Lemma WriteAt_splices_file_witness :
  ∃ (s : SynchDisk.SynchDisk) f' s' c',
    WriteAt sample_mem no_extend (λ _, []) (sample_file 300) (replicate 50 7) 50 100 s =
      Ok ((50, f'), s') ∧
    written_at (sample_file 300) f' (λ _, zero_sector) c' 100 (replicate 50 7).
Proof.
  destruct sample_disk as [s HR]. exists s.
  destruct (WriteAt_splices_file sample_mem no_extend (λ _, []) (sample_file 300)
    (λ _, zero_sector) (replicate 50 7) 50 100 s (λ _, 0) (λ _, Readers 0) sample_mem_length)
    as (f' & s' & c' & HE & _ & HW).
  - apply sample_file_ok. lia.
  - exact HR.
  - reflexivity.
  - split; [lia|vm_compute; discriminate].
  - lia.
  - vm_compute. discriminate.
  - exists f', s', c'. exact (conj HE HW).
Defined.

Lemma ReadAt_WriteAt_roundtrip_witness :
  ∃ (s : SynchDisk.SynchDisk) f1 s1 f2 s2,
    WriteAt sample_mem no_extend (λ _, []) (sample_file 300) (replicate 50 7) 50 100 s =
      Ok ((50, f1), s1) ∧
    ReadAt sample_mem [] f1 50 100 s1 = Ok ((50, replicate 50 7, f2), s2).
Proof.
  destruct sample_disk as [s HR]. exists s.
  destruct (ReadAt_WriteAt_roundtrip sample_mem no_extend (λ _, []) [] (sample_file 300)
    (λ _, zero_sector) (replicate 50 7) 50 100 50 100 s (λ _, 0) (λ _, Readers 0) sample_mem_length)
    as (f1 & s1 & f2 & s2 & b & HW & HRd & Hb & _).
  - apply sample_file_ok. lia.
  - exact HR.
  - reflexivity.
  - split; [lia|vm_compute; discriminate].
  - lia.
  - vm_compute. discriminate.
  - lia.
  - lia.
  - vm_compute. discriminate.
  - exists f1, s1, f2, s2. split; [exact HW|]. rewrite HRd, (Hb eq_refl eq_refl). reflexivity.
Defined.

Lemma WriteAt_extends_file_witness :
  ∃ (s : SynchDisk.SynchDisk) f' s' c',
    WriteAt sample_mem (λ _ _ _ _ s, Ok ((true, sample_hdr 350 3 [2; 3; 4]), s)) (λ _, [])
      (sample_file 300) (replicate 60 7) 60 290 s = Ok ((60, f'), s') ∧
    file_bytes (hdr f') c' = replicate 290 0 ++ replicate 60 7.
Proof.
  destruct sample_disk as [s HR]. exists s.
  destruct (WriteAt_extends_file sample_mem (λ _ _ _ _ s, Ok ((true, sample_hdr 350 3 [2; 3; 4]), s))
    (λ _, []) (sample_file 300) (λ _, zero_sector) (λ _, zero_sector) (sample_hdr 350 3 [2; 3; 4])
    (replicate 60 7) 60 290 s s (λ _, 0) (λ _, Readers 0) sample_mem_length)
    as (f' & s' & c' & HE & _ & _ & _ & Hb).
  - apply sample_file_ok. lia.
  - exact HR.
  - reflexivity.
  - split; [lia|vm_compute; discriminate].
  - split; [lia|vm_compute; reflexivity].
  - vm_compute. reflexivity.
  - reflexivity.
  - split; [apply (sample_file_ok 350); lia|reflexivity|]. intros p _. reflexivity.
  - exists f', s', c'. split; [exact HE|]. rewrite Hb. vm_compute. reflexivity.
Defined.

Lemma Read_consecutive_witness :
  ∃ (s : SynchDisk.SynchDisk) b1 b2 f1 f2 s1 s2,
    Read sample_mem [] (sample_file 300) 100 s = Ok ((100, b1, f1), s1) ∧
    Read sample_mem [] f1 150 s1 = Ok ((150, b2, f2), s2) ∧ b1 ++ b2 = replicate 250 0.
Proof.
  destruct sample_disk as [s HR]. exists s.
  destruct (Read_consecutive sample_mem [] [] (sample_file 300) (λ _, zero_sector) 100 150 s
    (λ _, 0) (λ _, Readers 0) 0 sample_mem_length)
    as (b1 & b2 & f1 & f2 & s1 & s2 & H1 & H2 & Hb & _).
  - apply sample_file_ok. lia.
  - exact HR.
  - reflexivity.
  - vm_compute. discriminate.
  - lia.
  - lia.
  - vm_compute. discriminate.
  - exists b1, b2, f1, f2, s1, s2. split; [exact H1|]. split; [exact H2|]. rewrite Hb.
    vm_compute. reflexivity.
Defined.

Lemma ReadAt_restores_stale_header_witness :
  ∃ (s : SynchDisk.SynchDisk) c, represents s c (λ _, 0) (λ _, Readers 0) ∧
    FileLength (decode (c 1)) = 350 ∧
    ∃ x s' c', ReadAt sample_mem [] (sample_file 300) 10 0 s = Ok (x, s') ∧
      represents s' c' (λ _, 0) (λ _, Readers 0) ∧ FileLength (decode (c' 1)) = 300.
Proof.
  destruct sample_disk as [s0 HR0].
  assert (hdr_bytes (sample_hdr 350 3 [2; 3; 4])) as HB
    by (apply sample_bytes; [unfold is_s32; lia..|cbn; lia|repeat constructor; unfold is_s32; lia]).
  destruct (WriteSector_ok s0 _ _ _ 1 (encode (sample_hdr 350 3 [2; 3; 4])) HR0)
    as (s & _ & HR); [consts; lia|apply encode_length; exact HB|].
  exists s, (upd (λ _, zero_sector) 1 (encode (sample_hdr 350 3 [2; 3; 4]))).
  split; [exact HR|]. split; [vm_compute; reflexivity|].
  apply (ReadAt_restores_stale_header sample_mem [] (sample_file 300)
    (upd (λ _, zero_sector) 1 (encode (sample_hdr 350 3 [2; 3; 4])))
    (sample_hdr 350 3 [2; 3; 4]) 10 0 s (λ _, 0) (λ _, Readers 0) 0 sample_mem_length).
  - apply sample_file_ok. lia.
  - exact HR.
  - reflexivity.
  - vm_compute. reflexivity.
  - vm_compute. reflexivity.
  - lia.
  - split; [lia|vm_compute; reflexivity].
  - lia.
Defined.
