(* ===== verification/Directory.v ===== *)
(** * Directories: filesys/directory.cc

    A directory is a table of entries searched by name.  [entries] abstracts it to a
    finite map from names, cut to [FileNameMaxLen] characters, to header sectors, and
    the operations are those of the map. *)

From S2P Require Import Prelude Disk SectorStore SynchDisk FileHdr FileHdrExtend OpenFile.

Definition FileNameMaxLen : Z := 39.

(** Class [DirectoryEntry]; [dpad] are the two bytes before [dsector]. *)
Record DirectoryEntry := mkDirEntry {
  inUse : bool;
  isDirE : bool;
  dpad : list Z;
  dsector : Z;
  name : list Z
}.

Record Directory := mkDirectory { tableSize : Z; table : list DirectoryEntry }.

(** A C string is the list of its characters, without the final 0. *)
Definition c_string (s : list Z) : Prop := Forall (λ b, 0 < b < 256) s.

(** [!strncmp(a, b, n)] for the arrays [a] and [b]; reading past their end is
    undefined. *)
Fixpoint strneq (n : nat) (a b : list Z) : result bool :=
  match n with
  | O => Ok true
  | S n' =>
      match a, b with
      | x :: a', y :: b' =>
          if x =? y then if x =? 0 then Ok true else strneq n' a' b' else Ok false
      | _, _ => Stop Undefined
      end
  end.

(** [strncpy(dst, src, n)]: the first [n] bytes of [src], padded with zeros. *)
Definition strncpy (dst src : list Z) (n : Z) : list Z :=
  write_at dst 0 (take (Z.to_nat n) (src ++ replicate (Z.to_nat n) 0)).

(** [Directory::Directory]; [mem] is the uninitialised table. *)
Definition Directory_new (size : Z) (mem : list DirectoryEntry) : Directory :=
  mkDirectory size ((λ e, mkDirEntry false (isDirE e) (dpad e) (dsector e) (name e)) <$> mem).

(** Does entry [e] have the name [s]? *)
Definition entry_named (e : DirectoryEntry) (s : list Z) : result bool :=
  if inUse e then strneq (Z.to_nat FileNameMaxLen) (name e) (s ++ [0]) else Ok false.

Fixpoint FindIndex_from (d : Directory) (s : list Z) (l : list Z) : result Z :=
  match l with
  | [] => Ok (-1)
  | i :: l' =>
      e ← aget (table d) i;
      b ← entry_named e s;
      if (b : bool) then Ok i else FindIndex_from d s l'
  end.
Definition FindIndex (d : Directory) (s : list Z) : result Z :=
  FindIndex_from d s (seqZ 0 (tableSize d)).

(** On a miss the code also prints: [List], which changes nothing, and before it
    [printf("%s not found,ls :\n")] without the argument that the format asks for.  C++
    leaves that call undefined; the model takes it to print some text, as all output. *)
Definition Find (d : Directory) (s : list Z) : result Z :=
  i ← FindIndex d s;
  if (negb (i =? -1) : bool) then e ← aget (table d) i; Ok (dsector e) else Ok (-1).

Fixpoint Add_from (d : Directory) (s : list Z) (newSector : Z) (isDir : bool) (l : list Z) :
    result (bool * Directory) :=
  match l with
  | [] => Ok (false, d)
  | i :: l' =>
      e ← aget (table d) i;
      if negb (inUse e) then
        t ← aset (table d) i
              (mkDirEntry true isDir (dpad e) newSector (strncpy (name e) s FileNameMaxLen));
        Ok (true, mkDirectory (tableSize d) t)
      else Add_from d s newSector isDir l'
  end.
Definition Add (d : Directory) (s : list Z) (newSector : Z) (isDir : bool) :
    result (bool * Directory) :=
  i ← FindIndex d s;
  if (negb (i =? -1) : bool) then Ok (false, d)
  else Add_from d s newSector isDir (seqZ 0 (tableSize d)).

Definition Remove (d : Directory) (s : list Z) : result (bool * Directory) :=
  i ← FindIndex d s;
  if (i =? -1 : bool) then Ok (false, d)
  else
    e ← aget (table d) i;
    t ← aset (table d) i (mkDirEntry false (isDirE e) (dpad e) (dsector e) (name e));
    Ok (true, mkDirectory (tableSize d) t).

Definition isDir (d : Directory) (s : list Z) : result bool :=
  i ← FindIndex d s;
  if (i <? 0 : bool) then Ok false
  else e ← aget (table d) i; Ok (isDirE e && inUse e).

Fixpoint isEmpty_from (d : Directory) (l : list Z) : result bool :=
  match l with
  | [] => Ok true
  | i :: l' => e ← aget (table d) i; if inUse e then Ok false else isEmpty_from d l'
  end.
Definition isEmpty (d : Directory) : result bool := isEmpty_from d (seqZ 0 (tableSize d)).

(** ** The table in memory and in its file *)

(** [sizeof(DirectoryEntry)]. *)
Definition EntrySize : Z := 48.

Definition enc_bool (b : bool) : Z := if b then 1 else 0.
Definition enc_entry (e : DirectoryEntry) : list Z :=
  enc_bool (inUse e) :: enc_bool (isDirE e) :: dpad e ++ le_split 4 (dsector e) ++ name e.
Definition dec_entry (b : list Z) : DirectoryEntry :=
  mkDirEntry (negb (default 0 (znth b 0) =? 0)) (negb (default 0 (znth b 1) =? 0))
    (read_at b 2 2) (int_at b 4) (read_at b 8 40).
Definition enc_table (t : list DirectoryEntry) : list Z := concat (enc_entry <$> t).
Definition dec_table (n : Z) (b : list Z) : list DirectoryEntry :=
  (λ i, dec_entry (read_at b (EntrySize * i) EntrySize)) <$> seqZ 0 n.

Section files.
Context {S : Type} `{SectorStore S}.
Context (mem : Z → list Z).
Context (extend : Z → Z → FileHeader → Z → ST S (bool * FileHeader)).

(** [Directory::FetchFrom] and [Directory::WriteBack]: the bytes that were read
    replace the first bytes of the table. *)
Definition Dir_FetchFrom (now : list Z) (d : Directory) (f : OpenFile) :
    ST S (Directory * OpenFile) :=
  '(_, b, f) ← ReadAt mem now f (tableSize d * EntrySize) 0;
  mret (mkDirectory (tableSize d)
          (dec_table (tableSize d) (write_at (enc_table (table d)) 0 b)), f).
Definition Dir_WriteBack (now : Z → list Z) (d : Directory) (f : OpenFile) : ST S OpenFile :=
  '(_, f) ← WriteAt mem extend now f (enc_table (table d)) (tableSize d * EntrySize) 0;
  mret f.
End files.

(** ** Names *)

(** What [strncmp] compares: the characters up to the first 0, at most 39. *)
Fixpoint upto0 (l : list Z) : list Z :=
  match l with [] => [] | x :: l' => if x =? 0 then [] else x :: upto0 l' end.
Definition key (a : list Z) : list Z := upto0 (take (Z.to_nat FileNameMaxLen) a).

Lemma strneq_upto0 n a b :
  (n ≤ length a)%nat → ((n ≤ length b)%nat ∨ 0 ∈ b) →
  strneq n a b = Ok (bool_decide (upto0 (take n a) = upto0 (take n b))).
Proof.
  revert a b. induction n as [|n IH]; intros a b Ha Hb.
  { cbn. by rewrite bool_decide_true. }
  destruct a as [|x a]; [cbn in Ha; lia|].
  destruct b as [|y b]; [destruct Hb as [Hb|Hb]; [cbn in Hb; lia|by apply elem_of_nil in Hb]|].
  cbn [strneq take upto0]. destruct (Z.eqb_spec x y) as [->|Hne].
  - destruct (Z.eqb_spec y 0) as [->|Hy]; [by rewrite bool_decide_true|].
    rewrite IH.
    + f_equal. apply bool_decide_ext. split; congruence.
    + cbn in Ha. lia.
    + destruct Hb as [Hb|[E|Hb]%elem_of_cons]; [left; cbn in Hb; lia|congruence|by right].
  - rewrite bool_decide_false; [done|].
    destruct (Z.eqb_spec x 0), (Z.eqb_spec y 0); congruence.
Qed.

Lemma upto0_string s l : c_string s → upto0 (s ++ 0 :: l) = s.
Proof.
  induction 1 as [|x s Hx _ IH]; [done|]. cbn. destruct (Z.eqb_spec x 0); [lia|]. by rewrite IH.
Qed.
Lemma upto0_no0 s : c_string s → upto0 s = s.
Proof.
  induction 1 as [|x s Hx _ IH]; [done|]. cbn. destruct (Z.eqb_spec x 0); [lia|]. by rewrite IH.
Qed.

(** The key of an argument string. *)
Definition cut (s : list Z) : list Z := take (Z.to_nat FileNameMaxLen) s.

Lemma key_arg s l : c_string s → key (s ++ 0 :: l) = cut s.
Proof.
  intros Hs. unfold key, cut. set (n := Z.to_nat FileNameMaxLen).
  destruct (decide (length s < n)%nat) as [Hl|Hl].
  - rewrite take_app_ge by lia. rewrite (take_ge s) by lia.
    replace (n - length s)%nat with (S (n - length s - 1))%nat by lia. cbn [take].
    by apply upto0_string.
  - rewrite take_app_le by lia. apply upto0_no0. unfold c_string in *. by apply Forall_take.
Qed.

Lemma entry_named_spec e s :
  zlen (name e) = FileNameMaxLen + 1 → c_string s →
  entry_named e s = Ok (bool_decide (inUse e = true ∧ key (name e) = cut s)).
Proof.
  intros Hl Hs. unfold entry_named. destruct (inUse e).
  - rewrite strneq_upto0.
    + fold (key (name e)) (key (s ++ [0])). rewrite key_arg by done.
      f_equal. apply bool_decide_ext. naive_solver.
    + unfold zlen, FileNameMaxLen in *. lia.
    + right. apply elem_of_app. right. left.
  - rewrite bool_decide_false; [done|naive_solver].
Qed.

(** [strncpy] stores the key of the name. *)
Lemma strncpy_key dst s :
  zlen dst = FileNameMaxLen + 1 → c_string s →
  zlen (strncpy dst s FileNameMaxLen) = FileNameMaxLen + 1 ∧
  key (strncpy dst s FileNameMaxLen) = cut s.
Proof.
  intros Hl Hs. unfold strncpy. set (n := Z.to_nat FileNameMaxLen).
  assert (zlen (take n (s ++ replicate n 0)) = FileNameMaxLen) as Ht.
  { unfold zlen. rewrite length_take, length_app, length_replicate. unfold n, FileNameMaxLen. lia. }
  split; [rewrite write_at_length by lia; done|].
  unfold key. fold n. unfold write_at. rewrite take_0. cbn [app].
  rewrite take_app_length' by (unfold zlen in Ht; unfold FileNameMaxLen in *; lia).
  pose proof (key_arg s (replicate (n - 1) 0) Hs) as HK. unfold key in HK. fold n in HK.
  by replace (0 :: replicate (n - 1) 0) with (replicate n 0) in HK by done.
Qed.

#[global] Arguments strneq : simpl never.

(** ** The directory as a finite map *)

Definition entry_for (e : DirectoryEntry) (k : list Z) : Prop :=
  inUse e = true ∧ key (name e) = k.

Record dir_ok (d : Directory) : Prop := {
  do_size : zlen (table d) = tableSize d;
  do_name i e : znth (table d) i = Some e → zlen (name e) = FileNameMaxLen + 1;
  do_uniq i j e e' k : znth (table d) i = Some e → znth (table d) j = Some e' →
    entry_for e k → entry_for e' k → i = j
}.

(** [dir_rep d m]: the entries in use are the bindings of [m]. *)
Definition dir_rep (d : Directory) (m : gmap (list Z) (Z * bool)) : Prop :=
  dir_ok d ∧
  ∀ k v, m !! k = Some v ↔
    ∃ i e, znth (table d) i = Some e ∧ entry_for e k ∧ v = (dsector e, isDirE e).

Lemma FindIndex_spec d s :
  dir_ok d → c_string s →
  ∃ i, FindIndex d s = Ok i ∧
    ((i = -1 ∧ ∀ j e, znth (table d) j = Some e → ¬ entry_for e (cut s)) ∨
     ∃ e, znth (table d) i = Some e ∧ entry_for e (cut s)).
Proof.
  intros OK Hs. unfold FindIndex. rewrite <-(do_size _ OK).
  assert (∀ l, (∀ i, i ∈ l → 0 ≤ i < zlen (table d)) →
    ∃ i, FindIndex_from d s l = Ok i ∧
      ((i = -1 ∧ ∀ j e, j ∈ l → znth (table d) j = Some e → ¬ entry_for e (cut s)) ∨
       ∃ e, znth (table d) i = Some e ∧ entry_for e (cut s))) as Hl.
  { induction l as [|i l IH]; intros Hin.
    { exists (-1). split; [done|]. left. split; [done|]. by intros j e Hj%elem_of_nil. }
    destruct (znth_range (table d) i) as [e He]; [apply Hin; left|].
    cbn. rewrite (proj2 (aget_Ok _ _ _) He). cbn.
    rewrite entry_named_spec by (done || by apply (do_name _ OK i)). cbn.
    case_bool_decide as Hn; [exists i; eauto|].
    destruct IH as (j & HE & Hj); [intros; apply Hin; by right|]. exists j. split; [done|].
    destruct Hj as [[-> Hno]|Hj]; [|by right]. left. split; [done|].
    intros j e' [->|Hj]%elem_of_cons He'; [|by apply (Hno j)].
    by assert (e' = e) as -> by congruence. }
  destruct (Hl (seqZ 0 (zlen (table d)))) as (i & HE & Hi).
  { intros i Hi%elem_of_seqZ. lia. }
  exists i. split; [done|]. destruct Hi as [[-> Hno]|Hi]; [|by right]. left. split; [done|].
  intros j e Hj. apply (Hno j); [|done]. apply elem_of_seqZ. apply znth_Some_range in Hj. lia.
Qed.

(** The two outcomes of a search, in terms of the map. *)
Lemma FindIndex_map d m s :
  dir_rep d m → c_string s →
  (FindIndex d s = Ok (-1) ∧ m !! cut s = None) ∨
  ∃ i e, FindIndex d s = Ok i ∧ 0 ≤ i ∧ znth (table d) i = Some e ∧ entry_for e (cut s) ∧
    m !! cut s = Some (dsector e, isDirE e).
Proof.
  intros [OK Hm] Hs. destruct (FindIndex_spec d s OK Hs) as (i & HE & [[-> Hno]|(e & He & Hf)]).
  - left. split; [done|]. apply eq_None_not_Some. intros [v (j & e & Hj & Hf & _)%Hm].
    by apply (Hno j e).
  - right. exists i, e. split_and!; try done; [apply znth_Some_range in He; lia|].
    apply Hm. eauto.
Qed.

(** The free entry [Add] takes. *)
Lemma Add_from_spec d s sec dir :
  dir_ok d →
  (∀ i e, znth (table d) i = Some e → inUse e = true) ∧
    Add_from d s sec dir (seqZ 0 (tableSize d)) = Ok (false, d) ∨
  ∃ i e, znth (table d) i = Some e ∧ inUse e = false ∧
    Add_from d s sec dir (seqZ 0 (tableSize d)) =
      Ok (true, mkDirectory (tableSize d) (zset (table d) i
        (mkDirEntry true dir (dpad e) sec (strncpy (name e) s FileNameMaxLen)))).
Proof.
  intros OK.
  assert (∀ l, (∀ i, i ∈ l → 0 ≤ i < zlen (table d)) →
    (∀ i e, i ∈ l → znth (table d) i = Some e → inUse e = true) ∧
      Add_from d s sec dir l = Ok (false, d) ∨
    ∃ i e, znth (table d) i = Some e ∧ inUse e = false ∧
      Add_from d s sec dir l =
        Ok (true, mkDirectory (tableSize d) (zset (table d) i
          (mkDirEntry true dir (dpad e) sec (strncpy (name e) s FileNameMaxLen))))) as Hl.
  { induction l as [|i l IH]; intros Hin.
    { left. split; [|done]. by intros j e Hj%elem_of_nil. }
    destruct (znth_range (table d) i) as [e He]; [apply Hin; left|].
    cbn. rewrite (proj2 (aget_Ok _ _ _) He). cbn. destruct (inUse e) eqn:Eu; cbn.
    - destruct IH as [[Hall HE]|HE]; [intros; apply Hin; by right| |by right].
      left. split; [|done]. intros j e' [->|Hj]%elem_of_cons He'; [congruence|]. by apply (Hall j).
    - right. exists i, e. rewrite aset_in by (by eapply znth_Some_range). done. }
  destruct (Hl (seqZ 0 (tableSize d))) as [[Hall HE]|HE]; [| |by right].
  { intros i Hi%elem_of_seqZ. rewrite (do_size _ OK). lia. }
  left. split; [|done]. intros i e He. apply (Hall i); [|done]. apply elem_of_seqZ.
  apply znth_Some_range in He. rewrite (do_size _ OK) in He. lia.
Qed.

(** Replacing entry [i] of a table. *)
Lemma entry_for_zset d i e e' j a k :
  znth (table d) i = Some e → znth (zset (table d) i e') j = Some a → entry_for a k →
  j = i ∧ a = e' ∨ j ≠ i ∧ znth (table d) j = Some a.
Proof.
  intros He Ha _. rewrite znth_zset in Ha. case_bool_decide as E.
  - left. split; [apply E|congruence].
  - right. split; [|done]. intros ->. apply E. split; [done|]. by eapply znth_Some_range.
Qed.

Lemma add_rep d m i e s sec dir :
  dir_rep d m → c_string s → m !! cut s = None →
  znth (table d) i = Some e → inUse e = false →
  dir_rep (mkDirectory (tableSize d) (zset (table d) i
      (mkDirEntry true dir (dpad e) sec (strncpy (name e) s FileNameMaxLen))))
    (<[cut s := (sec, dir)]> m).
Proof.
  intros [OK Hm] Hs Hnone He Hu.
  destruct (strncpy_key (name e) s) as [Hnl Hnk]; [by apply (do_name _ OK i)|done|].
  set (e' := mkDirEntry true dir (dpad e) sec (strncpy (name e) s FileNameMaxLen)).
  assert (entry_for e' (cut s)) as Hf' by done.
  assert (∀ j a, znth (table d) j = Some a → ¬ entry_for a (cut s)) as Hno.
  { intros j a Ha Hf. assert (m !! cut s = Some (dsector a, isDirE a)) as HE by (apply Hm; eauto).
    congruence. }
  pose proof (znth_Some_range _ _ _ He) as Hr. split; [split|]; cbn [table tableSize].
  - rewrite zlen_zset. apply OK.
  - intros j a Ha. rewrite znth_zset in Ha. case_bool_decide; [by injection Ha as <-|].
    by apply (do_name _ OK j).
  - intros j j' a a' k Ha Ha' Hf Hf2.
    destruct (entry_for_zset d i e e' j a k He Ha Hf) as [[-> ->]|[Hj Ha1]],
      (entry_for_zset d i e e' j' a' k He Ha' Hf2) as [[-> ->]|[Hj' Ha1']]; try done.
    + destruct Hf as [_ <-]. cbn in Hf2. rewrite Hnk in Hf2. by destruct (Hno _ _ Ha1').
    + destruct Hf2 as [_ <-]. cbn in Hf. rewrite Hnk in Hf. by destruct (Hno _ _ Ha1).
    + by apply (do_uniq _ OK j j' a a' k).
  - intros k v. rewrite lookup_insert_Some, Hm. split.
    + intros [[<- <-]|[Hk (j & a & Ha & Hf & ->)]].
      * exists i, e'. by rewrite znth_zset_eq.
      * exists j, a. rewrite znth_zset_ne; [done|]. intros <-. destruct Hf. congruence.
    + intros (j & a & Ha & Hf & ->).
      destruct (entry_for_zset d i e e' j a k He Ha Hf) as [[-> ->]|[Hj Ha1]].
      * left. destruct Hf as [_ <-]. by cbn; rewrite Hnk.
      * right. split; [|eauto]. intros <-. by destruct (Hno _ _ Ha1).
Qed.

Lemma remove_rep d m i e s :
  dir_rep d m → znth (table d) i = Some e → entry_for e (cut s) →
  dir_rep (mkDirectory (tableSize d) (zset (table d) i
      (mkDirEntry false (isDirE e) (dpad e) (dsector e) (name e)))) (delete (cut s) m).
Proof.
  intros [OK Hm] He Hf. set (e' := mkDirEntry false _ _ _ _).
  assert (∀ k, ¬ entry_for e' k) as Hno by (intros k [? _]; done).
  split; [split|]; cbn [table tableSize].
  - rewrite zlen_zset. apply OK.
  - intros j a Ha. rewrite znth_zset in Ha.
    case_bool_decide; [injection Ha as <-; by apply (do_name _ OK i e)|]. by apply (do_name _ OK j).
  - intros j j' a a' k Ha Ha' Hfa Hfa'.
    destruct (entry_for_zset d i e e' j a k He Ha Hfa) as [[-> ->]|[Hj Ha1]]; [by destruct (Hno k)|].
    destruct (entry_for_zset d i e e' j' a' k He Ha' Hfa') as [[-> ->]|[Hj' Ha1']]; [by destruct (Hno k)|].
    by apply (do_uniq _ OK j j' a a' k).
  - intros k v. rewrite lookup_delete_Some, Hm. split.
    + intros [Hk (j & a & Ha & Hfa & ->)]. exists j, a. rewrite znth_zset_ne; [done|].
      intros <-. assert (a = e) as -> by congruence. destruct Hf as [_ Hf], Hfa as [_ Hfa]. congruence.
    + intros (j & a & Ha & Hfa & ->).
      destruct (entry_for_zset d i e e' j a k He Ha Hfa) as [[-> ->]|[Hj Ha1]]; [by destruct (Hno k)|].
      split; [|eauto]. intros <-. apply Hj. by apply (do_uniq _ OK j i a e (cut s)).
Qed.

(** ** Operations on the map *)

Lemma Find_map d m s :
  dir_rep d m → c_string s →
  Find d s = Ok (match m !! cut s with Some (sec, _) => sec | None => -1 end).
Proof.
  intros HR Hs. unfold Find.
  destruct (FindIndex_map d m s HR Hs) as [[-> ->]|(i & e & -> & Hi & He & _ & ->)]; [done|].
  cbn. rewrite (proj2 (Z.eqb_neq i (-1))) by lia. cbn. by rewrite (proj2 (aget_Ok _ _ _) He).
Qed.

Lemma Add_map d m s sec dir :
  dir_rep d m → c_string s →
  ∃ b d', Add d s sec dir = Ok (b, d') ∧
    (b = true ∧ m !! cut s = None ∧ dir_rep d' (<[cut s := (sec, dir)]> m) ∨
     b = false ∧ d' = d ∧
       (is_Some (m !! cut s) ∨ ∀ i e, znth (table d) i = Some e → inUse e = true)).
Proof.
  intros HR Hs. unfold Add.
  destruct (FindIndex_map d m s HR Hs) as [[-> Hn]|(i & e & -> & Hi & He & _ & Hsm)]; cbn.
  - destruct (Add_from_spec d s sec dir (proj1 HR)) as [[Hall ->]|(i & e & He & Hu & ->)].
    + exists false, d. split; [done|]. right. split_and!; try done. by right.
    + eexists true, _. split; [done|]. left. split_and!; try done. by apply add_rep.
  - rewrite (proj2 (Z.eqb_neq i (-1))) by lia. cbn. exists false, d. split; [done|].
    right. split_and!; try done. left. eauto.
Qed.

Lemma Remove_map d m s :
  dir_rep d m → c_string s →
  ∃ d', Remove d s = Ok (bool_decide (is_Some (m !! cut s)), d') ∧
    dir_rep d' (delete (cut s) m).
Proof.
  intros HR Hs. unfold Remove.
  destruct (FindIndex_map d m s HR Hs) as [[-> Hn]|(i & e & -> & Hi & He & Hf & Hsm)]; cbn.
  - exists d. rewrite Hn, bool_decide_false by (by intros [? ?]). split; [done|].
    by rewrite delete_id.
  - rewrite (proj2 (Z.eqb_neq i (-1))) by lia. cbn. rewrite (proj2 (aget_Ok _ _ _) He). cbn.
    rewrite aset_in by (by eapply znth_Some_range). cbn. eexists.
    rewrite Hsm, bool_decide_true by eauto. split; [done|]. by apply remove_rep.
Qed.

Lemma isDir_map d m s :
  dir_rep d m → c_string s →
  isDir d s = Ok (match m !! cut s with Some (_, dir) => dir | None => false end).
Proof.
  intros HR Hs. unfold isDir.
  destruct (FindIndex_map d m s HR Hs) as [[-> ->]|(i & e & -> & Hi & He & [Hu _] & ->)]; [done|].
  cbn. destruct (Z.ltb_spec i 0); [lia|]. rewrite (proj2 (aget_Ok _ _ _) He). cbn.
  by rewrite Hu, andb_true_r.
Qed.

Lemma isEmpty_map d m : dir_rep d m → isEmpty d = Ok (bool_decide (m = ∅)).
Proof.
  intros [OK Hm].
  assert (∀ l, (∀ i, i ∈ l → 0 ≤ i < zlen (table d)) →
    isEmpty_from d l = Ok true ∧ (∀ i e, i ∈ l → znth (table d) i = Some e → inUse e = false) ∨
    isEmpty_from d l = Ok false ∧ ∃ i e, znth (table d) i = Some e ∧ inUse e = true) as Hl.
  { induction l as [|i l IH]; intros Hin.
    { left. split; [done|]. by intros j e Hj%elem_of_nil. }
    destruct (znth_range (table d) i) as [e He]; [apply Hin; left|].
    cbn. rewrite (proj2 (aget_Ok _ _ _) He). cbn. destruct (inUse e) eqn:Eu; [right; eauto|].
    destruct IH as [[-> Hall]|HE]; [intros; apply Hin; by right| |by right].
    left. split; [done|]. intros j e' [->|Hj]%elem_of_cons He'; [congruence|]. by apply (Hall j). }
  unfold isEmpty. rewrite <-(do_size _ OK).
  destruct (Hl (seqZ 0 (zlen (table d)))) as [[-> Hall]|[-> (i & e & He & Hu)]].
  { intros i Hi%elem_of_seqZ. lia. }
  - rewrite bool_decide_true; [done|]. apply map_empty. intros k. apply eq_None_not_Some.
    intros [v (j & e & Hj & [Hu _] & _)%Hm]. rewrite (Hall j e) in Hu; [done| |done].
    apply elem_of_seqZ. apply znth_Some_range in Hj. lia.
  - rewrite bool_decide_false; [done|]. intros ->.
    assert ((∅ : gmap (list Z) (Z * bool)) !! key (name e) = Some (dsector e, isDirE e)) as HE
      by (apply Hm; exists i, e; done). done.
Qed.

(** C18: a directory is a finite map from names, cut to 39 characters, to the sector of
    the header and the directory flag: [Find] and [isDir] look up, [isEmpty] tests for no binding, [Remove] deletes, and
    [Add] inserts unless the name is bound or every entry of the table is in use. *)
Theorem Directory_refines_map d m s sec dir :
  dir_rep d m → c_string s →
  Find d s = Ok (match m !! cut s with Some (sec, _) => sec | None => -1 end) ∧
  isDir d s = Ok (match m !! cut s with Some (_, dir) => dir | None => false end) ∧
  isEmpty d = Ok (bool_decide (m = ∅)) ∧
  (∃ d', Remove d s = Ok (bool_decide (is_Some (m !! cut s)), d') ∧
     dir_rep d' (delete (cut s) m)) ∧
  (∃ b d', Add d s sec dir = Ok (b, d') ∧
     (b = true ∧ m !! cut s = None ∧ dir_rep d' (<[cut s := (sec, dir)]> m) ∨
      b = false ∧ d' = d ∧
        (is_Some (m !! cut s) ∨ ∀ i e, znth (table d) i = Some e → inUse e = true))).
Proof.
  intros HR Hs. split_and!.
  - by apply Find_map.
  - by apply isDir_map.
  - by apply isEmpty_map.
  - by apply Remove_map.
  - by apply Add_map.
Qed.

(** Two names that agree on their first 39 characters are the same file: once one of
    them is in the directory, the other one is found, under the same sector, and cannot
    be added. *)
Theorem long_names_collide d m s s' sec dir d' :
  dir_rep d m → c_string s → c_string s' →
  take 39 s = take 39 s' → Add d s sec dir = Ok (true, d') →
  Find d' s' = Ok sec ∧ ∀ sec' dir', Add d' s' sec' dir' = Ok (false, d').
Proof.
  intros HR Hs Hs' Hcut HA. change (cut s = cut s') in Hcut.
  destruct (Add_map d m s sec dir HR Hs) as (b & d2 & HE & [(-> & _ & HR')|(-> & _)]); [|congruence].
  rewrite HA in HE. injection HE as <-. split.
  - rewrite (Find_map _ _ _ HR' Hs'), <-Hcut, lookup_insert_eq. done.
  - intros sec' dir'.
    destruct (Add_map d' _ s' sec' dir' HR' Hs') as (b & d2 & HE & [(_ & Hn & _)|(-> & -> & _)]); [|done].
    by rewrite <-Hcut, lookup_insert_eq in Hn.
Qed.

(** ** The table in its file *)

Definition entry_bytes (e : DirectoryEntry) : Prop :=
  zlen (dpad e) = 2 ∧ is_s32 (dsector e) ∧ zlen (name e) = 40.

Lemma enc_entry_length e : entry_bytes e → zlen (enc_entry e) = EntrySize.
Proof.
  intros (H1 & _ & H3). unfold enc_entry.
  change (enc_bool (inUse e) :: enc_bool (isDirE e) :: ?l) with ([enc_bool (inUse e); enc_bool (isDirE e)] ++ l).
  rewrite !zlen_app, zlen_le_split, H1, H3. done.
Qed.
Lemma dec_enc_entry e : entry_bytes e → dec_entry (enc_entry e) = e.
Proof.
  intros (H1 & H2 & H3). destruct e as [u di pd sec nm]. cbn in *. unfold dec_entry, enc_entry. cbn.
  change (enc_bool u :: enc_bool di :: ?l) with ([enc_bool u; enc_bool di] ++ l).
  assert (zlen [enc_bool u; enc_bool di] = 2) as H0 by done. f_equal.
  - by destruct u.
  - by destruct di.
  - rewrite read_at_app_r by lia. rewrite H0. by apply read_at_app_eq.
  - rewrite !int_at_app_r by lia. rewrite H0, H1. by apply int_at_split.
  - rewrite !read_at_app_r by (rewrite ?zlen_le_split; lia). rewrite H0, H1, zlen_le_split.
    by apply read_at_all.
Qed.

Lemma read_enc_table t i e :
  Forall entry_bytes t → znth t i = Some e →
  read_at (enc_table t) (EntrySize * i) EntrySize = enc_entry e.
Proof.
  intros HF. revert i. induction HF as [|a t Ha HF IH]; intros i Hi.
  { apply znth_Some_range in Hi. unfold zlen in Hi; cbn in Hi. lia. }
  pose proof (znth_Some_range _ _ _ Hi) as Hr. unfold enc_table. rewrite fmap_cons. cbn [concat].
  pose proof (enc_entry_length a Ha) as Hl. unfold EntrySize in *.
  destruct (decide (i = 0)) as [->|Hne].
  - rewrite read_at_app_l by lia. cbn in Hi. injection Hi as ->. by apply read_at_all.
  - rewrite read_at_app_r by lia. rewrite Hl. replace (48 * i - 48) with (48 * (i - 1)) by lia.
    apply IH. unfold znth in *. destruct (Z.ltb_spec i 0), (Z.ltb_spec (i - 1) 0); try lia.
    by replace (Z.to_nat i) with (S (Z.to_nat (i - 1))) in Hi by lia.
Qed.
Lemma enc_table_length t : Forall entry_bytes t → zlen (enc_table t) = EntrySize * zlen t.
Proof.
  induction 1 as [|e t He HF IH]; [done|]. unfold enc_table. rewrite fmap_cons. cbn [concat].
  rewrite zlen_app, enc_entry_length by done. fold (enc_table t). rewrite IH.
  unfold zlen, EntrySize. cbn [length]. lia.
Qed.
Lemma dec_enc_table t : Forall entry_bytes t → dec_table (zlen t) (enc_table t) = t.
Proof.
  intros HF. pose proof (zlen_nonneg t).
  assert (zlen (dec_table (zlen t) (enc_table t)) = zlen t) as Hl
    by (unfold dec_table; by rewrite zlen_fmap, zlen_seqZ).
  apply znth_ext; [done|]. intros i Hi. rewrite Hl in Hi.
  destruct (znth_range t i Hi) as [e He]. rewrite He. unfold dec_table.
  rewrite znth_fmap, znth_seqZ, Z.add_0_l by done. cbn [fmap option_fmap option_map].
  rewrite (read_enc_table t i e HF He).
  f_equal. apply dec_enc_entry. by apply (Forall_znth _ _ _ _ HF He).
Qed.

Lemma write_at_whole l b : zlen b = zlen l → write_at l 0 b = b.
Proof.
  intros Hl. unfold write_at, zlen in *. rewrite take_0, drop_ge by lia. by rewrite app_nil_r.
Qed.

Section files_proofs.
Context {S : Type} `{SectorStoreLaws S}.
Context (mem : Z → list Z) (Hmem : ∀ n, 0 ≤ n → zlen (mem n) = n).
Context (extend : Z → Z → FileHeader → Z → ST S (bool * FileHeader)).
Implicit Types (s : S) (c : Z → list Z) (o : Z → Z) (r : Z → rwstate).

Lemma Dir_WriteBack_ok now d f c s o r :
  file_ok f c → represents s c o r → r (headerSector f) = Readers 0 →
  zlen (table d) = tableSize d → Forall entry_bytes (table d) → 0 < tableSize d →
  tableSize d * EntrySize ≤ FileLength (hdr f) →
  ∃ f' s' c', Dir_WriteBack mem extend now d f s = Ok (f', s') ∧ represents s' c' o r ∧
    written_at f f' c c' 0 (enc_table (table d)).
Proof using Hmem.
  intros HF HR Hr Ht HB Hpos Hlen. pose proof (enc_table_length _ HB) as Hl. rewrite Ht in Hl.
  unfold EntrySize in *.
  destruct (WriteAt_ok mem Hmem extend now f c (enc_table (table d)) (tableSize d * EntrySize) 0 s o r)
    as (f' & s' & c' & HE & HR' & HW); try done; try (unfold EntrySize; lia).
  exists f', s', c'. unfold Dir_WriteBack. step HE. split_and!; try done.
  rewrite read_at_all in HW by (unfold EntrySize; lia). done.
Qed.

Lemma Dir_FetchFrom_ok now d0 d f c s o r k :
  file_ok f c → represents s c o r → r (headerSector f) = Readers k →
  zlen (table d0) = tableSize d0 → Forall entry_bytes (table d0) →
  tableSize d0 = tableSize d → zlen (table d) = tableSize d → Forall entry_bytes (table d) →
  0 < tableSize d → tableSize d * EntrySize ≤ FileLength (hdr f) →
  read_at (file_bytes (hdr f) c) 0 (tableSize d * EntrySize) = enc_table (table d) →
  ∃ f' s' c', Dir_FetchFrom mem now d0 f s = Ok ((d, f'), s') ∧ represents s' c' o r ∧
    touched f f' c c' ∧ c' (headerSector f) = encode (hdr f').
Proof using Hmem.
  intros HF HR Hr Ht0 HB0 Hsz Ht HB Hpos Hlen Hbytes. pose proof (length_small f c HF) as Hsm.
  destruct (ReadAt_ok mem Hmem now f c (tableSize d * EntrySize) 0 s o r k) as (s' & HE & HR');
    try done; try (unfold EntrySize in *; lia).
  rewrite Z.min_l, Hbytes in HE by lia.
  exists (set_hdr f (set_visit_time now (hdr f))), s', (upd c (headerSector f)
    (encode (set_visit_time now (hdr f)))). split_and!; try done.
  - unfold Dir_FetchFrom. rewrite Hsz. step HE. unfold mret, ST_ret. do 3 f_equal.
    pose proof (enc_table_length _ HB) as H1. pose proof (enc_table_length _ HB0) as H2.
    rewrite write_at_whole by (rewrite H1, H2; congruence).
    rewrite <-Ht at 2. rewrite dec_enc_table by done. by destruct d.
  - assert (off_header f c (upd c (headerSector f) (encode (set_visit_time now (hdr f))))) as Hoff
      by (intros x Hx; by apply upd_ne).
    unfold touched. split_and!; try done; try by apply set_visit_same; apply HF.
    apply (file_touch f c); [done|apply set_visit_same, HF|done].
  - apply upd_eq.
Qed.
End files_proofs.

(** A directory survives its file: after [WriteBack], [FetchFrom] into any directory
    object of the same size gives the same table. *)
Theorem Directory_FetchFrom_WriteBack {S} `{SectorStoreLaws S} mem extend now now' d d0 f
    (s : S) c o r :
  (∀ n, 0 ≤ n → zlen (mem n) = n) →
  file_ok f c → represents s c o r → r (headerSector f) = Readers 0 →
  zlen (table d) = tableSize d → Forall entry_bytes (table d) →
  zlen (table d0) = tableSize d0 → Forall entry_bytes (table d0) → tableSize d0 = tableSize d →
  0 < tableSize d → tableSize d * EntrySize ≤ FileLength (hdr f) →
  ∃ f1 s1 f2 s2, Dir_WriteBack mem extend now d f s = Ok (f1, s1) ∧
    Dir_FetchFrom mem now' d0 f1 s1 = Ok ((d, f2), s2).
Proof.
  intros Hmem HF HR Hr Ht HB Ht0 HB0 Hsz Hpos Hlen.
  destruct (Dir_WriteBack_ok mem Hmem extend now d f c s o r) as (f1 & s1 & c1 & HW & HR1 & HA); try done.
  destruct (wa_same _ _ _ _ _ _ HA) as [(E1 & _) [Hh _]].
  pose proof (enc_table_length _ HB) as Hel. rewrite Ht in Hel.
  destruct (Dir_FetchFrom_ok mem Hmem now' d0 d f1 c1 s1 o r 0) as (f2 & s2 & c2 & HE & _); try done.
  - apply HA.
  - congruence.
  - unfold FileLength in *. congruence.
  - rewrite (wa_bytes _ _ _ _ _ _ HA).
    replace (tableSize d * EntrySize) with (zlen (enc_table (table d))) by lia.
    apply read_write_same; [done|]. pose proof (length_small f c HF). unfold FileLength in *.
    rewrite file_bytes_length; lia.
  - by exists f1, s1, f2, s2.
Qed.

(** ** Concrete instances *)

Definition sample_dir (n : nat) : Directory :=
  Directory_new (Z.of_nat n) (replicate n (mkDirEntry true false [0; 0] 0 (replicate 40 0))).

Lemma sample_dir_entry n i e :
  znth (table (sample_dir n)) i = Some e → e = mkDirEntry false false [0; 0] 0 (replicate 40 0).
Proof.
  unfold sample_dir, Directory_new. cbn [table]. rewrite znth_fmap. unfold znth.
  case_match; [done|]. destruct (replicate n _ !! _) eqn:E; [|done].
  apply lookup_replicate in E as [-> _]. by intros [= <-].
Qed.
Lemma sample_dir_rep n : dir_rep (sample_dir n) ∅.
Proof.
  assert (∀ i e k, znth (table (sample_dir n)) i = Some e → ¬ entry_for e k) as Hno.
  { intros i e k He. rewrite (sample_dir_entry n i e He). by intros [? _]. }
  split; [split|].
  - unfold sample_dir. cbn. rewrite zlen_fmap. unfold zlen. by rewrite length_replicate.
  - intros i e He. by rewrite (sample_dir_entry n i e He).
  - intros i j e e' k He _ Hf. by destruct (Hno i e k).
  - intros k v. rewrite lookup_empty. split; [done|]. intros (i & e & He & Hf & _). by destruct (Hno i e k).
Qed.

Lemma Directory_refines_map_witness :
  Find (sample_dir 10) [97] = Ok (-1) ∧
  ∃ d', Add (sample_dir 10) [97] 5 false = Ok (true, d') ∧ dir_rep d' {[ [97] := (5, false) ]}.
Proof.
  destruct (Directory_refines_map (sample_dir 10) ∅ [97] 5 false) as (HF & _ & _ & _ & b & d' & HA & HR).
  - apply sample_dir_rep.
  - repeat constructor.
  - split; [exact HF|]. exists d'. destruct HR as [(-> & _ & HR)|(-> & _ & [HS|Hall])].
    + split; [exact HA|exact HR].
    + rewrite lookup_empty in HS. destruct HS as [? [=]].
    + specialize (Hall 0 _ eq_refl). vm_compute in Hall. discriminate Hall.
Defined.

Lemma long_names_collide_witness :
  ∃ d', Add (sample_dir 10) (replicate 39 97 ++ [98]) 5 false = Ok (true, d') ∧
    Find d' (replicate 39 97 ++ [99]) = Ok 5.
Proof.
  assert (∃ d', Add (sample_dir 10) (replicate 39 97 ++ [98]) 5 false = Ok (true, d')) as [d' HA]
    by (eexists; vm_compute; reflexivity).
  exists d'. split; [exact HA|].
  apply (long_names_collide (sample_dir 10) ∅ (replicate 39 97 ++ [98]) (replicate 39 97 ++ [99]) 5 false d').
  - apply sample_dir_rep.
  - repeat constructor.
  - repeat constructor.
  - reflexivity.
  - exact HA.
Defined.

Lemma Directory_FetchFrom_WriteBack_witness :
  ∃ (s : SynchDisk.SynchDisk) d f1 s1 f2 s2,
    Add (sample_dir 5) [97] 7 true = Ok (true, d) ∧
    Dir_WriteBack sample_mem no_extend (λ _, []) d (sample_file 300) s = Ok (f1, s1) ∧
    Dir_FetchFrom sample_mem [] (sample_dir 5) f1 s1 = Ok ((d, f2), s2).
Proof.
  destruct sample_disk as [s HR]. exists s.
  eexists. edestruct (Directory_FetchFrom_WriteBack sample_mem no_extend (λ _, []) []) with
    (d0 := sample_dir 5) (f := sample_file 300) (s := s) (c := λ _ : Z, zero_sector)
    (o := λ _ : Z, 0) (r := λ _ : Z, Readers 0)
    (d := mkDirectory 5 (mkDirEntry true true [0; 0] 7 (97 :: replicate 39 0) ::
            replicate 4 (mkDirEntry false false [0; 0] 0 (replicate 40 0))))
    as (f1 & s1 & f2 & s2 & H1 & H2).
  - exact sample_mem_length.
  - apply sample_file_ok. lia.
  - exact HR.
  - reflexivity.
  - reflexivity.
  - cbn. repeat constructor; unfold is_s32; cbn; lia.
  - reflexivity.
  - cbn. repeat constructor; unfold is_s32; cbn; lia.
  - reflexivity.
  - reflexivity.
  - vm_compute. discriminate.
  - exists f1, s1, f2, s2. split; [vm_compute; reflexivity|]. split; [exact H1|exact H2].
Defined.
