(* ===== verification/FileSys.v ===== *)
(** * The file system: filesys/filesys.cc

    [Create], [Open], [Remove] and the helpers that resolve path names, on top of the
    directories, headers and open files of the other components.  The state is the
    disk together with the two files that stay open, [freeMapFile] and
    [directoryFile]. *)

From S2P Require Import Prelude BitMap Disk SectorStore SynchDisk.
From S2P Require Import FileHdr FileHdrExtend OpenFile Directory.

Definition FreeMapSector : Z := 0.
Definition DirectorySector : Z := 1.
Definition FreeMapFileSize : Z := NumSectors / BitsInByte.
Definition NumDirEntries : Z := 10.
Definition DirectoryFileSize : Z := EntrySize * NumDirEntries.

(** Class [FileSystem], with the global [synchDisk]. *)
Record FS (S : Type) := mkFS {
  store : S;
  freeMapFile : OpenFile;
  directoryFile : OpenFile
}.
Arguments mkFS {S} _ _ _.
Arguments store {S} _.
Arguments freeMapFile {S} _.
Arguments directoryFile {S} _.

(** What the routines find in uninitialised memory ([new FileHeader], the table of
    [new Directory], the words of [new BitMap], buffers, arrays, the variable
    [NSecIndex]) and what the calls of [asctime] return. *)
Record Env := mkEnv {
  mem : Z → list Z;
  heap : Z → list Z;
  uninit : Z;
  new_hdr : FileHeader;
  new_table : list DirectoryEntry;
  new_words : list Z;
  clock : Z → list Z
}.

(** ** Bitmaps in files: [BitMap::FetchFrom] and [BitMap::WriteBack] *)

Definition dec_words (n : Z) (b : list Z) : list Z :=
  (λ i, le_combine (read_at b (4 * i) 4)) <$> seqZ 0 n.

Section bitmap_files.
Context {S : Type} `{SectorStore S} (m : Z → list Z).
Context (extend : Z → Z → FileHeader → Z → ST S (bool * FileHeader)).

Definition BM_FetchFrom (now : list Z) (bm : BitMap) (f : OpenFile) : ST S (BitMap * OpenFile) :=
  '(_, b, f) ← ReadAt m now f (numWords bm * 4) 0;
  mret (mkBitMap (numBits bm) (numWords bm)
          (dec_words (numWords bm) (write_at (enc_ints (BitMap.map bm)) 0 b)), f).
Definition BM_WriteBack (now : Z → list Z) (bm : BitMap) (f : OpenFile) : ST S OpenFile :=
  '(_, f) ← WriteAt m extend now f (enc_ints (BitMap.map bm)) (numWords bm * 4) 0;
  mret f.
End bitmap_files.

(** ** The state of the file system *)

Section state.
Context {S : Type} `{SectorStore S}.

Definition on_store {A} (op : ST S A) : ST (FS S) A := λ fs,
  match op (store fs) with
  | Ok (a, s) => Ok (a, mkFS s (freeMapFile fs) (directoryFile fs))
  | Stop e => Stop e
  end.

#[export] Instance fs_store : SectorStore (FS S) := {
  ReadSector n b := on_store (ReadSector n b);
  WriteSector n b := on_store (WriteSector n b);
  StartRead h := on_store (StartRead h);
  EndRead h := on_store (EndRead h);
  StartWrite h := on_store (StartWrite h);
  EndWrite h := on_store (EndWrite h);
  OpenSector h := on_store (OpenSector h);
  CloseSector h := on_store (CloseSector h);
  GetOpenStart h := on_store (GetOpenStart h)
}.

Definition put_freeMapFile (f : OpenFile) : ST (FS S) () := λ fs,
  Ok ((), mkFS (store fs) f (directoryFile fs)).
Definition put_directoryFile (f : OpenFile) : ST (FS S) () := λ fs,
  Ok ((), mkFS (store fs) (freeMapFile fs) f).
End state.

(** ** Operations *)

Section operations.
Context {S : Type} `{SectorStore S} (env : Env).

(** [clock] from the [k]-th call on. *)
Definition clock_at (k i : Z) : list Z := clock env (k + i).

Definition new_freeMap : result BitMap := BitMap_new NumSectors (new_words env).
Definition new_dir : Directory := Directory_new NumDirEntries (new_table env).

(** [freeMap = new BitMap(NumSectors); freeMap->FetchFrom(freeMapFile)]. *)
Definition fetch_freeMap (k : Z) : ST (FS S) BitMap :=
  bm ← lift new_freeMap;
  fs ← getS;
  '(bm, f) ← BM_FetchFrom (mem env) (clock env k) bm (freeMapFile fs);
  put_freeMapFile f;;
  mret bm.

(** [freeMap->WriteBack(freeMapFile)], given what [ExtendWrapper] does. *)
Definition write_freeMap (extend : Z → Z → FileHeader → Z → ST (FS S) (bool * FileHeader))
    (k : Z) (bm : BitMap) : ST (FS S) () :=
  fs ← getS;
  f ← BM_WriteBack (mem env) extend (clock_at k) bm (freeMapFile fs);
  put_freeMapFile f.

(** [FileSystem::ExtendWrapper].  It calls [WriteAt] of the free map, which could call
    it again; [fuel] bounds the nesting, and one level is all that is ever used because
    the free map has a fixed size. *)
Fixpoint ExtendWrapper (fuel : nat) (newNumBytes headerSector : Z) (h : FileHeader)
    (sectorNum : Z) : ST (FS S) (bool * FileHeader) :=
  bm ← fetch_freeMap 100;
  '(ok, h, bm) ← extendLength (heap env) h newNumBytes sectorNum bm;
  if (ok : bool) then
    WriteBack headerSector h;;
    write_freeMap
      (match fuel with
       | O => λ _ _ _ _, lift (Stop Undefined)
       | Datatypes.S fuel' => ExtendWrapper fuel'
       end) 101 bm;;
    mret (true, h)
  else mret (false, h).

Definition extend1 := ExtendWrapper 1.

(** Opening, reading and closing a directory whose header is in [sector]. *)
Definition open_dir (k sector : Z) : ST (FS S) (Directory * OpenFile) :=
  f ← OpenFile_new (new_hdr env) sector;
  Dir_FetchFrom (mem env) (clock env k) new_dir f.
Definition write_dir (k : Z) (d : Directory) (f : OpenFile) : ST (FS S) OpenFile :=
  Dir_WriteBack (mem env) extend1 (clock_at k) d f.

(** The position of the last ['/'] of a name, 0 if there is none. *)
Fixpoint last_slash_from (s : list Z) (i : Z) (pos : Z) : Z :=
  match s with [] => pos | x :: s' => last_slash_from s' (i + 1) (if x =? 47 then i else pos) end.
Definition last_slash (s : list Z) : Z := last_slash_from s 0 0.

(** [FileSystem::GetParentSector]; a name is longer than its parent's, so its length
    bounds the recursion. *)
Fixpoint GetParentSector (fuel : nat) (name : list Z) : ST (FS S) Z :=
  let pos := last_slash name in
  if pos =? 0 then mret DirectorySector else
  match fuel with
  | O => lift (Stop Undefined)
  | Datatypes.S fuel' =>
      let parent := take (Z.to_nat pos) name in
      grandpaSector ← GetParentSector fuel' parent;
      '(grandpa, grandpaFile) ← open_dir 200 grandpaSector;
      res ← lift (Directory.Find grandpa parent);
      OpenFile_delete grandpaFile;;
      mret res
  end.
Definition ParentSector (name : list Z) : ST (FS S) Z := GetParentSector (length name) name.

Definition GetHeaderSector (name : list Z) : ST (FS S) Z :=
  parentSector ← ParentSector name;
  if (parentSector <? 0 : bool) then mret (-1) else
  '(parentDir, parentFile) ← open_dir 300 parentSector;
  res ← lift (Directory.Find parentDir name);
  OpenFile_delete parentFile;;
  mret res.

(** The part of [Create] for a name that is not in its directory: whether it succeeded,
    the sector found for the header, the directory and its file. *)
Definition create_entry (name : list Z) (initialSize : Z) (dir : bool) (parent : Directory)
    (parentFile : OpenFile) : ST (FS S) (bool * Z * Directory * OpenFile) :=
  freeMap ← fetch_freeMap 401;
  '(sector, freeMap) ← lift (BitMap.Find freeMap);
  if (sector =? -1 : bool) then mret (false, sector, parent, parentFile) else
  '(added, parent) ← lift (Directory.Add parent name sector dir);
  if (negb added : bool) then mret (false, sector, parent, parentFile) else
  '(ok, h, freeMap) ← Allocate (uninit env) (heap env) (new_hdr env) freeMap initialSize;
  if (negb ok : bool) then mret (false, sector, parent, parentFile) else
  let h := set_modify_time (clock env 404)
             (set_visit_time (clock env 403) (set_create_time (clock env 402) h)) in
  WriteBack sector h;;
  parentFile ← write_dir 410 parent parentFile;
  write_freeMap extend1 420 freeMap;;
  mret (true, sector, parent, parentFile).

(** Writing an empty table into the file of a new directory. *)
Definition init_dir (sector : Z) : ST (FS S) () :=
  Myfile ← OpenFile_new (new_hdr env) sector;
  Myfile ← write_dir 430 new_dir Myfile;
  OpenFile_delete Myfile.

Definition Create (name : list Z) (initialSize : Z) : ST (FS S) bool :=
  let dir := initialSize <? 0 in
  let initialSize := if dir then DirectoryFileSize else initialSize in
  parentSector ← ParentSector name;
  if (parentSector <? 0 : bool) then mret false else
  '(parent, parentFile) ← open_dir 400 parentSector;
  found ← lift (Directory.Find parent name);
  '(success, parentFile) ←
    (if (negb (found =? -1) : bool) then mret (false, parentFile) else
     '(success, sector, parent, parentFile) ← create_entry name initialSize dir parent parentFile;
     (if dir then init_dir sector else mret ());;
     mret (success, parentFile));
  OpenFile_delete parentFile;;
  mret success.

(** [FileSystem::Open]; [None] is [NULL]. *)
Definition Open (name : list Z) : ST (FS S) (option OpenFile) :=
  parentSector ← ParentSector name;
  if (parentSector <? 0 : bool) then mret None else
  '(directory, parentFile) ← open_dir 500 parentSector;
  sector ← lift (Directory.Find directory name);
  openFile ← (if (sector >=? 0 : bool) then f ← OpenFile_new (new_hdr env) sector; mret (Some f)
              else mret None);
  OpenFile_delete parentFile;;
  mret openFile.

(** The end of [Remove]: the blocks, the header and the name of the file are freed. *)
Definition remove_entry (name : list Z) (sector : Z) (directory : Directory)
    (parentFile : OpenFile) : ST (FS S) OpenFile :=
  fileHdr ← FetchFrom sector (new_hdr env);
  freeMap ← fetch_freeMap 601;
  freeMap ← Deallocate fileHdr freeMap;
  freeMap ← lift (Clear freeMap sector);
  '(_, directory) ← lift (Directory.Remove directory name);
  write_freeMap extend1 610 freeMap;;
  write_dir 620 directory parentFile.

(** The characters of the name in an entry, up to the final 0. *)
Definition entry_name (e : DirectoryEntry) : list Z := upto0 (Directory.name e).

(** [FileSystem::Remove]; [fuel] bounds the depth of nested directories.  The output is
    not modelled, nor that its [printf("After removing file %s,...")] lacks the argument
    that the format asks for, which C++ leaves undefined. *)
Fixpoint Remove (fuel : nat) (name : list Z) : ST (FS S) bool :=
  parentSector ← ParentSector name;
  if (parentSector <? 0 : bool) then mret false else
  '(directory, parentFile) ← open_dir 600 parentSector;
  sector ← lift (Directory.Find directory name);
  if (sector =? -1 : bool) then OpenFile_delete parentFile;; mret false else
  opened ← GetOpenStart sector;
  if (opened >? 0 : bool) then OpenFile_delete parentFile;; mret false else
  isdir ← lift (Directory.isDir directory name);
  emptied ←
    (if (isdir : bool) then
       '(NameDir, NameFile) ← open_dir 630 sector;
       ok ← (fix remove_all (l : list DirectoryEntry) : ST (FS S) bool :=
               match l with
               | [] => mret true
               | e :: l' =>
                   if inUse e then
                     match fuel with
                     | O => lift (Stop Undefined)
                     | Datatypes.S fuel' =>
                         flag ← Remove fuel' (entry_name e);
                         if (flag : bool) then remove_all l' else mret false
                     end
                   else remove_all l'
               end) (table NameDir);
       OpenFile_delete NameFile;;
       mret ok
     else mret true);
  if (negb emptied : bool) then OpenFile_delete parentFile;; mret false else
  parentFile ← remove_entry name sector directory parentFile;
  OpenFile_delete parentFile;;
  mret true.

(** [FileSystem::List]: the names it prints. *)
Definition List : ST (FS S) (list (list Z)) :=
  fs ← getS;
  '(directory, f) ← Dir_FetchFrom (mem env) (clock env 700) new_dir (directoryFile fs);
  put_directoryFile f;;
  mret (entry_name <$> filter (λ e, inUse e = true) (table directory)).

(** [FileSystem::FileSystem].  [ExtendWrapper] cannot be called yet. *)
Definition not_yet : Z → Z → FileHeader → Z → ST S (bool * FileHeader) :=
  λ _ _ _ _, lift (Stop Undefined).

Definition FileSystem_new (format : bool) : S → result (FS S) := λ s,
  if format then
    match (freeMap ← lift new_freeMap;
           freeMap ← lift (Mark freeMap FreeMapSector);
           freeMap ← lift (Mark freeMap DirectorySector);
           '(ok, mapHdr, freeMap) ←
             Allocate (uninit env) (heap env) (new_hdr env) freeMap FreeMapFileSize;
           lift (ASSERT ok);;
           '(ok, dirHdr, freeMap) ←
             Allocate (uninit env) (heap env) (new_hdr env) freeMap DirectoryFileSize;
           lift (ASSERT ok);;
           WriteBack FreeMapSector (set_create_time (clock env 0) mapHdr);;
           WriteBack DirectorySector (set_create_time (clock env 1) dirHdr);;
           freeMapF ← OpenFile_new (new_hdr env) FreeMapSector;
           directoryF ← OpenFile_new (new_hdr env) DirectorySector;
           freeMapF ← BM_WriteBack (mem env) not_yet (clock_at 2) freeMap freeMapF;
           directoryF ← Dir_WriteBack (mem env) not_yet (clock_at 6) new_dir directoryF;
           mret (freeMapF, directoryF)) s with
    | Ok ((freeMapF, directoryF), s') => Ok (mkFS s' freeMapF directoryF)
    | Stop e => Stop e
    end
  else
    match (freeMapF ← OpenFile_new (new_hdr env) FreeMapSector;
           directoryF ← OpenFile_new (new_hdr env) DirectorySector;
           mret (freeMapF, directoryF)) s with
    | Ok ((freeMapF, directoryF), s') => Ok (mkFS s' freeMapF directoryF)
    | Stop e => Stop e
    end.
End operations.

(** ** A formatted disk, on the cached disk of SynchDisk.v *)
Definition zeros (n : Z) : list Z := replicate (Z.to_nat n) 0.
Definition example_env : Env :=
  mkEnv zeros (λ _, zeros SecondDirect) 0 (decode (zeros 128))
    (replicate 10 (mkDirEntry false false [0; 0] 0 (zeros 40))) (zeros 32) (λ _, zeros 26).
Definition formatted : result (FS SynchDisk) :=
  d ← SynchDisk_new None (zeros 128) (mkStats 0 0 0 0 0) 0; FileSystem_new example_env true d.

(** The number of free sectors on the disk. *)
Definition free_sectors : ST (FS SynchDisk) Z :=
  bm ← fetch_freeMap example_env 900; lift (NumClear bm).

(** A session on the formatted disk: make the directory "d" and the file "d/f" of 200
    bytes, write 5 bytes at offset 10, reopen the file and read 20 bytes at offset 5,
    then remove the directory and look the file up again. *)
Definition session : ST (FS SynchDisk) (list bool * list Z * Z * Z * option OpenFile) :=
  let d := [100] in
  let f := [100; 47; 102] in
  made ← Create example_env d (-1);
  created ← Create example_env f 200;
  again ← Create example_env f 200;
  used ← free_sectors;
  o ← Open example_env f;
  match o with
  | None => lift (Stop Undefined)
  | Some file =>
      '(_, file) ← WriteAt zeros (extend1 example_env) (λ _, zeros 26) file [1; 2; 3; 4; 5] 5 10;
      refused ← Remove example_env 2 d;
      OpenFile_delete file;;
      o ← Open example_env f;
      match o with
      | None => lift (Stop Undefined)
      | Some file =>
          '(_, bytes, file) ← ReadAt zeros (zeros 26) file 20 5;
          OpenFile_delete file;;
          removed ← Remove example_env 2 d;
          gone ← Open example_env f;
          free ← free_sectors;
          mret ([made; created; again; refused; removed], bytes, used, free, gone)
      end
  end.

Definition value_of {A} (m : ST (FS SynchDisk) A) : option A :=
  match formatted with
  | Ok fs => match m fs with Ok (x, _) => Some x | Stop _ => None end
  | Stop _ => None
  end.

(** The whole file system in one run, from formatting a blank disk through the
    cache to the bytes of a file: the directory and the file are created once, the
    second creation and the removal of a directory with an open file are refused, the
    bytes written are read back by another open file, and removing the directory
    removes the file and returns every sector: 1017 free sectors before and after. *)
Theorem file_system_session :
  value_of free_sectors = Some 1017 ∧
  value_of session =
    Some ([true; true; false; false; true],
          [0; 0; 0; 0; 0; 1; 2; 3; 4; 5; 0; 0; 0; 0; 0; 0; 0; 0; 0; 0], 1009, 1017, None).
Proof. split; vm_compute; reflexivity. Qed.

(** A path whose second-to-last directory does not exist is not reported as an
    error: creating "a/b/c" on the formatted disk opens the header of sector -1 in
    [GetParentSector], while creating "a/b" fails as it should. *)
Theorem missing_grandparent_undefined :
  value_of (Create example_env [97; 47; 98] 10) = Some false ∧
  (fs ← formatted; Create example_env [97; 47; 98; 47; 99] 10 fs) = Stop Undefined.
Proof. split; vm_compute; reflexivity. Qed.
