(* ===== verification/FileSysProps.v ===== *)
(** * The file system refines a tree of directories

    What [Create], [Open], [Remove] and [List] of filesys/filesys.cc do to a disk that
    holds any number of files and directories, over any store that keeps the laws of
    SectorStore.v.  The abstract state [T] maps the header sector of each directory to
    the finite map of its entries; [H] is the set of the header sectors of all files.
    The invariant [fs_ok] ties them to the sectors: every file of [H] is well formed,
    no two files share a sector, all their sectors are marked in the free map, which is
    the content of the file in sector 0, and the directory files hold the tables. *)

From S2P Require Import Prelude BitMap Disk SectorStore SynchDisk.
From S2P Require Import FileHdr FileHdrExtend OpenFile Directory FileSys.

(** ** The store with the two files that stay open *)
Section fs_laws.
Context {S : Type} `{SectorStoreLaws S} (fm df : OpenFile).

Definition fs_laws : SectorStoreLaws (FS S).
Proof using H0 fm df.
  unshelve refine {| represents fs c o r :=
    represents (store fs) c o r ∧ freeMapFile fs = fm ∧ directoryFile fs = df |}.
  - intros fs c o r n (HR & _). by apply (contents_length _ _ _ _ _ HR).
  - intros fs c o r n buf (HR & Hfm & Hdf) Hn Hb. cbn. unfold on_store.
    destruct (ReadSector_ok _ _ _ _ n buf HR Hn Hb) as (s' & -> & ?). by eexists.
  - intros fs c o r n buf (HR & Hfm & Hdf) Hn. cbn. unfold on_store.
    by rewrite (ReadSector_bad _ _ _ _ n buf HR Hn).
  - intros fs c o r n data (HR & Hfm & Hdf) Hn Hb. cbn. unfold on_store.
    destruct (WriteSector_ok _ _ _ _ n data HR Hn Hb) as (s' & -> & ?). by eexists.
  - intros fs c o r n buf (HR & Hfm & Hdf) Hn. cbn. unfold on_store.
    by rewrite (WriteSector_bad _ _ _ _ n buf HR Hn).
  - intros fs c o r h k (HR & _). by apply (readers_nonneg _ _ _ _ _ _ HR).
  - intros fs c o r h k (HR & Hfm & Hdf) Hh Hr. cbn. unfold on_store.
    destruct (StartRead_ok _ _ _ _ h k HR Hh Hr) as (s' & -> & ?). by eexists.
  - intros fs c o r h k (HR & Hfm & Hdf) Hh Hr Hk. cbn. unfold on_store.
    destruct (EndRead_ok _ _ _ _ h k HR Hh Hr Hk) as (s' & -> & ?). by eexists.
  - intros fs c o r h (HR & Hfm & Hdf) Hh Hr. cbn. unfold on_store.
    destruct (StartWrite_ok _ _ _ _ h HR Hh Hr) as (s' & -> & ?). by eexists.
  - intros fs c o r h (HR & Hfm & Hdf) Hh Hr. cbn. unfold on_store.
    destruct (EndWrite_ok _ _ _ _ h HR Hh Hr) as (s' & -> & ?). by eexists.
  - intros fs c o r h (HR & Hfm & Hdf) Hh. cbn. unfold on_store.
    destruct (OpenSector_ok _ _ _ _ h HR Hh) as (s' & -> & ?). by eexists.
  - intros fs c o r h (HR & Hfm & Hdf) Hh. cbn. unfold on_store.
    by rewrite (OpenSector_bad _ _ _ _ h HR Hh).
  - intros fs c o r h (HR & Hfm & Hdf) Hh. cbn. unfold on_store.
    destruct (CloseSector_ok _ _ _ _ h HR Hh) as (s' & -> & ?). by eexists.
  - intros fs c o r h (HR & Hfm & Hdf) Hh. cbn. unfold on_store.
    destruct (GetOpenStart_ok _ _ _ _ h HR Hh) as (s' & -> & ?). by eexists.
  - intros fs c o r c' o' r' (HR & ? & ?) Hext. split; [|done]. by apply (represents_ext _ _ _ _ _ _ _ HR).
Defined.
End fs_laws.

(** ** Files on the disk *)
#[local] Arguments decode : simpl never.

(** The file whose header is in sector [n]: as an open file, its sectors, its bytes. *)
Definition file_at (c : Z → list Z) (n : Z) : OpenFile := mkOpenFile (decode (c n)) 0 n.
Definition own (c : Z → list Z) (n : Z) : gset Z :=
  let h := decode (c n) in {[n]} ∪ fpset (dataSectors h) c (numSectors h) (nidx (numSectors h)).
Definition bytes_at (c : Z → list Z) (n : Z) : list Z := file_bytes (decode (c n)) c.

(** Two disks that differ on [X] only. *)
Definition same_off (X : gset Z) (c c' : Z → list Z) : Prop := ∀ x, x ∉ X → c' x = c x.
Lemma same_off_refl X c : same_off X c c.
Proof. done. Qed.
Lemma same_off_trans X c1 c2 c3 : same_off X c1 c2 → same_off X c2 c3 → same_off X c1 c3.
Proof. intros H1 H2 x Hx. by rewrite H2, H1. Qed.
Lemma same_off_weaken X Y c c' : X ⊆ Y → same_off X c c' → same_off Y c c'.
Proof. intros HX H1 x Hx. apply H1. set_solver. Qed.

(** The file in [n] has the same sectors ([still]), and the same content ([kept]). *)
Definition still (c c' : Z → list Z) (n : Z) : Prop :=
  same_but_times (decode (c n)) (decode (c' n)) ∧ own c' n = own c n ∧ file_ok (file_at c' n) c'.
Definition kept (c c' : Z → list Z) (n : Z) : Prop := still c c' n ∧ bytes_at c' n = bytes_at c n.

Lemma same_sib h1 h2 h3 : same_but_times h1 h2 → same_but_times h1 h3 → same_but_times h2 h3.
Proof. intros (? & ? & ? & ?) (? & ? & ? & ?). split_and!; congruence || done. Qed.
Lemma still_refl c n : file_ok (file_at c n) c → still c c n.
Proof. intros HF. split_and!; try done. split_and!; try done. apply HF. Qed.
Lemma still_trans c1 c2 c3 n : still c1 c2 n → still c2 c3 n → still c1 c3 n.
Proof.
  intros (H1 & H2 & _) (H3 & H4 & H5). split; [by eapply same_trans|]. split; [congruence|done].
Qed.
Lemma kept_refl c n : file_ok (file_at c n) c → kept c c n.
Proof. intros. split; [by apply still_refl|done]. Qed.
Lemma kept_trans c1 c2 c3 n : kept c1 c2 n → kept c2 c3 n → kept c1 c3 n.
Proof. intros [H1 H2] [H3 H4]. split; [by eapply still_trans|congruence]. Qed.

Lemma in_own c n x :
  x ∈ own c n ↔ x = n ∨ x ∈ footprint (dataSectors (decode (c n))) c (numSectors (decode (c n)))
    (nidx (numSectors (decode (c n)))).
Proof. unfold own, fpset. by rewrite elem_of_union, elem_of_singleton, elem_of_list_to_set. Qed.

(** A file keeps its content when the changes are elsewhere, *)
Lemma kept_elsewhere c c' n :
  file_ok (file_at c n) c → (∀ x, x ∈ own c n → c' x = c x) → kept c c' n.
Proof.
  intros HF Hc. assert (c' n = c n) as En by (apply Hc, in_own; by left). pose proof HF as [L HB Hs Hh Ha].
  assert (∀ x, x ∈ footprint (dataSectors (decode (c n))) c (numSectors (decode (c n)))
    (nidx (numSectors (decode (c n)))) → c' x = c x) as Hc' by (intros x Hx; apply Hc, in_own; by right).
  pose proof (apart_agree _ _ _ _ _ L Hc') as HA. cbn [file_at hdr headerSector] in *. unfold kept, still, own, bytes_at. rewrite !En.
  split_and!.
  - by split_and!.
  - f_equal. unfold fpset. by rewrite (footprint_agree _ _ _ _ _ _ HA).
  - unfold file_at. rewrite En. split; try done; cbn [hdr headerSector]; [by eapply layout_agree|].
    by rewrite (footprint_agree _ _ _ _ _ _ HA).
  - unfold file_bytes. apply list_fmap_ext. intros ? p Hp%list_elem_of_lookup_2%elem_of_seqZ.
    eapply apart_fbyte; [done|done|done|]. lia.
Qed.

(** when its header is written back with other times, *)
Lemma kept_touch c c' n h' :
  file_ok (file_at c n) c → same_but_times (decode (c n)) h' → c' n = encode h' → same_off {[n]} c c' →
  kept c c' n ∧ decode (c' n) = h'.
Proof.
  intros HF Hh En Hoff. pose proof Hh as (E1 & E2 & E3 & HB').
  assert (∀ x, x ≠ n → c' x = c x) as Hc by (intros x Hx; apply Hoff; set_solver).
  destruct (file_touch (file_at c n) c c' h' HF Hh Hc) as (HF' & Hb & _).
  assert (decode (c' n) = h') as Ed by (rewrite En; by apply decode_encode).
  split; [|done]. split; [split_and!|].
  - by rewrite Ed.
  - unfold own. rewrite Ed, E2, E3. f_equal. unfold fpset. pose proof HF as [L _ _ _ Ha].
    erewrite footprint_agree; [done|]. apply apart_agree; [done|]. intros x Hx. apply Hc. by intros ->.
  - unfold file_at. by rewrite Ed.
  - unfold bytes_at. by rewrite Ed.
Qed.

(** and a write changes the content only. *)
Lemma still_written_stale c c' f f' n pos bytes :
  file_ok (file_at c n) c → same_but_times (decode (c n)) (hdr f) → headerSector f = n →
  written_at f f' c c' pos bytes →
  still c c' n ∧ same_off (own c n) c c' ∧ decode (c' n) = hdr f' ∧
  bytes_at c' n = write_at (bytes_at c n) pos bytes.
Proof.
  intros HF Ef Hn HW. pose proof HF as [L HB Hs Hh Ha]. cbn [file_at hdr headerSector] in *.
  destruct HW as [HF' [HS0 [Hh' _]] HBy Hfr Hhd]. set (h := decode (c n)) in *.
  pose proof (same_trans _ _ _ Ef HS0) as HS. pose proof HS as (E1 & E2 & E3 & HB'). pose proof Ef as (F1 & F2 & F3 & _).
  assert (file_bytes (hdr f) c = file_bytes h c) as Hfb by (unfold file_bytes, fbyte; by rewrite F1, F3).
  rewrite Hfb, F2, F3, Hn in *.
  assert (decode (c' n) = hdr f') as Ed by (rewrite Hhd; by apply decode_encode).
  assert (agree (dataSectors h) (dataSectors h) c c' (numSectors h) (nidx (numSectors h))) as HA.
  { assert (agree (dataSectors h) (dataSectors h) c (upd c' n (c n)) (numSectors h) (nidx (numSectors h))) as HA1.
    { eapply (data_agree _ _ _ _ _ 0 (numSectors h)); [exact L|lia|]. intros x Hx. unfold upd.
      case_bool_decide; [congruence|]. by apply Hfr. }
    pose proof (layout_agree _ _ _ _ _ _ L eq_refl HA1) as L1.
    eapply agree_trans; [exact HA1|apply (apart_agree _ _ _ _ _ L1)|lia|lia].
    intros x Hx. rewrite (footprint_agree _ _ _ _ _ _ HA1) in Hx. symmetry. apply upd_ne. by intros ->. }
  split; [|split; [|split]]; [split; [|split]|..].
  - by rewrite Ed.
  - unfold own. rewrite Ed, E2, E3. fold h. f_equal. unfold fpset. by rewrite (footprint_agree _ _ _ _ _ _ HA).
  - destruct HF' as [L' ? ? ? Ha']. unfold file_at. rewrite Ed. split; try done. cbn [hdr headerSector]. by rewrite <-Hh'.
  - intros x Hx. rewrite in_own in Hx. fold h in Hx. apply Hfr; [tauto|]. intros j Hj ->. apply Hx. right.
    apply elem_of_footprint. left. eauto.
  - done.
  - unfold bytes_at. by rewrite Ed.
Qed.

(** The header of an open file that was read just now, or earlier. *)
Lemma same_self c n f : file_ok (file_at c n) c → hdr f = decode (c n) → same_but_times (decode (c n)) (hdr f).
Proof. intros HF ->. split_and!; try done. apply HF. Qed.
Lemma still_written c c' f f' n pos bytes :
  file_ok (file_at c n) c → hdr f = decode (c n) → headerSector f = n →
  written_at f f' c c' pos bytes →
  still c c' n ∧ same_off (own c n) c c' ∧ decode (c' n) = hdr f' ∧
  bytes_at c' n = write_at (bytes_at c n) pos bytes.
Proof. intros HF Hh. apply still_written_stale; [done|by apply same_self]. Qed.

(** *** All files *)
Record disk_ok (c : Z → list Z) (bm : BitMap) (H : gset Z) : Prop := {
  dk_file n : n ∈ H → file_ok (file_at c n) c;
  dk_used n : n ∈ H → own c n ⊆ marked bm;
  dk_apart n n' : n ∈ H → n' ∈ H → n ≠ n' → own c n ## own c n'
}.

Lemma disk_kept c c' bm H n X :
  disk_ok c bm H → n ∈ H → same_off X c c' → own c n ## X → kept c c' n.
Proof.
  intros HD Hn Hoff HX. apply kept_elsewhere; [by apply HD|]. intros x Hx. apply Hoff. set_solver.
Qed.

Lemma disk_ok_still c c' bm H :
  disk_ok c bm H → (∀ n, n ∈ H → still c c' n) → disk_ok c' bm H.
Proof.
  intros HD HS. split.
  - intros n Hn. by apply HS.
  - intros n Hn. destruct (HS n Hn) as (_ & -> & _). by apply HD.
  - intros n n' Hn Hn' Hne. destruct (HS n Hn) as (_ & -> & _), (HS n' Hn') as (_ & -> & _). by apply HD.
Qed.

(** A change inside the file [n]. *)
Lemma disk_ok_change c c' bm H n :
  disk_ok c bm H → n ∈ H → still c c' n → same_off (own c n) c c' →
  disk_ok c' bm H ∧ ∀ n', n' ∈ H → n' ≠ n → kept c c' n'.
Proof.
  intros HD Hn HS Hoff. assert (∀ n', n' ∈ H → n' ≠ n → kept c c' n') as HK.
  { intros n' Hn' Hne. eapply disk_kept; [done|done|exact Hoff|by apply HD]. }
  split; [|done]. eapply disk_ok_still; [done|]. intros n' Hn'.
  destruct (decide (n' = n)) as [->|Hne]; [done|by apply HK].
Qed.

(** A new file on sectors that were free. *)
Lemma disk_ok_add c c' bm bm' H n :
  disk_ok c bm H → file_ok (file_at c' n) c' → own c' n ## marked bm → same_off (own c' n) c c' →
  marked bm ∪ own c' n ⊆ marked bm' →
  disk_ok c' bm' ({[n]} ∪ H) ∧ ∀ n', n' ∈ H → kept c c' n'.
Proof.
  intros HD HF Hfresh Hoff Hsub.
  assert (∀ n', n' ∈ H → own c n' ## own c' n) as Hdis by (intros n' Hn'; pose proof (dk_used _ _ _ HD n' Hn'); set_solver).
  assert (∀ n', n' ∈ H → kept c c' n') as HK.
  { intros n' Hn'. eapply disk_kept; [done|done|exact Hoff|by apply Hdis]. }
  split; [|done]. assert (∀ n', n' ∈ H → own c' n' = own c n') as Ho by (intros n' Hn'; by apply HK). split.
  - intros n' [->%elem_of_singleton|Hn']%elem_of_union; [done|]. by apply HK.
  - intros n' [->%elem_of_singleton|Hn']%elem_of_union; [set_solver|]. rewrite Ho by done.
    pose proof (dk_used _ _ _ HD n' Hn'). set_solver.
  - intros n1 n2 [->%elem_of_singleton|H1]%elem_of_union [->%elem_of_singleton|H2]%elem_of_union Hne; [done|..].
    + rewrite (Ho n2 H2). symmetry. exact (Hdis n2 H2).
    + rewrite (Ho n1 H1). exact (Hdis n1 H1).
    + rewrite (Ho n1 H1), (Ho n2 H2). by apply HD.
Qed.

(** A file is given up. *)
Lemma disk_ok_remove c bm bm' H n :
  disk_ok c bm H → n ∈ H → marked bm' = marked bm ∖ own c n → disk_ok c bm' (H ∖ {[n]}).
Proof.
  intros HD Hn HM. split.
  - intros n' [Hn' _]%elem_of_difference. by apply HD.
  - intros n' [Hn' Hne]%elem_of_difference. rewrite HM. pose proof (dk_used _ _ _ HD n' Hn').
    pose proof (dk_apart _ _ _ HD n' n Hn' Hn ltac:(set_solver)). set_solver.
  - intros n1 n2 [H1 _]%elem_of_difference [H2 _]%elem_of_difference. by apply HD.
Qed.

Lemma own_self c n : n ∈ own c n.
Proof. apply in_own. by left. Qed.

(** *** Directories *)
Record dir_at (c : Z → list Z) (p : Z) (d : Directory) : Prop := {
  da_size : tableSize d = NumDirEntries;
  da_len : zlen (table d) = tableSize d;
  da_bytes : Forall entry_bytes (table d);
  da_fits : DirectoryFileSize ≤ zlen (bytes_at c p);
  da_table : read_at (bytes_at c p) 0 DirectoryFileSize = enc_table (table d)
}.
Lemma dir_at_kept c c' p d : bytes_at c' p = bytes_at c p → dir_at c p d → dir_at c' p d.
Proof. intros E []. split; by rewrite ?E. Qed.
Lemma bytes_at_length c n : file_ok (file_at c n) c → zlen (bytes_at c n) = FileLength (decode (c n)).
Proof. intros HF. apply file_bytes_length, HF. Qed.

(** *** The free map in its file *)
Lemma dec_enc_words ws : Forall is_u32 ws → dec_words (zlen ws) (enc_ints ws) = ws.
Proof.
  intros HF. pose proof (zlen_nonneg ws).
  assert (zlen (dec_words (zlen ws) (enc_ints ws)) = zlen ws) as Hl
    by (unfold dec_words; by rewrite zlen_fmap, zlen_seqZ).
  apply znth_ext; [done|]. intros i Hi. rewrite Hl in Hi. destruct (znth_range ws i Hi) as [x Hx]. rewrite Hx.
  unfold dec_words. rewrite znth_fmap, znth_seqZ, Z.add_0_l by done. cbn [fmap option_fmap option_map].
  rewrite (read_enc_ints _ _ _ Hx), le_combine_split. f_equal. change (8 * Z.of_nat 4) with 32.
  apply u32_small. by apply (Forall_znth _ _ _ _ HF Hx).
Qed.

(** ** Allocation *)

(** The three outcomes of [Allocate], for a header object in memory. *)
Lemma Allocate_cases {S : Type} `{SectorStoreLaws S} uninit size heap h bm (s : S) c o r :
  (∀ i, zlen (heap i) = SecondDirect) → hdr_bytes h → wf bm → numBits bm = NumSectors →
  0 ∈ marked bm → 0 ≤ size < 2 ^ 31 → garbage_ok uninit → represents s c o r →
  let n := divRoundUp size SectorSize in
  (∃ h' bm' s' c', Allocate uninit heap h bm size s = Ok ((true, h', bm'), s') ∧
     represents s' c' o r ∧ allocated bm bm' c c' h' size n ∧ hdr_bytes h' ∧ room uninit size bm ∧
     gained uninit n bm bm' (fpset (dataSectors h') c' n (nidx n))) ∨
  (∃ h' bm', Allocate uninit heap h bm size s = Ok ((false, h', bm'), s) ∧
     ¬ room uninit size bm ∧ ¬ overrun uninit size bm) ∨
  (Allocate uninit heap h bm size s = Stop AssertFailed ∧ overrun uninit size bm).
Proof.
  intros Hheap HB WF Hb H0in Hsz Hu HR n. pose proof HB as [T1 T2 T3 T4 _ _ [Hl Hints]].
  destruct (Allocate_cases_of uninit size heap h bm s c o r)
    as [(h' & bm' & s' & c' & HA & HR' & HAl & HG & (ds & -> & Hds) & Hrm)|[?|?]]; try done; [|tauto..].
  left. exists (set_size h size n ds), bm', s', c'. split_and!; try done. cbn.
  assert (0 ≤ n ≤ 166) as Hn.
  { destruct Hrm as [Hmax _]. unfold n. revert Hmax. consts. rewrite divRoundUp_div by lia.
    Z.to_euclidean_division_equations. lia. }
  split; cbn; try done; try (unfold is_s32; consts; lia). split; [|by apply Hds].
  apply (ly_len _ _ _ _ (al_hdr _ _ _ _ _ _ _ HAl)).
Qed.

(** ** The state of the file system *)
Record env_ok (env : Env) : Prop := {
  ev_mem n : 0 ≤ n → zlen (mem env n) = n;
  ev_heap i : zlen (heap env i) = SecondDirect;
  ev_uninit : garbage_ok (uninit env);
  ev_hdr : hdr_bytes (new_hdr env);
  ev_table : zlen (new_table env) = NumDirEntries ∧ Forall entry_bytes (new_table env);
  ev_words : zlen (new_words env) = 32 ∧ Forall is_u32 (new_words env)
}.

Definition locks_free (r : Z → rwstate) : Prop := ∀ n, 0 ≤ n < NumSectors → r n = Readers 0.

Section state.
Context {S : Type} `{Sst : SectorStore S, Slaws : !SectorStoreLaws S}.

(** The files and the two open ones. *)
Record base (fs : FS S) (c : Z → list Z) (o : Z → Z) (r : Z → rwstate) (bm : BitMap) (H : gset Z) :
    Prop := {
  bs_rep : represents (store fs) c o r;
  bs_disk : disk_ok c bm H;
  bs_locks : locks_free r;
  bs_map : FreeMapSector ∈ H ∧ headerSector (freeMapFile fs) = FreeMapSector ∧
    hdr (freeMapFile fs) = decode (c FreeMapSector) ∧ zlen (bytes_at c FreeMapSector) = FreeMapFileSize;
  bs_root : DirectorySector ∈ H ∧ headerSector (directoryFile fs) = DirectorySector ∧
    same_but_times (decode (c DirectorySector)) (hdr (directoryFile fs))
}.

(** The free map on the disk. *)
Definition map_is (c : Z → list Z) (bm : BitMap) : Prop :=
  wf bm ∧ numBits bm = NumSectors ∧ bytes_at c FreeMapSector = enc_ints (BitMap.map bm).

Lemma base_range fs c o r bm H n : base fs c o r bm H → n ∈ H → 0 ≤ n < NumSectors.
Proof. intros HB Hn. by apply (fo_sector _ _ (dk_file _ _ _ (bs_disk _ _ _ _ _ _ HB) n Hn)). Qed.

(** A change inside a file other than the free map. *)
Lemma base_change fs fs' c c' o o' r bm H n :
  base fs c o r bm H → n ∈ H → n ≠ FreeMapSector → still c c' n → same_off (own c n) c c' →
  represents (store fs') c' o' r → freeMapFile fs' = freeMapFile fs → directoryFile fs' = directoryFile fs →
  base fs' c' o' r bm H ∧ ∀ n', n' ∈ H → n' ≠ n → kept c c' n'.
Proof.
  intros [HR HD HL (M1 & M2 & M3 & M4) (R1 & R2 & R3)] Hn Hn0 HS Hoff HR' Efm Edf.
  destruct (disk_ok_change c c' bm H n HD Hn HS Hoff) as [HD' HK]. split; [|done].
  assert (c' FreeMapSector = c FreeMapSector) as E0.
  { apply Hoff. pose proof (dk_apart _ _ _ HD _ _ M1 Hn ltac:(congruence)) as Hd.
    pose proof (own_self c FreeMapSector). set_solver. }
  split; try done; rewrite ?Efm, ?Edf.
  - rewrite E0. split_and!; try done. by rewrite (proj2 (HK _ M1 (not_eq_sym Hn0))).
  - split_and!; try done. eapply same_sib; [|exact R3]. destruct (decide (n = DirectorySector)) as [->|Hn1].
    + apply HS.
    + by apply (HK _ R1 (not_eq_sym Hn1)).
Qed.

(** The abstract state is determined on the existing sectors. *)
Lemma base_open_ext fs c o o' r bm H :
  base fs c o r bm H → (∀ n, 0 ≤ n < NumSectors → o' n = o n) → base fs c o' r bm H.
Proof.
  intros [HR ? ? ? ?] Ho. split; try done. eapply represents_ext; [exact HR|]. intros n Hn. by rewrite Ho.
Qed.

(** The store together with the open files obeys the laws. *)
Ltac on_fs fs HR :=
  pose (L := fs_laws (freeMapFile fs) (directoryFile fs));
  match type of HR with represents _ ?c ?o ?r => assert (represents fs c o r) as HR1 by done end.

(** ** Steps of the operations *)
Context (env : Env) (HE : env_ok env).

Lemma OpenFile_new_ok fs c o r bm H p :
  base fs c o r bm H → 0 ≤ p < NumSectors →
  ∃ fs', OpenFile_new (new_hdr env) p fs = Ok (file_at c p, fs') ∧
    base fs' c (upd o p (o p + 1)) r bm H.
Proof using HE.
  intros HB Hp. pose proof HB as [HR HD HL HM HT]. on_fs fs HR.
  destruct (OpenSector_ok fs c o r p HR1 Hp) as (s1 & E1 & HR2).
  destruct (ReadSector_ok s1 c _ r p (encode (new_hdr env)) HR2 Hp) as (s2 & E2 & HR3).
  { apply encode_length, HE. }
  exists s2. unfold OpenFile_new, FetchFrom. step E1. split; [unfold mbind, ST_bind; by rewrite E2|].
  destruct HR3 as (HR3 & Efm & Edf). split; rewrite ?Efm, ?Edf; done.
Qed.

Lemma OpenFile_delete_ok fs c o r bm H f :
  base fs c (upd o (headerSector f) (o (headerSector f) + 1)) r bm H → 0 ≤ headerSector f < NumSectors →
  ∃ fs', OpenFile_delete f fs = Ok ((), fs') ∧ base fs' c o r bm H ∧
    freeMapFile fs' = freeMapFile fs ∧ directoryFile fs' = directoryFile fs.
Proof.
  intros HB Hp. pose proof HB as [HR HD HL HM HT]. on_fs fs HR.
  destruct (CloseSector_ok fs c _ r (headerSector f) HR1 Hp) as (s1 & E1 & HR2 & Efm & Edf).
  exists s1. split; [exact E1|]. split; [|done]. split; rewrite ?Efm, ?Edf; try done.
  eapply represents_ext; [exact HR2|]. intros n Hn. split_and!; try done. unfold upd.
  repeat case_bool_decide; subst; try done. lia.
Qed.

Lemma new_dir_ok : zlen (table (new_dir env)) = tableSize (new_dir env) ∧
  Forall entry_bytes (table (new_dir env)) ∧ tableSize (new_dir env) = NumDirEntries.
Proof using HE.
  destruct (ev_table _ HE) as [Hl HF]. cbn. rewrite zlen_fmap. split_and!; try done.
  apply Forall_fmap. clear Hl. induction HF as [|e l He HF' IH]; constructor; [by destruct e|exact IH].
Qed.

(** [open_dir] reads the table of a directory; only the time of its last visit changes. *)
Lemma open_dir_ok k fs c o r bm H p d :
  base fs c o r bm H → p ∈ H → p ≠ FreeMapSector → dir_at c p d →
  ∃ f fs' c', open_dir env k p fs = Ok ((d, f), fs') ∧ base fs' c' (upd o p (o p + 1)) r bm H ∧
    (∀ n, n ∈ H → kept c c' n) ∧ headerSector f = p ∧ hdr f = decode (c' p) ∧ same_off (own c p) c c'.
Proof using HE.
  intros HB Hp Hp0 [D1 D2 D3 D4 D5]. pose proof (base_range _ _ _ _ _ _ _ HB Hp) as Hr.
  destruct (OpenFile_new_ok fs c o r bm H p HB Hr) as (s1 & E1 & HB1).
  pose proof HB1 as [HR HD HL HM HT]. on_fs s1 HR. destruct new_dir_ok as (N1 & N2 & N3).
  pose proof (dk_file _ _ _ HD p Hp) as HF. rewrite bytes_at_length in D4 by done.
  destruct (Dir_FetchFrom_ok (mem env) (ev_mem _ HE) (clock env k) (new_dir env) d (file_at c p) c s1
    (upd o p (o p + 1)) r 0) as (f' & s2 & c' & E2 & HR2 & HT2 & Ehd); try done; try congruence.
  { by apply HL. } { by rewrite D1. } { by rewrite D1. } { by rewrite D1. }
  exists f', s2, c'. unfold open_dir. step E1. split; [exact E2|].
  destruct HT2 as (HF2 & HS2 & Hh2 & _ & Hoff). cbn [file_at hdr headerSector] in *.
  assert (same_off {[p]} c c') as Hoff1 by (intros x Hx; apply Hoff; set_solver).
  destruct (kept_touch c c' p (hdr f') HF HS2 Ehd Hoff1) as [HK Ed].
  assert (same_off (own c p) c c') as Hoff2.
  { eapply same_off_weaken; [|exact Hoff1]. pose proof (own_self c p). set_solver. }
  destruct HR2 as (HR2 & Efm & Edf).
  destruct (base_change s1 s2 c c' _ (upd o p (o p + 1)) r bm H p HB1 Hp Hp0 (proj1 HK) Hoff2 HR2 Efm Edf)
    as [HB2 HK2]. split; [done|]. split_and!; try done.
  intros n Hn. destruct (decide (n = p)) as [->|]; [done|by apply HK2].
Qed.

(** A table written to the file of a directory. *)
Lemma dir_written fs fs' c c' o r bm H p d f f' :
  base fs c o r bm H → p ∈ H → p ≠ FreeMapSector → headerSector f = p → same_but_times (decode (c p)) (hdr f) →
  tableSize d = NumDirEntries → zlen (table d) = tableSize d → Forall entry_bytes (table d) →
  DirectoryFileSize ≤ zlen (bytes_at c p) → written_at f f' c c' 0 (enc_table (table d)) →
  represents (store fs') c' o r → freeMapFile fs' = freeMapFile fs → directoryFile fs' = directoryFile fs →
  base fs' c' o r bm H ∧ dir_at c' p d ∧ still c c' p ∧ (∀ n, n ∈ H → n ≠ p → kept c c' n) ∧
    headerSector f' = p ∧ same_off (own c p) c c'.
Proof.
  intros HB Hp Hp0 Hf Hh D1 D2 D3 D4 HW HR Efm Edf. pose proof (dk_file _ _ _ (bs_disk _ _ _ _ _ _ HB) p Hp) as HF.
  destruct (still_written_stale c c' f f' p 0 (enc_table (table d)) HF Hh Hf HW) as (HS & Hoff & Ed & Hby).
  destruct (base_change fs fs' c c' _ _ r bm H p HB Hp Hp0 HS Hoff HR Efm Edf) as [HB2 HK2].
  pose proof (enc_table_length _ D3) as Hel. rewrite D2, D1 in Hel.
  assert (zlen (bytes_at c' p) = zlen (bytes_at c p)) as Hlen
    by (rewrite Hby; apply write_at_length; [done|]; unfold DirectoryFileSize in *; lia).
  split; [done|]. split; [|split_and!; try done].
  - split; try done; [by rewrite Hlen|]. rewrite Hby. unfold DirectoryFileSize in *. rewrite <-Hel.
    apply read_write_same; [done|]. lia.
  - destruct (wa_same _ _ _ _ _ _ HW) as (_ & Hh' & _). congruence.
Qed.

(** [write_dir] stores a table in the file of a directory. *)
Lemma stale_ok c p f :
  file_ok (file_at c p) c → headerSector f = p → same_but_times (decode (c p)) (hdr f) → file_ok f c.
Proof.
  intros HF Hf Hh. destruct (file_touch (file_at c p) c c (hdr f) HF Hh (λ _ _, eq_refl)) as (HF1 & _).
  destruct HF1. split; by rewrite ?Hf.
Qed.
Lemma write_dir_stale_ok k fs c o r bm H p d f :
  base fs c o r bm H → p ∈ H → p ≠ FreeMapSector → headerSector f = p → same_but_times (decode (c p)) (hdr f) →
  tableSize d = NumDirEntries → zlen (table d) = tableSize d → Forall entry_bytes (table d) →
  DirectoryFileSize ≤ zlen (bytes_at c p) →
  ∃ f' fs' c', write_dir env k d f fs = Ok (f', fs') ∧ base fs' c' o r bm H ∧ dir_at c' p d ∧
    still c c' p ∧ (∀ n, n ∈ H → n ≠ p → kept c c' n) ∧ headerSector f' = p ∧ same_off (own c p) c c'.
Proof using HE.
  intros HB Hp Hp0 Hf Hh D1 D2 D3 D4. pose proof HB as [HR HD HL HM HT]. on_fs fs HR.
  pose proof (dk_file _ _ _ HD p Hp) as HF. pose proof (bytes_at_length _ _ HF) as Hbl. unfold FileLength in Hbl.
  pose proof (stale_ok c p f HF Hf Hh) as HFf.
  destruct (Dir_WriteBack_ok (mem env) (ev_mem _ HE) (extend1 env) (clock_at env k) d f c fs o r)
    as (f' & s1 & c' & E1 & HR2 & HW); try done.
  { rewrite Hf. apply HL. by eapply base_range. } { by rewrite D1. }
  { unfold FileLength. rewrite D1, (proj1 Hh). by rewrite <-Hbl. }
  destruct HR2 as (HR2 & Efm & Edf). destruct (dir_written fs s1 c c' o r bm H p d f f') as (HB2 & Hd & HS & HK & Hf' & Hoff); try done.
  by exists f', s1, c'.
Qed.
Lemma write_dir_ok k fs c o r bm H p d f :
  base fs c o r bm H → p ∈ H → p ≠ FreeMapSector → headerSector f = p → hdr f = decode (c p) →
  tableSize d = NumDirEntries → zlen (table d) = tableSize d → Forall entry_bytes (table d) →
  DirectoryFileSize ≤ zlen (bytes_at c p) →
  ∃ f' fs' c', write_dir env k d f fs = Ok (f', fs') ∧ base fs' c' o r bm H ∧ dir_at c' p d ∧
    still c c' p ∧ (∀ n, n ∈ H → n ≠ p → kept c c' n) ∧ headerSector f' = p ∧ same_off (own c p) c c'.
Proof using HE.
  intros HB Hp Hp0 Hf Hh. apply write_dir_stale_ok; try done. apply same_self; [|done].
  apply (dk_file _ _ _ (bs_disk _ _ _ _ _ _ HB) p Hp).
Qed.

(** *** The free map *)
Lemma base_map_change fs s' f' c c' o r bm H :
  base fs c o r bm H → still c c' FreeMapSector → same_off (own c FreeMapSector) c c' →
  represents s' c' o r → headerSector f' = FreeMapSector → hdr f' = decode (c' FreeMapSector) →
  zlen (bytes_at c' FreeMapSector) = FreeMapFileSize →
  base (mkFS s' f' (directoryFile fs)) c' o r bm H ∧ ∀ n, n ∈ H → n ≠ FreeMapSector → kept c c' n.
Proof.
  intros [HR HD HL (M1 & M2 & M3 & M4) (R1 & R2 & R3)] HS Hoff HR' Hh Hd Hl.
  destruct (disk_ok_change c c' bm H _ HD M1 HS Hoff) as [HD' HK]. split; [|done].
  split; try done. split_and!; try done. cbn. eapply same_sib; [|exact R3]. by apply (HK _ R1).
Qed.

Lemma map_words bm : wf bm → numBits bm = NumSectors →
  numWords bm = 32 ∧ zlen (BitMap.map bm) = 32 ∧ zlen (enc_ints (BitMap.map bm)) = FreeMapFileSize.
Proof.
  intros WF Hb. assert (numWords bm = 32) as Hw by (by rewrite (wf_words _ WF), Hb).
  pose proof (wf_len _ WF) as Hl. rewrite zlen_enc_ints. rewrite Hw in Hl. rewrite Hl. done.
Qed.

Lemma fetch_freeMap_ok k fs c o r bm bm0 H :
  base fs c o r bm0 H → map_is c bm →
  ∃ fs' c', fetch_freeMap env k fs = Ok (bm, fs') ∧ base fs' c' o r bm0 H ∧
    (∀ n, n ∈ H → kept c c' n) ∧ same_off {[FreeMapSector]} c c'.
Proof using HE.
  intros HB (WF & Hb & Hby). pose proof HB as [HR HD HL (M1 & M2 & M3 & M4) HT]. on_fs fs HR.
  destruct (BitMap_new_spec NumSectors (new_words env)) as (bm1 & E1 & WF1 & Hb1 & _);
    [done|by rewrite (proj1 (ev_words _ HE))|apply HE|].
  destruct (map_words bm WF Hb) as (W1 & W2 & W3), (map_words bm1 WF1 Hb1) as (V1 & V2 & V3).
  pose proof (dk_file _ _ _ HD _ M1) as HF. set (f := freeMapFile fs) in *.
  assert (file_ok f c) as HFf by (destruct HF; split; by rewrite ?M2, ?M3).
  destruct (ReadAt_ok (mem env) (ev_mem _ HE) (clock env k) f c (numWords bm1 * 4) 0 fs o r 0)
    as (s2 & E2 & HR2); try done.
  { rewrite M2. by apply HL. } { by rewrite V1. }
  { rewrite M3. rewrite <-bytes_at_length by done. by rewrite M4. } { by rewrite V1. }
  assert (Z.min (numWords bm1 * 4) (FileLength (hdr f) - 0) = FreeMapFileSize) as Hmin.
  { rewrite M3, <-bytes_at_length by done. by rewrite M4, V1. }
  rewrite Hmin in E2. set (h' := set_visit_time (clock env k) (hdr f)) in *. rewrite M2 in HR2.
  assert (same_but_times (decode (c FreeMapSector)) h') as Hsame.
  { rewrite <-M3. apply set_visit_same. apply HFf. }
  set (c' := upd c FreeMapSector (encode h')) in *.
  assert (same_off {[FreeMapSector]} c c') as Hoff by (intros x Hx; apply upd_ne; set_solver).
  destruct (kept_touch c c' FreeMapSector h' HF Hsame (upd_eq _ _ _) Hoff) as [HK Ed].
  destruct HR2 as (HR2 & Efm & Edf).
  destruct (base_map_change fs (store s2) (set_hdr f h') c c' o r bm0 H) as [HB' HK']; try done.
  { apply HK. } { eapply same_off_weaken; [|exact Hoff]. pose proof (own_self c FreeMapSector). set_solver. }
  { by rewrite (proj2 HK). }
  exists (mkFS (store s2) (set_hdr f h') (directoryFile fs)), c'. split_and!; try done.
  - unfold fetch_freeMap, new_freeMap, BM_FetchFrom, getS, mbind, ST_bind, lift. cbv beta iota.
    rewrite E1. cbv beta iota. fold f. rewrite E2. cbv beta iota.
    unfold put_freeMapFile, mret, ST_ret. cbn [store freeMapFile directoryFile]. rewrite Edf. do 3 f_equal.
    assert (read_at (file_bytes (hdr f) c) 0 FreeMapFileSize = enc_ints (BitMap.map bm)) as ->.
    { rewrite M3. fold (bytes_at c FreeMapSector). rewrite Hby. by apply read_at_all. }
    rewrite write_at_whole by congruence. replace (numWords bm1) with (zlen (BitMap.map bm)) by congruence.
    rewrite dec_enc_words by apply WF. rewrite Hb1, <-Hb, (wf_len _ WF). by destruct bm.
  - intros n Hn. destruct (decide (n = FreeMapSector)) as [->|]; [done|by apply HK'].
Qed.

(** The words of a map written to the file of the free map. *)
Lemma map_written fs s' f' c c' o r bm bm0 H :
  base fs c o r bm0 H → wf bm → numBits bm = NumSectors →
  written_at (freeMapFile fs) f' c c' 0 (enc_ints (BitMap.map bm)) → represents s' c' o r →
  base (mkFS s' f' (directoryFile fs)) c' o r bm0 H ∧ map_is c' bm ∧ still c c' FreeMapSector ∧
    (∀ n, n ∈ H → n ≠ FreeMapSector → kept c c' n) ∧ same_off (own c FreeMapSector) c c'.
Proof.
  intros HB WF Hb HW HR. pose proof HB as [_ HD HL (M1 & M2 & M3 & M4) HT].
  destruct (map_words bm WF Hb) as (W1 & W2 & W3). pose proof (dk_file _ _ _ HD _ M1) as HF.
  destruct (still_written c c' _ f' FreeMapSector 0 _ HF M3 M2 HW) as (HS & Hoff & Ed & Hby).
  assert (bytes_at c' FreeMapSector = enc_ints (BitMap.map bm)) as Hby'.
  { rewrite Hby. apply write_at_whole. by rewrite W3, M4. }
  destruct (wa_same _ _ _ _ _ _ HW) as (_ & Hh' & _).
  destruct (base_map_change fs s' f' c c' o r bm0 H) as [HB' HK']; try done; congruence.
Qed.

Lemma write_freeMap_ok extend k fs c o r bm bm0 H :
  base fs c o r bm0 H → wf bm → numBits bm = NumSectors →
  ∃ fs' c', write_freeMap env extend k bm fs = Ok ((), fs') ∧ base fs' c' o r bm0 H ∧ map_is c' bm ∧
    still c c' FreeMapSector ∧ (∀ n, n ∈ H → n ≠ FreeMapSector → kept c c' n) ∧
    same_off (own c FreeMapSector) c c'.
Proof using HE.
  intros HB WF Hb. pose proof HB as [HR HD HL (M1 & M2 & M3 & M4) HT]. on_fs fs HR.
  destruct (map_words bm WF Hb) as (W1 & W2 & W3).
  pose proof (dk_file _ _ _ HD _ M1) as HF. set (f := freeMapFile fs) in *.
  assert (file_ok f c) as HFf by (destruct HF; split; by rewrite ?M2, ?M3).
  assert (FileLength (hdr f) = FreeMapFileSize) as Hfl by (rewrite M3, <-bytes_at_length by done; done).
  destruct (WriteAt_ok (mem env) (ev_mem _ HE) extend (clock_at env k) f c (enc_ints (BitMap.map bm))
    (numWords bm * 4) 0 fs o r) as (f' & s2 & c' & E2 & HR2 & HW); try done.
  { rewrite M2. by apply HL. } { rewrite W1, W3. done. } { rewrite Hfl, W1. done. }
  rewrite W1, read_at_all in HW by (by rewrite W3). destruct HR2 as (HR2 & Efm & Edf).
  destruct (map_written fs (store s2) f' c c' o r bm bm0 H HB WF Hb HW HR2) as (HB' & HM' & HS & HK & Hoff).
  exists (mkFS (store s2) f' (directoryFile fs)), c'. split_and!; try done.
  unfold write_freeMap, BM_WriteBack, getS, mbind, ST_bind. cbv beta iota. fold f. rewrite E2.
  cbv beta iota. unfold put_freeMapFile, mret, ST_ret. by rewrite Edf.
Qed.

(** *** A new file *)
Lemma base_add fs fs' c c' o r bm bm' H n :
  base fs c o r bm H → file_ok (file_at c' n) c' → own c' n ## marked bm → same_off (own c' n) c c' →
  marked bm ∪ own c' n ⊆ marked bm' →
  represents (store fs') c' o r → freeMapFile fs' = freeMapFile fs → directoryFile fs' = directoryFile fs →
  base fs' c' o r bm' ({[n]} ∪ H) ∧ ∀ n', n' ∈ H → kept c c' n'.
Proof.
  intros [HR HD HL (M1 & M2 & M3 & M4) (R1 & R2 & R3)] HF Hfresh Hoff Hsub HR' Efm Edf.
  destruct (disk_ok_add c c' bm bm' H n HD HF Hfresh Hoff Hsub) as [HD' HK]. split; [|done].
  assert (c' FreeMapSector = c FreeMapSector) as E0.
  { apply Hoff. pose proof (own_self c FreeMapSector) as Hs. intros Hin. apply (Hfresh _ Hin). by apply (dk_used _ _ _ HD _ M1). }
  split; try done; rewrite ?Efm, ?Edf.
  - rewrite E0. split_and!; try done; [by apply elem_of_union_r|]. by rewrite (proj2 (HK _ M1)).
  - split_and!; try done; [by apply elem_of_union_r|]. eapply same_sib; [|exact R3]. by apply (HK _ R1).
Qed.

(** The header [h] of the sectors that [Allocate] has found, written to the sector [sec]. *)
Lemma header_placed c c1 c2 bm1 bm2 sec h h' size n :
  allocated bm1 bm2 c c1 h' size n → same_but_times h' h → 0 ≤ size ≤ n * SectorSize →
  sec ∈ marked bm1 → 0 ≤ sec < NumSectors → c2 sec = encode h →
  (∀ x, x ∈ fpset (dataSectors h') c1 n (nidx n) → c2 x = c1 x) →
  file_ok (file_at c2 sec) c2 ∧ own c2 sec = {[sec]} ∪ fpset (dataSectors h') c1 n (nidx n) ∧
  zlen (bytes_at c2 sec) = size.
Proof.
  intros [A1 A2 A3 A4 A5 A6 A7] Hh Hsz Hsec Hr Ec Hc2. pose proof Hh as (E1 & E2 & E3 & HBy).
  assert (decode (c2 sec) = h) as Ed by (rewrite Ec; by apply decode_encode).
  assert (sec ∉ fpset (dataSectors h') c1 n (nidx n)) as HsX by (intros Hin; by apply (A5 sec)).
  assert (layout (dataSectors h') c1 n (nidx n)) as L1 by (unfold hdr_ok in A3; by rewrite A2 in A3).
  assert (agree (dataSectors h') (dataSectors h') c1 c2 n (nidx n)) as HA.
  { apply apart_agree; [done|]. intros x Hx. apply Hc2. by apply elem_of_list_to_set. }
  assert (file_ok (file_at c2 sec) c2) as HF.
  { unfold file_at. rewrite Ed. split; cbn [hdr headerSector]; try done.
    - unfold hdr_ok. rewrite E2, E3, A2. by eapply layout_agree.
    - rewrite E1, E2, A1, A2. lia.
    - rewrite E2, E3, A2, (footprint_agree _ _ _ _ _ _ HA). intros Hin. apply HsX. by apply elem_of_list_to_set. }
  split_and!; [done| |].
  - unfold own. rewrite Ed, E2, E3, A2. unfold fpset. by rewrite (footprint_agree _ _ _ _ _ _ HA).
  - rewrite bytes_at_length by done. unfold FileLength. by rewrite Ed, E1, A1.
Qed.

Lemma place_header fs1 c c1 o r bm bm1 bm2 H fs sec h h' size n :
  base fs c o r bm H → marked bm1 = {[sec]} ∪ marked bm → sec ∉ marked bm → 0 ≤ sec < NumSectors →
  represents (store fs1) c1 o r → freeMapFile fs1 = freeMapFile fs → directoryFile fs1 = directoryFile fs →
  allocated bm1 bm2 c c1 h' size n → same_but_times h' h → 0 ≤ size ≤ n * SectorSize →
  ∃ fs2 c2, WriteBack sec h fs1 = Ok ((), fs2) ∧ base fs2 c2 o r bm2 ({[sec]} ∪ H) ∧
    (∀ n, n ∈ H → kept c c2 n) ∧ zlen (bytes_at c2 sec) = size ∧
    own c2 sec = {[sec]} ∪ fpset (dataSectors h') c1 n (nidx n) ∧
    own c2 sec ## marked bm ∧ same_off (own c2 sec) c c2.
Proof.
  intros HB HM Hnew Hr HR Efm Edf HAl Hh Hsz. pose proof HAl as [A1 A2 A3 A4 A5 A6 A7].
  pose proof Hh as (E1 & E2 & E3 & HBy). on_fs fs1 HR.
  destruct (WriteSector_ok fs1 c1 o r sec (encode h) HR1 Hr) as (fs2 & EW & HR2 & Efm2 & Edf2).
  { by apply encode_length. }
  set (X := fpset (dataSectors h') c1 n (nidx n)) in *. set (c2 := upd c1 sec (encode h)) in *.
  assert (sec ∈ marked bm1) as Hsm by (rewrite HM; by apply elem_of_union_l, elem_of_singleton).
  assert (sec ∉ X) as HsX by (intros Hin; by apply (A5 sec)).
  destruct (header_placed c c1 c2 bm1 bm2 sec h h' size n) as (HF & Ho & Hlen); try done.
  { apply upd_eq. } { intros x Hx. apply upd_ne. by intros ->. }
  exists fs2, c2. split; [exact EW|]. fold X in Ho.
  assert (own c2 sec ## marked bm) as Hfresh.
  { rewrite Ho. clearbody X. clear -HM A5 Hnew. set_solver. }
  assert (same_off (own c2 sec) c c2) as Hoff.
  { rewrite Ho. intros x Hx. unfold c2. apply not_elem_of_union in Hx as [Hx1 Hx2].
    rewrite upd_ne by (by intros ->; apply Hx1, elem_of_singleton). by apply A7. }
  destruct (base_add fs fs2 c c2 o r bm bm2 H sec) as [HB2 HK]; try done; try congruence.
  rewrite Ho. clearbody X. clear -HM A6. set_solver.
Qed.
End state.
