(* ===== verification/FileSysTree.v ===== *)
(** * The operations of the file system on the tree of directories

    [Create], [Open], [Remove] and [List] of filesys/filesys.cc as operations on an
    abstract tree [T], which maps the header sector of every directory to the finite map
    of its entries.  As in the program, a path is resolved by looking up each of its
    prefixes as a name in the directory the shorter prefix names. *)

From S2P Require Import Prelude BitMap Disk SectorStore SynchDisk.
From S2P Require Import FileHdr FileHdrExtend OpenFile Directory FileSys FileSysProps.

#[local] Arguments decode : simpl never.

Abbreviation dirmap := (gmap (list Z) (Z * bool)).
Abbreviation tree := (gmap Z dirmap).

(** The directories of [T] are stored in files of [H]; every entry names another file of
    [H], and no file has two names. *)
Record tree_ok (c : Z → list Z) (H : gset Z) (T : tree) : Prop := {
  tr_root : is_Some (T !! DirectorySector);
  tr_dir p m : T !! p = Some m → p ∈ H ∧ p ≠ FreeMapSector ∧ ∃ d, dir_at c p d ∧ dir_rep d m;
  tr_entry p m k n b : T !! p = Some m → m !! k = Some (n, b) →
    n ∈ H ∧ n ≠ FreeMapSector ∧ n ≠ DirectorySector ∧ (b = true ↔ is_Some (T !! n));
  tr_once p m k n b p' m' k' b' : T !! p = Some m → m !! k = Some (n, b) →
    T !! p' = Some m' → m' !! k' = Some (n, b') → p = p' ∧ k = k'
}.

Lemma tree_ok_kept c c' H T :
  (∀ n, n ∈ H → bytes_at c' n = bytes_at c n) → tree_ok c H T → tree_ok c' H T.
Proof.
  intros HK [T1 T2 T3 T4]. split; try done. intros p m Hp.
  destruct (T2 p m Hp) as (Hin & Hne & d & Hd & Hm). split_and!; try done. exists d. split; [|done].
  eapply dir_at_kept; [|done]. by apply HK.
Qed.

(** ** Paths *)

(** The sector of the directory that holds [name]: -1 if the directory is not there; none
    if a directory further up is missing, or is a file. *)
Fixpoint parent_sector (T : tree) (fuel : nat) (name : list Z) : option Z :=
  let pos := last_slash name in
  if pos =? 0 then Some DirectorySector else
  match fuel with
  | O => None
  | Datatypes.S fuel' =>
      let parent := take (Z.to_nat pos) name in
      g ← parent_sector T fuel' parent;
      m ← T !! g;
      Some (match m !! cut parent with Some (n, _) => n | None => -1 end)
  end.

(** [name] belongs in the directory [p], whose entries are [m]. *)
Definition in_dir (T : tree) (name : list Z) (p : Z) (m : dirmap) : Prop :=
  parent_sector T (length name) name = Some p ∧ T !! p = Some m.

(** ** Growing the tree *)
Definition grown (T : tree) (p : Z) (m : dirmap) (k : list Z) (sec : Z) (dir : bool) : tree :=
  let T1 := <[p := <[k := (sec, dir)]> m]> T in if dir then <[sec := ∅]> T1 else T1.

Lemma grown_lookup T p m k sec dir q mq :
  p ≠ sec → grown T p m k sec dir !! q = Some mq →
  q = p ∧ mq = <[k := (sec, dir)]> m ∨ dir = true ∧ q = sec ∧ mq = ∅ ∨ q ≠ p ∧ T !! q = Some mq.
Proof.
  intros Hne. unfold grown. destruct dir.
  - rewrite lookup_insert_Some. intros [[<- <-]|[Hq Hl]]; [auto|].
    apply lookup_insert_Some in Hl as [[<- <-]|[? ?]]; auto.
  - intros Hl. apply lookup_insert_Some in Hl as [[<- <-]|[? ?]]; auto.
Qed.
Lemma grown_dom T p m k sec dir q :
  is_Some (T !! p) → is_Some (grown T p m k sec dir !! q) ↔ is_Some (T !! q) ∨ dir = true ∧ q = sec.
Proof.
  intros Hp. unfold grown. destruct dir; rewrite ?lookup_insert_is_Some.
  - destruct (decide (q = sec)), (decide (q = p)); subst; naive_solver.
  - destruct (decide (q = p)); subst; naive_solver.
Qed.

Lemma tree_add c c' H T p m d k sec dir :
  tree_ok c H T → T !! p = Some m → m !! k = None → sec ∉ H → sec ≠ FreeMapSector → DirectorySector ∈ H →
  (∀ n, n ∈ H → n ≠ FreeMapSector → n ≠ p → bytes_at c' n = bytes_at c n) →
  dir_at c' p d → dir_rep d (<[k := (sec, dir)]> m) →
  (dir = true → ∃ d0, dir_at c' sec d0 ∧ dir_rep d0 ∅) →
  tree_ok c' ({[sec]} ∪ H) (grown T p m k sec dir).
Proof.
  intros [T1 T2 T3 T4] Hp Hk Hsec Hs0 H1 HK Hd Hr Hdir. destruct (T2 p m Hp) as (Hpin & Hp0 & _).
  assert (p ≠ sec) as Hne by (by intros ->).
  assert (∀ q mq k' n b, grown T p m k sec dir !! q = Some mq → mq !! k' = Some (n, b) →
    q = p ∧ k' = k ∧ n = sec ∧ b = dir ∨ ∃ mq0, T !! q = Some mq0 ∧ mq0 !! k' = Some (n, b)) as Hent.
  { intros q mq k' n b [[-> ->]|[(_ & -> & ->)|[_ ?]]]%grown_lookup; [| |eauto|done].
    - intros [[<- [= <- <-]]|[? ?]]%lookup_insert_Some; [by left|eauto].
    - by rewrite lookup_empty. }
  split.
  - apply grown_dom; eauto.
  - intros q mq [[-> ->]|[(Hd1 & -> & ->)|[Hqp Hq]]]%grown_lookup; [..|done].
    + split_and!; [by apply elem_of_union_r|done|eauto].
    + split_and!; [by apply elem_of_union_l, elem_of_singleton|done|by apply Hdir].
    + destruct (T2 q mq Hq) as (Hin & Hq0 & dq & Hdq & Hmq). split_and!; [by apply elem_of_union_r|done|].
      exists dq. split; [|done]. eapply dir_at_kept; [|done]. by apply HK.
  - intros q mq k' n b Hq Hn. rewrite grown_dom by eauto.
    destruct (Hent _ _ _ _ _ Hq Hn) as [(-> & -> & -> & ->)|(mq0 & Hq0 & Hn0)].
    + split_and!; [by apply elem_of_union_l, elem_of_singleton|done|by intros ->|].
      split; [auto|]. intros [[m' Hm']|[? _]]; [|done]. by destruct (T2 sec m' Hm').
    + destruct (T3 _ _ _ _ _ Hq0 Hn0) as (Hin & Hn1 & Hn2 & Hb). split_and!; try done; [by apply elem_of_union_r|].
      rewrite Hb. split; [auto|]. intros [?|[_ ->]]; done.
  - intros q mq k1 n b q' mq' k2 b' Hq Hn Hq' Hn'.
    destruct (Hent _ _ _ _ _ Hq Hn) as [(-> & -> & -> & ->)|(mq0 & Hq0 & Hn0)],
      (Hent _ _ _ _ _ Hq' Hn') as [(-> & -> & E & ->)|(mq0' & Hq0' & Hn0')]; try done.
    + by destruct (T3 _ _ _ _ _ Hq0' Hn0').
    + subst. by destruct (T3 _ _ _ _ _ Hq0 Hn0).
    + by eapply T4.
Qed.

(** A directory is full when its map has as many bindings as the table has entries. *)
Lemma dir_full d m :
  dir_rep d m → (∀ i e, znth (table d) i = Some e → inUse e = true) → Z.of_nat (size m) = tableSize d.
Proof.
  intros [OK Hm] Hall. set (keys := (λ e, key (Directory.name e)) <$> table d).
  assert (∀ i k, keys !! i = Some k → ∃ e, znth (table d) (Z.of_nat i) = Some e ∧ entry_for e k) as Hkey.
  { intros i k (e & -> & He)%list_lookup_fmap_Some. exists e.
    assert (znth (table d) (Z.of_nat i) = Some e) as Hz
      by (unfold znth; destruct (Z.ltb_spec (Z.of_nat i) 0); [lia|by rewrite Nat2Z.id]).
    split; [done|]. split; [by eapply Hall|done]. }
  assert (NoDup keys) as HN.
  { apply NoDup_alt. intros i j k Hi Hj. destruct (Hkey i k Hi) as (e & He & Hf), (Hkey j k Hj) as (e' & He' & Hf').
    pose proof (do_uniq _ OK _ _ _ _ _ He He' Hf Hf'). lia. }
  assert (dom m = list_to_set keys) as Hd.
  { apply set_eq. intros k. rewrite elem_of_dom, elem_of_list_to_set. split.
    - intros [v (i & e & He & [_ <-] & _)%Hm]. apply list_elem_of_fmap. exists e. split; [done|].
      apply list_elem_of_lookup_2 with (Z.to_nat i). unfold znth in He. by destruct (i <? 0).
    - intros [i Hi]%list_elem_of_lookup. destruct (Hkey i k Hi) as (e & He & Hf). eexists. apply Hm. eauto. }
  rewrite <-size_dom, Hd, size_list_to_set by done. unfold keys. rewrite length_fmap. apply OK.
Qed.

(** A table stays a table of 10 entries. *)
Lemma Add_table d m s sec dir d' :
  dir_rep d m → c_string s → Forall entry_bytes (table d) → is_s32 sec → Add d s sec dir = Ok (true, d') →
  tableSize d' = tableSize d ∧ zlen (table d') = zlen (table d) ∧ Forall entry_bytes (table d').
Proof.
  intros [OK _] Hs HB Hsec. unfold Add. destruct (FindIndex d s) as [i|]; [|done]. cbn.
  destruct (negb (i =? -1)); [done|].
  destruct (Add_from_spec d s sec dir OK) as [[_ ->]|(j & e & He & _ & ->)]; [done|]. intros [= <-].
  cbn. split_and!; [done|by rewrite zlen_zset|]. apply Forall_zset; [done|].
  destruct (Forall_znth _ _ _ _ HB He) as (H1 & H2 & H3). split_and!; cbn; try done.
  by apply (strncpy_key (Directory.name e) s).
Qed.
Lemma Remove_table d m s b d' :
  dir_rep d m → Forall entry_bytes (table d) → Directory.Remove d s = Ok (b, d') →
  tableSize d' = tableSize d ∧ zlen (table d') = zlen (table d) ∧ Forall entry_bytes (table d').
Proof.
  intros [OK _] HB. unfold Directory.Remove. destruct (FindIndex d s) as [i|]; [|done]. cbn.
  destruct (i =? -1); [by intros [= _ <-]|]. destruct (aget (table d) i) as [e|] eqn:He; [|done]. cbn.
  apply aget_Ok in He. rewrite aset_in by (by eapply znth_Some_range). intros [= _ <-]. cbn.
  split_and!; [done|by rewrite zlen_zset|]. apply Forall_zset; [done|].
  by destruct (Forall_znth _ _ _ _ HB He) as (H1 & H2 & H3).
Qed.

Lemma size_list_le `{Countable A} (l : list A) : (size (list_to_set l : gset A) ≤ length l)%nat.
Proof.
  induction l as [|x l IH]; [done|]. cbn [list_to_set]. rewrite size_union_alt, size_singleton. cbn.
  pose proof (subseteq_size (list_to_set l ∖ {[x]} : gset A) (list_to_set l) ltac:(set_solver)). lia.
Qed.

(** A directory has at most as many names as its table has entries. *)
Lemma dir_size d m : dir_rep d m → Z.of_nat (size m) ≤ tableSize d.
Proof.
  intros [OK Hm]. rewrite <-(do_size _ OK). unfold zlen.
  assert (dom m ⊆ list_to_set ((λ e, key (Directory.name e)) <$> table d)) as Hsub.
  { intros k [v (i & e & He & [_ <-] & _)%Hm]%elem_of_dom. apply elem_of_list_to_set, list_elem_of_fmap. exists e.
    split; [done|]. apply list_elem_of_lookup_2 with (Z.to_nat i). unfold znth in He. by destruct (i <? 0). }
  rewrite <-(length_fmap (λ e, key (Directory.name e)) (table d)), <-size_dom.
  apply Nat2Z.inj_le. etrans; [by apply subseteq_size|apply size_list_le].
Qed.

Section tree.
Context {S : Type} `{Sst : SectorStore S, Slaws : !SectorStoreLaws S}.
Context (env : Env) (HE : env_ok env).
Implicit Types (fs : FS S) (c : Z → list Z) (o : Z → Z) (r : Z → rwstate) (bm : BitMap) (H : gset Z) (T : tree).

Record fs_ok fs c o r bm H T : Prop := {
  fk_base : base fs c o r bm H;
  fk_map : map_is c bm;
  fk_tree : tree_ok c H T
}.

(** Only times of last visit change. *)
Definition visited c c' H : Prop := ∀ n, n ∈ H → kept c c' n.
Lemma visited_trans c1 c2 c3 H : visited c1 c2 H → visited c2 c3 H → visited c1 c3 H.
Proof. intros H1 H2 n Hn. eapply kept_trans; [by apply H1|by apply H2]. Qed.
Lemma visited_refl fs c o r bm H : base fs c o r bm H → visited c c H.
Proof. intros HB n Hn. apply kept_refl. by apply (bs_disk _ _ _ _ _ _ HB). Qed.

Lemma fs_ok_visited fs fs' c c' o o' r bm H T :
  fs_ok fs c o r bm H T → visited c c' H → base fs' c' o' r bm H → fs_ok fs' c' o' r bm H T.
Proof.
  intros [HB (WF & Hb & Hby) HT] HV HB'. split; [done| |].
  - split_and!; try done. by rewrite (proj2 (HV _ (proj1 (bs_map _ _ _ _ _ _ HB)))).
  - eapply tree_ok_kept; [|done]. intros n Hn. by apply HV.
Qed.

(** *** Reading a directory *)
Lemma open_tree_ok k fs c o r bm H T p m :
  fs_ok fs c o r bm H T → T !! p = Some m →
  ∃ d f fs' c', open_dir env k p fs = Ok ((d, f), fs') ∧
    fs_ok fs' c' (upd o p (o p + 1)) r bm H T ∧ visited c c' H ∧
    headerSector f = p ∧ hdr f = decode (c' p) ∧ dir_at c' p d ∧ dir_rep d m.
Proof using HE.
  intros HF Hp. pose proof HF as [HB HM HT]. destruct (tr_dir _ _ _ HT p m Hp) as (Hin & Hne & d & Hd & Hm).
  destruct (open_dir_ok env HE k fs c o r bm H p d HB Hin Hne Hd) as (f & fs' & c' & E & HB' & HV & Hf & Hh & _).
  exists d, f, fs', c'. split; [done|]. split; [by eapply fs_ok_visited|]. split_and!; try done.
  eapply dir_at_kept; [|done]. by apply HV.
Qed.
Lemma close_tree_ok fs c o r bm H T f :
  fs_ok fs c (upd o (headerSector f) (o (headerSector f) + 1)) r bm H T → headerSector f ∈ H →
  ∃ fs', OpenFile_delete f fs = Ok ((), fs') ∧ fs_ok fs' c o r bm H T.
Proof.
  intros HF Hin. pose proof HF as [HB HM HT]. pose proof (base_range _ _ _ _ _ _ _ HB Hin) as Hr.
  destruct (OpenFile_delete_ok fs c o r bm H f HB Hr) as (fs' & E & HB' & _). exists fs'. split; [done|]. by split.
Qed.

(** Resolving a path. *)
Lemma take_string n s : c_string s → c_string (take n s).
Proof. apply Forall_take. Qed.
Lemma GetParentSector_ok fuel fs c o r bm H T name p :
  fs_ok fs c o r bm H T → c_string name → parent_sector T fuel name = Some p →
  ∃ fs' c', GetParentSector env fuel name fs = Ok (p, fs') ∧ fs_ok fs' c' o r bm H T ∧ visited c c' H.
Proof using HE.
  revert fs c name p. induction fuel as [|fuel IH]; intros fs c name p HF Hs Hp;
    cbn [parent_sector GetParentSector] in *; destruct (last_slash name =? 0).
  1,3: injection Hp as <-; exists fs, c; split; [done|]; split; [done|]; eapply visited_refl, HF.
  { done. }
  set (parent := take (Z.to_nat (last_slash name)) name) in *.
  destruct (parent_sector T fuel parent) as [g|] eqn:Eg; [|done]. cbn in Hp.
  destruct (T !! g) as [m|] eqn:Em; [|done]. cbn in Hp. injection Hp as <-.
  pose proof (take_string (Z.to_nat (last_slash name)) name Hs) as Hs'. fold parent in Hs'.
  destruct (IH fs c parent g HF Hs' Eg) as (fs1 & c1 & E1 & HF1 & HV1). step E1.
  destruct (open_tree_ok 200 fs1 c1 o r bm H T g m HF1 Em) as (d & f & fs2 & c2 & E2 & HF2 & HV2 & Hf & _ & _ & Hm).
  step E2. step (Find_map d m parent Hm Hs').
  destruct (close_tree_ok fs2 c2 o r bm H T f) as (fs3 & E3 & HF3); rewrite ?Hf; try done.
  { by apply (tr_dir _ _ _ (fk_tree _ _ _ _ _ _ _ HF) g m). }
  step E3. exists fs3, c2. split; [|split; [done|by eapply visited_trans]]. done.
Qed.
Lemma ParentSector_ok fs c o r bm H T name p :
  fs_ok fs c o r bm H T → c_string name → parent_sector T (length name) name = Some p →
  ∃ fs' c', ParentSector env name fs = Ok (p, fs') ∧ fs_ok fs' c' o r bm H T ∧ visited c c' H.
Proof using HE. apply GetParentSector_ok. Qed.

Lemma parent_range fs c o r bm H T p m : fs_ok fs c o r bm H T → T !! p = Some m → (p <? 0) = false.
Proof.
  intros [HB _ HT] Hp. destruct (tr_dir _ _ _ HT p m Hp) as [Hin _].
  pose proof (base_range _ _ _ _ _ _ _ HB Hin). lia.
Qed.

(** ** [Open] *)
Lemma Open_ok fs c o r bm H T name p m :
  fs_ok fs c o r bm H T → c_string name → in_dir T name p m →
  ∃ fs' c', Open env name fs = Ok ((λ e, file_at c' e.1) <$> m !! cut name, fs') ∧
    fs_ok fs' c' (match m !! cut name with Some (n, _) => upd o n (o n + 1) | None => o end) r bm H T ∧
    visited c c' H.
Proof using HE.
  intros HF Hs [Hp Hm]. unfold Open. destruct (ParentSector_ok fs c o r bm H T name p HF Hs Hp) as (fs1 & c1 & E1 & HF1 & HV1).
  step E1. rewrite (parent_range _ _ _ _ _ _ _ _ _ HF Hm).
  destruct (open_tree_ok 500 fs1 c1 o r bm H T p m HF1 Hm) as (d & f & fs2 & c2 & E2 & HF2 & HV2 & Hf & _ & _ & Hd).
  step E2. step (Find_map d m name Hd Hs).
  assert (headerSector f ∈ H) as Hin by (rewrite Hf; by apply (tr_dir _ _ _ (fk_tree _ _ _ _ _ _ _ HF) p m)).
  destruct (m !! cut name) as [[n b]|] eqn:En.
  - destruct (tr_entry _ _ _ (fk_tree _ _ _ _ _ _ _ HF) p m _ n b Hm En) as (Hn & _).
    pose proof (base_range _ _ _ _ _ _ _ (fk_base _ _ _ _ _ _ _ HF) Hn) as Hr.
    destruct (Z.geb_spec n 0); [|lia].
    destruct (OpenFile_new_ok env HE fs2 c2 _ r bm H n (fk_base _ _ _ _ _ _ _ HF2) Hr) as (fs3 & E3 & HB3).
    erewrite ST_step by (erewrite ST_step by exact E3; reflexivity).
    destruct (close_tree_ok fs3 c2 (upd o n (o n + 1)) r bm H T f) as (fs4 & E4 & HF4); [|done|].
    { rewrite Hf. eapply fs_ok_visited; [exact HF2|by eapply visited_refl, HF2|].
      eapply base_open_ext; [exact HB3|]. intros j Hj. unfold upd. repeat case_bool_decide; subst; congruence || lia. }
    step E4. exists fs4, c2. split; [done|]. split; [done|by eapply visited_trans].
  - cbn. destruct (close_tree_ok fs2 c2 o r bm H T f) as (fs3 & E3 & HF3); [by rewrite Hf|done|].
    erewrite ST_step by reflexivity. step E3. exists fs3, c2. split; [done|]. split; [done|by eapply visited_trans].
Qed.

(** ** [Create] *)

(** There is a free sector for the header, and with it taken there is the room that
    [Allocate] needs for the rest: a run of [wanted] free sectors and, outside the run, as
    many free sectors as the file has blocks. *)
Definition fits (sz : Z) bm : Prop :=
  ∃ sec bm1, BitMap.Find bm = Ok (sec, bm1) ∧ sec ≠ -1 ∧ room (uninit env) sz bm1.

(** There is a free sector for the header but then no run of [wanted] free sectors, so
    that [FindN] runs past the end of the map. *)
Definition no_run (sz : Z) bm : Prop :=
  ∃ sec bm1, BitMap.Find bm = Ok (sec, bm1) ∧ sec ≠ -1 ∧ overrun (uninit env) sz bm1.

Lemma fits_no_run sz bm : fits sz bm → ¬ no_run sz bm.
Proof.
  intros (x & b & Hx & _ & Hrm) (x' & b' & Hx' & _ & Hno). rewrite Hx in Hx'. injection Hx' as -> ->.
  by apply (room_overrun _ _ _ Hrm).
Qed.

(** The header of a new file and its times. *)
Lemma stamped h t1 t2 t3 : hdr_bytes h →
  same_but_times h (set_modify_time t3 (set_visit_time t2 (set_create_time t1 h))).
Proof.
  intros HB. assert (same_but_times h (set_create_time t1 h)) as H1.
  { destruct HB. split_and!; try done. split; cbn; try done. apply set_time_length. }
  pose proof (set_visit_same t2 _ (proj2 (proj2 (proj2 H1)))) as H2.
  pose proof (set_modify_same t3 _ (proj2 (proj2 (proj2 H2)))) as H3.
  by do 2 (eapply same_trans; [eassumption|]).
Qed.

(** What holds after the entry has been made: the file is there, the map and the directory
    are on the disk. *)
Record entered c c' bm bm' fs' o r H p m k sec dir sz d : Prop := {
  en_base : base fs' c' o r bm' ({[sec]} ∪ H);
  en_map : map_is c' bm';
  en_new : own c' sec ## marked bm ∧ gained (uninit env) (divRoundUp sz SectorSize) bm bm' (own c' sec);
  en_dir : dir_at c' p d ∧ dir_rep d (<[k := (sec, dir)]> m);
  en_size : zlen (bytes_at c' sec) = sz;
  en_keep n : n ∈ H → n ≠ FreeMapSector → n ≠ p → kept c c' n
}.

Lemma place_entry fs c o r bm bm1 bm2 H T p m d d' f k sec dir sz fs1 c1 h' name :
  fs_ok fs c o r bm H T → T !! p = Some m → headerSector f = p → hdr f = decode (c p) → dir_at c p d →
  wf bm1 → marked bm1 = {[sec]} ∪ marked bm → sec ∉ marked bm → 0 ≤ sec < NumSectors → 0 ≤ sz ≤ MaxFileSize →
  represents (store fs1) c1 o r → freeMapFile fs1 = freeMapFile fs → directoryFile fs1 = directoryFile fs →
  allocated bm1 bm2 c c1 h' sz (divRoundUp sz SectorSize) → hdr_bytes h' →
  gained (uninit env) (divRoundUp sz SectorSize) bm1 bm2
    (fpset (dataSectors h') c1 (divRoundUp sz SectorSize) (nidx (divRoundUp sz SectorSize))) →
  dir_rep d m → c_string name → k = cut name → Add d name sec dir = Ok (true, d') →
  dir_rep d' (<[k := (sec, dir)]> m) →
  ∃ f' fs' c',
    (WriteBack sec (set_modify_time (clock env 404) (set_visit_time (clock env 403) (set_create_time (clock env 402) h')));;
     parentFile ← write_dir env 410 d' f;
     write_freeMap env (extend1 env) 420 bm2;;
     mret (true, sec, d', parentFile)) fs1 = Ok ((true, sec, d', f'), fs') ∧ headerSector f' = p ∧
    entered c c' bm bm2 fs' o r H p m k sec dir sz d'.
Proof using HE.
  intros HF Hp Hf Hh Hd WF1 HM1 Hnew Hr Hsz HR1 Efm Edf HAl Hhb Hex Hdr Hs -> HAdd Hdr'.
  pose proof HF as [HB HMap HT]. destruct (tr_dir _ _ _ HT p m Hp) as (Hpin & Hp0 & _).
  set (n := divRoundUp sz SectorSize) in *.
  assert (0 ≤ sz ≤ n * SectorSize) as Hn.
  { unfold n. consts. rewrite divRoundUp_div by lia. Z.to_euclidean_division_equations. lia. }
  destruct (place_header fs1 c c1 o r bm bm1 bm2 H fs sec _ h' sz n HB HM1 Hnew Hr HR1 Efm Edf HAl
    (stamped h' (clock env 402) (clock env 403) (clock env 404) Hhb) Hn)
    as (fs2 & c2 & E2 & HB2 & HK2 & Hlen & Hown & Hfresh & Hoff2). step E2.
  destruct (al_wf _ _ _ _ _ _ _ HAl) as [WF2 Hb2].
  pose proof (dk_used _ _ _ (bs_disk _ _ _ _ _ _ HB)) as Hused.
  assert (sec ∉ H) as HsH by (intros Hin; apply Hnew, (Hused sec Hin), own_self).
  assert (c2 p = c p) as Ep.
  { apply Hoff2. intros Hin. apply (Hfresh p Hin), (Hused p Hpin), own_self. }
  destruct (Add_table d m name sec dir d' Hdr Hs (da_bytes _ _ _ Hd)) as (S1 & S2 & S3); [|done|].
  { unfold is_s32. consts. lia. }
  destruct Hd as [D1 D2 D3 D4 D5].
  destruct (write_dir_ok env HE 410 fs2 c2 o r bm2 ({[sec]} ∪ H) p d' f HB2) as
    (f' & fs3 & c3 & E3 & HB3 & Hd3 & HS3 & HK3 & Hf3 & _); try done; try congruence.
  { by apply elem_of_union_r. } { rewrite (proj2 (HK2 p Hpin)). done. }
  step E3.
  destruct (write_freeMap_ok env HE (extend1 env) 420 fs3 c3 o r bm2 bm2 ({[sec]} ∪ H) HB3 WF2 Hb2)
    as (fs4 & c4 & E4 & HB4 & HM4 & HS4 & HK4 & _). step E4.
  exists f', fs4, c4. split; [done|]. split; [done|].
  assert (sec ∈ ({[sec]} ∪ H : gset Z) ∧ p ∈ ({[sec]} ∪ H : gset Z)) as [HsU HpU] by (clear -Hpin; set_solver).
  assert (sec ≠ FreeMapSector) as Hs0.
  { intros ->. apply HsH. apply (bs_map _ _ _ _ _ _ HB). }
  assert (sec ≠ p) as Hsp by (by intros ->).
  split; try done.
  - destruct (HK4 sec HsU Hs0) as [(_ & EO4 & _) _], (HK3 sec HsU Hsp) as [(_ & EO3 & _) _].
    split; [by rewrite EO4, EO3|]. rewrite EO4, EO3, Hown. destruct Hex as (L & HM & HL & Hspare). rewrite HM1 in HM, HL.
    exists L. split_and!; try apply Hspare; [rewrite HM; clear; set_solver|clear -HL; set_solver].
  - split; [|done]. eapply dir_at_kept; [|exact Hd3]. by apply (HK4 p HpU Hp0).
  - destruct (HK4 sec HsU Hs0) as [_ ->]. destruct (HK3 sec HsU Hsp) as [_ ->]. done.
  - intros q Hq Hq0 Hqp. assert (q ∈ ({[sec]} ∪ H : gset Z)) as HqU by (by apply elem_of_union_r).
    eapply kept_trans; [by apply HK2|]. eapply kept_trans; [by apply HK3|by apply HK4].
Qed.

(** The outcomes of [create_entry] for a name that is not in its directory. *)
Definition refused fs' c c' o r bm H T (sz : Z) (m : dirmap) : Prop :=
  fs_ok fs' c' o r bm H T ∧ visited c c' H ∧
  (Z.of_nat (size m) = NumDirEntries ∨ ¬ fits sz bm ∧ ¬ no_run sz bm).

Lemma create_entry_ok fs c o r bm H T p m d f name dir sz :
  fs_ok fs c o r bm H T → T !! p = Some m → headerSector f = p → hdr f = decode (c p) → dir_at c p d →
  dir_rep d m → c_string name → m !! cut name = None → 0 ≤ sz < 2 ^ 31 →
  (∃ sec d' f' fs' c' bm', create_entry env name sz dir d f fs = Ok ((true, sec, d', f'), fs') ∧
     headerSector f' = p ∧ fits sz bm ∧ entered c c' bm bm' fs' o r H p m (cut name) sec dir sz d') ∨
  (∃ sec d' f' fs' c', create_entry env name sz dir d f fs = Ok ((false, sec, d', f'), fs') ∧
     headerSector f' = p ∧ refused fs' c c' o r bm H T sz m) ∨
  (create_entry env name sz dir d f fs = Stop AssertFailed ∧ Z.of_nat (size m) < NumDirEntries ∧ no_run sz bm).
Proof using HE.
  intros HF Hp Hf Hh Hd Hdr Hs Hnone Hsz. pose proof HF as [HB HMap HT]. pose proof HMap as (WF & Hb & _).
  destruct (tr_dir _ _ _ HT p m Hp) as (Hpin & Hp0 & _). unfold create_entry.
  destruct (fetch_freeMap_ok env HE 401 fs c o r bm bm H HB HMap) as (fs1 & c1 & E1 & HB1 & HV1 & Hoff1). step E1.
  pose proof (fs_ok_visited _ _ _ _ _ _ _ _ _ _ HF HV1 HB1) as HF1.
  assert (c1 p = c p) as Ep by (apply Hoff1; by rewrite elem_of_singleton).
  destruct (Find_spec bm WF) as (sec & bm1 & E2 & WF1 & Hb1 & HFind). step E2.
  destruct HFind as [(-> & -> & Hall)|(Hr & Hnew & _ & HM1)].
  { right; left. eexists (-1), d, f, fs1, c1. split_and!; try done. split_and!; try done. right.
    split; intros (sec & bm1 & EF & Hne & _); congruence. }
  destruct (Z.eqb_spec sec (-1)); [lia|].
  destruct (Add_map d m name sec dir Hdr Hs) as (b & d' & E3 & [(-> & _ & Hdr')|(-> & -> & Hfull)]); step E3.
  2:{ right; left. eexists sec, d, f, fs1, c1. split_and!; try done. split_and!; try done. left.
      destruct Hfull as [[x Hx]|Hfull]; [congruence|]. rewrite (dir_full d m Hdr Hfull). apply Hd. }
  cbn [negb]. pose proof (bs_map _ _ _ _ _ _ HB) as (H0 & _).
  assert (0 ∈ marked bm1) as H0in.
  { rewrite HM1. apply elem_of_union_r, (dk_used _ _ _ (bs_disk _ _ _ _ _ _ HB) _ H0), own_self. }
  pose (L := fs_laws (freeMapFile fs1) (directoryFile fs1)).
  assert (represents fs1 c1 o r) as HR1 by (split; [apply HB1|done]).
  destruct (Allocate_cases (uninit env) sz (heap env) (new_hdr env) bm1 fs1 c1 o r (ev_heap _ HE) (ev_hdr _ HE)
    WF1 ltac:(congruence) H0in Hsz (ev_uninit _ HE) HR1)
    as [(h' & bm2 & fs2 & c2 & E4 & HR2 & HAl & Hhb & Hrm & Hex)|[(h' & bm2 & E4 & Hno & Hno2)|[E4 Hno]]].
  - left. step E4. cbn [negb]. destruct HR2 as (HR2 & Efm & Edf).
    destruct (place_entry fs1 c1 o r bm bm1 bm2 H T p m d d' f (cut name) sec dir sz fs2 c2 h' name)
      as (f' & fs3 & c3 & E5 & Hf3 & HEn); try done; try congruence; try lia; try (destruct Hrm; lia).
    { eapply dir_at_kept; [|done]. by apply HV1. }
    exists sec, d', f', fs3, c3, bm2. split; [exact E5|]. split; [done|]. split; [by exists sec, bm1|]. destruct HEn as [? ? ? ? ? HKe].
    split; try done. intros q Hq Hq0 Hqp. eapply kept_trans; [by apply HV1|by apply HKe].
  - right; left. step E4. eexists sec, d', f, fs1, c1. split_and!; try done. split_and!; try done. right.
    split; intros (sec' & bm1' & EF & _ & Hrm); rewrite EF in E2; by injection E2 as -> ->.
  - right; right. split_and!; [by step E4| |by exists sec, bm1].
    pose proof (dir_size d' _ Hdr') as Hsize. rewrite map_size_insert_None in Hsize by done.
    destruct (Add_table d m name sec dir d' Hdr Hs (da_bytes _ _ _ Hd)) as (S2 & _); [unfold is_s32; consts; lia|done|].
    rewrite S2, (da_size _ _ _ Hd) in Hsize. lia.
Qed.

(** [Create] of a file: every outcome. *)
Lemma Create_file_ok fs c o r bm H T name p m sz :
  fs_ok fs c o r bm H T → c_string name → in_dir T name p m → 0 ≤ sz < 2 ^ 31 →
  (∃ sec fs' c' bm', Create env name sz fs = Ok (true, fs') ∧ m !! cut name = None ∧ fits sz bm ∧ own c' sec ## marked bm ∧
     fs_ok fs' c' o r bm' ({[sec]} ∪ H) (grown T p m (cut name) sec false) ∧
     zlen (bytes_at c' sec) = sz ∧
     gained (uninit env) (divRoundUp sz SectorSize) bm bm' (own c' sec) ∧
     ∀ n, n ∈ H → n ≠ FreeMapSector → n ≠ p → kept c c' n) ∨
  (∃ fs' c', Create env name sz fs = Ok (false, fs') ∧ fs_ok fs' c' o r bm H T ∧ visited c c' H ∧
     (is_Some (m !! cut name) ∨ Z.of_nat (size m) = NumDirEntries ∨ ¬ fits sz bm ∧ ¬ no_run sz bm)) ∨
  (Create env name sz fs = Stop AssertFailed ∧
     m !! cut name = None ∧ Z.of_nat (size m) < NumDirEntries ∧ no_run sz bm).
Proof using HE.
  intros HF Hs [Hp Hm] Hsz. unfold Create. destruct (Z.ltb_spec sz 0); [lia|].
  destruct (ParentSector_ok fs c o r bm H T name p HF Hs Hp) as (fs1 & c1 & E1 & HF1 & HV1).
  step E1. rewrite (parent_range _ _ _ _ _ _ _ _ _ HF Hm).
  destruct (open_tree_ok 400 fs1 c1 o r bm H T p m HF1 Hm) as (d & f & fs2 & c2 & E2 & HF2 & HV2 & Hf & Hh & Hd & Hdr).
  step E2. step (Find_map d m name Hdr Hs). pose proof (visited_trans _ _ _ _ HV1 HV2) as HV.
  destruct (tr_dir _ _ _ (fk_tree _ _ _ _ _ _ _ HF) p m Hm) as (Hpin & Hp0 & _).
  destruct (m !! cut name) as [[n b]|] eqn:En.
  { destruct (tr_entry _ _ _ (fk_tree _ _ _ _ _ _ _ HF) p m _ n b Hm En) as (Hn & _).
    pose proof (base_range _ _ _ _ _ _ _ (fk_base _ _ _ _ _ _ _ HF) Hn) as Hr.
    destruct (Z.eqb_spec n (-1)); [lia|]. cbn [negb]. erewrite ST_step by reflexivity.
    destruct (close_tree_ok fs2 c2 o r bm H T f) as (fs3 & E3 & HF3); rewrite ?Hf; try done. step E3.
    right; left. exists fs3, c2. split_and!; try done. left. eauto. }
  change (negb (-1 =? -1)) with false. cbv iota.
  destruct (create_entry_ok fs2 c2 _ r bm H T p m d f name false sz HF2 Hm Hf Hh Hd Hdr Hs En Hsz)
    as [(sec & d' & f' & fs3 & c3 & bm' & E3 & Hf3 & Hfit & HEn)|[(sec & d' & f' & fs3 & c3 & E3 & Hf3 & HF3 & HV3 & Hwhy)|[E3 Hno]]].
  - left. destruct HEn as [EB EM (N1 & N3) [EDa EDr] ES EK].
    assert (tree_ok c3 ({[sec]} ∪ H) (grown T p m (cut name) sec false)) as HT3.
    { assert (sec ∉ H) as HsH.
      { intros Hin. apply (N1 sec (own_self _ _)), (dk_used _ _ _ (bs_disk _ _ _ _ _ _ (fk_base _ _ _ _ _ _ _ HF2)) sec Hin), own_self. }
      eapply (tree_add c2 c3); try done; [apply HF2| |apply (bs_root _ _ _ _ _ _ (fk_base _ _ _ _ _ _ _ HF))|].
      - intros ->. apply HsH. apply (bs_map _ _ _ _ _ _ (fk_base _ _ _ _ _ _ _ HF)).
      - intros n Hn Hn0 Hnp. by apply EK. }
    erewrite ST_step by (erewrite ST_step by exact E3; cbv beta iota; erewrite ST_step by reflexivity; reflexivity).
    cbv beta iota.
    destruct (close_tree_ok fs3 c3 o r bm' ({[sec]} ∪ H) (grown T p m (cut name) sec false) f') as (fs4 & E4 & HF4).
    { rewrite Hf3. by split. } { rewrite Hf3. by apply elem_of_union_r. }
    step E4. exists sec, fs4, c3, bm'. split_and!; try done.
    intros n Hn Hn0 Hnp. eapply kept_trans; [by apply HV|by apply EK].
  - right; left. erewrite ST_step by (erewrite ST_step by exact E3; cbv beta iota; erewrite ST_step by reflexivity; reflexivity).
    cbv beta iota. destruct (close_tree_ok fs3 c3 o r bm H T f') as (fs4 & E4 & HF4); rewrite ?Hf3; try done.
    step E4. exists fs4, c3. split_and!; try done; [by eapply visited_trans|]. right.
    done.
  - right; right. split; [|done]. erewrite ST_stop; [done|]. erewrite ST_stop; [done|]. exact E3.
Qed.

(** *** Directories *)
Lemma new_dir_rep : dir_rep (new_dir env) ∅.
Proof using HE.
  destruct (new_dir_ok env HE) as (N1 & N2 & N3).
  assert (∀ i e, znth (table (new_dir env)) i = Some e → inUse e = false) as Hu.
  { intros i e He. cbn in He. rewrite znth_fmap in He.
    destruct (znth (new_table env) i); [|done]. by injection He as <-. }
  split; [split|].
  - done.
  - intros i e He. by destruct (Forall_znth _ _ _ _ N2 He) as (_ & _ & ?).
  - intros i j e e' k He _ [Hf _]. by rewrite (Hu i e He) in Hf.
  - intros k v. rewrite lookup_empty. split; [done|]. intros (i & e & He & [Hf _] & _). by rewrite (Hu i e He) in Hf.
Qed.

Lemma init_dir_ok fs c o r bm H sec :
  base fs c o r bm H → sec ∈ H → sec ≠ FreeMapSector → zlen (bytes_at c sec) = DirectoryFileSize →
  ∃ fs' c', init_dir env sec fs = Ok ((), fs') ∧ base fs' c' o r bm H ∧ dir_at c' sec (new_dir env) ∧
    still c c' sec ∧ ∀ n, n ∈ H → n ≠ sec → kept c c' n.
Proof using HE.
  intros HB Hin H0 Hlen. pose proof (base_range _ _ _ _ _ _ _ HB Hin) as Hr.
  destruct (OpenFile_new_ok env HE fs c o r bm H sec HB Hr) as (fs1 & E1 & HB1).
  destruct (new_dir_ok env HE) as (N1 & N2 & N3).
  destruct (write_dir_ok env HE 430 fs1 c _ r bm H sec (new_dir env) (file_at c sec) HB1)
    as (f & fs2 & c2 & E2 & HB2 & Hd & HS & HK & Hf & _); try done.
  { by rewrite Hlen. }
  destruct (OpenFile_delete_ok fs2 c2 o r bm H f) as (fs3 & E3 & HB3 & _); [by rewrite Hf|by rewrite Hf|].
  exists fs3, c2. unfold init_dir. step E1. step E2. by rewrite E3.
Qed.

Lemma Create_dir_ok fs c o r bm H T name p m sz :
  fs_ok fs c o r bm H T → c_string name → in_dir T name p m → sz < 0 →
  m !! cut name = None → Z.of_nat (size m) < NumDirEntries →
  fits DirectoryFileSize bm →
  ∃ sec fs' c' bm', Create env name sz fs = Ok (true, fs') ∧ own c' sec ## marked bm ∧
    fs_ok fs' c' o r bm' ({[sec]} ∪ H) (grown T p m (cut name) sec true) ∧
    gained (uninit env) (divRoundUp DirectoryFileSize SectorSize) bm bm' (own c' sec) ∧
    ∀ n, n ∈ H → n ≠ FreeMapSector → n ≠ p → kept c c' n.
Proof using HE.
  intros HF Hs [Hp Hm] Hsz Hnone Hroom Hfits. unfold Create. destruct (Z.ltb_spec sz 0); [|lia].
  destruct (ParentSector_ok fs c o r bm H T name p HF Hs Hp) as (fs1 & c1 & E1 & HF1 & HV1).
  step E1. rewrite (parent_range _ _ _ _ _ _ _ _ _ HF Hm).
  destruct (open_tree_ok 400 fs1 c1 o r bm H T p m HF1 Hm) as (d & f & fs2 & c2 & E2 & HF2 & HV2 & Hf & Hh & Hd & Hdr).
  step E2. step (Find_map d m name Hdr Hs). pose proof (visited_trans _ _ _ _ HV1 HV2) as HV.
  destruct (tr_dir _ _ _ (fk_tree _ _ _ _ _ _ _ HF) p m Hm) as (Hpin & Hp0 & _).
  rewrite Hnone. change (negb (-1 =? -1)) with false. cbv iota.
  destruct (create_entry_ok fs2 c2 _ r bm H T p m d f name true DirectoryFileSize HF2 Hm Hf Hh Hd Hdr Hs Hnone ltac:(done))
    as [(sc & d' & f' & fs3 & c3 & bm' & E3 & Hf3 & Hfit & HEn)|[(sc & d' & f' & fs3 & c3 & E3 & Hf3 & _ & _ & Hwhy)|[E3 Hno]]].
  2:{ exfalso. destruct Hwhy as [?|[Hno _]]; [lia|done]. }
  2:{ exfalso. by apply (fits_no_run _ _ Hfits), Hno. }
  destruct HEn as [EB EM (N1 & N3) [EDa EDr] ES EK].
  assert (sc ∉ H) as HsH.
  { intros Hin. apply (N1 sc (own_self _ _)), (dk_used _ _ _ (bs_disk _ _ _ _ _ _ (fk_base _ _ _ _ _ _ _ HF2)) sc Hin), own_self. }
  assert (sc ≠ FreeMapSector) as Hs0.
  { intros ->. apply HsH. apply (bs_map _ _ _ _ _ _ (fk_base _ _ _ _ _ _ _ HF)). }
  destruct (init_dir_ok fs3 c3 _ r bm' ({[sc]} ∪ H) sc EB) as (fs4 & c4 & E4 & HB4 & Hd4 & HS4 & HK4); try done.
  { by apply elem_of_union_l, elem_of_singleton. }
  assert (∀ n, n ∈ H → kept c3 c4 n) as HK4'.
  { intros n Hn. apply HK4; [by apply elem_of_union_r|]. by intros ->. }
  assert (fs_ok fs4 c4 (upd o p (o p + 1)) r bm' ({[sc]} ∪ H) (grown T p m (cut name) sc true)) as HF4.
  { split; [done| |].
    - destruct EM as (WF & Hb & Hby). split_and!; try done.
      by rewrite (proj2 (HK4' _ (proj1 (bs_map _ _ _ _ _ _ (fk_base _ _ _ _ _ _ _ HF))))).
    - eapply (tree_add c2 c4); try done; [apply HF2|apply (bs_root _ _ _ _ _ _ (fk_base _ _ _ _ _ _ _ HF))| | |].
      + intros n Hn Hn0 Hnp. rewrite (proj2 (HK4' n Hn)). by apply EK.
      + eapply dir_at_kept; [|exact EDa]. by apply (HK4' p Hpin).
      + intros _. exists (new_dir env). split; [done|apply new_dir_rep]. }
  erewrite ST_step by (erewrite ST_step by exact E3; cbv beta iota; erewrite ST_step by exact E4; reflexivity).
  cbv beta iota.
  destruct (close_tree_ok fs4 c4 o r bm' ({[sc]} ∪ H) (grown T p m (cut name) sc true) f') as (fs5 & E5 & HF5).
  { by rewrite Hf3. } { rewrite Hf3. by apply elem_of_union_r. }
  step E5. exists sc, fs5, c4, bm'. split_and!; try done.
  - by rewrite (proj1 (proj2 HS4)).
  - by rewrite (proj1 (proj2 HS4)).
  - intros n Hn Hn0 Hnp. eapply kept_trans; [by apply HV|]. eapply kept_trans; [by apply EK|by apply HK4'].
Qed.

(** ** [Remove] *)
Lemma base_remove fs c o r bm bm' H n :
  base fs c o r bm H → n ∈ H → n ≠ FreeMapSector → n ≠ DirectorySector →
  marked bm' = marked bm ∖ own c n → base fs c o r bm' (H ∖ {[n]}).
Proof.
  intros [HR HD HL (M1 & M2) (R1 & R2)] Hn H0 H1 HM. split; try done.
  - by eapply disk_ok_remove.
  - split; [|done]. apply elem_of_difference. split; [done|]. by rewrite elem_of_singleton.
  - split; [|done]. apply elem_of_difference. split; [done|]. by rewrite elem_of_singleton.
Qed.

(** The file or empty directory [n] and its name are gone. *)
Definition shrunk (T : tree) (p : Z) (m : dirmap) (k : list Z) (n : Z) : tree :=
  delete n (<[p := delete k m]> T).

(** [n] is a file, or a directory with no entries. *)
Definition removable (T : tree) (n : Z) (b : bool) : Prop := b = true → T !! n = Some ∅.

Lemma shrunk_lookup T p m k n q mq :
  shrunk T p m k n !! q = Some mq → q ≠ n ∧ (q = p ∧ mq = delete k m ∨ q ≠ p ∧ T !! q = Some mq).
Proof.
  unfold shrunk. intros [Hne [[<- <-]|[Hq Hl]]%lookup_insert_Some]%lookup_delete_Some; split; auto.
Qed.
Lemma shrunk_dom T p m k n q :
  is_Some (T !! p) → q ≠ n → is_Some (shrunk T p m k n !! q) ↔ is_Some (T !! q).
Proof.
  intros Hp Hq. unfold shrunk. rewrite lookup_delete_ne by congruence. rewrite lookup_insert_is_Some.
  destruct (decide (p = q)) as [->|]; naive_solver.
Qed.
Lemma removable_ne c H T p m k n b :
  tree_ok c H T → T !! p = Some m → m !! k = Some (n, b) → removable T n b → n ≠ p.
Proof.
  intros HT Hp Hk Hr ->. destruct (tr_entry _ _ _ HT _ _ _ _ _ Hp Hk) as (_ & _ & _ & Hb).
  rewrite Hr in Hp by (apply Hb; eauto). injection Hp as <-. by rewrite lookup_empty in Hk.
Qed.

Lemma tree_remove c c' H T p m d k n b :
  tree_ok c H T → T !! p = Some m → m !! k = Some (n, b) → removable T n b →
  (∀ q, q ∈ H → q ≠ FreeMapSector → q ≠ n → q ≠ p → bytes_at c' q = bytes_at c q) →
  dir_at c' p d → dir_rep d (delete k m) → tree_ok c' (H ∖ {[n]}) (shrunk T p m k n).
Proof.
  intros HT Hp Hk Hrm HK Hd Hr. pose proof (removable_ne _ _ _ _ _ _ _ _ HT Hp Hk Hrm) as Hnp.
  destruct HT as [T1 T2 T3 T4]. destruct (T3 _ _ _ _ _ Hp Hk) as (Hn & Hn0 & Hn1 & Hnb).
  assert (∀ q mq k' x b', shrunk T p m k n !! q = Some mq → mq !! k' = Some (x, b') →
    q ≠ n ∧ (q ≠ p ∨ k' ≠ k) ∧ ∃ mq0, T !! q = Some mq0 ∧ mq0 !! k' = Some (x, b')) as Hent.
  { intros q mq k' x b' [Hqn [[-> ->]|[Hq Hl]]]%shrunk_lookup; [|eauto 6].
    intros [? ?]%lookup_delete_Some. split_and!; [done|right; congruence|eauto]. }
  assert (∀ x, x ∈ H → x ≠ n → x ∈ H ∖ {[n]}) as Hin.
  { intros x Hx Hne. apply elem_of_difference. split; [done|]. by rewrite elem_of_singleton. }
  split.
  - apply shrunk_dom; eauto.
  - intros q mq [Hqn [[-> ->]|[Hq Hl]]]%shrunk_lookup.
    + destruct (T2 p m Hp) as (? & ? & _). split_and!; [by apply Hin|done|eauto].
    + destruct (T2 q mq Hl) as (? & ? & dq & Hdq & Hmq). split_and!; [by apply Hin|done|]. exists dq.
      split; [|done]. eapply dir_at_kept; [|done]. by apply HK.
  - intros q mq k' x b' Hq Hx. destruct (Hent _ _ _ _ _ Hq Hx) as (_ & Hne & mq0 & Hq0 & Hx0).
    destruct (T3 _ _ _ _ _ Hq0 Hx0) as (? & ? & ? & ?).
    assert (x ≠ n) as Hxn.
    { intros ->. destruct (T4 _ _ _ _ _ _ _ _ _ Hq0 Hx0 Hp Hk) as [-> ->]. naive_solver. }
    rewrite shrunk_dom by eauto. split_and!; try done. by apply Hin.
  - intros q mq k1 x b1 q' mq' k2 b2 Hq Hx Hq' Hx'.
    destruct (Hent _ _ _ _ _ Hq Hx) as (_ & _ & mq0 & Hq0 & Hx0), (Hent _ _ _ _ _ Hq' Hx') as (_ & _ & mq0' & Hq0' & Hx0').
    by eapply T4.
Qed.

(** The sectors of the file [n] are freed in memory. *)
Lemma free_file_ok fs c o r bm H n :
  base fs c o r bm H → map_is c bm → n ∈ H → n ≠ FreeMapSector →
  ∃ h fs1 fs2 c2 bm1 fs3 bm2, FetchFrom n (new_hdr env) fs = Ok (h, fs1) ∧
    fetch_freeMap env 601 fs1 = Ok (bm, fs2) ∧ Deallocate h bm fs2 = Ok (bm1, fs3) ∧ Clear bm1 n = Ok bm2 ∧
    base fs3 c2 o r bm H ∧ visited c c2 H ∧ same_off {[FreeMapSector]} c c2 ∧
    wf bm2 ∧ numBits bm2 = NumSectors ∧ marked bm2 = marked bm ∖ own c n.
Proof using HE.
  intros HB HMap Hn Hn0. pose proof HMap as (WF & Hb & _). pose proof (base_range _ _ _ _ _ _ _ HB Hn) as Hr.
  pose (L := fs_laws (freeMapFile fs) (directoryFile fs)).
  assert (represents fs c o r) as HR by (split; [apply HB|done]).
  destruct (ReadSector_ok fs c o r n (encode (new_hdr env)) HR Hr) as (fs1 & E1 & HR1 & Efm1 & Edf1);
    [apply encode_length, HE|].
  assert (base fs1 c o r bm H) as HB1 by (destruct HB; split; rewrite ?Efm1, ?Edf1; done).
  destruct (fetch_freeMap_ok env HE 601 fs1 c o r bm bm H HB1 HMap) as (fs2 & c2 & E2 & HB2 & HV2 & Hoff2).
  assert (c2 n = c n) as En by (apply Hoff2; by rewrite elem_of_singleton).
  destruct (HV2 n Hn) as [(_ & Hown2 & HFn) _].
  pose proof (dk_used _ _ _ (bs_disk _ _ _ _ _ _ HB2) n Hn) as Hused. unfold own in Hown2, Hused. cbv zeta in *.
  pose (L2 := fs_laws (freeMapFile fs2) (directoryFile fs2)).
  assert (represents fs2 c2 o r) as HR2 by (split; [apply HB2|done]).
  destruct (Deallocate_ok (decode (c2 n)) c2 bm fs2 o r) as (bm1 & fs3 & E3 & (HR3 & Efm3 & Edf3) & WF1 & Hb1 & HM1);
    try done.
  { apply HFn. } { etrans; [|exact Hused]. apply union_subseteq_r. }
  destruct (Clear_marked bm1 n WF1) as (bm2 & E4 & WF2 & Hb2 & HM2); [by rewrite Hb1|].
  exists (decode (c2 n)), fs1, fs2, c2, bm1, fs3, bm2. split_and!; try done; [..|congruence|].
  - unfold FetchFrom. erewrite ST_step by exact E1. by rewrite En.
  - destruct HB2. split; rewrite ?Efm3, ?Edf3; done.
  - unfold own. cbv zeta. rewrite HM2, HM1, <-Hown2. set (X := fpset _ _ _ _). clearbody X. clear. set_solver.
Qed.

Lemma remove_entry_ok fs c o r bm H T p m d f name n b :
  fs_ok fs c o r bm H T → T !! p = Some m → headerSector f = p → same_but_times (decode (c p)) (hdr f) → dir_at c p d →
  dir_rep d m → c_string name → m !! cut name = Some (n, b) → removable T n b →
  ∃ f' fs' c' bm', remove_entry env name n d f fs = Ok (f', fs') ∧ headerSector f' = p ∧
    fs_ok fs' c' o r bm' (H ∖ {[n]}) (shrunk T p m (cut name) n) ∧
    marked bm' = marked bm ∖ own c n ∧ still c c' p ∧
    ∀ q, q ∈ H → q ≠ FreeMapSector → q ≠ p → q ≠ n → kept c c' q.
Proof using HE.
  intros HF Hp Hf Hh Hd Hdr Hs Hk Hrm. pose proof HF as [HB HMap HT].
  destruct (tr_dir _ _ _ HT p m Hp) as (Hpin & Hp0 & _).
  destruct (tr_entry _ _ _ HT _ _ _ _ _ Hp Hk) as (Hn & Hn0 & Hn1 & Hnb).
  pose proof (removable_ne _ _ _ _ _ _ _ _ HT Hp Hk Hrm) as Hnp.
  destruct (free_file_ok fs c o r bm H n HB HMap Hn Hn0)
    as (h & fs1 & fs2 & c2 & bm1 & fs3 & bm2 & E1 & E2 & E3 & E4 & HB3 & HV2 & Hoff2 & WF2 & Hb2 & HMf).
  unfold remove_entry. step E1. step E2. step E3. step E4.
  destruct (Remove_map d m name Hdr Hs) as (d' & E5 & Hdr'). step E5.
  destruct (Remove_table d m name _ d' Hdr (da_bytes _ _ _ Hd) E5) as (S1 & S2 & S3).
  assert (base fs3 c2 o r bm2 (H ∖ {[n]})) as HB4.
  { eapply base_remove; try done. by rewrite (proj1 (proj2 (proj1 (HV2 n Hn)))). }
  assert (∀ q, q ∈ H → q ≠ n → q ∈ H ∖ {[n]}) as Hin.
  { intros x Hx Hne. apply elem_of_difference. split; [done|]. by rewrite elem_of_singleton. }
  destruct (write_freeMap_ok env HE (extend1 env) 610 fs3 c2 o r bm2 bm2 (H ∖ {[n]}) HB4 WF2 Hb2)
    as (fs5 & c5 & E6 & HB5 & HM5 & HS5 & HK5 & Hoff5). step E6.
  assert (c5 p = c p) as Ep5.
  { rewrite Hoff5; [apply Hoff2; by rewrite elem_of_singleton|]. intros Hin0.
    pose proof (bs_map _ _ _ _ _ _ HB) as (H0 & _).
    apply (dk_apart _ _ _ (bs_disk _ _ _ _ _ _ HB3) p FreeMapSector Hpin H0 Hp0 p); [apply own_self|done]. }
  destruct Hd as [D1 D2 D3 D4 D5].
  destruct (write_dir_stale_ok env HE 620 fs5 c5 o r bm2 (H ∖ {[n]}) p d' f HB5) as
    (f' & fs6 & c6 & E7 & HB6 & Hd6 & HS6 & HK6 & Hf6 & _); try done; try congruence.
  { apply Hin; [done|congruence]. }
  { rewrite (proj2 (HK5 p (Hin p Hpin (not_eq_sym Hnp)) Hp0)), (proj2 (HV2 p Hpin)). done. }
  exists f', fs6, c6, bm2. split; [exact E7|]. split; [done|].
  assert (∀ q, q ∈ H → q ≠ FreeMapSector → q ≠ p → q ≠ n → kept c c6 q) as HKall.
  { intros q Hq Hq0 Hqp Hqn. eapply kept_trans; [by apply HV2|]. eapply kept_trans; [apply HK5|apply HK6]; auto. }
  split_and!; try done; [split; [done| |]|].
  - destruct HM5 as (W5 & B5 & Hby). split_and!; try done. pose proof (bs_map _ _ _ _ _ _ HB4) as (HM0 & _).
    by rewrite (proj2 (HK6 _ HM0 (not_eq_sym Hp0))).
  - eapply (tree_remove c c6); try done. intros q Hq Hqn Hq0 Hqp. by apply HKall.
  - eapply still_trans; [by apply HV2|]. eapply still_trans; [|exact HS6]. by apply (HK5 p (Hin p Hpin (not_eq_sym Hnp)) Hp0).
Qed.

(** [Remove] of a file or of an empty directory: every outcome. *)
Lemma empty_dir d e : dir_rep d ∅ → e ∈ table d → inUse e = false.
Proof.
  intros [_ Hm] [i Hi]%list_elem_of_lookup. destruct (inUse e) eqn:E; [|done].
  assert ((∅ : dirmap) !! key (Directory.name e) = Some (dsector e, isDirE e)) as Hl; [|by rewrite lookup_empty in Hl].
  apply Hm. exists (Z.of_nat i), e. split_and!; try done.
  unfold znth. destruct (Z.ltb_spec (Z.of_nat i) 0); [lia|by rewrite Nat2Z.id].
Qed.
(** [Remove], one level unfolded. *)
Definition remove_one (fuel : nat) (e : DirectoryEntry) (rest : ST (FS S) bool) : ST (FS S) bool :=
  match fuel with
  | O => lift (Stop Undefined)
  | Datatypes.S fuel' => flag ← Remove env fuel' (entry_name e); if (flag : bool) then rest else mret false
  end.
Definition remove_all (F : DirectoryEntry → ST (FS S) bool → ST (FS S) bool) :=
  fix remove_all (l : list DirectoryEntry) : ST (FS S) bool :=
    match l with
    | [] => mret true
    | e :: l' => if inUse e then F e (remove_all l') else remove_all l'
    end.
Lemma Remove_unfold fuel name :
  Remove env fuel name =
    (parentSector ← ParentSector env name;
     if (parentSector <? 0 : bool) then mret false else
     '(directory, parentFile) ← open_dir env 600 parentSector;
     sector ← lift (Directory.Find directory name);
     if (sector =? -1 : bool) then OpenFile_delete parentFile;; mret false else
     opened ← GetOpenStart sector;
     if (opened >? 0 : bool) then OpenFile_delete parentFile;; mret false else
     isdir ← lift (Directory.isDir directory name);
     emptied ←
       (if (isdir : bool) then
          '(NameDir, NameFile) ← open_dir env 630 sector;
          ok ← remove_all (remove_one fuel) (table NameDir);
          OpenFile_delete NameFile;;
          mret ok
        else mret true);
     if (negb emptied : bool) then OpenFile_delete parentFile;; mret false else
     parentFile ← remove_entry env name sector directory parentFile;
     OpenFile_delete parentFile;;
     mret true).
Proof. by destruct fuel. Qed.

Lemma remove_none (F : DirectoryEntry → ST (FS S) bool → ST (FS S) bool) l fs :
  (∀ e, e ∈ l → inUse e = false) →
  remove_all F l fs = Ok (true, fs).
Proof.
  induction l as [|e l IH]; intros Hl; [done|]. cbn. rewrite Hl by (by left). apply IH. intros e' He. apply Hl. by right.
Qed.

(** The entries of an empty directory are read, and there is nothing to remove. *)
Lemma empty_ok F fs c o r bm H T n (b : bool) :
  fs_ok fs c o r bm H T → removable T n b →
  ∃ fs' c', (if b then
       '(NameDir, NameFile) ← open_dir env 630 n;
       ok ← remove_all F (table NameDir);
       OpenFile_delete NameFile;;
       mret ok
     else mret true : ST (FS S) bool) fs = Ok (true, fs') ∧
    fs_ok fs' c' o r bm H T ∧ visited c c' H ∧ (∀ p, p ∈ H → p ≠ n → c' p = c p).
Proof using HE.
  intros HF Hn. destruct b; [specialize (Hn eq_refl)|exists fs, c; split_and!; try done; eapply visited_refl, HF].
  destruct (tr_dir _ _ _ (fk_tree _ _ _ _ _ _ _ HF) n ∅ Hn) as (Hin & Hn0 & d0 & Hd0 & Hm0).
  destruct (open_dir_ok env HE 630 fs c o r bm H n d0 (fk_base _ _ _ _ _ _ _ HF) Hin Hn0 Hd0)
    as (f & fs1 & c1 & E1 & HB1 & HV & Hf & _ & Hoff). step E1.
  step (remove_none F (table d0) fs1 (λ e, empty_dir d0 e Hm0)).
  destruct (close_tree_ok fs1 c1 o r bm H T f) as (fs2 & E2 & HF2); [rewrite Hf; by eapply fs_ok_visited|by rewrite Hf|].
  step E2. exists fs2, c1. split_and!; try done. intros p Hp Hne. apply Hoff. intros Hin'.
  apply (dk_apart _ _ _ (bs_disk _ _ _ _ _ _ (fk_base _ _ _ _ _ _ _ HF)) p n Hp Hin Hne p); [apply own_self|done].
Qed.

Lemma Remove_tree_ok fuel fs c o r bm H T name p m :
  fs_ok fs c o r bm H T → c_string name → in_dir T name p m →
  (∀ n b, m !! cut name = Some (n, b) → removable T n b) →
  (∃ fs' c', Remove env fuel name fs = Ok (false, fs') ∧ fs_ok fs' c' o r bm H T ∧ visited c c' H ∧
     (m !! cut name = None ∨ ∃ n b, m !! cut name = Some (n, b) ∧ 0 < o n)) ∨
  (∃ n b fs' c' bm', Remove env fuel name fs = Ok (true, fs') ∧ m !! cut name = Some (n, b) ∧ o n ≤ 0 ∧
     fs_ok fs' c' o r bm' (H ∖ {[n]}) (shrunk T p m (cut name) n) ∧ marked bm' = marked bm ∖ own c n ∧
     ∀ q, q ∈ H → q ≠ FreeMapSector → q ≠ p → q ≠ n → kept c c' q).
Proof using HE.
  intros HF Hs [Hp Hm] Hrm.
  destruct (ParentSector_ok fs c o r bm H T name p HF Hs Hp) as (fs1 & c1 & E1 & HF1 & HV1).
  destruct (open_tree_ok 600 fs1 c1 o r bm H T p m HF1 Hm) as (d & f & fs2 & c2 & E2 & HF2 & HV2 & Hf & Hh & Hd & Hdr).
  pose proof (visited_trans _ _ _ _ HV1 HV2) as HV. pose proof (fk_tree _ _ _ _ _ _ _ HF) as HT.
  destruct (tr_dir _ _ _ HT p m Hm) as (Hpin & Hp0 & _).
  assert (∀ fs3, fs_ok fs3 c2 (upd o p (o p + 1)) r bm H T →
    ∃ fs4, OpenFile_delete f fs3 = Ok ((), fs4) ∧ fs_ok fs4 c2 o r bm H T) as Hclose.
  { intros fs3 HF3. apply close_tree_ok; by rewrite Hf. }
  rewrite Remove_unfold. step E1. rewrite (parent_range _ _ _ _ _ _ _ _ _ HF Hm). step E2. step (Find_map d m name Hdr Hs).
  destruct (m !! cut name) as [[n b]|] eqn:En.
  2:{ left. cbn. destruct (Hclose fs2 HF2) as (fs3 & E3 & HF3). step E3. exists fs3, c2. split_and!; auto. }
  destruct (tr_entry _ _ _ HT p m _ n b Hm En) as (Hn & Hn0 & Hn1 & Hnb). specialize (Hrm n b eq_refl).
  pose proof (removable_ne _ _ _ _ _ _ _ _ HT Hm En Hrm) as Hnp.
  pose proof (base_range _ _ _ _ _ _ _ (fk_base _ _ _ _ _ _ _ HF) Hn) as Hr. destruct (Z.eqb_spec n (-1)); [lia|].
  pose (L := fs_laws (freeMapFile fs2) (directoryFile fs2)).
  assert (represents fs2 c2 (upd o p (o p + 1)) r) as HR by (split; [apply HF2|done]).
  destruct (GetOpenStart_ok fs2 c2 _ r n HR Hr) as (fs4 & E4 & HR4 & Efm & Edf). step E4.
  rewrite upd_ne in * by done.
  assert (fs_ok fs4 c2 (upd o p (o p + 1)) r bm H T) as HF4.
  { destruct HF2 as [[] ? ?]. split; try done. split; rewrite ?Efm, ?Edf; done. }
  destruct (Z.gtb_spec (o n) 0) as [Ho|Ho].
  { left. destruct (Hclose fs4 HF4) as (fs5 & E5 & HF5). step E5. exists fs5, c2. split_and!; eauto 6. }
  right. step (isDir_map d m name Hdr Hs). rewrite En.
  destruct (empty_ok (remove_one fuel) fs4 c2 _ r bm H T n b HF4 Hrm) as (fs5 & c5 & E5 & HF5 & HV5 & Heq).
  step E5. cbn [negb].
  destruct (remove_entry_ok fs5 c5 _ r bm H T p m d f name n b HF5) as (f' & fs6 & c6 & bm' & E6 & Hf6 & HF6 & HM6 & _ & HK6); try done.
  { apply same_self; [|by rewrite Heq by done]. by apply (bs_disk _ _ _ _ _ _ (fk_base _ _ _ _ _ _ _ HF5)). }
  { eapply dir_at_kept; [|done]. by apply HV5. }
  step E6. destruct (close_tree_ok fs6 c6 o r bm' (H ∖ {[n]}) (shrunk T p m (cut name) n) f') as (fs7 & E7 & HF7).
  { by rewrite Hf6. } { rewrite Hf6. apply elem_of_difference. split; [done|]. rewrite elem_of_singleton. congruence. }
  step E7. pose proof (visited_trans _ _ _ _ HV HV5) as HVa. exists n, b, fs7, c6, bm'. split_and!; try done.
  - by rewrite HM6, (proj1 (proj2 (proj1 (HVa n Hn)))).
  - intros q Hq Hq0 Hqp Hqn. eapply kept_trans; [by apply HVa|by apply HK6].
Qed.
End tree.
