(* ===== verification/FileSysSpec.v ===== *)
(** * What the file system promises

    [FileSystem::FileSystem] formats any disk into one that satisfies the invariant
    [fs_ok] of FileSysTree.v with an empty root directory, and [Create], [Open],
    [Remove] and [List] act on such a disk as on the tree of directories, on every
    outcome. *)

From S2P Require Import Prelude BitMap Disk SectorStore SynchDisk.
From S2P Require Import FileHdr FileHdrExtend OpenFile Directory FileSys FileSysProps FileSysTree.

#[local] Arguments decode : simpl never.

(** ** Runs of free sectors *)

(** Fewer marked sectors than blocks of [cnt] leave a block free. *)
Lemma free_block (X : gset Z) (cnt N : Z) :
  0 ≤ cnt → (Z.of_nat (size X) + 1) * cnt ≤ N →
  ∃ i, 0 ≤ i ∧ i + cnt ≤ N ∧ ∀ j, i ≤ j < i + cnt → j ∉ X.
Proof.
  intros Hc. revert N. remember (size X) as k eqn:Ek. revert X Ek. induction k as [|k IH]; intros X Ek N HN.
  { exists 0. split_and!; try lia. intros j _. rewrite (size_empty_inv X) by done. set_solver. }
  destruct (decide (interval (N - cnt) cnt ∩ X = ∅)) as [He|[x Hx]%set_choose_L].
  { exists (N - cnt). split_and!; try nia. intros j Hj HjX.
    assert (j ∈ interval (N - cnt) cnt ∩ X) as Hin; [|set_solver].
    apply elem_of_intersection. split; [apply elem_of_interval; lia|done]. }
  apply elem_of_intersection in Hx as [Hx%elem_of_interval HxX].
  destruct (IH (X ∖ {[x]})) with (N := N - cnt) as (i & H0 & Hi & Hfree); [|nia|].
  { rewrite size_difference by set_solver. rewrite size_singleton. lia. }
  exists i. split_and!; try lia. intros j Hj HjX. apply (Hfree j Hj). set_solver by lia.
Qed.
Lemma free_block_run bm cnt :
  numBits bm = NumSectors → 0 ≤ cnt → (Z.of_nat (size (marked bm)) + 1) * cnt ≤ NumSectors → ∃ i, free_run bm i cnt.
Proof.
  intros Hb Hc HN. destruct (free_block _ _ _ Hc HN) as (i & H0 & Hi & Hfree). exists i.
  split_and!; [done|by rewrite Hb|done].
Qed.

(** A nearly empty disk has room for a small file. *)
Lemma fits_few env sz bm :
  uninit env = 0 → wf bm → numBits bm = NumSectors → 0 < sz ≤ NumDirect * SectorSize →
  (Z.of_nat (size (marked bm)) + 2) * divRoundUp sz SectorSize ≤ 800 → fits env sz bm.
Proof.
  intros Hu WF Hb Hsz Hfew. set (n := divRoundUp sz SectorSize) in *.
  assert (0 < n ≤ NumDirect) as Hn.
  { unfold n. consts. rewrite divRoundUp_div by lia. Z.to_euclidean_division_equations. lia. }
  assert (wanted (uninit env) n = n) as Hw by (unfold wanted; rewrite Hu; case_match; lia).
  assert (Z.of_nat (size (marked bm)) ≤ 798) as Hs by nia.
  destruct (Find_spec bm WF) as (sec & bm1 & E & WF1 & Hb1 & [(-> & _ & Hall)|(Hr & Hnew & _ & HM1)]).
  { destruct (free_block_run bm 1 Hb) as (i & H0 & Hi & Hfree); [lia|consts; lia|]. destruct (Hfree i); [lia|].
    apply Hall. lia. }
  assert (Z.of_nat (size (marked bm1)) = Z.of_nat (size (marked bm)) + 1) as Hs1.
  { rewrite HM1, size_union, size_singleton by set_solver. lia. }
  exists sec, bm1. split_and!; [done|lia|]. unfold room. fold n. rewrite Hw. split; [consts; lia|]. left. split.
  - apply free_block_run; [congruence|lia|consts; nia].
  - consts. lia.
Qed.
Lemma fits_small env sz bm :
  uninit env = 0 → wf bm → numBits bm = NumSectors → Z.of_nat (size (marked bm)) ≤ 20 →
  0 < sz ≤ NumDirect * SectorSize → fits env sz bm.
Proof.
  intros Hu WF Hb Hfew Hsz. apply fits_few; try done.
  assert (0 < divRoundUp sz SectorSize ≤ NumDirect); [|consts; nia].
  consts. rewrite divRoundUp_div by lia. Z.to_euclidean_division_equations. lia.
Qed.

(** ** Formatting *)
Section format.
Context {S : Type} `{Sst : SectorStore S, Slaws : !SectorStoreLaws S}.
Context (env : Env) (HE : env_ok env).

Lemma fpset_size ds c n k : 0 ≤ n → 0 ≤ k → Z.of_nat (size (fpset ds c n k)) ≤ n + k.
Proof.
  intros Hn Hk. unfold fpset. etrans; [apply Nat2Z.inj_le, size_list_le|]. unfold footprint.
  rewrite length_app, !length_fmap, !length_seqZ. lia.
Qed.

(** A disk on which the first [k] sectors are in use. *)
Lemma prefix_run bm k cnt :
  wf bm → numBits bm = NumSectors → marked bm = interval 0 k → 0 ≤ k → 0 < cnt →
  (k + cnt ≤ NumSectors → free_run bm k cnt) ∧ (∀ i, free_run bm i cnt → k + cnt ≤ NumSectors ∧ k ≤ i).
Proof.
  intros WF Hb HM Hk Hc. split.
  - intros Hle. split_and!; [lia|lia|]. intros j Hj. rewrite HM, elem_of_interval. lia.
  - intros i (Hi & Hn & Hfree). assert (k ≤ i); [|lia]. apply Z.nlt_ge. intros Hlt.
    destruct (Hfree i); [lia|]. rewrite HM, elem_of_interval. lia.
Qed.

(** A small file on such a disk: [NSecIndex] sectors more than the file needs go.  The
    sectors in use are counted; they are the first ones unless [NSecIndex] is negative. *)
Definition packed (k : Z) (bm : BitMap) : Prop :=
  wf bm ∧ numBits bm = NumSectors ∧ 0 ∈ marked bm ∧ Z.of_nat (size (marked bm)) = k ∧
  (0 ≤ uninit env → marked bm = interval 0 k).
Let u := Z.max 0 (uninit env).
Lemma wanted_small n : 0 < n ≤ NumDirect → wanted (uninit env) n = if uninit env <? 0 then 0 else n + u.
Proof using HE.
  intros Hn. pose proof (ev_uninit _ HE) as Hu. unfold wanted, garbage_ok, u in *. consts.
  destruct (Z.leb_spec n 6), (Z.ltb_spec (uninit env) 0); lia.
Qed.

Lemma packed_room sz bm k :
  packed k bm → 0 < sz ≤ NumDirect * SectorSize → let n := divRoundUp sz SectorSize in
  room (uninit env) sz bm ↔ k + wanted (uninit env) n + n ≤ NumSectors.
Proof using HE.
  intros (WF & Hb & H0 & Hk & HM) Hsz n. pose proof (ev_uninit _ HE) as Hu.
  assert (0 < n ≤ NumDirect) as Hn.
  { unfold n. consts. rewrite divRoundUp_div by lia. Z.to_euclidean_division_equations. lia. }
  unfold room. fold n. rewrite Hk. destruct Hu as [Hu|Hu].
  - assert (wanted (uninit env) n = 0) as -> by (unfold wanted; case_match; lia). split.
    + intros [_ [[_ ?]|?]]; lia.
    + intros Hr. split; [consts; lia|]. left. split; [|lia]. exists 0. split_and!; [lia|rewrite Hb; done|]. intros j. lia.
  - assert (wanted (uninit env) n = n + uninit env) as -> by (unfold wanted; case_match; lia).
    specialize (HM (proj1 Hu)). destruct (prefix_run bm k (n + uninit env) WF Hb HM) as [P1 P2]; [lia|lia|]. split.
    + intros [_ [[_ ?]|?]]; lia.
    + intros Hr. split; [consts; lia|]. left. split; [exists k; apply P1; lia|lia].
Qed.

Lemma allocate_packed sz bm k (s : S) c o r :
  packed k bm → 0 < sz ≤ NumDirect * SectorSize → represents s c o r →
  let n := divRoundUp sz SectorSize in
  if k + wanted (uninit env) n + n <=? NumSectors
  then ∃ h' bm' s' c', Allocate (uninit env) (heap env) (new_hdr env) bm sz s = Ok ((true, h', bm'), s') ∧
    represents s' c' o r ∧ allocated bm bm' c c' h' sz n ∧ hdr_bytes h' ∧
    gained (uninit env) n bm bm' (fpset (dataSectors h') c' n 0) ∧ packed (k + n + u) bm'
  else (∃ h' bm', Allocate (uninit env) (heap env) (new_hdr env) bm sz s = Ok ((false, h', bm'), s)) ∨
    Allocate (uninit env) (heap env) (new_hdr env) bm sz s = Stop AssertFailed.
Proof using HE.
  intros HP Hsz HR n. pose proof (packed_room sz bm k HP Hsz) as Hrm. cbv zeta in Hrm. fold n in Hrm.
  pose proof HP as (WF & Hb & H0 & Hk & HM).
  assert (0 < n ≤ NumDirect ∧ nidx n = 0) as [Hn Hix].
  { assert (0 < n ≤ NumDirect) as Hn; [|split; [done|unfold nidx; by destruct (Z.leb_spec n NumDirect); [|lia]]].
    unfold n. consts. rewrite divRoundUp_div by lia. Z.to_euclidean_division_equations. lia. }
  destruct (Allocate_cases (uninit env) sz (heap env) (new_hdr env) bm s c o r)
    as [(h' & bm' & s' & c' & E & HR' & HAl & HB & Hr & HG)|[(h' & bm' & E & Hno & _)|[E Hno]]]; try apply HE; try done;
    try (consts; lia).
  2:{ destruct (Z.leb_spec (k + wanted (uninit env) n + n) NumSectors); [by destruct Hno; apply Hrm|]. left. eauto. }
  2:{ destruct (Z.leb_spec (k + wanted (uninit env) n + n) NumSectors) as [Hle|]; [|by right].
      apply Hrm in Hle. by destruct (room_overrun _ _ _ Hle). }
  apply Hrm in Hr. destruct (Z.leb_spec (k + wanted (uninit env) n + n) NumSectors); [|lia].
  fold n in HG, HAl. rewrite Hix in HG.
  exists h', bm', s', c'. split_and!; try done. pose proof (al_wf _ _ _ _ _ _ _ HAl) as [WF' Hb']. pose proof HG as (L & HM' & HL & _ & HS).
  specialize (HS ltac:(lia)). pose proof (al_fresh _ _ _ _ _ _ _ HAl) as Hfr. rewrite Hix in Hfr.
  pose proof (al_hdr _ _ _ _ _ _ _ HAl) as Hly. unfold hdr_ok in Hly. rewrite (al_sectors _ _ _ _ _ _ _ HAl), Hix in Hly.
  split_and!; try done.
  - rewrite HM'. set_solver.
  - rewrite HM', !size_union, !Nat2Z.inj_add, Hk, HS by (set_solver).
    unfold fpset. rewrite size_list_to_set by apply Hly. unfold footprint.
    rewrite length_app, !length_fmap, !length_seqZ. unfold spare, u. case_match; lia.
  - intros Hu. specialize (HM Hu). assert (wanted (uninit env) n = n + u) as Hw by (unfold wanted, u; case_match; lia).
    destruct (prefix_run bm k (n + u) WF Hb HM) as [P1 P2]; [lia|unfold u; lia|].
    rewrite (Allocate_first_fit (uninit env) sz (heap env) (new_hdr env) bm s c o r) with k h' bm' s'; try apply HE; try done;
      fold n; rewrite ?Hw; try (unfold u; consts; lia); [|apply P1; lia|].
    + rewrite HM. apply set_eq. intros x. rewrite elem_of_union, !elem_of_interval. unfold u. lia.
    + intros j Hj Hrun. apply P2 in Hrun. lia.
Qed.

(** The headers of the free map and of the root directory on the disk. *)
Lemma two_files c c1 c2 c4 bm2 bm3 bm4 h1 h1' h2 h2' :
  let n1 := divRoundUp FreeMapFileSize SectorSize in
  let n2 := divRoundUp DirectoryFileSize SectorSize in
  allocated bm2 bm3 c c1 h1 FreeMapFileSize n1 → allocated bm3 bm4 c1 c2 h2 DirectoryFileSize n2 →
  marked bm2 = {[DirectorySector; FreeMapSector]} →
  gained (uninit env) n1 bm2 bm3 (fpset (dataSectors h1) c1 n1 0) →
  gained (uninit env) n2 bm3 bm4 (fpset (dataSectors h2) c2 n2 0) →
  same_but_times h1 h1' → same_but_times h2 h2' →
  c4 = upd (upd c2 FreeMapSector (encode h1')) DirectorySector (encode h2') →
  disk_ok c4 bm4 {[DirectorySector; FreeMapSector]} ∧
  (∃ L, marked bm4 = own c4 FreeMapSector ∪ own c4 DirectorySector ∪ L ∧
     L ## own c4 FreeMapSector ∪ own c4 DirectorySector ∧ Z.of_nat (size L) = 2 * u) ∧
  zlen (bytes_at c4 FreeMapSector) = FreeMapFileSize ∧ zlen (bytes_at c4 DirectorySector) = DirectoryFileSize.
Proof.
  intros n1 n2 A1 A2 M2 (L1 & M3 & D3 & _ & Z3) (L2 & M4 & D4 & _ & Z4) S1 S2 ->. specialize (Z3 ltac:(done)). specialize (Z4 ltac:(done)). pose proof A1 as [_ _ _ _ F1 _ _]. pose proof A2 as [_ _ _ _ F2 _ O2].
  change (nidx n1) with 0 in *. change (nidx n2) with 0 in *.
  set (c4 := upd _ _ _). set (X1 := fpset (dataSectors h1) c1 n1 0) in *. set (X2 := fpset (dataSectors h2) c2 n2 0) in *.
  assert (∀ x, x ∈ X1 ∨ x ∈ X2 → c4 x = c2 x) as Hc4.
  { intros x Hx. unfold c4. rewrite !upd_ne; [done|..]; intros ->; clearbody X1 X2; set_solver. }
  destruct (header_placed c c1 c4 bm2 bm3 FreeMapSector h1' h1 FreeMapFileSize n1) as (HF1 & HO1 & HL1); try done.
  { rewrite M2. set_solver. }
  { change (nidx n1) with 0. fold X1. intros x Hx. rewrite Hc4 by (by left). apply O2. clearbody X1 X2. set_solver. }
  destruct (header_placed c1 c2 c4 bm3 bm4 DirectorySector h2' h2 DirectoryFileSize n2) as (HF2 & HO2 & HL2); try done.
  { rewrite M3, M2. set_solver. } { change (nidx n2) with 0. fold X2. intros x Hx. apply Hc4. by right. }
  change (nidx n1) with 0 in *. change (nidx n2) with 0 in *. fold X1 in HO1. fold X2 in HO2.
  assert (own c4 FreeMapSector ## own c4 DirectorySector) as Hap.
  { rewrite HO1, HO2. clearbody X1 X2. clear -F1 F2 M2 M3. assert (FreeMapSector ≠ DirectorySector) by done. set_solver. }
  assert (marked bm4 = own c4 FreeMapSector ∪ own c4 DirectorySector ∪ (L1 ∪ L2)) as HM.
  { rewrite HO1, HO2, M4, M3, M2. clearbody X1 X2. clear. set_solver. }
  split_and!; try done.
  2:{ exists (L1 ∪ L2). split_and!; try done.
      - rewrite HO1, HO2. rewrite M3 in D4, F2. rewrite M2 in *. clearbody X1 X2. clear -D3 D4 F2. set_solver.
      - rewrite size_union, Nat2Z.inj_add, Z3, Z4 by (rewrite M3 in D4; clear -D4; set_solver). unfold spare, u.
        change (n1 <=? NumDirect) with true. change (n2 <=? NumDirect) with true. cbv iota. lia. }
  split.
  - intros n [->%elem_of_singleton| ->%elem_of_singleton]%elem_of_union; done.
  - rewrite HM. intros n [->%elem_of_singleton| ->%elem_of_singleton]%elem_of_union; set_solver.
  - intros n n' [->%elem_of_singleton| ->%elem_of_singleton]%elem_of_union
      [->%elem_of_singleton| ->%elem_of_singleton]%elem_of_union Hne; done.
Qed.

Lemma stamp_create now h : hdr_bytes h → same_but_times h (set_create_time now h).
Proof. intros []. split_and!; try done. split; cbn; try done. apply set_time_length. Qed.

Lemma WriteBack_store (s : S) c o r n h :
  represents s c o r → 0 ≤ n < NumSectors → hdr_bytes h →
  ∃ s', WriteBack n h s = Ok ((), s') ∧ represents s' (upd c n (encode h)) o r.
Proof. intros HR Hn HB. apply WriteSector_ok; [done|done|by apply encode_length]. Qed.
Lemma OpenFile_new_store (s : S) c o r n :
  represents s c o r → 0 ≤ n < NumSectors →
  ∃ s', OpenFile_new (new_hdr env) n s = Ok (file_at c n, s') ∧ represents s' c (upd o n (o n + 1)) r.
Proof using HE.
  intros HR Hn. destruct (OpenSector_ok s c o r n HR Hn) as (s1 & E1 & HR1).
  destruct (ReadSector_ok s1 c _ r n (encode (new_hdr env)) HR1 Hn) as (s2 & E2 & HR2).
  { apply encode_length, HE. }
  exists s2. unfold OpenFile_new, FetchFrom. step E1. split; [unfold mbind, ST_bind; by rewrite E2|done].
Qed.

(** The two files are written: the state is [fs_ok] with an empty root directory. *)
Lemma formatted_files (s : S) c o r bm :
  represents s c o r → locks_free r → wf bm → numBits bm = NumSectors →
  disk_ok c bm {[DirectorySector; FreeMapSector]} →
  zlen (bytes_at c FreeMapSector) = FreeMapFileSize → zlen (bytes_at c DirectorySector) = DirectoryFileSize →
  ∃ f f' s' c',
    (freeMapF ← BM_WriteBack (mem env) not_yet (clock_at env 2) bm (file_at c FreeMapSector);
     directoryF ← Dir_WriteBack (mem env) not_yet (clock_at env 6) (new_dir env) (file_at c DirectorySector);
     mret (freeMapF, directoryF)) s = Ok ((f, f'), s') ∧
    fs_ok (mkFS s' f f') c' o r bm {[DirectorySector; FreeMapSector]} {[DirectorySector := ∅]} ∧
    own c' FreeMapSector = own c FreeMapSector ∧ own c' DirectorySector = own c DirectorySector.
Proof using HE.
  intros HR HL WF Hb HD L0 L1. set (H := {[DirectorySector; FreeMapSector]}) in *.
  assert (FreeMapSector ∈ H ∧ DirectorySector ∈ H) as [H0 H1] by set_solver.
  assert (base (mkFS s (file_at c FreeMapSector) (file_at c DirectorySector)) c o r bm H) as HB.
  { split; try done. split_and!; try done. split_and!; try done. apply (dk_file _ _ _ HD _ H1). }
  destruct (map_words bm WF Hb) as (W1 & W2 & W3).
  destruct (WriteAt_ok (mem env) (ev_mem _ HE) not_yet (clock_at env 2) (file_at c FreeMapSector) c
    (enc_ints (BitMap.map bm)) (numWords bm * 4) 0 s o r) as (f & s1 & c1 & E1 & HR1 & HW1); try done.
  { by apply HD. } { by apply HL. } { rewrite W1, W3. done. }
  { cbn [file_at hdr]. rewrite <-bytes_at_length by (by apply HD). by rewrite L0, W1. }
  rewrite W1, read_at_all in HW1 by (by rewrite W3).
  destruct (map_written _ s1 f c c1 o r bm bm H HB WF Hb HW1 HR1) as (HB1 & HM1 & HS1 & HK1 & Hoff1).
  cbn [directoryFile] in HB1. set (fs1 := mkFS s1 f (file_at c DirectorySector)) in *.
  destruct (new_dir_ok env HE) as (N1 & N2 & N3).
  assert (c1 DirectorySector = c DirectorySector) as Ed.
  { apply Hoff1. intros Hin. apply (dk_apart _ _ _ HD DirectorySector FreeMapSector H1 H0 ltac:(done) DirectorySector);
      [apply own_self|done]. }
  assert (file_at c DirectorySector = file_at c1 DirectorySector) as Ef by (unfold file_at; by rewrite Ed).
  pose proof (HK1 DirectorySector H1 ltac:(done)) as [HS1d HL1].
  destruct (Dir_WriteBack_ok (mem env) (ev_mem _ HE) not_yet (clock_at env 6) (new_dir env) (file_at c1 DirectorySector)
    c1 s1 o r) as (f' & s2 & c2 & E2 & HR2 & HW2); try done; [apply HS1d|by apply HL| |].
  { cbn [file_at hdr]. rewrite <-bytes_at_length by apply HS1d. by rewrite HL1, L1, N3. }
  destruct (dir_written fs1 (mkFS s2 f (file_at c DirectorySector)) c1 c2 o r bm H DirectorySector (new_dir env)
    (file_at c1 DirectorySector) f') as (HB2 & Hd2 & HS2 & HK2 & Hf' & Hoff2); try done.
  { apply same_self; [apply HS1d|done]. }
  { by rewrite HL1, L1. }
  exists f, f', s2, c2. split_and!.
  - unfold BM_WriteBack. erewrite ST_step by (erewrite ST_step by exact E1; reflexivity).
    rewrite Ef. step E2. done.
  - split.
    + destruct HB2 as [B1 B2 B3 B4 (R1 & R2 & R3)]. split; try done. split_and!; try done. cbn.
      pose proof (still_written c1 c2 (file_at c1 DirectorySector) f' DirectorySector 0 _ (proj2 (proj2 HS1d)) eq_refl eq_refl HW2) as (_ & _ & -> & _).
      pose proof (proj1 (wa_same _ _ _ _ _ _ HW2)) as HSb. by eapply same_sib.
    + destruct HM1 as (_ & _ & Hby). split_and!; try done. by rewrite (proj2 (HK2 _ H0 ltac:(done))).
    + split.
      * rewrite lookup_singleton_eq. eauto.
      * intros p m [<- <-]%lookup_singleton_Some. split_and!; try done. exists (new_dir env). split; [done|].
        by apply new_dir_rep.
      * intros p m k n b [<- <-]%lookup_singleton_Some. by rewrite lookup_empty.
      * intros p m k n b p' m' k' b' [<- <-]%lookup_singleton_Some. by rewrite lookup_empty.
  - by rewrite (proj1 (proj2 (proj1 (HK2 _ H0 ltac:(done))))), (proj1 (proj2 HS1)).
  - by rewrite (proj1 (proj2 HS2)), (proj1 (proj2 HS1d)).
Qed.

(** The free map of an empty disk, with the two header sectors marked. *)
Lemma empty_map :
  ∃ bm0 bm1 bm2, new_freeMap env = Ok bm0 ∧ Mark bm0 FreeMapSector = Ok bm1 ∧ Mark bm1 DirectorySector = Ok bm2 ∧
    packed 2 bm2 ∧ marked bm2 = {[DirectorySector; FreeMapSector]}.
Proof using HE.
  destruct (BitMap_new_spec NumSectors (new_words env)) as (bm0 & E0 & WF0 & Hb0 & HM0);
    [done|by rewrite (proj1 (ev_words _ HE))|apply HE|].
  destruct (Mark_marked bm0 FreeMapSector WF0) as (bm1 & E1 & WF1 & Hb1 & HM1); [by rewrite Hb0|].
  destruct (Mark_marked bm1 DirectorySector WF1) as (bm2 & E2 & WF2 & Hb2 & HM2); [by rewrite Hb1, Hb0|].
  assert (marked bm2 = {[DirectorySector; FreeMapSector]}) as HM2' by (rewrite HM2, HM1, HM0; set_solver).
  exists bm0, bm1, bm2. split_and!; try done.
  unfold packed. rewrite HM2'. split_and!; try done. congruence.
Qed.

(** Formatting succeeds on any disk unless [NSecIndex] takes more sectors than there are. *)
Lemma format_ok (s : S) c o r :
  u ≤ 506 → represents s c o r → locks_free r →
  ∃ fs' c' bm, FileSystem_new env true s = Ok fs' ∧
    fs_ok fs' c' (upd (upd o FreeMapSector (o FreeMapSector + 1)) DirectorySector (o DirectorySector + 1)) r bm
      {[DirectorySector; FreeMapSector]} {[DirectorySector := ∅]} ∧
    (∃ L, marked bm = own c' FreeMapSector ∪ own c' DirectorySector ∪ L ∧
       L ## own c' FreeMapSector ∪ own c' DirectorySector ∧ Z.of_nat (size L) = 2 * u) ∧
    Z.of_nat (size (marked bm)) = 7 + 2 * u.
Proof using HE.
  intros Hu HR HL. unfold FileSystem_new.
  destruct empty_map as (bm0 & bm1 & bm2 & E0 & E1 & E2 & HP2 & HM2).
  pose proof (allocate_packed FreeMapFileSize bm2 2 s c o r HP2 ltac:(done) HR) as A3. cbv zeta in A3.
  change (divRoundUp FreeMapFileSize SectorSize) with 1 in A3.
  rewrite wanted_small in A3 by done.
  destruct (Z.leb_spec (2 + (if uninit env <? 0 then 0 else 1 + u) + 1) NumSectors); [|unfold u in *; consts; case_match; lia].
  destruct A3 as (h1 & bm3 & s3 & c3 & E3 & HR3 & HA3 & HB3 & HG3 & HP3).
  pose proof (allocate_packed DirectoryFileSize bm3 _ s3 c3 o r HP3 ltac:(done) HR3) as A4. cbv zeta in A4.
  change (divRoundUp DirectoryFileSize SectorSize) with 4 in A4.
  rewrite wanted_small in A4 by done.
  destruct (Z.leb_spec (2 + 1 + u + (if uninit env <? 0 then 0 else 4 + u) + 4) NumSectors); [|unfold u in *; consts; case_match; lia].
  destruct A4 as (h2 & bm4 & s4 & c4 & E4 & HR4 & HA4 & HB4 & HG4 & HP4).
  destruct HP4 as (WF4 & Hn4 & _ & Hs4 & _).
  pose proof (stamp_create (clock env 0) h1 HB3) as S1. pose proof (stamp_create (clock env 1) h2 HB4) as S2.
  destruct (WriteBack_store s4 c4 o r FreeMapSector _ HR4 ltac:(done) (proj2 (proj2 (proj2 S1)))) as (s5 & E5 & HR5).
  destruct (WriteBack_store s5 _ o r DirectorySector _ HR5 ltac:(done) (proj2 (proj2 (proj2 S2)))) as (s6 & E6 & HR6).
  destruct (two_files c c3 c4 _ bm2 bm3 bm4 h1 _ h2 _ HA3 HA4 HM2 HG3 HG4 S1 S2 eq_refl) as (HD & HM & L0 & L1).
  set (c6 := upd (upd _ _ _) _ _) in *.
  destruct (OpenFile_new_store s6 c6 o r FreeMapSector HR6 ltac:(done)) as (s7 & E7 & HR7).
  destruct (OpenFile_new_store s7 c6 _ r DirectorySector HR7 ltac:(done)) as (s8 & E8 & HR8).
  destruct (formatted_files s8 c6 _ r bm4 HR8 HL WF4 Hn4 HD L0 L1) as (f & f' & s9 & c9 & E9 & HF & O0 & O1).
  exists (mkFS s9 f f'), c9, bm4. rewrite O0, O1. split; [|split; [|split; [done|lia]]].
  - step E0. step E1. step E2. step E3. step (eq_refl : ASSERT true = Ok ()). step E4.
    step (eq_refl : ASSERT true = Ok ()). step E5. step E6. step E7. step E8.
    erewrite E9. done.
  - by rewrite upd_ne in HF.
Qed.

Lemma format_fails (s : S) c o r :
  506 < u → represents s c o r → FileSystem_new env true s = Stop AssertFailed.
Proof using HE.
  intros Hu HR. unfold FileSystem_new.
  destruct empty_map as (bm0 & bm1 & bm2 & E0 & E1 & E2 & HP2 & HM2). step E0. step E1. step E2.
  pose proof (allocate_packed FreeMapFileSize bm2 2 s c o r HP2 ltac:(done) HR) as A3. cbv zeta in A3.
  change (divRoundUp FreeMapFileSize SectorSize) with 1 in A3.
  rewrite wanted_small in A3 by done.
  destruct (Z.leb_spec (2 + (if uninit env <? 0 then 0 else 1 + u) + 1) NumSectors).
  2:{ destruct A3 as [(h1 & bm3 & E3)|E3]; [by step E3|by erewrite ST_stop by exact E3]. }
  destruct A3 as (h1 & bm3 & s3 & c3 & E3 & HR3 & HA3 & HB3 & HG3 & HP3). step E3. step (eq_refl : ASSERT true = Ok ()).
  pose proof (allocate_packed DirectoryFileSize bm3 _ s3 c3 o r HP3 ltac:(done) HR3) as A4. cbv zeta in A4.
  change (divRoundUp DirectoryFileSize SectorSize) with 4 in A4.
  rewrite wanted_small in A4 by done.
  destruct (Z.leb_spec (2 + 1 + u + (if uninit env <? 0 then 0 else 4 + u) + 4) NumSectors); [unfold u in *; consts; destruct (Z.ltb_spec (uninit env) 0); lia|].
  destruct A4 as [(h2 & bm4 & E4)|E4]; [by step E4|by erewrite ST_stop by exact E4].
Qed.
End format.

(** ** The other operations *)
Section operations.
Context {S : Type} `{Sst : SectorStore S, Slaws : !SectorStoreLaws S}.
Context (env : Env) (HE : env_ok env).
Implicit Types (fs : FS S) (c : Z → list Z) (o : Z → Z) (r : Z → rwstate) (bm : BitMap) (H : gset Z) (T : tree).

(** A disk that has been formatted before: [FileSystem::FileSystem] without formatting. *)
Lemma remount_ok fs (s : S) c o o' r r' bm H T :
  fs_ok fs c o r bm H T → represents s c o' r' → locks_free r' →
  ∃ fs', FileSystem_new env false s = Ok fs' ∧
    fs_ok fs' c (upd (upd o' FreeMapSector (o' FreeMapSector + 1)) DirectorySector (o' DirectorySector + 1)) r' bm H T.
Proof using HE.
  intros [[_ HD _ (M1 & _ & _ & M4) (R1 & _ & R3)] HMap HT] HR HL.
  destruct (OpenFile_new_store env HE s c o' r' FreeMapSector HR ltac:(done)) as (s1 & E1 & HR1).
  destruct (OpenFile_new_store env HE s1 c _ r' DirectorySector HR1 ltac:(done)) as (s2 & E2 & HR2).
  rewrite upd_ne in HR2 by done.
  exists (mkFS s2 (file_at c FreeMapSector) (file_at c DirectorySector)). split.
  { unfold FileSystem_new. step E1. step E2. done. }
  split; try done. split; try done. split_and!; try done. split_and!; try done. apply (dk_file _ _ _ HD _ R1).
Qed.

(** A path whose directory does not exist. *)
Lemma missing_parent_ok fs c o r bm H T name sz fuel :
  fs_ok fs c o r bm H T → c_string name → parent_sector T (length name) name = Some (-1) →
  ∃ fs' c', fs_ok fs' c' o r bm H T ∧ visited c c' H ∧ Create env name sz fs = Ok (false, fs') ∧
    Open env name fs = Ok (None, fs') ∧ Remove env fuel name fs = Ok (false, fs') ∧
    GetHeaderSector env name fs = Ok (-1, fs').
Proof using HE.
  intros HF Hs Hp. destruct (ParentSector_ok env HE fs c o r bm H T name (-1) HF Hs Hp) as (fs' & c' & E & HF' & HV).
  exists fs', c'. rewrite Remove_unfold. unfold Create, Open, GetHeaderSector. by split_and!; try done; step E.
Qed.

(** [List] prints the names of the root directory. *)
Lemma upto0_take n a : upto0 (take n a) = take n (upto0 a).
Proof. revert n. induction a as [|x a IH]; intros [|n]; cbn; try done; destruct (x =? 0); try done. cbn. by rewrite IH. Qed.
Lemma listed_names d m k :
  dir_rep d m →
  (k ∈ cut <$> (entry_name <$> filter (λ e, inUse e = true) (table d))) ↔ is_Some (m !! k).
Proof.
  intros [OK Hm]. rewrite list_elem_of_fmap. split.
  - intros (? & -> & (e & -> & [Hu [i Hi]%list_elem_of_lookup]%list_elem_of_filter)%list_elem_of_fmap).
    eexists. apply Hm. exists (Z.of_nat i), e. split_and!; [|split; [done|]|done].
    + unfold znth. destruct (Z.ltb_spec (Z.of_nat i) 0); [lia|by rewrite Nat2Z.id].
    + apply upto0_take.
  - intros [v (i & e & Hi & [Hu <-] & _)%Hm]. exists (entry_name e). split; [apply upto0_take|].
    apply list_elem_of_fmap. exists e. split; [done|]. apply list_elem_of_filter. split; [done|].
    apply list_elem_of_lookup_2 with (Z.to_nat i). unfold znth in Hi. by destruct (i <? 0).
Qed.

Lemma List_ok fs c o r bm H T m :
  fs_ok fs c o r bm H T → T !! DirectorySector = Some m →
  ∃ names fs' c', List env fs = Ok (names, fs') ∧ fs_ok fs' c' o r bm H T ∧ visited c c' H ∧
    ∀ k, k ∈ cut <$> names ↔ is_Some (m !! k).
Proof using HE.
  intros HF Hm. pose proof HF as [[HR HD HL HM (R1 & R2 & R3)] _ HT].
  destruct (tr_dir _ _ _ HT _ m Hm) as (_ & H0 & d & [D1 D2 D3 D4 D5] & Hdr).
  pose proof (dk_file _ _ _ HD _ R1) as HFr. rewrite bytes_at_length in D4 by done.
  destruct (file_touch (file_at c DirectorySector) c c (hdr (directoryFile fs)) HFr R3 (λ _ _, eq_refl)) as (HF1 & Hb & _).
  assert (file_ok (directoryFile fs) c) as HFf by (destruct HF1; split; by rewrite ?R2).
  pose (L := fs_laws (freeMapFile fs) (directoryFile fs)). assert (represents fs c o r) as HR1 by done.
  destruct (new_dir_ok env HE) as (N1 & N2 & N3). pose proof R3 as (Q1 & Q2 & Q3 & _).
  destruct (Dir_FetchFrom_ok (mem env) (ev_mem _ HE) (clock env 700) (new_dir env) d (directoryFile fs) c fs o r 0)
    as (f' & fs1 & c1 & E1 & HR2 & (_ & HS2 & Hh2 & _ & Hoff) & Ehd); try done; try congruence.
  { rewrite R2. by apply HL. } { by rewrite D1. } { unfold FileLength in *. by rewrite D1, Q1. }
  { cbn [set_hdr file_at hdr] in Hb. rewrite Hb, D1. exact D5. }
  rewrite R2 in *. assert (same_off {[DirectorySector]} c c1) as Hoff1 by (intros x Hx; apply Hoff; set_solver).
  destruct (kept_touch c c1 DirectorySector (hdr f') HFr (same_trans _ _ _ R3 HS2) Ehd Hoff1) as [HK Ed].
  assert (same_off (own c DirectorySector) c c1) as Hoff2.
  { eapply same_off_weaken; [|exact Hoff1]. pose proof (own_self c DirectorySector). set_solver. }
  destruct HR2 as (HR2 & Efm & Edf).
  destruct (base_change fs fs1 c c1 o o r bm H DirectorySector (fk_base _ _ _ _ _ _ _ HF) R1 H0 (proj1 HK) Hoff2 HR2 Efm Edf)
    as [[B1 B2 B3 B4 (B5 & B6 & B7)] HK2].
  set (fs2 := mkFS (store fs1) (freeMapFile fs1) f').
  assert (visited c c1 H) as HV.
  { intros n Hn. destruct (decide (n = DirectorySector)) as [->|]; [done|by apply HK2]. }
  exists (entry_name <$> filter (λ e, inUse e = true) (table d)), fs2, c1. split_and!; try done.
  - unfold List. erewrite ST_step by reflexivity. step E1. done.
  - eapply fs_ok_visited; [done|done|]. split; try done. split_and!; try done. cbn. rewrite Ed.
    eapply same_sib; [|exact HS2]. done.
  - intros k. by apply listed_names.
Qed.
End operations.
