(* ===== verification/FileSysWrite.v ===== *)
(** * Reading and writing the files of the tree

    [OpenFile::ReadAt] and [OpenFile::WriteAt] of a file that is stored in the tree of
    FileSysTree.v, with [FileSystem::ExtendWrapper] for a write past its end: the write
    changes the bytes of this file only, a file that grows takes free sectors only, and
    the invariant [fs_ok] is kept. *)

From S2P Require Import Prelude BitMap Disk SectorStore SynchDisk.
From S2P Require Import FileHdr FileHdrExtend OpenFile Directory FileSys FileSysProps FileSysTree FileSysSpec.

#[local] Arguments decode : simpl never.

(** The file [n] takes the sectors [A], which were free. *)
Lemma disk_ok_grow c c' bm bm' H n A :
  disk_ok c bm H → n ∈ H → file_ok (file_at c' n) c' → own c' n = own c n ∪ A → A ## marked bm →
  same_off (own c' n) c c' → marked bm ∪ A ⊆ marked bm' →
  disk_ok c' bm' H ∧ ∀ n', n' ∈ H → n' ≠ n → kept c c' n'.
Proof.
  intros HD Hn HF Ho HA Hoff Hsub.
  assert (∀ n', n' ∈ H → n' ≠ n → own c n' ## own c' n) as Hdis.
  { intros n' Hn' Hne. rewrite Ho. pose proof (dk_used _ _ _ HD n' Hn'). pose proof (dk_apart _ _ _ HD n' n Hn' Hn Hne).
    set_solver. }
  assert (∀ n', n' ∈ H → n' ≠ n → kept c c' n') as HK.
  { intros n' Hn' Hne. eapply disk_kept; [done|done|exact Hoff|by apply Hdis]. }
  assert (∀ n', n' ∈ H → n' ≠ n → own c' n' = own c n') as Hown by (intros n' Hn' Hne; by apply HK).
  split; [|done]. split.
  - intros n' Hn'. destruct (decide (n' = n)) as [->|Hne]; [done|by apply HK].
  - intros n' Hn'. pose proof (dk_used _ _ _ HD n' Hn'). destruct (decide (n' = n)) as [->|Hne]; [rewrite Ho|rewrite Hown by done]; set_solver.
  - intros n1 n2 H1 H2 Hne. destruct (decide (n1 = n)) as [->|Hn1], (decide (n2 = n)) as [->|Hn2]; [done|..].
    + rewrite (Hown n2) by done. symmetry. by apply Hdis.
    + rewrite (Hown n1) by done. by apply Hdis.
    + rewrite (Hown n1), (Hown n2) by done. by apply HD.
Qed.

(** The data blocks of an extended file are where they were, with what they held. *)
Lemma extended_data h h' c c1 bm bm' bytes extra j :
  extended h h' c c1 bm bm' bytes extra → 0 ≤ extra → 0 ≤ j < numSectors h →
  c1 (block (dataSectors h') c1 j) = c (block (dataSectors h) c j).
Proof.
  intros HX He Hj. rewrite <-(xt_blocks _ _ _ _ _ _ _ _ HX j Hj). apply (xt_frame _ _ _ _ _ _ _ _ HX). intros i Hi E.
  pose proof (ly_nodup _ _ _ _ (xt_hdr _ _ _ _ _ _ _ _ HX)) as HN. unfold footprint in HN.
  apply list.NoDup_app in HN as (_ & HN & _). rewrite (xt_sectors _ _ _ _ _ _ _ _ HX) in *.
  apply (HN (block (dataSectors h') c1 j)).
  - apply list_elem_of_fmap. exists j. split; [done|]. apply elem_of_seqZ. lia.
  - rewrite E. apply list_elem_of_fmap. exists i. split; [done|]. apply elem_of_seqZ. lia.
Qed.

(** The header of an extended file, written to its sector [n]. *)
Lemma extended_placed c c1 n h' bm bm' bytes extra :
  let c2 := upd c1 n (encode h') in
  file_ok (file_at c n) c → extended (decode (c n)) h' c c1 bm bm' bytes extra → 0 ≤ extra →
  own c n ⊆ marked bm → numBytes (decode (c n)) ≤ bytes ≤ (numSectors (decode (c n)) + extra) * SectorSize →
  ∃ A, A ## marked bm ∧ own c2 n = own c n ∪ A ∧ file_ok (file_at c2 n) c2 ∧ decode (c2 n) = h' ∧
    same_off (own c2 n) c c2 ∧ marked bm' = marked bm ∪ A ∧
    zlen (bytes_at c2 n) = bytes ∧ take (length (bytes_at c n)) (bytes_at c2 n) = bytes_at c n.
Proof.
  cbv zeta. intros HF HX He Hown Hsz. pose proof HF as [L HB Hs Hh Ha]. cbn [file_at hdr headerSector] in *.
  set (h := decode (c n)) in *. pose proof HX as [X1 X2 X3 X4 X5 X6 X7 X8 (A0 & XA & XF) X10 (X11 & X12 & X13 & X14)].
  set (c2 := upd c1 n (encode h')). pose proof (layout_bound _ _ _ _ X3) as Hbd.
  assert (n ∉ fpset (dataSectors h') c1 (numSectors h') (nidx (numSectors h'))) as HnX.
  { rewrite XF. intros [Hin|Hin]%elem_of_union.
    - by apply elem_of_list_to_set in Hin.
    - apply (XA n Hin), Hown, own_self. }
  assert (hdr_bytes h') as HB'.
  { destruct HB as [? ? ? ? ? ? [_ Hint]]. split; try congruence; try (unfold is_s32; rewrite ?X1; consts; lia).
    split; [apply (ly_len _ _ _ _ X3)|by apply X10]. }
  assert (decode (c2 n) = h') as Ed by (unfold c2; rewrite upd_eq; by apply decode_encode).
  assert (agree (dataSectors h') (dataSectors h') c1 c2 (numSectors h') (nidx (numSectors h'))) as HA.
  { apply apart_agree; [done|]. intros x Hx. apply upd_ne. intros ->. apply HnX. by apply elem_of_list_to_set. }
  assert (fpset (dataSectors h') c2 (numSectors h') (nidx (numSectors h')) =
    fpset (dataSectors h') c1 (numSectors h') (nidx (numSectors h'))) as HFp.
  { unfold fpset. by rewrite (footprint_agree _ _ _ _ _ _ HA). }
  assert (own c2 n = own c n ∪ A0) as Ho by (unfold own; rewrite Ed, HFp, XF; fold h; set_solver).
  assert (file_ok (file_at c2 n) c2) as HF2.
  { unfold file_at. rewrite Ed. split; cbn [hdr headerSector]; try done.
    - by eapply layout_agree.
    - rewrite X1, X2. split; [lia|]. apply Hsz.
    - intros Hin. apply HnX. rewrite <-HFp. by apply elem_of_list_to_set. }
  exists A0. split_and!; try done.
  - intros x Hx. rewrite in_own, Ed in Hx. unfold c2. rewrite upd_ne by tauto. apply X8. intros i Hi ->. apply Hx. right.
    apply elem_of_footprint. right. eauto.
  - rewrite X7, XF. unfold own in Hown. fold h in Hown. set (Y := fpset _ c _ _) in *. clearbody Y. clear -Hown. set_solver.
  - rewrite bytes_at_length by done. unfold FileLength. by rewrite Ed.
  - unfold bytes_at, file_bytes. rewrite Ed, X1, length_fmap, length_seqZ, <-fmap_take. fold h.
    replace bytes with (numBytes h + (bytes - numBytes h)) by lia.
    rewrite seqZ_app, take_app_le, take_ge by (rewrite ?length_seqZ; lia).
    apply list_fmap_ext. intros ? p Hp%list_elem_of_lookup_2%elem_of_seqZ. unfold fbyte.
    assert (0 ≤ p / SectorSize < numSectors h) as Hj by (apply sector_index; lia).
    rewrite (proj1 HA) by lia. unfold c2. rewrite upd_ne; [by rewrite (extended_data _ _ _ _ _ _ _ _ _ HX He Hj)|].
    intros E. apply HnX. apply elem_of_list_to_set, elem_of_footprint. left. exists (p / SectorSize).
    split; [lia|done].
Qed.

Section write.
Context {S : Type} `{Sst : SectorStore S, Slaws : !SectorStoreLaws S}.
Context (env : Env) (HE : env_ok env).
Implicit Types (fs : FS S) (c : Z → list Z) (o : Z → Z) (r : Z → rwstate) (bm : BitMap) (H : gset Z) (T : tree).

Lemma base_grow fs fs' c c' o r bm bm' H n A :
  base fs c o r bm H → n ∈ H → n ≠ FreeMapSector → n ≠ DirectorySector →
  file_ok (file_at c' n) c' → own c' n = own c n ∪ A → A ## marked bm →
  same_off (own c' n) c c' → marked bm ∪ A ⊆ marked bm' →
  represents (store fs') c' o r → freeMapFile fs' = freeMapFile fs → directoryFile fs' = directoryFile fs →
  base fs' c' o r bm' H ∧ ∀ n', n' ∈ H → n' ≠ n → kept c c' n'.
Proof.
  intros [HR HD HL (M1 & M2 & M3 & M4) (R1 & R2 & R3)] Hn H0 H1 HF Ho HA Hoff Hsub HR' Efm Edf.
  destruct (disk_ok_grow c c' bm bm' H n A HD Hn HF Ho HA Hoff Hsub) as [HD' HK]. split; [|done].
  assert (c' FreeMapSector = c FreeMapSector) as E0.
  { apply Hoff. rewrite Ho. pose proof (dk_apart _ _ _ HD _ _ M1 Hn (not_eq_sym H0)) as Hd.
    pose proof (own_self c FreeMapSector) as Hs. pose proof (dk_used _ _ _ HD _ M1 _ Hs).
    intros [Hin|Hin]%elem_of_union; [by apply (Hd FreeMapSector)|by apply (HA FreeMapSector)]. }
  split; try done; rewrite ?Efm, ?Edf.
  - rewrite E0. split_and!; try done. by rewrite (proj2 (HK _ M1 (not_eq_sym H0))).
  - split_and!; try done. eapply same_sib; [|exact R3]. by apply (HK _ R1 (not_eq_sym H1)).
Qed.

(** [ExtendWrapper] for the file [n], with room for [extra] blocks and their index sectors. *)
Definition room_to_grow bm (ns extra : Z) : Prop :=
  0 ≤ extra ∧ ns + extra ≤ 166 ∧
  Z.of_nat (size (marked bm)) + extra + (nidx (ns + extra) - nidx ns) ≤ NumSectors.

Lemma extend_ok fs c o r bm H n bytes extra :
  base fs c o r bm H → map_is c bm → n ∈ H → n ≠ FreeMapSector → n ≠ DirectorySector →
  let h := decode (c n) in
  room_to_grow bm (numSectors h) extra → numBytes h ≤ bytes ≤ (numSectors h + extra) * SectorSize →
  ∃ h' fs' c' bm', extend1 env bytes n h extra fs = Ok ((true, h'), fs') ∧ base fs' c' o r bm' H ∧
    map_is c' bm' ∧ decode (c' n) = h' ∧ zlen (bytes_at c' n) = bytes ∧
    take (length (bytes_at c n)) (bytes_at c' n) = bytes_at c n ∧
    (∃ A, A ## marked bm ∧ own c' n = own c n ∪ A ∧ marked bm' = marked bm ∪ A) ∧
    ∀ q, q ∈ H → q ≠ FreeMapSector → q ≠ n → kept c c' q.
Proof using HE.
  cbv zeta. intros HB HMap Hn Hn0 Hn1 (He & Hmax & Hroom) Hsz. pose proof HMap as (WF & Hb & _).
  destruct (fetch_freeMap_ok env HE 100 fs c o r bm bm H HB HMap) as (fs1 & c1 & E1 & HB1 & HV1 & Hoff1).
  assert (c1 n = c n) as En by (apply Hoff1; by rewrite elem_of_singleton). rewrite <-En in *.
  pose proof HB1 as [HR1 HD1 _ _ _]. pose proof (dk_file _ _ _ HD1 n Hn) as HF1. pose proof (dk_used _ _ _ HD1 n Hn) as Hu1.
  pose (L := fs_laws (freeMapFile fs1) (directoryFile fs1)). assert (represents fs1 c1 o r) as HRf by done.
  destruct (extendLength_ok (heap env) (decode (c1 n)) c1 bm fs1 o r bytes extra)
    as (h' & bm2 & fs2 & c2 & E2 & HR2 & HX); try done.
  { apply HE. } { apply HF1. } { unfold own in Hu1. etrans; [|exact Hu1]. apply union_subseteq_r. }
  destruct (extended_placed c1 c2 n h' bm bm2 bytes extra HF1 HX He Hu1 Hsz) as (A & HA & Ho & HF3 & Ed3 & Hoff3 & HM3 & HLe & Hpre).
  pose proof (base_range _ _ _ _ _ _ _ HB Hn) as Hr. set (c3 := upd c2 n (encode h')) in *.
  destruct (WriteSector_ok fs2 c2 o r n (encode h') HR2 Hr) as (fs3 & E3 & HR3 & Efm & Edf).
  { apply encode_length. rewrite <-Ed3. apply HF3. }
  destruct (base_grow fs1 fs3 c1 c3 o r bm bm2 H n A HB1 Hn Hn0 Hn1 HF3 Ho HA Hoff3) as [HB3 HK3]; try done.
  { by rewrite HM3. }
  destruct (xt_wf _ _ _ _ _ _ _ _ HX) as [WF2 Hb2].
  destruct (write_freeMap_ok env HE (ExtendWrapper env 0) 101 fs3 c3 o r bm2 bm2 H HB3 WF2 Hb2)
    as (fs4 & c4 & E4 & HB4 & HM4 & _ & HK4 & Hoff4).
  assert (c4 n = c3 n) as En4.
  { apply Hoff4. intros Hin. apply (dk_apart _ _ _ (bs_disk _ _ _ _ _ _ HB3) n FreeMapSector Hn) with n;
      [apply (bs_map _ _ _ _ _ _ HB)|done|apply own_self|done]. }
  pose proof (HK4 n Hn Hn0) as [(_ & Ho4 & _) Hb4]. exists h', fs4, c4, bm2. split_and!; try done.
  - unfold extend1. cbn [ExtendWrapper]. step E1. step E2. erewrite ST_step by exact E3. by step E4.
  - by rewrite En4.
  - by rewrite Hb4.
  - by rewrite Hb4, <-(proj2 (HV1 n Hn)).
  - exists A. split_and!; [done| |done]. rewrite Ho4, Ho. by rewrite (proj1 (proj2 (proj1 (HV1 n Hn)))).
  - intros q Hq Hq0 Hqn. eapply kept_trans; [by apply HV1|]. eapply kept_trans; [by apply HK3|by apply HK4].
Qed.

(** The tree does not depend on the bytes of the file [n]. *)
Lemma tree_ok_file c c' H T n :
  T !! n = None → (∀ q, q ∈ H → q ≠ FreeMapSector → q ≠ n → bytes_at c' q = bytes_at c q) →
  tree_ok c H T → tree_ok c' H T.
Proof.
  intros HTn HK [T1 T2 T3 T4]. split; try done. intros p m Hp. destruct (T2 p m Hp) as (Hin & Hp0 & d & Hd & Hm).
  split_and!; try done. exists d. split; [|done]. eapply dir_at_kept; [|done]. apply HK; congruence.
Qed.

(** [write_range] of the open file [f] of [n]. *)
Lemma write_range_tree now fs c o r bm H T f n from nb pos :
  fs_ok fs c o r bm H T → n ∈ H → n ≠ FreeMapSector → T !! n = None →
  headerSector f = n → hdr f = decode (c n) → 0 < nb ≤ zlen from → 0 ≤ pos → pos + nb ≤ zlen (bytes_at c n) →
  ∃ f' fs' c', write_range (mem env) now f from nb pos fs = Ok ((nb, f'), fs') ∧ fs_ok fs' c' o r bm H T ∧
    (headerSector f' = n ∧ seekPosition f' = seekPosition f) ∧ hdr f' = decode (c' n) ∧
    bytes_at c' n = write_at (bytes_at c n) pos (read_at from 0 nb) ∧ ∀ q, q ∈ H → q ≠ n → kept c c' q.
Proof using HE.
  intros HF Hn Hn0 HTn Hf Hh Hnb Hpos Hlen. pose proof HF as [HB HMap HT]. pose proof HB as [HR HD HL _ _].
  pose proof (dk_file _ _ _ HD n Hn) as HFn. pose proof (base_range _ _ _ _ _ _ _ HB Hn) as Hr.
  pose (L := fs_laws (freeMapFile fs) (directoryFile fs)). assert (represents fs c o r) as HRf by done.
  assert (file_ok f c) as HFf by (destruct HFn; split; by rewrite ?Hf, ?Hh).
  destruct (write_range_ok (mem env) (ev_mem _ HE) now f c from nb pos fs o r) as (f' & fs' & c' & E & HR' & HW); try done.
  { rewrite Hf. by apply HL. } { rewrite Hh. by rewrite bytes_at_length in Hlen by done. }
  destruct (still_written c c' f f' n pos _ HFn Hh Hf HW) as (HS & Hoff & Ed & Hby). destruct HR' as (HR' & Efm & Edf).
  destruct (base_change fs fs' c c' o o r bm H n HB Hn Hn0 HS Hoff HR' Efm Edf) as [HB' HK].
  exists f', fs', c'. split_and!; try done; [|destruct (wa_same _ _ _ _ _ _ HW) as (_ & Hf' & Hsk); congruence..].
  split; [done| |].
  - destruct HMap as (WF & Hb & HM). split_and!; try done. rewrite (proj2 (HK _ (proj1 (bs_map _ _ _ _ _ _ HB)) (not_eq_sym Hn0))). done.
  - eapply tree_ok_file; [done| |done]. intros q Hq _ Hqn. by apply HK.
Qed.

Lemma write_at_past (f g data : list Z) pos :
  0 ≤ pos ≤ zlen f → zlen f ≤ zlen g → zlen g = pos + zlen data → take (length f) g = f →
  write_at g pos data = write_at f pos data.
Proof.
  intros Hp Hfg Hg Hpre. unfold write_at, zlen in *. f_equal.
  - rewrite <-Hpre at 1. rewrite take_take. f_equal. lia.
  - f_equal. rewrite !drop_ge by lia. done.
Qed.

(** [WriteAt]: inside the file, or past its end when the disk has room. *)
Definition can_write bm (h : FileHeader) (nb pos : Z) : Prop :=
  0 ≤ pos ∧ (pos + nb ≤ numBytes h ∨
    pos < numBytes h ∧
    room_to_grow bm (numSectors h) (divRoundUp (pos + nb) SectorSize - divRoundUp (numBytes h) SectorSize)).

Lemma write_tree_ok now fs c o r bm H T f n from nb pos :
  fs_ok fs c o r bm H T → n ∈ H → n ≠ FreeMapSector → T !! n = None →
  headerSector f = n → hdr f = decode (c n) → 0 < nb ≤ zlen from → can_write bm (hdr f) nb pos →
  ∃ f' fs' c' bm', WriteAt (mem env) (extend1 env) now f from nb pos fs = Ok ((nb, f'), fs') ∧
    fs_ok fs' c' o r bm' H T ∧ headerSector f' = n ∧ hdr f' = decode (c' n) ∧
    bytes_at c' n = write_at (bytes_at c n) pos (read_at from 0 nb) ∧
    (∃ A, A ## marked bm ∧ marked bm' = marked bm ∪ A) ∧
    ∀ q, q ∈ H → q ≠ FreeMapSector → q ≠ n → kept c c' q.
Proof using HE.
  intros HF Hn Hn0 HTn Hf Hh Hnb [Hpos Hcan]. pose proof HF as [HB HMap HT]. pose proof HB as [HR HD HL _ _].
  pose proof (dk_file _ _ _ HD n Hn) as HFn. pose proof (bytes_at_length _ _ HFn) as Hlen. unfold FileLength in Hlen.
  rewrite Hh in *. pose proof (length_small _ _ HFn) as Hsm. cbn [file_at hdr] in Hsm. unfold FileLength in Hsm.
  destruct (decide (pos + nb ≤ numBytes (decode (c n)))) as [Hin|Hout].
  { destruct (write_range_tree now fs c o r bm H T f n from nb pos) as (f' & fs' & c' & E & HF' & [? ?] & ? & ? & HK); try done; [lia|].
    exists f', fs', c', bm. rewrite WriteAt_inside by (rewrite ?Hh; unfold FileLength; lia). split_and!; try done.
    - exists ∅. split; set_solver.
    - intros q Hq _ Hqn. by apply HK. }
  destruct Hcan as [?|[Hps Hrm]]; [lia|]. set (h := decode (c n)) in *. pose proof (fo_size _ _ HFn) as Hsz. cbn [file_at hdr] in Hsz.
  fold h in Hsz. pose proof Hrm as (He & Hmx & _). set (extra := divRoundUp (pos + nb) SectorSize - divRoundUp (numBytes h) SectorSize) in *.
  assert (n ≠ DirectorySector) as Hn1 by (intros ->; destruct (tr_root _ _ _ HT); congruence).
  assert (pos + nb ≤ (numSectors h + extra) * SectorSize) as Hfit.
  { unfold extra. consts. rewrite !divRoundUp_div by lia. Z.to_euclidean_division_equations. lia. }
  destruct (extend_ok fs c o r bm H n (pos + nb) extra HB HMap Hn Hn0 Hn1) as
    (h' & fs1 & c1 & bm1 & E1 & HB1 & HM1 & Ed1 & Hl1 & Hpre & (A & HA & _ & HmA) & HK1); try done.
  { fold h. lia. }
  assert (fs_ok fs1 c1 o r bm1 H T) as HF1.
  { split; try done. eapply tree_ok_file; [done| |done]. intros q Hq Hq0 Hqn. by apply HK1. }
  destruct (write_range_tree now fs1 c1 o r bm1 H T (set_hdr f h') n from nb pos)
    as (f' & fs' & c' & E & HF' & [Hf' _] & Hh' & Hby & HK); try done; [lia|].
  assert (pos + nb < 2 ^ 31) by (consts; lia).
  exists f', fs', c', bm1. split_and!; try done.
  - unfold WriteAt. rewrite Hh. unfold FileLength. fold h.
    assert ((nb <=? 0) || (pos >=? numBytes h) = false) as ->.
    { apply orb_false_iff. split; [lia|]. rewrite Z.geb_leb. lia. }
    step (add_int_ok pos nb ltac:(lia)). destruct (Z.gtb_spec (pos + nb) (numBytes h)); [|lia].
    fold extra. rewrite Hf. step E1. exact E.
  - rewrite Hby. apply write_at_past; try done; rewrite ?read_at_length; lia.
  - by exists A.
  - intros q Hq Hq0 Hqn. eapply kept_trans; [by apply HK1|by apply HK].
Qed.

Lemma small_file fs c o r bm H T n : fs_ok fs c o r bm H T → n ∈ H → 0 ≤ zlen (bytes_at c n) ≤ 21248.
Proof.
  intros HF Hn. pose proof (dk_file _ _ _ (bs_disk _ _ _ _ _ _ (fk_base _ _ _ _ _ _ _ HF)) n Hn) as HFn.
  rewrite bytes_at_length by done. apply (length_small _ _ HFn).
Qed.

(** [ReadAt]. *)
Lemma read_tree_ok now fs c o r bm H T f n nb pos :
  fs_ok fs c o r bm H T → n ∈ H → n ≠ FreeMapSector → headerSector f = n → hdr f = decode (c n) →
  0 < nb → 0 ≤ pos < zlen (bytes_at c n) → pos + nb < 2 ^ 31 →
  let cnt := Z.min nb (zlen (bytes_at c n) - pos) in
  ∃ f' fs' c', ReadAt (mem env) now f nb pos fs = Ok ((cnt, read_at (bytes_at c n) pos cnt, f'), fs') ∧
    fs_ok fs' c' o r bm H T ∧ visited c c' H ∧
    (headerSector f' = n ∧ seekPosition f' = seekPosition f) ∧ hdr f' = decode (c' n).
Proof using HE.
  intros HF Hn Hn0 Hf Hh Hnb Hlen Hov. pose proof HF as [HB HMap HT]. pose proof HB as [HR HD HL _ _].
  pose proof (dk_file _ _ _ HD n Hn) as HFn. pose proof (base_range _ _ _ _ _ _ _ HB Hn) as Hr.
  pose (L := fs_laws (freeMapFile fs) (directoryFile fs)). assert (represents fs c o r) as HRf by done.
  assert (file_ok f c) as HFf by (destruct HFn; split; by rewrite ?Hf, ?Hh).
  rewrite bytes_at_length in * by done. pose proof (length_small _ _ HFn) as Hsm. cbn [file_at hdr] in Hsm.
  destruct (ReadAt_ok (mem env) (ev_mem _ HE) now f c nb pos fs o r 0) as (fs' & E & HR'); try done; try lia.
  { rewrite Hf. by apply HL. } { rewrite Hh. lia. }
  rewrite Hh in E. rewrite Hf, Hh in HR'. set (h' := set_visit_time now (decode (c n))) in *.
  assert (same_but_times (decode (c n)) h') as Hsame by (apply set_visit_same, HFn).
  set (c' := upd c n (encode h')) in *.
  assert (same_off {[n]} c c') as Hoff by (intros x Hx; apply upd_ne; set_solver).
  destruct (kept_touch c c' n h' HFn Hsame (upd_eq _ _ _) Hoff) as [HK Ed]. destruct HR' as (HR' & Efm & Edf).
  destruct (base_change fs fs' c c' o o r bm H n HB Hn Hn0 (proj1 HK)) as [HB' HK']; try done.
  { eapply same_off_weaken; [|exact Hoff]. pose proof (own_self c n). set_solver. }
  assert (visited c c' H) as HV.
  { intros q Hq. destruct (decide (q = n)) as [->|]; [done|by apply HK']. }
  eexists _, fs', c'. split; [exact E|]. split_and!; try done. by eapply fs_ok_visited.
Qed.
End write.
