(* ===== verification/FileSysTheorems.v ===== *)
(** * The theorems on the file system

    What a disk with files and directories is after each operation of
    filesys/filesys.cc, stated against the tree of FileSysTree.v, with instances on the
    cached disk of SynchDisk.v. *)

From S2P Require Import Prelude BitMap Disk SectorStore SynchDisk.
From S2P Require Import FileHdr FileHdrExtend OpenFile Directory FileSys FileSysProps FileSysTree FileSysSpec FileSysWrite.

#[local] Arguments decode : simpl never.

Lemma read_write_past f off data :
  0 ≤ off ≤ zlen f → read_at (write_at f off data) off (zlen data) = data.
Proof.
  unfold read_at, write_at, zlen. intros Hoff. rewrite Nat2Z.id, drop_app_length', take_app_length'; [done..|].
  rewrite length_take. lia.
Qed.

(** ** Paths in a tree that grows *)
Lemma parent_sector_mono (T T' : tree) fuel name p :
  (∀ q m, T !! q = Some m → ∃ m', T' !! q = Some m' ∧ m ⊆ m') → T !! (-1) = None → p ≠ -1 →
  parent_sector T fuel name = Some p → parent_sector T' fuel name = Some p.
Proof.
  intros Hsub Hneg. revert name p. induction fuel as [|fuel IH]; intros name p Hp; cbn [parent_sector];
    destruct (last_slash name =? 0); try done. set (parent := take _ name).
  destruct (parent_sector T fuel parent) as [g|] eqn:Eg; [|done]. cbn.
  destruct (T !! g) as [m|] eqn:Em; [|done]. cbn. destruct (Hsub g m Em) as (m' & Em' & Hm).
  rewrite (IH parent g) by (done || congruence). cbn. rewrite Em'. cbn.
  destruct (m !! cut parent) as [[n b]|] eqn:En; [|by intros [= <-]]. by rewrite (lookup_weaken _ _ _ _ En Hm).
Qed.

Lemma in_root T name m : last_slash name = 0 → T !! DirectorySector = Some m → in_dir T name DirectorySector m.
Proof. intros Hsl Hm. split; [|done]. destruct (length name); cbn [parent_sector]; by rewrite Hsl. Qed.

Lemma grown_in_dir c H T name p m k sec dir :
  tree_ok c H T → (∀ q, q ∈ H → 0 ≤ q) → in_dir T name p m → m !! k = None → sec ∉ H →
  in_dir (grown T p m k sec dir) name p (<[k := (sec, dir)]> m).
Proof.
  intros HT Hpos [Hp Hm] Hk Hs. assert (p ≠ sec) as Hne by (by intros ->; apply Hs, (tr_dir _ _ _ HT _ _ Hm)).
  assert (∀ q mq, T !! q = Some mq → 0 ≤ q) as Hq by (intros q mq Hl; by apply Hpos, (tr_dir _ _ _ HT q mq)).
  assert (grown T p m k sec dir !! p = Some (<[k := (sec, dir)]> m)) as Hg.
  { unfold grown. destruct dir; rewrite ?lookup_insert_ne, lookup_insert_eq by done; done. }
  split; [|done]. eapply parent_sector_mono; [| | |exact Hp].
  - intros q mq Hl. destruct (decide (q = p)) as [->|Hqp].
    + rewrite Hm in Hl. injection Hl as <-. exists (<[k := (sec, dir)]> m). split; [done|]. by apply insert_subseteq.
    + exists mq. split; [|done]. assert (q ≠ sec) by (by intros ->; apply Hs, (tr_dir _ _ _ HT _ _ Hl)).
      unfold grown. destruct dir; rewrite !lookup_insert_ne by done; done.
  - destruct (T !! (-1)) as [mq|] eqn:E; [|done]. by apply Hq in E.
  - apply Hq in Hm. lia.
Qed.

Lemma shrunk_grown T p m k sec :
  T !! p = Some m → m !! k = None → T !! sec = None →
  shrunk (grown T p m k sec false) p (<[k := (sec, false)]> m) k sec = T.
Proof.
  intros Hp Hk Hs. unfold shrunk, grown. rewrite insert_insert_eq, delete_insert_id by done.
  rewrite insert_id by done. by apply delete_id.
Qed.

Section theorems.
Context {S : Type} `{Sst : SectorStore S, Slaws : !SectorStoreLaws S}.
Context (env : Env) (HE : env_ok env).
Implicit Types (fs : FS S) (c : Z → list Z) (o : Z → Z) (r : Z → rwstate) (bm : BitMap) (H : gset Z) (T : tree).

Lemma fs_range fs c o r bm H T q : fs_ok fs c o r bm H T → q ∈ H → 0 ≤ q.
Proof. intros HF Hq. by apply (base_range _ _ _ _ _ _ _ (fk_base _ _ _ _ _ _ _ HF) Hq). Qed.
Lemma fresh_header fs c o r bm H T (X : gset Z) sec :
  fs_ok fs c o r bm H T → X ## marked bm → sec ∈ X → sec ∉ H.
Proof.
  intros HF Hd Hs Hin. apply (Hd sec Hs), (dk_used _ _ _ (bs_disk _ _ _ _ _ _ (fk_base _ _ _ _ _ _ _ HF)) sec Hin), own_self.
Qed.

(** A new name, a free entry and room on the disk: [Create] succeeds. *)
Lemma Create_file_done fs c o r bm H T name p m sz :
  fs_ok fs c o r bm H T → c_string name → in_dir T name p m → 0 ≤ sz < 2 ^ 31 →
  m !! cut name = None → Z.of_nat (size m) < NumDirEntries → fits env sz bm →
  ∃ sec fs' c' bm', Create env name sz fs = Ok (true, fs') ∧ own c' sec ## marked bm ∧ sec ∉ H ∧
    fs_ok fs' c' o r bm' ({[sec]} ∪ H) (grown T p m (cut name) sec false) ∧ zlen (bytes_at c' sec) = sz ∧
    gained (uninit env) (divRoundUp sz SectorSize) bm bm' (own c' sec) ∧
    (∀ n, n ∈ H → n ≠ FreeMapSector → n ≠ p → kept c c' n) ∧
    in_dir (grown T p m (cut name) sec false) name p (<[cut name := (sec, false)]> m).
Proof using HE.
  intros HF Hs Hin Hsz Hnone Hroom Hfit.
  destruct (Create_file_ok env HE fs c o r bm H T name p m sz HF Hs Hin Hsz)
    as [(sec & fs1 & c1 & bm1 & E1 & _ & _ & Hd & HF1 & Hl & HM1 & HK1)|[(fs' & c' & _ & _ & _ & Hwhy)|(_ & _ & _ & Hrun)]].
  - pose proof (fresh_header _ _ _ _ _ _ _ _ sec HF Hd (own_self _ _)) as Hsec.
    exists sec, fs1, c1, bm1. split_and!; try done.
    apply (grown_in_dir c H); try done; [apply HF|]. intros q. by eapply fs_range.
  - exfalso. destruct Hwhy as [[x Hx]|[?|[? _]]]; [congruence|lia|done].
  - by destruct (fits_no_run env sz bm Hfit).
Qed.


(** C4: [Create] of a file of any size >= 0 in any directory of the tree, every outcome.  It
    answers true exactly when the name is new, the directory has a free entry and the disk
    has the room [fits]: a free sector for the header, then a run of free sectors for the
    blocks and index sectors (and [NSecIndex] more for a file of at most 6 blocks), and
    beside that run as many free sectors again as the file has blocks, because [Allocate]
    counts the free sectors after [FindN] has marked the run.  Then the tree has the new
    name, bound to a file of [sz] bytes on sectors that were free; exactly these and the
    spare sectors of the run have been marked, and all other files are as they were.  If it
    answers false nothing has changed.  It aborts exactly when the name is new, there is an
    entry and a sector for the header, and then no run for [FindN]. *)
Theorem Create_refines_tree fs c o r bm H T name p m sz :
  fs_ok fs c o r bm H T → c_string name → in_dir T name p m → 0 ≤ sz < 2 ^ 31 →
  let new := m !! cut name = None ∧ Z.of_nat (size m) < NumDirEntries in
  (Create env name sz fs = Stop AssertFailed ∧ new ∧ no_run env sz bm) ∨
  (¬ (new ∧ no_run env sz bm)) ∧
  ∃ b fs' c' bm' H' T', Create env name sz fs = Ok (b, fs') ∧ fs_ok fs' c' o r bm' H' T' ∧
    (b = true ↔ new ∧ fits env sz bm) ∧
    (∀ n, n ∈ H → n ≠ FreeMapSector → n ≠ p → kept c c' n) ∧
    if b then ∃ sec, T' = grown T p m (cut name) sec false ∧ H' = {[sec]} ∪ H ∧ sec ∉ H ∧
                zlen (bytes_at c' sec) = sz ∧ own c' sec ## marked bm ∧
                gained (uninit env) (divRoundUp sz SectorSize) bm bm' (own c' sec)
    else T' = T ∧ H' = H ∧ marked bm' = marked bm.
Proof using HE.
  intros HF Hs Hin Hsz new. destruct (Create_file_ok env HE fs c o r bm H T name p m sz HF Hs Hin Hsz)
    as [(sec & fs' & c' & bm' & E & Hn & Hfit & Hd & HF' & Hl & HG & HK)|[(fs' & c' & E & HF' & HV & Hwhy)|(E & Hn & Hrun)]].
  - right. pose proof (fresh_header _ _ _ _ _ _ _ _ sec HF Hd (own_self _ _)) as Hsec.
    split; [intros [_ Hno]; by apply (fits_no_run env sz bm Hfit)|].
    exists true, fs', c', bm', ({[sec]} ∪ H), (grown T p m (cut name) sec false).
    split_and!; try done; [|exists sec; by split_and!]. split; [intros _|done]. split; [|done]. split; [done|].
    destruct (grown_in_dir c H T name p m (cut name) sec false (fk_tree _ _ _ _ _ _ _ HF)) as [_ Hg]; try done.
    { intros q. by eapply fs_range. }
    destruct (tr_dir _ _ _ (fk_tree _ _ _ _ _ _ _ HF') p _ Hg) as (_ & _ & d & Hda & Hdr).
    pose proof (dir_size d _ Hdr) as Hsize. rewrite (da_size _ _ _ Hda), map_size_insert_None in Hsize by done. lia.
  - right. split; [intros [[Hn Hroom] Hno]; destruct Hwhy as [[x Hx]|[?|[_ ?]]]; [congruence|lia|done]|].
    exists false, fs', c', bm, H, T. split_and!; try done.
    + split; [done|]. intros ((Hn & Hroom) & Hfit). destruct Hwhy as [[x Hx]|[?|[Hno _]]]; [congruence|lia|done].
    + intros n Hn _ _. by apply HV.
  - left. unfold new. tauto.
Qed.

(** C10: [Create] of a directory: when the name is new, the parent has a free entry and the
    free map [fits] it (a run of the blocks and of whatever [NSecIndex] holds, and as many
    free sectors besides as blocks), there is a new, empty directory of the tree, on
    sectors that were free; all other files are as they were.  [NSecIndex] is always
    uninitialised here: [env_ok] allows every [int] but -5 to -1 and the six largest. *)
Theorem Create_directory_refines_tree fs c o r bm H T name p m sz :
  fs_ok fs c o r bm H T → c_string name → in_dir T name p m → sz < 0 →
  m !! cut name = None → Z.of_nat (size m) < NumDirEntries → fits env DirectoryFileSize bm →
  ∃ sec fs' c' bm', Create env name sz fs = Ok (true, fs') ∧ sec ∉ H ∧ own c' sec ## marked bm ∧
    fs_ok fs' c' o r bm' ({[sec]} ∪ H) (<[sec := ∅]> (<[p := <[cut name := (sec, true)]> m]> T)) ∧
    ∀ n, n ∈ H → n ≠ FreeMapSector → n ≠ p → kept c c' n.
Proof using HE.
  intros HF Hs Hin Hsz Hn Hroom Hfit.
  destruct (Create_dir_ok env HE fs c o r bm H T name p m sz HF Hs Hin Hsz Hn Hroom Hfit)
    as (sec & fs' & c' & bm' & E & Hd & HF' & _ & HK). exists sec, fs', c', bm'. split_and!; try done.
  by eapply (fresh_header _ _ _ _ _ _ _ _ sec HF Hd), own_self.
Qed.

(** C11: [Open] finds exactly the names of the tree: it returns an open file on the header
    of the file or directory that the name is bound to, whose length and blocks are those
    on the disk, counts it as opened once more, and returns nothing for a name that is not
    there; only times of last visit change. *)
Theorem Open_refines_tree fs c o r bm H T name p m :
  fs_ok fs c o r bm H T → c_string name → in_dir T name p m →
  ∃ fs' c', visited c c' H ∧
    match m !! cut name with
    | Some (n, _) => Open env name fs = Ok (Some (file_at c' n), fs') ∧ n ∈ H ∧
                     fs_ok fs' c' (upd o n (o n + 1)) r bm H T
    | None => Open env name fs = Ok (None, fs') ∧ fs_ok fs' c' o r bm H T
    end.
Proof using HE.
  intros HF Hs Hin. destruct (Open_ok env HE fs c o r bm H T name p m HF Hs Hin) as (fs' & c' & E & HF' & HV).
  exists fs', c'. split; [done|]. destruct (m !! cut name) as [[n b]|] eqn:En; [|done]. split_and!; try done.
  by apply (tr_entry _ _ _ (fk_tree _ _ _ _ _ _ _ HF) p m (cut name) n b (proj2 Hin)).
Qed.

(** C5: [Remove] of a file or of an empty directory: it answers true exactly when the name
    is there and nobody has it open; then the name is gone from the tree, exactly the
    sectors of the file are free again, and all other files are as they were.  If it
    answers false nothing has changed. *)
Theorem Remove_refines_tree fuel fs c o r bm H T name p m :
  fs_ok fs c o r bm H T → c_string name → in_dir T name p m →
  (∀ n b, m !! cut name = Some (n, b) → removable T n b) →
  ∃ b fs' c' bm' H' T', Remove env fuel name fs = Ok (b, fs') ∧ fs_ok fs' c' o r bm' H' T' ∧
    (b = true ↔ ∃ n d, m !! cut name = Some (n, d) ∧ o n ≤ 0) ∧
    if b then ∃ n d, m !! cut name = Some (n, d) ∧ T' = shrunk T p m (cut name) n ∧ H' = H ∖ {[n]} ∧
                marked bm' = marked bm ∖ own c n ∧
                ∀ q, q ∈ H → q ≠ FreeMapSector → q ≠ p → q ≠ n → kept c c' q
    else T' = T ∧ H' = H ∧ marked bm' = marked bm ∧ visited c c' H.
Proof using HE.
  intros HF Hs Hin Hrm. destruct (Remove_tree_ok env HE fuel fs c o r bm H T name p m HF Hs Hin Hrm)
    as [(fs' & c' & E & HF' & HV & Hwhy)|(n & d & fs' & c' & bm' & E & Hn & Ho & HF' & HM & HK)].
  - exists false, fs', c', bm, H, T. split_and!; try done. split; [done|]. intros (n & d & Hn & Ho).
    destruct Hwhy as [Hx|(n' & d' & Hn' & Ho')]; [congruence|]. rewrite Hn' in Hn. injection Hn as -> ->. lia.
  - exists true, fs', c', bm', (H ∖ {[n]}), (shrunk T p m (cut name) n). split_and!; try done; [|eauto 10].
    split; [eauto|done].
Qed.

(** C7: writing to one file of the tree never disturbs another: [WriteAt] through an open
    file of [n], inside the file or past its end with room to grow ([ExtendWrapper]),
    replaces exactly the bytes written, keeps the tree and the invariant, takes only
    sectors that were free, and every other file or directory keeps its sectors and its
    bytes. *)
Theorem WriteAt_refines_tree now fs c o r bm H T f n from nb pos :
  fs_ok fs c o r bm H T → n ∈ H → n ≠ FreeMapSector → T !! n = None →
  headerSector f = n → hdr f = decode (c n) → 0 < nb ≤ zlen from → can_write bm (hdr f) nb pos →
  ∃ f' fs' c' bm', WriteAt (mem env) (extend1 env) now f from nb pos fs = Ok ((nb, f'), fs') ∧
    fs_ok fs' c' o r bm' H T ∧
    bytes_at c' n = write_at (bytes_at c n) pos (read_at from 0 nb) ∧
    (∃ A, A ## marked bm ∧ marked bm' = marked bm ∪ A) ∧
    ∀ q, q ∈ H → q ≠ FreeMapSector → q ≠ n → kept c c' q.
Proof using HE.
  intros HF Hn Hn0 HT Hf Hh Hnb Hcan.
  destruct (write_tree_ok env HE now fs c o r bm H T f n from nb pos HF Hn Hn0 HT Hf Hh Hnb Hcan)
    as (f' & fs' & c' & bm' & E & HF' & _ & _ & Hby & HA & HK). by exists f', fs', c', bm'.
Qed.


(** C8: what is written to a file is there after the file system has been started again: a
    file is opened by its name and written to, inside or past its end; then on any store
    that holds the same sectors, [FileSystem(FALSE)], [Open] of the name and [ReadAt]
    of the place return the bytes.  That the sectors are on the disk when Nachos ends is
    not part of the claim: the destructor of the cache does not flush it. *)
Theorem written_data_survives_restart now now' fs c o r bm H T name p m n from nb pos :
  fs_ok fs c o r bm H T → c_string name → in_dir T name p m → m !! cut name = Some (n, false) →
  0 < nb ≤ zlen from → can_write bm (decode (c n)) nb pos →
  ∃ f fs1 f1 fs2 c2 o2, Open env name fs = Ok (Some f, fs1) ∧
    WriteAt (mem env) (extend1 env) now f from nb pos fs1 = Ok ((nb, f1), fs2) ∧
    represents (store fs2) c2 o2 r ∧
    ∀ (s : S) o' r', represents s c2 o' r' → locks_free r' →
      ∃ fs3 f3 fs4 f4 fs5, FileSystem_new env false s = Ok fs3 ∧ Open env name fs3 = Ok (Some f3, fs4) ∧
        ReadAt (mem env) now' f3 nb pos fs4 = Ok ((nb, read_at from 0 nb, f4), fs5).
Proof using HE.
  intros HF Hs Hin Hn Hnb Hcan. pose proof (fk_tree _ _ _ _ _ _ _ HF) as HT.
  destruct (tr_entry _ _ _ HT p m _ n false (proj2 Hin) Hn) as (HnH & Hn0 & _ & Hnd).
  assert (T !! n = None) as HTn by (destruct (T !! n) eqn:E; [|done]; assert (false = true) by (apply Hnd; eauto); done).
  destruct (Open_ok env HE fs c o r bm H T name p m HF Hs Hin) as (fs1 & c1 & E1 & HF1 & HV1). rewrite Hn in E1, HF1.
  assert (can_write bm (hdr (file_at c1 n)) nb pos) as Hcan1.
  { destruct (HV1 n HnH) as [((Q1 & Q2 & _) & _) _]. unfold can_write. cbn [file_at hdr]. by rewrite Q1, Q2. }
  destruct (write_tree_ok env HE now fs1 c1 _ r bm H T (file_at c1 n) n from nb pos HF1 HnH Hn0 HTn eq_refl eq_refl Hnb Hcan1)
    as (f1 & fs2 & c2 & bm2 & E2 & HF2 & _ & _ & Hby & _).
  exists (file_at c1 n), fs1, f1, fs2, c2, (upd o n (o n + 1)). split_and!; try done; [apply HF2|].
  intros s o' r' HR HL. destruct (remount_ok env HE fs2 s c2 _ o' r r' bm2 H T HF2 HR HL) as (fs3 & E3 & HF3).
  destruct (Open_ok env HE fs3 c2 _ r' bm2 H T name p m HF3 Hs Hin) as (fs4 & c4 & E4 & HF4 & HV4). rewrite Hn in E4, HF4.
  destruct (HV4 n HnH) as [_ Hb4]. destruct Hcan as [Hpos Hcan].
  assert (zlen (bytes_at c1 n) = numBytes (decode (c n))) as Hl1.
  { rewrite (proj2 (HV1 n HnH)). apply bytes_at_length, (dk_file _ _ _ (bs_disk _ _ _ _ _ _ (fk_base _ _ _ _ _ _ _ HF)) n HnH). }
  assert (zlen (read_at from 0 nb) = nb) as Hrl by (apply read_at_length; lia).
  assert (pos + nb ≤ zlen (bytes_at c4 n)) as Hl4.
  { rewrite Hb4, Hby. unfold write_at. rewrite !zlen_app, Hrl. unfold zlen in *. rewrite length_take. lia. }
  destruct (read_tree_ok env HE now' fs4 c4 _ r' bm2 H T (file_at c4 n) n nb pos HF4 HnH Hn0 eq_refl eq_refl)
    as (f5 & fs5 & c5 & E5 & _); try lia.
  { pose proof (small_file _ _ _ _ _ _ _ n HF4 HnH). lia. }
  rewrite Z.min_l in E5 by lia.
  exists fs3, (file_at c4 n), fs4, f5, fs5. split_and!; try done. rewrite E5. do 4 f_equal. rewrite Hb4, Hby.
  rewrite <-Hrl at 2. apply read_write_past. lia.
Qed.
End theorems.

(** ** Instances on the cached disk *)
Lemma example_env_ok : env_ok example_env.
Proof.
  split; try done.
  - intros n Hn. cbn. unfold zeros, zlen. rewrite length_replicate. lia.
  - right. by consts.
  - assert (dataSectors (decode (zeros 128)) = replicate 11 0) as E by (vm_compute; reflexivity).
    change (new_hdr example_env) with (decode (zeros 128)). split; try done. rewrite E. split; [done|]. by apply Forall_replicate.
  - split; [done|]. by apply (Forall_replicate entry_bytes 10).
  - split; [done|]. by apply Forall_replicate.
Qed.

(** A formatted disk, *)
Lemma example_root : ∃ (fs : FS SynchDisk) c o r bm,
  fs_ok fs c o r bm {[DirectorySector; FreeMapSector]} {[DirectorySector := ∅]} ∧
  Z.of_nat (size (marked bm)) ≤ 7 ∧ ∀ n, n ∉ ({[DirectorySector; FreeMapSector]} : gset Z) → o n ≤ 0.
Proof.
  destruct (SynchDisk_new_represents (zeros 128) (mkStats 0 0 0 0 0) 0) as (s & _ & HR); [done|].
  destruct (format_ok example_env example_env_ok s _ _ _ ltac:(done) HR) as (fs & c & bm & _ & HF & _ & Hs); [done|].
  eexists fs, c, _, _, bm. split_and!; [exact HF|rewrite Hs; cbn; lia|]. intros n Hn. rewrite !upd_ne by set_solver. done.
Qed.

(** and one with the file "f" of 200 bytes. *)
Definition name_f : list Z := [102].
Lemma example_file : ∃ (fs : FS SynchDisk) c o r bm sec,
  fs_ok fs c o r bm ({[sec]} ∪ {[DirectorySector; FreeMapSector]})
    (grown {[DirectorySector := ∅]} DirectorySector ∅ name_f sec false) ∧
  sec ∉ ({[DirectorySector; FreeMapSector]} : gset Z) ∧ zlen (bytes_at c sec) = 200 ∧ o sec ≤ 0.
Proof.
  destruct example_root as (fs & c & o & r & bm & HF & Hsz & Ho).
  assert (c_string name_f) as Hs by (by repeat constructor).
  pose proof (in_root _ name_f ∅ eq_refl (lookup_singleton_eq DirectorySector ∅)) as Hin.
  destruct (fk_map _ _ _ _ _ _ _ HF) as (WF & Hb & _).
  pose proof (fits_small example_env 200 bm eq_refl WF Hb ltac:(lia) ltac:(done)) as Hfit.
  destruct (Create_file_done example_env example_env_ok fs c o r bm _ _ name_f _ _ 200 HF Hs Hin)
    as (sec & fs1 & c1 & bm1 & _ & _ & Hsec & HF1 & Hl & _); try done.
  exists fs1, c1, o, r, bm1, sec. split_and!; try done. by apply Ho.
Qed.


Lemma Create_refines_tree_witness :
  ∃ fs fs' : FS SynchDisk, Create example_env name_f 200 fs = Ok (true, fs').
Proof.
  destruct example_root as (fs & c & o & r & bm & HF & Hsz & _). exists fs.
  destruct (fk_map _ _ _ _ _ _ _ HF) as (WF & Hb & _).
  pose proof (fits_small example_env 200 bm eq_refl WF Hb ltac:(lia) ltac:(done)) as Hfit.
  destruct (Create_refines_tree example_env example_env_ok fs c o r bm _ _ name_f DirectorySector ∅ 200 HF)
    as [(_ & _ & Hno)|(_ & b & fs' & c' & bm' & H' & T' & E & _ & Hb' & _)].
  - by repeat constructor.
  - by apply in_root; [|apply lookup_singleton_eq].
  - done.
  - exfalso. exact (fits_no_run _ _ _ Hfit Hno).
  - exists fs'. destruct b; [exact E|]. exfalso. assert (false = true); [|done]. apply Hb'. by split_and!.
Defined.

Lemma Create_directory_refines_tree_witness :
  ∃ fs fs' : FS SynchDisk, Create example_env name_f (-1) fs = Ok (true, fs').
Proof.
  destruct example_root as (fs & c & o & r & bm & HF & Hsz & _). exists fs.
  destruct (fk_map _ _ _ _ _ _ _ HF) as (WF & Hb & _).
  destruct (Create_directory_refines_tree example_env example_env_ok fs c o r bm _ _ name_f DirectorySector ∅ (-1) HF)
    as (sec & fs' & _ & _ & E & _).
  - by repeat constructor.
  - by apply in_root; [|apply lookup_singleton_eq].
  - done.
  - done.
  - done.
  - apply (fits_small example_env DirectoryFileSize bm eq_refl WF Hb); [lia|done].
  - exists fs'. exact E.
Defined.

(** The directory of "f". *)
Lemma file_in_root sec :
  in_dir (grown {[DirectorySector := ∅]} DirectorySector ∅ name_f sec false) name_f DirectorySector
    (<[name_f := (sec, false)]> ∅).
Proof. apply in_root; [done|]. apply lookup_insert_eq. Qed.

Lemma Open_refines_tree_witness :
  ∃ (fs fs' : FS SynchDisk) f, Open example_env name_f fs = Ok (Some f, fs').
Proof.
  destruct example_file as (fs & c & o & r & bm & sec & HF & _). exists fs.
  destruct (Open_refines_tree example_env example_env_ok fs c o r bm _ _ name_f DirectorySector _ HF
    ltac:(by repeat constructor) (file_in_root sec)) as (fs' & c' & _ & Hm).
  rewrite lookup_insert_eq in Hm. destruct Hm as (E & _). exists fs', (file_at c' sec). exact E.
Defined.

Lemma Remove_refines_tree_witness :
  ∃ fs fs' : FS SynchDisk, Remove example_env 0 name_f fs = Ok (true, fs').
Proof.
  destruct example_file as (fs & c & o & r & bm & sec & HF & _ & _ & Ho). exists fs.
  destruct (Remove_refines_tree example_env example_env_ok 0 fs c o r bm _ _ name_f DirectorySector _ HF
    ltac:(by repeat constructor) (file_in_root sec)) as (b & fs' & c' & bm' & H' & T' & E & _ & Hb & _).
  - intros n b. rewrite lookup_insert_eq. by intros [= <- <-].
  - exists fs'. destruct b; [exact E|]. exfalso. assert (false = true); [|done]. apply Hb. exists sec, false.
    by rewrite lookup_insert_eq.
Defined.

Lemma WriteAt_refines_tree_witness :
  ∃ (fs fs' : FS SynchDisk) f f',
    WriteAt zeros (extend1 example_env) (λ _, []) f [1; 2; 3] 3 150 fs = Ok ((3, f'), fs').
Proof.
  destruct example_file as (fs & c & o & r & bm & sec & HF & Hsec & Hl & _). exists fs.
  pose proof (dk_file _ _ _ (bs_disk _ _ _ _ _ _ (fk_base _ _ _ _ _ _ _ HF)) sec ltac:(set_solver)) as HFs.
  rewrite bytes_at_length in Hl by done. unfold FileLength in Hl.
  destruct (WriteAt_refines_tree example_env example_env_ok (λ _, []) fs c o r bm _ _ (file_at c sec) sec [1; 2; 3] 3 150 HF)
    as (f' & fs' & _ & _ & E & _).
  - set_solver.
  - set_solver.
  - unfold grown. rewrite lookup_insert_ne by set_solver. apply lookup_singleton_ne. set_solver.
  - reflexivity.
  - reflexivity.
  - done.
  - split; [done|]. left. cbn [file_at hdr]. rewrite Hl. done.
  - exists fs', (file_at c sec), f'. exact E.
Defined.


Lemma written_data_survives_restart_witness :
  ∃ (fs fs1 fs2 : FS SynchDisk) f f1, Open example_env name_f fs = Ok (Some f, fs1) ∧
    WriteAt zeros (extend1 example_env) (λ _, []) f [1; 2; 3] 3 150 fs1 = Ok ((3, f1), fs2) ∧
    ∃ (fs3 fs4 fs5 : FS SynchDisk) f3 f4, FileSystem_new example_env false (store fs2) = Ok fs3 ∧
      Open example_env name_f fs3 = Ok (Some f3, fs4) ∧
      ReadAt zeros [] f3 3 150 fs4 = Ok ((3, [1; 2; 3], f4), fs5).
Proof.
  destruct example_file as (fs & c & o & r & bm & sec & HF & Hsec & Hl & _). exists fs.
  pose proof (fk_base _ _ _ _ _ _ _ HF) as HB.
  pose proof (dk_file _ _ _ (bs_disk _ _ _ _ _ _ HB) sec ltac:(set_solver)) as HFs.
  rewrite bytes_at_length in Hl by done. unfold FileLength in Hl.
  destruct (written_data_survives_restart example_env example_env_ok (λ _, []) [] fs c o r bm _ _ name_f DirectorySector _ sec
    [1; 2; 3] 3 150 HF ltac:(by repeat constructor) (file_in_root sec)) as (f & fs1 & f1 & fs2 & c2 & o2 & E1 & E2 & HR & Hagain).
  - apply lookup_insert_eq.
  - done.
  - split; [done|]. left. rewrite Hl. done.
  - exists fs1, fs2, f, f1. split; [exact E1|]. split; [exact E2|].
    destruct (Hagain (store fs2) o2 r HR (bs_locks _ _ _ _ _ _ HB)) as (fs3 & f3 & fs4 & f4 & fs5 & E3 & E4 & E5).
    exists fs3, fs4, fs5, f3, f4. exact (conj E3 (conj E4 E5)).
Defined.
