(* ===== verification/FileSysRemove.v ===== *)
(** * Removing a directory with everything below it

    [FileSystem::Remove] of a directory removes its entries first, by their path names,
    each with everything below it.  In a tree in which every entry is stored under its
    own path name ([named]) this removes exactly the subtree: no directory is above
    itself, the subtrees of two entries are apart, and paths to what is left stay. *)

From S2P Require Import Prelude BitMap Disk SectorStore SynchDisk.
From S2P Require Import FileHdr FileHdrExtend OpenFile Directory FileSys FileSysProps FileSysTree FileSysSpec.
From S2P Require Import FileSysWrite FileSysTheorems.

#[local] Arguments decode : simpl never.

(** ** Trees *)

(** [T] has the entry [k] in the directory [q], for the file [n]. *)
Definition entry (T : tree) (q : Z) (k : list Z) (n : Z) : Prop :=
  ∃ m b, T !! q = Some m ∧ m !! k = Some (n, b).

(** [x] is [a] or below it. *)
Inductive below (T : tree) (a : Z) : Z → Prop :=
| below_refl : below T a a
| below_snoc w k x : below T a w → entry T w k x → below T a x.

(** Every entry is stored under its path name, which is not cut. *)
Definition named (T : tree) : Prop := ∀ q k n, entry T q k n →
  parent_sector T (length k) k = Some q ∧ zlen k < FileNameMaxLen ∧ c_string k.

Lemma last_slash_from_lt s i pos :
  last_slash_from s i pos = pos ∨ i ≤ last_slash_from s i pos < i + zlen s.
Proof.
  revert i pos. induction s as [|x s IH]; intros i pos; cbn; [by left|].
  destruct (IH (i + 1) (if x =? 47 then i else pos)) as [E|E]; unfold zlen in *; cbn [length]; [|lia].
  rewrite E. destruct (x =? 47); [lia|by left].
Qed.
Lemma last_slash_lt s : last_slash s ≠ 0 → 0 < last_slash s < zlen s.
Proof. unfold last_slash. destruct (last_slash_from_lt s 0 0) as [E|E]; lia. Qed.

Lemma cut_short k : zlen k < FileNameMaxLen → cut k = k.
Proof. intros Hk. unfold cut. apply take_ge. unfold zlen in Hk. lia. Qed.

Lemma below_trans T a b x : below T a b → below T b x → below T a x.
Proof. intros Ha. induction 1; [done|by econstructor]. Qed.
Lemma below_first T a x : below T a x ↔ x = a ∨ ∃ k y, entry T a k y ∧ below T y x.
Proof.
  split.
  - induction 1 as [|w k x Hw IH He]; [by left|]. right. destruct IH as [->|(k' & y & Hy & Hb)].
    + exists k, x. split; [done|constructor].
    + exists k', y. split; [done|by econstructor].
  - intros [->|(k & y & He & Hb)]; [constructor|]. eapply below_trans; [|done]. eapply below_snoc; [constructor|done].
Qed.

(** The predicate carries over when entries are kept. *)
Lemma below_mono T T' a x :
  (∀ w k y, below T a w → entry T w k y → entry T' w k y) → below T a x → below T' a x.
Proof. intros Hm. induction 1 as [|w k x Hw IH He]; [constructor|]. eapply below_snoc; eauto. Qed.

Section tree.
Context (T : tree) (c : Z → list Z) (H : gset Z) (HT : tree_ok c H T) (Hpos : ∀ q, q ∈ H → 0 ≤ q) (HN : named T).

Lemma entry_once q k q' k' n : entry T q k n → entry T q' k' n → q = q' ∧ k = k'.
Proof using HT.
  intros (m & b & Hq & Hk) (m' & b' & Hq' & Hk'). by eapply (tr_once _ _ _ HT).
Qed.
Lemma entry_range q k n : entry T q k n → n ∈ H ∧ n ≠ FreeMapSector ∧ n ≠ DirectorySector ∧ 0 ≤ n.
Proof using HT Hpos.
  intros (m & b & Hq & Hk). destruct (tr_entry _ _ _ HT _ _ _ _ _ Hq Hk) as (Hn & ? & ? & _). split_and!; auto.
Qed.

(** The name of an entry is longer than that of its directory, *)
Lemma named_longer q k n k' y : entry T q k n → entry T n k' y → zlen k < zlen k'.
Proof using HT Hpos HN.
  intros Hn Hy. destruct (HN _ _ _ Hy) as (Hp & _). destruct (entry_range _ _ _ Hn) as (_ & _ & Hn1 & Hn0).
  destruct (decide (last_slash k' = 0)) as [E|E].
  { destruct (length k'); cbn [parent_sector] in Hp; rewrite E in Hp; by injection Hp as <-. }
  pose proof (last_slash_lt k' E) as Hl. destruct (length k') as [|l] eqn:El; [unfold zlen in Hl; lia|].
  cbn [parent_sector] in Hp. destruct (Z.eqb_spec (last_slash k') 0); [done|]. set (par := take _ k') in Hp.
  destruct (parent_sector T l par) as [g|]; [|done]. cbn in Hp. destruct (T !! g) as [mg|] eqn:Eg; [|done]. cbn in Hp.
  destruct (mg !! cut par) as [[n' b]|] eqn:Ec; [|injection Hp as <-; lia]. injection Hp as ->.
  destruct (entry_once q k g (cut par) n Hn) as [_ ->]; [by exists mg, b|].
  unfold zlen, cut, par in *. rewrite !length_take. lia.
Qed.

(** so that nothing is below its own entries. *)
Lemma below_longer q k a x :
  entry T q k a → below T a x → x = a ∨ ∃ w kx, entry T w kx x ∧ zlen k < zlen kx.
Proof using HT Hpos HN.
  intros Ha. induction 1 as [|w kx x Hw IH Hx]; [by left|]. right. exists w, kx. split; [done|].
  destruct IH as [->|(w' & kw & Hkw & Hlt)]; [by eapply named_longer|].
  pose proof (named_longer _ _ _ _ _ Hkw Hx). lia.
Qed.
Lemma acyclic n k y : entry T n k y → ¬ below T y n.
Proof using HT Hpos HN.
  intros Hy Hb. destruct (below_longer _ _ _ _ Hy Hb) as [->|(w & kn & Hn & Hlt)].
  - pose proof (named_longer _ _ _ _ _ Hy Hy). lia.
  - pose proof (named_longer _ _ _ _ _ Hn Hy). lia.
Qed.

Lemma below_entry q k a x : entry T q k a → below T a x → ∃ q' k', entry T q' k' x.
Proof. intros Ha. destruct 1; eauto. Qed.

(** Two files above a third one are one above the other; so subtrees of entries are apart. *)
Lemma below_chain a b x : below T a x → below T b x → below T a b ∨ below T b a.
Proof using HT.
  intros Ha. induction Ha as [|w k x Hw IH Hx]; [by right|]. intros Hb.
  inversion Hb as [|w' k' x' Hw' Hx']; subst; [left; by econstructor|].
  destruct (entry_once _ _ _ _ _ Hx Hx') as [<- <-]. auto.
Qed.
Lemma siblings_apart n k y k' y' x :
  entry T n k y → entry T n k' y' → y ≠ y' → below T y x → ¬ below T y' x.
Proof using HT Hpos HN.
  assert (∀ k y k' y', entry T n k y → entry T n k' y' → y ≠ y' → ¬ below T y y') as Hno.
  { intros k1 y1 k2 y2 H1 H2 Hne Hb. inversion Hb as [|w k3 x3 Hw H3]; subst; [done|].
    destruct (entry_once _ _ _ _ _ H2 H3) as [<- <-]. by apply (acyclic n k1 y1). }
  intros Hy Hy' Hne Hx Hx'. destruct (below_chain _ _ _ Hx Hx') as [Hb|Hb]; [eapply Hno; [exact Hy|exact Hy'|done|done]|].
  eapply Hno; [exact Hy'|exact Hy|congruence|done].
Qed.
End tree.

(** *** What is left when the entry [k] of [p] is removed with the files [D] *)
Definition pruned (T : tree) (p : Z) (m : dirmap) (k : list Z) (D : gset Z) : tree :=
  filter (λ e : Z * dirmap, e.1 ∉ D) (<[p := delete k m]> T).

Lemma pruned_lookup T p m k D q mq :
  pruned T p m k D !! q = Some mq ↔ q ∉ D ∧ (q = p ∧ mq = delete k m ∨ q ≠ p ∧ T !! q = Some mq).
Proof.
  unfold pruned. rewrite map_lookup_filter_Some, lookup_insert_Some. cbn. naive_solver.
Qed.
Lemma pruned_entry T p m k D q k' x :
  T !! p = Some m → entry (pruned T p m k D) q k' x ↔ q ∉ D ∧ entry T q k' x ∧ (q ≠ p ∨ k' ≠ k).
Proof.
  intros Hp. unfold entry. split.
  - intros (mq & b & [Hq [[-> ->]|[Hne Hl]]]%pruned_lookup & Hk).
    + apply lookup_delete_Some in Hk as [Hk Hx]. split_and!; [done|eauto|right; congruence].
    + split_and!; [done|eauto|by left].
  - intros (Hq & (mq & b & Hl & Hk) & Hne). destruct (decide (q = p)) as [->|Hqp].
    + rewrite Hp in Hl. injection Hl as <-. exists (delete k m), b. split; [apply pruned_lookup; eauto|].
      apply lookup_delete_Some. split; [|done]. destruct Hne; congruence.
    + exists mq, b. split; [apply pruned_lookup; eauto|done].
Qed.

(** Everything below a file of [D] is in [D]. *)
Definition closed (T : tree) (D : gset Z) : Prop := ∀ q k x, q ∈ D → entry T q k x → x ∈ D.

Lemma parent_sector_pruned T p m k n D fuel name q :
  T !! p = Some m → T !! (-1) = None → closed T D → entry T p k n → n ∈ D → q ∉ D → q ≠ -1 →
  parent_sector T fuel name = Some q → parent_sector (pruned T p m k D) fuel name = Some q.
Proof.
  intros Hp Hneg HC Hn HnD. revert name q. induction fuel as [|fuel IH]; intros name q HqD Hq1; cbn [parent_sector];
    destruct (last_slash name =? 0); try done. set (par := take _ name).
  destruct (parent_sector T fuel par) as [g|] eqn:Eg; [|done]. cbn. destruct (T !! g) as [mg|] eqn:Em; [|done]. cbn.
  destruct (mg !! cut par) as [[x b]|] eqn:Ex; [|by intros [= <-]]. intros [= <-].
  assert (entry T g (cut par) x) as He by (by exists mg, b).
  assert (g ∉ D) as HgD by (intros Hin; by apply HqD, (HC g (cut par) x)).
  assert (entry (pruned T p m k D) g (cut par) x) as (mg' & b' & Hg' & Hx').
  { apply pruned_entry; [done|]. split_and!; try done. destruct (decide (g = p)) as [->|]; [right|by left].
    intros E. rewrite E in Ex. destruct Hn as (m' & b' & Hm' & Hk'). rewrite Hm' in Em. injection Em as ->. congruence. }
  rewrite (IH par g) by (done || congruence). cbn. rewrite Hg'. cbn. by rewrite Hx'.
Qed.

Section pruned.
Context (T : tree) (c : Z → list Z) (H : gset Z) (HT : tree_ok c H T) (Hpos : ∀ q, q ∈ H → 0 ≤ q) (HN : named T).

Lemma dir_range q m : T !! q = Some m → 0 ≤ q.
Proof using HT Hpos. intros Hq. by apply Hpos, (tr_dir _ _ _ HT q m). Qed.
Lemma no_minus_one : T !! (-1) = None.
Proof using HT Hpos. destruct (T !! (-1)) as [m|] eqn:E; [|done]. by apply dir_range in E. Qed.

Lemma named_pruned p m k n D :
  T !! p = Some m → closed T D → entry T p k n → n ∈ D → named (pruned T p m k D).
Proof using HT Hpos HN.
  intros Hp HC Hn HnD q k' x (Hq & He & _)%pruned_entry; [|done]. destruct (HN q k' x He) as (Hpath & Hlen & Hs).
  split_and!; try done. pose proof He as (mq & b & Hl & _). pose proof (dir_range q mq Hl).
  eapply parent_sector_pruned; [done|apply no_minus_one|done|exact Hn|done|done|lia|done].
Qed.

(** The subtree of [n]. *)
Lemma below_closed n D : (∀ x, x ∈ D ↔ below T n x) → closed T D.
Proof. intros HD q k x Hq He. apply HD. eapply below_snoc; [by apply HD|done]. Qed.

(** After the entry [k] of [n], for [y], has been removed with everything below it, what is
    below another entry of [n] is what was below it. *)
Lemma below_pruned n mn k y D k' y' x :
  T !! n = Some mn → entry T n k y → (∀ x, x ∈ D ↔ below T y x) → entry T n k' y' → y ≠ y' →
  below (pruned T n mn k D) y' x ↔ below T y' x.
Proof using HT Hpos HN.
  intros Hn Hy HD Hy' Hne. split.
  - apply below_mono. intros w k1 z _ (_ & He & _)%pruned_entry; done.
  - apply below_mono. intros w k1 z Hw He. apply pruned_entry; [done|]. split_and!; [|done|left].
    + intros Hin%HD. by eapply (siblings_apart T c H HT Hpos HN n k y k' y' w).
    + intros ->. by eapply (acyclic T c H HT Hpos HN n k' y').
Qed.
End pruned.

(** The directory [n] without its entries and what was below them. *)
Definition emptied (T : tree) (n : Z) (D : gset Z) : tree := filter (λ e : Z * dirmap, e.1 ∉ D) (<[n := ∅]> T).
Lemma emptied_lookup T n D q mq :
  emptied T n D !! q = Some mq ↔ q ∉ D ∧ (q = n ∧ mq = ∅ ∨ q ≠ n ∧ T !! q = Some mq).
Proof. unfold emptied. rewrite map_lookup_filter_Some, lookup_insert_Some. cbn. naive_solver. Qed.

Lemma emptied_pruned T n mn k D1 D2 :
  n ∉ D1 → emptied (pruned T n mn k D1) n D2 = emptied T n (D1 ∪ D2).
Proof.
  intros Hn. apply map_eq. intros q. apply option_eq. intros mq. rewrite !emptied_lookup, pruned_lookup, not_elem_of_union.
  naive_solver.
Qed.
Lemma emptied_none T n : T !! n = Some ∅ → emptied T n ∅ = T.
Proof.
  intros Hn. apply map_eq. intros q. apply option_eq. intros mq. rewrite emptied_lookup.
  destruct (decide (q = n)) as [->|]; [rewrite Hn|]; set_solver.
Qed.
Lemma shrunk_emptied T p m k n D :
  n ≠ p → p ∉ D → shrunk (emptied T n D) p m k n = pruned T p m k ({[n]} ∪ D).
Proof.
  intros Hnp HpD. apply map_eq. intros q. apply option_eq. intros mq. unfold shrunk.
  rewrite lookup_delete_Some, lookup_insert_Some, emptied_lookup, pruned_lookup, not_elem_of_union, not_elem_of_singleton.
  naive_solver.
Qed.

(** ** [Remove] of a directory *)
Section remove.
Context {S : Type} `{Sst : SectorStore S, Slaws : !SectorStoreLaws S}.
Context (env : Env) (HE : env_ok env).
Implicit Types (fs : FS S) (c : Z → list Z) (o : Z → Z) (r : Z → rwstate) (bm : BitMap) (H : gset Z) (T : tree).

(** The files [D] are gone, their sectors are free, entries of the directory [p] have been
    removed, and the other files are as they were. *)
Record gone fs' c c' o r bm bm' H (D : gset Z) T' (p : Z) : Prop := {
  gn_ok : fs_ok fs' c' o r bm' (H ∖ D) T';
  gn_named : named T';
  gn_marked x : x ∈ marked bm' ↔ x ∈ marked bm ∧ ∀ q, q ∈ D → x ∉ own c q;
  gn_still : still c c' p;
  gn_kept q : q ∈ H → q ∉ D → q ≠ FreeMapSector → q ≠ p → kept c c' q
}.

Lemma gone_nothing fs c o r bm H T p :
  fs_ok fs c o r bm H T → named T → p ∈ H → gone fs c c o r bm bm H ∅ T p.
Proof.
  intros HF HN Hp. assert (∀ q, q ∈ H → kept c c q) as HK by (intros q Hq; by eapply visited_refl; [apply HF|]).
  split; try done; [by rewrite difference_empty_L|set_solver|by apply HK|]. intros q Hq _ _ _. by apply HK.
Qed.

Lemma gone_trans fs1 fs2 c c1 c2 o r bm bm1 bm2 H D1 D2 T1 T2 p :
  gone fs1 c c1 o r bm bm1 H D1 T1 p → gone fs2 c1 c2 o r bm1 bm2 (H ∖ D1) D2 T2 p →
  D2 ⊆ H → D1 ## D2 → p ∉ D2 → FreeMapSector ∉ D2 → gone fs2 c c2 o r bm bm2 H (D1 ∪ D2) T2 p.
Proof.
  intros [A1 A2 A3 A4 A5] [B1 B2 B3 B4 B5] HD2 Hdis Hp H0. split; try done.
  - by rewrite <-difference_difference_l_L.
  - intros x. rewrite B3, A3.
    assert (∀ q, q ∈ D2 → own c1 q = own c q) as Ho.
    { intros q Hq. assert (kept c c1 q) as [(_ & -> & _) _]; [|done].
      apply A5; [by apply HD2|by intros ?; apply (Hdis q)|congruence|congruence]. }
    split.
    + intros [[Hx H1] H2]. split; [done|]. intros q [Hq|Hq]%elem_of_union; [by apply H1|]. rewrite <-Ho by done. by apply H2.
    + intros [Hx Hq]. split; [split; [done|]|]; intros q Hin; [|rewrite Ho by done]; apply Hq; set_solver.
  - by eapply still_trans.
  - intros q Hq [Hn1 Hn2]%not_elem_of_union Hq0 Hqp. eapply kept_trans; [by apply A5|]. apply B5; try done. set_solver.
Qed.

(** [Remove] with this fuel removes what has a long enough name. *)
Definition removes (fuel : nat) : Prop := ∀ fs c o r bm H T name p m n b,
  fs_ok fs c o r bm H T → named T → c_string name → in_dir T name p m → m !! cut name = Some (n, b) →
  (∀ x, below T n x → o x ≤ 0) → FileNameMaxLen ≤ Z.of_nat fuel + zlen (cut name) →
  ∃ fs' c' bm' D, Remove env fuel name fs = Ok (true, fs') ∧ (∀ x, x ∈ D ↔ below T n x) ∧
    gone fs' c c' o r bm bm' H D (pruned T p m (cut name) D) p.

(** The entries of [l] that are in use are the bindings of [mn]. *)
Definition listed (l : list DirectoryEntry) (mn : dirmap) : Prop :=
  NoDup (entry_name <$> filter (λ e, inUse e = true) l) ∧
  ∀ k v, mn !! k = Some v ↔ ∃ e, e ∈ l ∧ inUse e = true ∧ entry_name e = k ∧ v = (dsector e, isDirE e).

Lemma listed_skip e l mn : inUse e = false → listed (e :: l) mn → listed l mn.
Proof.
  intros He [HN Hm]. split; [by rewrite filter_cons_False in HN by (by rewrite He)|].
  intros k v. rewrite Hm. split; intros (e' & Hin & Hu & Hk); [|exists e'; by rewrite elem_of_cons; auto].
  apply elem_of_cons in Hin as [->|Hin]; [congruence|eauto].
Qed.
Lemma listed_take e l mn :
  inUse e = true → listed (e :: l) mn →
  mn !! entry_name e = Some (dsector e, isDirE e) ∧ listed l (delete (entry_name e) mn).
Proof.
  intros He [HN Hm]. split; [apply Hm; exists e; by rewrite elem_of_cons; auto|].
  rewrite filter_cons_True in HN by done. cbn in HN. apply list.NoDup_cons in HN as [Hno HN]. split; [done|].
  intros k v. rewrite lookup_delete_Some, Hm. split.
  - intros (Hne & e' & [->|Hin]%elem_of_cons & Hu & Hk & Hv); [congruence|]. eauto.
  - intros (e' & Hin & Hu & <- & Hv). split; [|exists e'; rewrite elem_of_cons; auto].
    intros E. apply Hno. rewrite E. apply list_elem_of_fmap. exists e'. split; [done|]. by apply list_elem_of_filter.
Qed.

Lemma fs_pos fs c o r bm H T : fs_ok fs c o r bm H T → ∀ q, q ∈ H → 0 ≤ q.
Proof. intros HF q. by eapply fs_range. Qed.

(** One entry of the directory [n], and the tree for the others. *)
Lemma remove_one_ok fuel fs c o r bm H T n mn e rest kn qn :
  match fuel with O => True | Datatypes.S fuel' => removes fuel' end →
  fs_ok fs c o r bm H T → named T → T !! n = Some mn → entry T qn kn n →
  mn !! entry_name e = Some (dsector e, isDirE e) → (∀ k y x, entry T n k y → below T y x → o x ≤ 0) →
  FileNameMaxLen ≤ Z.of_nat fuel + zlen kn →
  ∃ fs1 c1 bm1 D1, remove_one env fuel e rest fs = rest fs1 ∧ (∀ x, x ∈ D1 ↔ below T (dsector e) x) ∧
    gone fs1 c c1 o r bm bm1 H D1 (pruned T n mn (entry_name e) D1) n.
Proof.
  intros HR HF HN Hn Hkn Hk Ho Hfu. set (k := entry_name e) in *. set (y := dsector e) in *.
  pose proof (fk_tree _ _ _ _ _ _ _ HF) as HT. pose proof (fs_pos _ _ _ _ _ _ _ HF) as Hpos.
  assert (entry T n k y) as He by (by exists mn, (isDirE e)). destruct (HN _ _ _ He) as (Hpath & Hshort & Hs).
  pose proof (named_longer T c H HT Hpos HN _ _ _ _ _ Hkn He) as Hlong. pose proof (cut_short k Hshort) as Hcut.
  destruct fuel as [|fuel]; [lia|].
  destruct (HR fs c o r bm H T k n mn y (isDirE e)) as (fs1 & c1 & bm1 & D1 & E1 & HD1 & HG1); try done.
  { by rewrite Hcut. } { intros x Hx. by eapply Ho. } { rewrite Hcut. lia. }
  rewrite Hcut in HG1. exists fs1, c1, bm1, D1. split; [|done]. cbn [remove_one]. fold k. by step E1.
Qed.

Lemma remove_all_ok fuel l fs c o r bm H T n mn kn qn :
  match fuel with O => True | Datatypes.S fuel' => removes fuel' end →
  fs_ok fs c o r bm H T → named T → T !! n = Some mn → entry T qn kn n → listed l mn →
  (∀ k y x, entry T n k y → below T y x → o x ≤ 0) → FileNameMaxLen ≤ Z.of_nat fuel + zlen kn →
  ∃ fs' c' bm' D, remove_all (remove_one env fuel) l fs = Ok (true, fs') ∧
    (∀ x, x ∈ D ↔ ∃ k y, entry T n k y ∧ below T y x) ∧ gone fs' c c' o r bm bm' H D (emptied T n D) n.
Proof.
  intros HR. revert fs c bm H T mn. induction l as [|e l IH]; intros fs c bm H T mn HF HN Hn Hkn Hl Ho Hfu.
  { assert (mn = ∅) as ->.
    { apply map_empty. intros k. destruct (mn !! k) as [v|] eqn:E; [|done]. apply Hl in E as (e & He & _).
      by apply elem_of_nil in He. }
    exists fs, c, bm, ∅. split_and!; try done.
    - intros x. split; [set_solver|]. intros (k & y & (m & b & Hm & Hk) & _). rewrite Hn in Hm. injection Hm as <-.
      by rewrite lookup_empty in Hk.
    - rewrite emptied_none by done. apply gone_nothing; try done. by apply (tr_dir _ _ _ (fk_tree _ _ _ _ _ _ _ HF) n ∅). }
  cbn [remove_all]. destruct (inUse e) eqn:Hu.
  2:{ apply (IH fs c bm H T mn); try done. by apply (listed_skip e). }
  destruct (listed_take e l mn Hu Hl) as [Hk Hl1]. set (k := entry_name e) in *. set (y := dsector e) in *.
  destruct (remove_one_ok fuel fs c o r bm H T n mn e (remove_all (remove_one env fuel) l) kn qn HR HF HN Hn Hkn Hk Ho Hfu)
    as (fs1 & c1 & bm1 & D1 & E1 & HD1 & HG1). fold k y in HD1, HG1.
  pose proof (fk_tree _ _ _ _ _ _ _ HF) as HT. pose proof (fs_pos _ _ _ _ _ _ _ HF) as Hpos.
  assert (entry T n k y) as He by (by exists mn, (isDirE e)).
  assert (n ∉ D1) as HnD by (intros Hin%HD1; by apply (acyclic T c H HT Hpos HN n k y)).
  set (T1 := pruned T n mn k D1) in *.
  assert (T1 !! n = Some (delete k mn)) as Hn1 by (apply pruned_lookup; auto).
  assert (entry T1 qn kn n) as Hkn1.
  { apply pruned_entry; [done|]. split_and!; [|done|left].
    - intros Hin%HD1. apply HnD, HD1. by eapply below_snoc.
    - intros ->. apply (acyclic T c H HT Hpos HN n kn n Hkn). constructor. }
  destruct (IH fs1 c1 bm1 (H ∖ D1) T1 (delete k mn)) as (fs2 & c2 & bm2 & D2 & E2 & HD2 & HG2); try done; [apply HG1..| |].
  { intros k' y' x (_ & He' & _)%pruned_entry Hx; [|done]. eapply Ho; [exact He'|]. eapply below_mono; [|exact Hx].
    intros w k1 z _ (_ & ? & _)%pruned_entry; done. }
  assert (∀ x, x ∈ D2 ↔ ∃ k' y', entry T n k' y' ∧ y ≠ y' ∧ below T y' x) as HD2'.
  { intros x. rewrite HD2. split.
    - intros (k' & y' & (_ & He' & Hne)%pruned_entry & Hx); [|done]. assert (y ≠ y') as Hy.
      { intros <-. destruct (entry_once T c H HT _ _ _ _ _ He He') as [_ <-]. by destruct Hne. }
      exists k', y'. split_and!; try done. by eapply (below_pruned T c H HT Hpos HN n mn k y D1 k' y').
    - intros (k' & y' & He' & Hy & Hx). exists k', y'. split.
      + apply pruned_entry; [done|]. split_and!; try done. right. intros ->. destruct He as (m1 & b1 & Hm1 & Hk1), He' as (m2 & b2 & Hm2 & Hk2).
        congruence.
      + by eapply (below_pruned T c H HT Hpos HN n mn k y D1 k' y'). }
  exists fs2, c2, bm2, (D1 ∪ D2). split_and!; [by rewrite E1| |].
  - intros x. rewrite elem_of_union, HD1, HD2'. split; [naive_solver|]. intros (k' & y' & He' & Hx).
    destruct (decide (y = y')) as [<-|]; [by left|right; eauto].
  - rewrite <-(emptied_pruned T n mn k D1 D2 HnD). eapply gone_trans; [exact HG1|exact HG2|..].
    + intros x (k' & y' & He' & _ & Hx)%HD2'. destruct (below_entry T _ _ _ _ He' Hx) as (q & kq & Hq).
      by apply (entry_range T c H HT Hpos q kq x Hq).
    + intros x Hx1%HD1 (k' & y' & He' & Hy & Hx)%HD2'. by eapply (siblings_apart T c H HT Hpos HN n k y k' y' x).
    + intros (k' & y' & He' & _ & Hx)%HD2'. by apply (acyclic T c H HT Hpos HN n k' y').
    + intros (k' & y' & He' & _ & Hx)%HD2'. destruct (below_entry T _ _ _ _ He' Hx) as (q & kq & Hq).
      destruct (entry_range T c H HT Hpos q kq _ Hq) as (_ & Hne & _). by apply Hne.
Qed.

(** The table of a directory whose names are not cut. *)
Lemma NoDup_filter_fmap {A B} (f : A → B) (P : A → Prop) `{∀ x, Decision (P x)} (l : list A) :
  (∀ i j x y, l !! i = Some x → l !! j = Some y → P x → P y → f x = f y → i = j) → NoDup (f <$> filter P l).
Proof.
  induction l as [|x l IH]; intros Hu; [constructor|].
  assert (NoDup (f <$> filter P l)) as HN.
  { apply IH. intros i j y z Hi Hj Py Pz Hf. pose proof (Hu (Datatypes.S i) (Datatypes.S j) y z Hi Hj Py Pz Hf). lia. }
  rewrite filter_cons. destruct (decide (P x)) as [Px|]; [|done]. cbn. apply list.NoDup_cons. split; [|done].
  intros (y & Hf & [Py [j Hj]%list_elem_of_lookup]%list_elem_of_filter)%list_elem_of_fmap.
  by pose proof (Hu 0%nat (Datatypes.S j) x y eq_refl Hj Px Py Hf).
Qed.
Lemma dir_listed d mn :
  dir_rep d mn → (∀ k v, mn !! k = Some v → zlen k < FileNameMaxLen) → listed (table d) mn.
Proof.
  intros [OK Hm] Hshort.
  assert (∀ i e, table d !! i = Some e → znth (table d) (Z.of_nat i) = Some e) as Hz.
  { intros i e Hi. unfold znth. destruct (Z.ltb_spec (Z.of_nat i) 0); [lia|by rewrite Nat2Z.id]. }
  assert (∀ i e, znth (table d) i = Some e → inUse e = true → entry_name e = key (Directory.name e)) as Hkey.
  { intros i e Hi Hu. assert (zlen (key (Directory.name e)) < FileNameMaxLen) as Hl.
    { eapply Hshort. apply Hm. exists i, e. split_and!; try done. }
    unfold key in *. rewrite upto0_take in *. unfold entry_name, zlen in *. rewrite length_take in Hl.
    symmetry. apply take_ge. lia. }
  split.
  - apply NoDup_filter_fmap. intros i j e e' Hi%Hz Hj%Hz Hu Hu' Hf. rewrite (Hkey _ _ Hi Hu), (Hkey _ _ Hj Hu') in Hf.
    assert (Z.of_nat i = Z.of_nat j); [|lia]. eapply (do_uniq _ OK _ _ e e' (key (Directory.name e))); by try split.
  - intros k v. rewrite Hm. split.
    + intros (i & e & Hi & [Hu <-] & Hv). exists e. rewrite (Hkey i e) by done. split_and!; try done.
      apply list_elem_of_lookup_2 with (Z.to_nat i). unfold znth in Hi. by destruct (i <? 0).
    + intros (e & [i Hi%Hz]%list_elem_of_lookup & Hu & <- & Hv). exists (Z.of_nat i), e. split_and!; try done.
      split; [done|]. symmetry. by eapply Hkey.
Qed.

(** Emptying the directory [n], if it is one. *)
Lemma empty_subtree_ok fuel fs c o r bm H T p m k n (b : bool) :
  match fuel with O => True | Datatypes.S fuel' => removes fuel' end →
  fs_ok fs c o r bm H T → named T → T !! p = Some m → m !! k = Some (n, b) →
  (∀ x, below T n x → x ≠ n → o x ≤ 0) → FileNameMaxLen ≤ Z.of_nat fuel + zlen k →
  ∃ fs' c' bm' D T', (if b then
       '(NameDir, NameFile) ← open_dir env 630 n;
       ok ← remove_all (remove_one env fuel) (table NameDir);
       OpenFile_delete NameFile;;
       mret ok
     else mret true : ST (FS S) bool) fs = Ok (true, fs') ∧
    (∀ x, x ∈ ({[n]} ∪ D : gset Z) ↔ below T n x) ∧ gone fs' c c' o r bm bm' H D T' n ∧ n ∉ D ∧
    T' !! p = Some m ∧ removable T' n b ∧ shrunk T' p m k n = pruned T p m k ({[n]} ∪ D).
Proof using HE.
  intros HR HF HN Hp Hk Ho Hfu. pose proof (fk_tree _ _ _ _ _ _ _ HF) as HT. pose proof (fs_pos _ _ _ _ _ _ _ HF) as Hpos.
  assert (entry T p k n) as He by (by exists m, b).
  destruct (tr_entry _ _ _ HT _ _ _ _ _ Hp Hk) as (Hn & Hn0 & _ & Hb).
  assert (n ≠ p) as Hnp by (intros ->; apply (acyclic T c H HT Hpos HN p k p He); constructor).
  destruct b.
  2:{ assert (T !! n = None) as HTn by (destruct (T !! n) eqn:E; [|done]; assert (false = true) by (apply Hb; eauto); done).
      exists fs, c, bm, ∅, T. split_and!; try done.
      - intros x. rewrite union_empty_r_L, elem_of_singleton, below_first. split; [by left|]. intros [->|(k' & y & (mn & b' & Hmn & _) & _)]; congruence.
      - by apply gone_nothing.
      - rewrite union_empty_r_L. unfold shrunk. apply map_eq. intros q. apply option_eq. intros mq.
        rewrite lookup_delete_Some, lookup_insert_Some, pruned_lookup, not_elem_of_singleton. naive_solver. }
  destruct (proj1 Hb eq_refl) as [mn Hmn].
  destruct (open_tree_ok env HE 630 fs c o r bm H T n mn HF Hmn) as (d & f & fs1 & c1 & E1 & HF1 & HV1 & Hf & _ & _ & Hdr).
  assert (∀ k' y x, entry T n k' y → below T y x → upd o n (o n + 1) x ≤ 0) as Ho1.
  { intros k' y x Hy Hx. assert (x ≠ n) as Hxn by (intros ->; by apply (acyclic T c H HT Hpos HN n k' y)).
    rewrite upd_ne by done. apply Ho; [|done]. apply below_first. right. eauto. }
  destruct (remove_all_ok fuel (table d) fs1 c1 _ r bm H T n mn k p HR HF1 HN Hmn He) as
    (fs2 & c2 & bm2 & D & E2 & HD & HG); try done.
  { apply dir_listed; [done|]. intros k' [y b'] Hy. by apply (HN n k' y); exists mn, b'. }
  assert (n ∉ D) as HnD by (intros (k' & y & Hy & Hx)%HD; by apply (acyclic T c H HT Hpos HN n k' y)).
  assert (∀ x, x ∈ ({[n]} ∪ D : gset Z) ↔ below T n x) as HDn.
  { intros x. rewrite elem_of_union, elem_of_singleton, HD. symmetry. apply below_first. }
  assert (p ∉ D) as HpD by (intros Hin; apply (acyclic T c H HT Hpos HN p k n He), HDn; by apply elem_of_union_r).
  destruct HG as [G1 G2 G3 G4 G5].
  destruct (close_tree_ok fs2 c2 o r bm2 (H ∖ D) (emptied T n D) f) as (fs3 & E3 & HF3); rewrite ?Hf; [done|by apply elem_of_difference|].
  exists fs3, c2, bm2, D, (emptied T n D). split_and!; try done.
  - step E1. step E2. by step E3.
  - split; try done.
    + intros x. rewrite G3. split; intros [Hx Hq]; (split; [done|]); intros q HqD; specialize (Hq q HqD);
        assert (q ∈ H) as HqH by (apply HD in HqD as (k' & y & Hy & Hb'); destruct (below_entry T _ _ _ _ Hy Hb') as (q' & kq & Hq');
          by apply (entry_range T c H HT Hpos q' kq q Hq')); destruct (HV1 q HqH) as [(_ & Eo & _) _]; congruence.
    + eapply still_trans; [by apply HV1|done].
    + intros q Hq HqD Hq0 Hqn. eapply kept_trans; [by apply HV1|by apply G5].
  - apply emptied_lookup. split; [done|]. right. done.
  - intros _. apply emptied_lookup. auto.
  - by apply shrunk_emptied.
Qed.

(** Freeing [n] itself, after everything below it. *)
Lemma gone_last fs' c c1 c2 c3 o o' r bm bm1 bm2 H D T1 T2 p n fs1 :
  visited c c1 H → gone fs1 c1 c2 o r bm bm1 H D T1 n → D ⊆ H → n ∈ H → n ∉ D → p ∈ H → p ∉ D → p ≠ n → p ≠ FreeMapSector →
  marked bm2 = marked bm1 ∖ own c2 n → still c2 c3 p →
  (∀ q, q ∈ H ∖ D → q ≠ FreeMapSector → q ≠ p → q ≠ n → kept c2 c3 q) →
  fs_ok fs' c3 o' r bm2 (H ∖ ({[n]} ∪ D)) T2 → named T2 → gone fs' c c3 o' r bm bm2 H ({[n]} ∪ D) T2 p.
Proof.
  intros HV [G1 G2 G3 G4 G5] HDH Hn HnD Hp HpD Hpn Hp0 HM HS HK HF HN.
  assert (∀ q, q ∈ H → own c1 q = own c q) as Ho by (intros q Hq; by apply HV).
  split; try done.
  - intros x. rewrite HM, elem_of_difference, G3, (proj1 (proj2 G4)), Ho by done. split.
    + intros [[Hx Hq] Hxn]. split; [done|]. intros q [->%elem_of_singleton|HqD]%elem_of_union; [done|].
      rewrite <-Ho by (by apply HDH). by apply Hq.
    + intros [Hx Hq]. split_and!; [done| |apply Hq; by apply elem_of_union_l, elem_of_singleton].
      intros q HqD. rewrite Ho by (by apply HDH). apply Hq. by apply elem_of_union_r.
  - eapply still_trans; [by apply HV|]. eapply still_trans; [|exact HS]. by apply G5.
  - intros q Hq [Hqn HqD]%not_elem_of_union Hq0 Hqp. rewrite elem_of_singleton in Hqn. eapply kept_trans; [by apply HV|].
    eapply kept_trans; [by apply G5|]. apply HK; try done. by apply elem_of_difference.
Qed.

Lemma removes_step fuel : match fuel with O => True | Datatypes.S fuel' => removes fuel' end → removes fuel.
Proof using HE.
  intros HR fs c o r bm H T name p m n b HF HN Hs [Hp Hm] Hk Ho Hfu.
  pose proof (fk_tree _ _ _ _ _ _ _ HF) as HT. pose proof (fs_pos _ _ _ _ _ _ _ HF) as Hpos.
  assert (entry T p (cut name) n) as He by (by exists m, b).
  assert (n ≠ p) as Hnp by (intros ->; apply (acyclic T c H HT Hpos HN p _ p He); constructor).
  destruct (tr_dir _ _ _ HT p m Hm) as (Hpin & Hp0 & _). destruct (entry_range T c H HT Hpos _ _ _ He) as (Hn & Hn0 & _).
  pose proof (base_range _ _ _ _ _ _ _ (fk_base _ _ _ _ _ _ _ HF) Hn) as Hr.
  destruct (ParentSector_ok env HE fs c o r bm H T name p HF Hs Hp) as (fs1 & c1 & E1 & HF1 & HV1).
  destruct (open_tree_ok env HE 600 fs1 c1 o r bm H T p m HF1 Hm) as (d & f & fs2 & c2 & E2 & HF2 & HV2 & Hf & Hh & Hd & Hdr).
  pose proof (visited_trans _ _ _ _ HV1 HV2) as HV.
  rewrite Remove_unfold. step E1. rewrite (parent_range _ _ _ _ _ _ _ _ _ HF Hm). step E2. step (Find_map d m name Hdr Hs).
  rewrite Hk. destruct (Z.eqb_spec n (-1)); [lia|].
  pose (L := fs_laws (freeMapFile fs2) (directoryFile fs2)).
  assert (represents fs2 c2 (upd o p (o p + 1)) r) as HRep by (split; [apply HF2|done]).
  destruct (GetOpenStart_ok fs2 c2 _ r n HRep Hr) as (fs4 & E4 & HR4 & Efm & Edf). step E4. rewrite upd_ne by done.
  assert (fs_ok fs4 c2 (upd o p (o p + 1)) r bm H T) as HF4.
  { destruct HF2 as [[] ? ?]. split; try done. split; rewrite ?Efm, ?Edf; done. }
  destruct (Z.gtb_spec (o n) 0) as [Hgt|_]; [specialize (Ho n (below_refl T n)); lia|].
  step (isDir_map d m name Hdr Hs). rewrite Hk.
  destruct (empty_subtree_ok fuel fs4 c2 _ r bm H T p m (cut name) n b HR HF4 HN Hm Hk) as
    (fs5 & c5 & bm5 & D & T5 & E5 & HD & HG & HnD & Hm5 & Hrm & Hsh); [|done|].
  { intros x Hx Hxn. rewrite upd_ne by (intros ->; by apply (acyclic T c H HT Hpos HN p _ n He)). by apply Ho. }
  step E5. cbn [negb].
  assert (p ∉ D) as HpD by (intros Hin; apply (acyclic T c H HT Hpos HN p _ n He), HD; by apply elem_of_union_r).
  assert (D ⊆ H) as HDH.
  { intros x Hx. assert (below T n x) as Hb by (apply HD; by apply elem_of_union_r).
    destruct (below_entry T _ _ _ _ He Hb) as (q & kq & Hq). by apply (entry_range T c H HT Hpos q kq x Hq). }
  pose proof (gn_kept _ _ _ _ _ _ _ _ _ _ _ HG p Hpin HpD Hp0 (not_eq_sym Hnp)) as HKp.
  destruct (remove_entry_ok env HE fs5 c5 _ r bm5 (H ∖ D) T5 p m d f name n b (gn_ok _ _ _ _ _ _ _ _ _ _ _ HG) Hm5 Hf)
    as (f' & fs6 & c6 & bm6 & E6 & Hf6 & HF6 & HM6 & HS6 & HK6); try done.
  { eapply same_sib; [apply HKp|]. apply same_self; [|done]. by apply (dk_file _ _ _ (bs_disk _ _ _ _ _ _ (fk_base _ _ _ _ _ _ _ HF4))). }
  { eapply dir_at_kept; [|done]. apply HKp. }
  rewrite Hsh, difference_difference_l_L, (union_comm_L D) in HF6. step E6.
  destruct (close_tree_ok fs6 c6 o r bm6 (H ∖ ({[n]} ∪ D)) (pruned T p m (cut name) ({[n]} ∪ D)) f') as (fs7 & E7 & HF7).
  { by rewrite Hf6. }
  { rewrite Hf6. apply elem_of_difference. split; [done|]. rewrite elem_of_union, elem_of_singleton. intros [?|?]; congruence. }
  step E7. exists fs7, c6, bm6, ({[n]} ∪ D). split_and!; try done.
  eapply gone_last; [exact HV|exact HG|try done..].
  eapply (named_pruned T c H HT Hpos HN p m _ n); [done|by eapply below_closed|done|by apply elem_of_union_l, elem_of_singleton].
Qed.
Lemma removes_ok fuel : removes fuel.
Proof using HE. induction fuel as [|fuel IH]; by apply removes_step. Qed.

(** Names that are not cut keep the tree [named]. *)
Lemma named_grown c H T name p m sec dir :
  tree_ok c H T → (∀ q, q ∈ H → 0 ≤ q) → named T → in_dir T name p m → c_string name →
  zlen name < FileNameMaxLen → m !! name = None → sec ∉ H → named (grown T p m name sec dir).
Proof.
  intros HT Hpos HN Hin Hs Hl Hnone Hsec q k n (mq & b & Hq & Hk). pose proof Hin as [Hp Hm].
  assert (p ≠ sec) as Hne by (by intros ->; apply Hsec, (tr_dir _ _ _ HT _ _ Hm)).
  assert (∀ k q', q' ≠ -1 → parent_sector T (length k) k = Some q' → parent_sector (grown T p m name sec dir) (length k) k = Some q') as Hpath.
  { intros k' q' Hq' Hk'. eapply parent_sector_mono; [|by eapply no_minus_one|done|done]. intros q1 m1 Hq1.
    destruct (decide (q1 = p)) as [->|Hqp].
    - rewrite Hm in Hq1. injection Hq1 as <-. exists (<[name := (sec, dir)]> m). split; [|by apply insert_subseteq].
      by destruct (grown_in_dir c H T name p m name sec dir HT Hpos Hin Hnone Hsec).
    - exists m1. split; [|done]. assert (q1 ≠ sec) by (by intros ->; apply Hsec, (tr_dir _ _ _ HT _ _ Hq1)).
      unfold grown. destruct dir; rewrite !lookup_insert_ne by done; done. }
  assert (∀ q' m', T !! q' = Some m' → q' ≠ -1) as Hd by (intros q' m' Hq'; pose proof (dir_range T c H HT Hpos q' m' Hq'); lia).
  assert (∀ q', T !! q' = Some mq → entry T q' k n → parent_sector (grown T p m name sec dir) (length k) k = Some q' ∧
    zlen k < FileNameMaxLen ∧ c_string k) as Hold.
  { intros q' Hq' He. destruct (HN _ _ _ He) as (? & ? & ?). split_and!; try done. apply Hpath; [by eapply Hd|done]. }
  apply grown_lookup in Hq as [[-> ->]|[(_ & -> & ->)|[Hqp Hq]]]; [| |apply Hold; [done|by exists mq, b]|done].
  - apply lookup_insert_Some in Hk as [[<- [= <- <-]]|[Hkn Hk]].
    + split_and!; try done. apply Hpath; [by eapply Hd|done].
    + destruct (HN p k n) as (? & ? & ?); [by exists m, b|]. split_and!; try done. apply Hpath; [by eapply Hd|done].
  - by rewrite lookup_empty in Hk.
Qed.

(** C6: [Remove] of a directory removes exactly what is below it: when nothing there is
    open, it answers true, the name is gone with every file and directory below it,
    exactly their sectors are free again, the other directories keep their entries, and
    all other files are as they were.  The tree is one where no name was cut ([named]): all
    path names are shorter than 39 characters, so 39 levels of recursion are enough. *)
Theorem Remove_directory_removes_subtree fs c o r bm H T name p m n b :
  fs_ok fs c o r bm H T → named T → c_string name → in_dir T name p m → m !! cut name = Some (n, b) →
  (∀ x, below T n x → o x ≤ 0) →
  ∃ fs' c' bm' D, Remove env 39 name fs = Ok (true, fs') ∧ (∀ x, x ∈ D ↔ below T n x) ∧
    fs_ok fs' c' o r bm' (H ∖ D) (pruned T p m (cut name) D) ∧ named (pruned T p m (cut name) D) ∧
    (∀ x, x ∈ marked bm' ↔ x ∈ marked bm ∧ ∀ q, q ∈ D → x ∉ own c q) ∧
    ∀ q, q ∈ H → q ∉ D → q ≠ FreeMapSector → q ≠ p → kept c c' q.
Proof using HE.
  intros HF HN Hs Hin Hk Ho. pose proof (zlen_nonneg (cut name)).
  destruct (removes_ok 39 fs c o r bm H T name p m n b HF HN Hs Hin Hk Ho) as (fs' & c' & bm' & D & E & HD & []);
    [unfold FileNameMaxLen; lia|].
  by exists fs', c', bm', D.
Qed.
End remove.

(** ** On the formatted disk *)

(** The directory "f" in the root, with the file "f/g" of 100 bytes. *)
Definition name_g : list Z := [102; 47; 103].
Lemma example_dir : ∃ (fs : FS SynchDisk) c o r bm H T m n g,
  fs_ok fs c o r bm H T ∧ named T ∧ in_dir T name_f DirectorySector m ∧ m !! cut name_f = Some (n, true) ∧
  entry T n name_g g ∧ ∀ x, below T n x → o x ≤ 0.
Proof.
  destruct example_root as (fs & c & o & r & bm & HF & Hsz & Ho). set (H := {[DirectorySector; FreeMapSector]}) in *.
  set (T := {[DirectorySector := ∅]} : tree) in *.
  destruct (fk_map _ _ _ _ _ _ _ HF) as (WF & Hb & _). pose proof (fk_tree _ _ _ _ _ _ _ HF) as HT.
  assert (c_string name_f ∧ c_string name_g) as [Hs Hsg] by (split; by repeat constructor).
  assert (in_dir T name_f DirectorySector ∅) as Hin by (by apply in_root; [|apply lookup_singleton_eq]).
  assert (named T) as HN.
  { intros q k n (mq & b & [<- <-]%lookup_singleton_Some & Hk). by rewrite lookup_empty in Hk. }
  destruct (Create_dir_ok example_env example_env_ok fs c o r bm _ _ name_f DirectorySector ∅ (-1) HF Hs Hin)
    as (sec & fs1 & c1 & bm1 & _ & Hd & HF1 & HG1 & _); try done.
  { apply (fits_small example_env DirectoryFileSize bm eq_refl WF Hb); [lia|done]. }
  pose proof (fresh_header _ _ _ _ _ _ _ _ sec HF Hd (own_self _ _)) as Hsec.
  pose proof (fs_pos _ _ _ _ _ _ _ HF) as Hpos. pose proof (fs_pos _ _ _ _ _ _ _ HF1) as Hpos1.
  set (m1 := <[cut name_f := (sec, true)]> ∅ : dirmap). set (T1 := grown T DirectorySector ∅ (cut name_f) sec true) in *.
  assert (named T1) as HN1 by (by apply (named_grown c H)).
  assert (in_dir T1 name_f DirectorySector m1) as Hin1 by (by apply (grown_in_dir c H)).
  assert (T1 !! sec = Some ∅) as Hm1 by apply lookup_insert_eq.
  assert (in_dir T1 name_g sec ∅) as Hing.
  { split; [|done]. cbn [length name_g parent_sector]. change (last_slash name_g =? 0) with false. cbv iota.
    change (take (Z.to_nat (last_slash name_g)) name_g) with name_f. change (last_slash name_f =? 0) with true. cbv iota.
    cbn [mbind option_bind]. rewrite (proj2 Hin1). cbn [mbind option_bind]. unfold m1. by rewrite lookup_insert_eq. }
  destruct (fk_map _ _ _ _ _ _ _ HF1) as (WF1 & Hb1 & _).
  assert (Z.of_nat (size (marked bm1)) ≤ 200) as Hsz1.
  { pose proof (dk_file _ _ _ (bs_disk _ _ _ _ _ _ (fk_base _ _ _ _ _ _ _ HF1)) sec ltac:(set_solver)) as [Hly _ _ _].
    pose proof (fpset_size (dataSectors (decode (c1 sec))) c1 (numSectors (decode (c1 sec))) (nidx (numSectors (decode (c1 sec))))) as Hf.
    rewrite (gained_exact _ _ _ _ _ HG1 eq_refl), size_union by done. unfold own. rewrite size_union_alt, size_singleton.
    set (h := decode (c1 sec)) in *. pose proof (subseteq_size (fpset (dataSectors h) c1 (numSectors h) (nidx (numSectors h)) ∖ {[sec]}) _ ltac:(apply subseteq_difference_l; reflexivity)).
    change (hdr (file_at c1 sec)) with h in Hly. pose proof (ly_k _ _ _ _ Hly). pose proof (ly_fit _ _ _ _ Hly).
    pose proof (ly_n _ _ _ _ Hly). consts. lia. }
  destruct (Create_file_done example_env example_env_ok fs1 c1 o r bm1 _ T1 name_g sec ∅ 100 HF1 Hsg Hing)
    as (g & fs2 & c2 & bm2 & _ & _ & Hg & HF2 & _ & _ & _ & Hin2); try done.
  { apply fits_few; try done. change (divRoundUp 100 SectorSize) with 1. lia. }
  set (T2 := grown T1 sec ∅ (cut name_g) g false) in *.
  assert (sec ≠ g ∧ DirectorySector ≠ sec ∧ DirectorySector ≠ g) as (Hn1 & Hn2 & Hn3) by set_solver.
  assert (T2 !! DirectorySector = Some m1) as Hr2 by (unfold T2, grown; by rewrite lookup_insert_ne, (proj2 Hin1)).
  exists fs2, c2, o, r, bm2, ({[g]} ∪ ({[sec]} ∪ H)), T2, m1, sec, g. split_and!; try done.
  - by apply (named_grown c1 ({[sec]} ∪ H)); try done; apply HF1.
  - exists (<[cut name_g := (g, false)]> ∅), false. split; [apply Hin2|apply lookup_insert_eq].
  - intros x Hx. apply Ho. apply below_first in Hx as [->|(k & y & (ms & bs & Hms & Hk) & Hx)]; [done|].
    unfold T2, grown in Hms. rewrite lookup_insert_eq in Hms. injection Hms as <-.
    apply lookup_insert_Some in Hk as [[_ [= <- <-]]|[_ Hk]]; [|by rewrite lookup_empty in Hk].
    apply below_first in Hx as [->|(k' & y & (ms & bs & Hms & Hk') & _)]; [set_solver|].
    unfold T2, T1, grown, T in Hms. rewrite !lookup_insert_ne in Hms by done. by apply lookup_singleton_Some in Hms as [? _].
Qed.

Lemma Remove_directory_removes_subtree_witness :
  ∃ (fs fs' : FS SynchDisk) T T' n g, entry T n name_g g ∧ Remove example_env 39 name_f fs = Ok (true, fs') ∧
    ∃ c' o r bm' H', fs_ok fs' c' o r bm' H' T' ∧ g ∉ H'.
Proof.
  destruct example_dir as (fs & c & o & r & bm & H & T & m & n & g & HF & HN & Hin & Hk & Hg & Ho).
  destruct (Remove_directory_removes_subtree example_env example_env_ok fs c o r bm H T name_f DirectorySector m n true HF HN)
    as (fs' & c' & bm' & D & E & HD & HF' & _).
  - by repeat constructor.
  - exact Hin.
  - exact Hk.
  - exact Ho.
  - exists fs, fs', T, (pruned T DirectorySector m (cut name_f) D), n, g. split; [exact Hg|]. split; [exact E|].
    exists c', o, r, bm', (H ∖ D). split; [exact HF'|]. intros [_ Hn]%elem_of_difference. apply Hn, HD.
    eapply below_snoc; [apply below_refl|exact Hg].
Defined.

(** A directory is not removed as a whole or not at all: with "d/b" open, [Remove] of "d"
    answers false, but "d/a", which comes first in the table, is gone. *)
Definition half_removed : ST (FS SynchDisk) (bool * bool * bool) :=
  let d := [100] in
  let a := [100; 47; 97] in
  let b := [100; 47; 98] in
  Create example_env d (-1);;
  Create example_env a 10;;
  Create example_env b 10;;
  Open example_env b;;
  removed ← Remove example_env 39 d;
  fa ← GetHeaderSector example_env a;
  fb ← GetHeaderSector example_env b;
  mret (removed, fa =? -1, fb =? -1).
Theorem Remove_not_atomic : value_of half_removed = Some (false, true, false).
Proof. vm_compute. reflexivity. Qed.
