(* ===== verification/FsTest.v ===== *)
(** * The test programs of the file system: filesys/fstest.cc

    [Copy] from a UNIX file, [Print], the performance test and the exercises, as programs
    on the file system of FileSys.v.  The proofs compose the theorems on [Create],
    [Open], [Write] and [Read]: a file that is copied in is printed byte for byte. *)

From Stdlib Require Import String Ascii.
From S2P Require Import Prelude BitMap Disk SectorStore SynchDisk.
From S2P Require Import FileHdr FileHdrExtend OpenFile Directory FileSys FileSysProps FileSysTree FileSysSpec.
From S2P Require Import FileSysWrite FileSysTheorems.

#[local] Arguments decode : simpl never.

(** The bytes of a string literal, without the final 0. *)
Definition text (s : string) : list Z := (λ a, Z.of_N (N_of_ascii a)) <$> list_ascii_of_string s.

(** ** The programs *)
Definition TransferSize : Z := 10.

Definition FileName : list Z := text "TestFile".
Definition Contents : list Z := text "1234567890".
Definition ContentSize : Z := zlen Contents.
Definition FileSize : Z := ContentSize * 5000.

(** What the performance test prints when something fails. *)
Inductive perf_message := CantCreate | CantOpen | CantWrite | CantRead | CantRemove.

Section programs.
Context {S : Type} `{SectorStore S} (env : Env).

(** The loop of [Copy]: [fp] is what [fread] has not delivered yet; [k] numbers the calls of
    [asctime].  Every round takes at least one byte. *)
Fixpoint copy_loop (fuel : nat) (k : Z) (fp : list Z) (openFile : OpenFile) : ST (FS S) OpenFile :=
  let buffer := take (Z.to_nat TransferSize) fp in
  let amountRead := zlen buffer in
  if amountRead >? 0 then
    match fuel with
    | O => lift (Stop Undefined)
    | Datatypes.S fuel' =>
        '(_, openFile) ← Write (mem env) (extend1 env) (clock_at env k) openFile buffer amountRead;
        copy_loop fuel' (k + 4) (drop (Z.to_nat TransferSize) fp) openFile
    end
  else mret openFile.

(** [Copy]; [from] is the UNIX file, if it can be opened. *)
Definition Copy (from : option (list Z)) (to : list Z) : ST (FS S) () :=
  match from with
  | None => mret ()
  | Some fp =>
      let fileLength := zlen fp in
      created ← Create env to fileLength;
      if (negb created : bool) then mret () else
      openFile ← Open env to;
      match openFile with
      | None => lift (Stop AssertFailed)
      | Some openFile =>
          openFile ← copy_loop (length fp) 1000 fp openFile;
          OpenFile_delete openFile
      end
  end.

(** The loop of [Print]: the characters it prints. *)
Fixpoint print_loop (fuel : nat) (k : Z) (openFile : OpenFile) : ST (FS S) (list Z * OpenFile) :=
  '(amountRead, buffer, openFile) ← Read (mem env) (clock env k) openFile TransferSize;
  if (amountRead >? 0 : bool) then
    match fuel with
    | O => lift (Stop Undefined)
    | Datatypes.S fuel' =>
        '(rest, openFile) ← print_loop fuel' (k + 1) openFile;
        mret (take (Z.to_nat amountRead) buffer ++ rest, openFile)
    end
  else mret ([], openFile).

(** [Print]: nothing if the file cannot be opened.  The length of the file bounds the rounds. *)
Definition Print (name : list Z) : ST (FS S) (option (list Z)) :=
  openFile ← Open env name;
  match openFile with
  | None => mret None
  | Some openFile =>
      '(printed, openFile) ← print_loop (Z.to_nat (FileLength (hdr openFile))) 2000 openFile;
      OpenFile_delete openFile;;
      mret (Some printed)
  end.

(** *** The performance test *)

(** The loop of [FileWrite], for [n] more chunks; [false]: a write failed. *)
Fixpoint write_chunks (n : nat) (k : Z) (openFile : OpenFile) : ST (FS S) (bool * OpenFile) :=
  match n with
  | O => mret (true, openFile)
  | Datatypes.S n' =>
      '(numBytes, openFile) ← Write (mem env) (extend1 env) (clock_at env k) openFile Contents ContentSize;
      if (numBytes <? 10 : bool) then mret (false, openFile) else write_chunks n' (k + 4) openFile
  end.
Definition FileWrite : ST (FS S) (list perf_message) :=
  created ← Create env FileName 0;
  if (negb created : bool) then mret [CantCreate] else
  openFile ← Open env FileName;
  match openFile with
  | None => mret [CantOpen]
  | Some openFile =>
      '(ok, openFile) ← write_chunks (Z.to_nat (FileSize / ContentSize)) 3000 openFile;
      OpenFile_delete openFile;;
      mret (if (ok : bool) then [] else [CantWrite])
  end.

Fixpoint read_chunks (n : nat) (k : Z) (openFile : OpenFile) : ST (FS S) (bool * OpenFile) :=
  match n with
  | O => mret (true, openFile)
  | Datatypes.S n' =>
      '(numBytes, buffer, openFile) ← Read (mem env) (clock env k) openFile ContentSize;
      if ((numBytes <? 10) || negb (bool_decide (buffer = Contents)) : bool) then mret (false, openFile)
      else read_chunks n' (k + 1) openFile
  end.
Definition FileRead : ST (FS S) (list perf_message) :=
  openFile ← Open env FileName;
  match openFile with
  | None => mret [CantOpen]
  | Some openFile =>
      '(ok, openFile) ← read_chunks (Z.to_nat (FileSize / ContentSize)) 30000 openFile;
      OpenFile_delete openFile;;
      mret (if (ok : bool) then [] else [CantRead])
  end.

Definition PerformanceTest (fuel : nat) : ST (FS S) (list perf_message) :=
  m1 ← FileWrite;
  m2 ← FileRead;
  removed ← Remove env fuel FileName;
  mret (m1 ++ m2 ++ (if (removed : bool) then [] else [CantRemove])).

(** *** The exercises: which calls succeed *)
Definition ex4_test (fuel : nat) : ST (FS S) (list bool) :=
  b1 ← Create env (text "/testdir") (-1);
  b2 ← Create env (text "/testdir/test.txt") 6000;
  b3 ← Remove env fuel (text "/testdir/test.txt");
  b4 ← Create env (text "/testdir/test1.txt") 100;
  b5 ← Create env (text "/testdir/test2.txt") 100;
  b6 ← Remove env fuel (text "/testdir");
  mret [b1; b2; b3; b4; b5; b6].

(** The buffer of the exercises: digits, and a final 0. *)
Definition digits (n : Z) : list Z := ((λ i, 48 + i mod 10) <$> seqZ 0 (n - 1)) ++ [0].

Definition ex5_test : ST (FS S) (bool * Z) :=
  created ← Create env (text "/test.txt") 600;
  sec ← GetHeaderSector env (text "/test.txt");
  opf ← OpenFile_new (new_hdr env) sec;
  '(written, opf) ← WriteAt (mem env) (extend1 env) (clock_at env 4000) opf (digits 6000) 6000 300;
  OpenFile_delete opf;;
  mret (created, written).

(** [ReaderFunc] and [WriterFunc], as one thread runs them. *)
Fixpoint read_rounds (n : nat) (k : Z) (opf : OpenFile) : ST (FS S) OpenFile :=
  match n with
  | O => mret opf
  | Datatypes.S n' => '(_, _, opf) ← ReadAt (mem env) (clock env k) opf 200 200; read_rounds n' (k + 1) opf
  end.
Definition ReaderFunc : ST (FS S) () :=
  sec ← GetHeaderSector env (text "/test.txt");
  opf ← OpenFile_new (new_hdr env) sec;
  opf ← read_rounds 10 5000 opf;
  OpenFile_delete opf.

Fixpoint write_rounds (n : nat) (k : Z) (opf : OpenFile) : ST (FS S) OpenFile :=
  match n with
  | O => mret opf
  | Datatypes.S n' =>
      '(_, opf) ← WriteAt (mem env) (extend1 env) (clock_at env k) opf (digits 600) 200 200;
      write_rounds n' (k + 4) opf
  end.
Definition WriterFunc : ST (FS S) () :=
  sec ← GetHeaderSector env (text "/test.txt");
  opf ← OpenFile_new (new_hdr env) sec;
  opf ← write_rounds 10 6000 opf;
  OpenFile_delete opf.

Definition ex3_test (fuel : nat) : ST (FS S) (list bool) :=
  b1 ← Create env (text "/test.txt") 6000;
  b2 ← Remove env fuel (text "/test.txt");
  mret [b1; b2].

(** [ex2_test] fetches the header of the free map, which it prints. *)
Definition ex2_test : ST (FS S) FileHeader := FetchFrom 0 (new_hdr env).
End programs.

(** ** [Copy] and [Print] *)
Section proofs.
Context {S : Type} `{Sst : SectorStore S, Slaws : !SectorStoreLaws S}.
Context (env : Env) (HE : env_ok env).
Implicit Types (fs : FS S) (c : Z → list Z) (o : Z → Z) (r : Z → rwstate) (bm : BitMap) (H : gset Z) (T : tree).

Lemma write_at_front (b dn buf : list Z) :
  take (length dn) b = dn → zlen dn + zlen buf ≤ zlen b →
  take (length (dn ++ buf)) (write_at b (zlen dn) buf) = dn ++ buf ∧ zlen (write_at b (zlen dn) buf) = zlen b.
Proof.
  intros Hd Hl. split; [|apply write_at_length; pose proof (zlen_nonneg dn); lia].
  unfold write_at, zlen in *. rewrite Nat2Z.id, Hd. rewrite app_assoc. by rewrite take_app_length.
Qed.

(** [dn] has been written and [fp] is still to be written. *)
Lemma copy_loop_ok fuel k fp dn f fs c o r bm H T n :
  fs_ok fs c o r bm H T → n ∈ H → n ≠ FreeMapSector → T !! n = None →
  headerSector f = n → hdr f = decode (c n) → seekPosition f = zlen dn →
  take (length dn) (bytes_at c n) = dn → zlen (bytes_at c n) = zlen dn + zlen fp → (length fp ≤ fuel)%nat →
  ∃ f' fs' c', copy_loop env fuel k fp f fs = Ok (f', fs') ∧ fs_ok fs' c' o r bm H T ∧ headerSector f' = n ∧
    bytes_at c' n = dn ++ fp ∧ ∀ q, q ∈ H → q ≠ n → kept c c' q.
Proof using HE.
  revert k fp dn f fs c. induction fuel as [|fuel IH]; intros k fp dn f fs c HF Hn Hn0 HT Hf Hh Hsk Hdn Hlen Hfu;
    (destruct fp as [|x fp];
      [exists f, fs, c; split_and!; try done;
        [rewrite app_nil_r, <-Hdn; rewrite take_ge; [done|]; unfold zlen in *; cbn in Hlen; lia
        |intros q Hq _; eapply visited_refl; [apply HF|done]]|]); [cbn in Hfu; lia|].
  set (buf := take (Z.to_nat TransferSize) (x :: fp)). set (rest := drop (Z.to_nat TransferSize) (x :: fp)).
  assert (buf ++ rest = x :: fp) as Hsplit by apply take_drop.
  assert (0 < zlen buf) as Hpos by (unfold buf, zlen; rewrite length_take; cbn [length]; unfold TransferSize; lia).
  assert (zlen buf + zlen rest = zlen (x :: fp)) as Hsum by (by rewrite <-Hsplit, zlen_app).
  pose proof (zlen_nonneg dn). pose proof (zlen_nonneg rest). pose proof (small_file _ _ _ _ _ _ _ n HF Hn) as Hsm.
  destruct (write_range_tree env HE (clock_at env k) fs c o r bm H T f n buf (zlen buf) (zlen dn))
    as (f1 & fs1 & c1 & E1 & HF1 & [Hf1 Hs1] & Hh1 & Hb1 & HK1); try done; try lia.
  rewrite read_at_all in Hb1 by done.
  destruct (write_at_front (bytes_at c n) dn buf Hdn ltac:(lia)) as [Hw1 Hw2]. rewrite <-Hb1 in Hw1, Hw2.
  destruct (IH (k + 4) rest (dn ++ buf) (Seek (seekPosition f1 + zlen buf) f1) fs1 c1)
    as (f2 & fs2 & c2 & E2 & HF2 & Hf2 & Hb2 & HK2); try done.
  { cbn. by rewrite zlen_app, Hs1, Hsk. } { rewrite Hw2, zlen_app. lia. }
  { unfold zlen in *. cbn in *. lia. }
  exists f2, fs2, c2. split_and!; try done.
  - cbn [copy_loop]. fold buf rest. destruct (Z.gtb_spec (zlen buf) 0); [|lia].
    assert (Write (mem env) (extend1 env) (clock_at env k) f buf (zlen buf) fs =
      Ok ((zlen buf, Seek (seekPosition f1 + zlen buf) f1), fs1)) as EW.
    { unfold Write. rewrite Hsk. rewrite <-(WriteAt_inside (mem env) (extend1 env)) in E1.
      - by step E1.
      - lia.
      - lia.
      - rewrite Hh, <-bytes_at_length by apply (dk_file _ _ _ (bs_disk _ _ _ _ _ _ (fk_base _ _ _ _ _ _ _ HF)) n Hn). lia. }
    step EW. exact E2.
  - by rewrite Hb2, <-app_assoc, Hsplit.
  - intros q Hq Hqn. eapply kept_trans; [by apply HK1|by apply HK2].
Qed.

Lemma print_loop_ok fuel k f fs c o r bm H T n :
  fs_ok fs c o r bm H T → n ∈ H → n ≠ FreeMapSector → headerSector f = n → hdr f = decode (c n) →
  0 ≤ seekPosition f ≤ zlen (bytes_at c n) → zlen (bytes_at c n) - seekPosition f ≤ Z.of_nat fuel →
  ∃ f' fs' c', print_loop env fuel k f fs = Ok ((drop (Z.to_nat (seekPosition f)) (bytes_at c n), f'), fs') ∧
    fs_ok fs' c' o r bm H T ∧ visited c c' H ∧ headerSector f' = n.
Proof using HE.
  revert k f fs c. induction fuel as [|fuel IH]; intros k f fs c HF Hn Hn0 Hf Hh Hsk Hfu;
    pose proof (small_file _ _ _ _ _ _ _ n HF Hn) as Hsm;
    pose proof (bytes_at_length c n (dk_file _ _ _ (bs_disk _ _ _ _ _ _ (fk_base _ _ _ _ _ _ _ HF)) n Hn)) as Hbl;
    (destruct (decide (seekPosition f = zlen (bytes_at c n))) as [He|Hne];
      [exists (Seek (seekPosition f + 0) f), fs, c; split; [|split_and!; try done; eapply visited_refl, HF];
       cbn [print_loop]; unfold Read;
       erewrite ST_step by (erewrite ST_step by (apply ReadAt_none; right; rewrite Hh; lia); reflexivity);
       cbn; rewrite drop_ge; [done|unfold zlen in *; lia]|]); [lia|].
  set (pos := seekPosition f) in *. set (cnt := Z.min TransferSize (zlen (bytes_at c n) - pos)).
  assert (0 < cnt ≤ zlen (bytes_at c n) - pos) as Hc by (unfold cnt, TransferSize; lia).
  destruct (read_tree_ok env HE (clock env k) fs c o r bm H T f n TransferSize pos HF Hn Hn0 Hf Hh)
    as (f1 & fs1 & c1 & E1 & HF1 & HV1 & [Hf1 Hs1] & Hh1); try (unfold TransferSize; lia). fold cnt in E1.
  pose proof (proj2 (HV1 n Hn)) as Hb1.
  destruct (IH (k + 1) (Seek (seekPosition f1 + cnt) f1) fs1 c1 HF1 Hn Hn0 Hf1 Hh1) as (f2 & fs2 & c2 & E2 & HF2 & HV2 & Hf2).
  { cbn. rewrite Hb1, Hs1. fold pos. lia. } { cbn. rewrite Hb1, Hs1. fold pos. lia. }
  exists f2, fs2, c2. split_and!; try done; [|by eapply visited_trans].
  cbn [print_loop]. unfold Read. fold pos.
  erewrite ST_step by (erewrite ST_step by exact E1; reflexivity). cbv beta iota.
  destruct (Z.gtb_spec cnt 0); [|lia]. step E2. cbn [Seek seekPosition]. rewrite Hb1, Hs1. fold pos.
  unfold mret, ST_ret. do 3 f_equal. unfold read_at. rewrite take_take, Nat.min_id, Z2Nat.inj_add by lia.
  rewrite <-drop_drop. apply take_drop.
Qed.

Lemma Print_ok fs c o r bm H T name p m n b :
  fs_ok fs c o r bm H T → c_string name → in_dir T name p m → m !! cut name = Some (n, b) →
  ∃ fs' c', Print env name fs = Ok (Some (bytes_at c n), fs') ∧ fs_ok fs' c' o r bm H T ∧ visited c c' H.
Proof using HE.
  intros HF Hs Hin Hn. destruct (tr_entry _ _ _ (fk_tree _ _ _ _ _ _ _ HF) p m _ n b (proj2 Hin) Hn) as (HnH & Hn0 & _).
  destruct (Open_ok env HE fs c o r bm H T name p m HF Hs Hin) as (fs1 & c1 & E1 & HF1 & HV1). rewrite Hn in E1, HF1.
  pose proof (proj2 (HV1 n HnH)) as Hb1.
  pose proof (bytes_at_length c1 n (dk_file _ _ _ (bs_disk _ _ _ _ _ _ (fk_base _ _ _ _ _ _ _ HF1)) n HnH)) as Hl1.
  pose proof (zlen_nonneg (bytes_at c1 n)).
  destruct (print_loop_ok (Z.to_nat (FileLength (decode (c1 n)))) 2000 (file_at c1 n) fs1 c1 _ r bm H T n HF1 HnH Hn0 eq_refl eq_refl)
    as (f2 & fs2 & c2 & E2 & HF2 & HV2 & Hf2); [cbn; lia|cbn; lia|].
  destruct (close_tree_ok fs2 c2 o r bm H T f2) as (fs3 & E3 & HF3); rewrite ?Hf2; try done.
  exists fs3, c2. split_and!; try done; [|by eapply visited_trans].
  unfold Print. step E1. cbn [fmap option_fmap option_map]. cbv beta iota. cbn [file_at hdr] in *. step E2. step E3.
  unfold mret, ST_ret. by rewrite <-Hb1.
Qed.

Lemma Copy_ok fs c o r bm H T name p m data :
  fs_ok fs c o r bm H T → c_string name → in_dir T name p m → zlen data ≤ MaxFileSize →
  m !! cut name = None → Z.of_nat (size m) < NumDirEntries → fits env (zlen data) bm →
  ∃ sec fs' c' bm', Copy env (Some data) name fs = Ok ((), fs') ∧ sec ∉ H ∧
    fs_ok fs' c' o r bm' ({[sec]} ∪ H) (grown T p m (cut name) sec false) ∧ bytes_at c' sec = data ∧
    (∀ q, q ∈ H → q ≠ FreeMapSector → q ≠ p → kept c c' q) ∧
    in_dir (grown T p m (cut name) sec false) name p (<[cut name := (sec, false)]> m).
Proof using HE.
  intros HF Hs Hin Hsz Hnone Hroom Hfit.
  assert (0 ≤ zlen data < 2 ^ 31) as Hsz' by (pose proof (zlen_nonneg data); consts; lia).
  destruct (Create_file_done env HE fs c o r bm H T name p m _ HF Hs Hin Hsz' Hnone Hroom Hfit)
    as (sec & fs1 & c1 & bm1 & E1 & _ & Hsec & HF1 & Hl & _ & HK1 & Hin1).
  destruct (tr_entry _ _ _ (fk_tree _ _ _ _ _ _ _ HF1) p _ _ sec false (proj2 Hin1) (lookup_insert_eq _ _ _)) as (HsH & Hs0 & _ & Hsd).
  assert (grown T p m (cut name) sec false !! sec = None) as HTs.
  { destruct (grown _ _ _ _ _ _ !! sec) eqn:E; [|done]. assert (false = true) by (apply Hsd; eauto). done. }
  destruct (Open_ok env HE fs1 c1 o r bm1 _ _ name p _ HF1 Hs Hin1) as (fs2 & c2 & E2 & HF2 & HV2).
  rewrite lookup_insert_eq in E2, HF2.
  destruct (copy_loop_ok (length data) 1000 data [] (file_at c2 sec) fs2 c2 _ r bm1 _ _ sec HF2 HsH Hs0 HTs eq_refl eq_refl eq_refl)
    as (f3 & fs3 & c3 & E3 & HF3 & Hf3 & Hb3 & HK3); try done.
  { by rewrite (proj2 (HV2 sec HsH)). }
  destruct (close_tree_ok fs3 c3 o r bm1 ({[sec]} ∪ H) (grown T p m (cut name) sec false) f3) as (fs4 & E4 & HF4); [rewrite Hf3; exact HF3|by rewrite Hf3|].
  exists sec, fs4, c3, bm1. split_and!; try done.
  - unfold Copy. step E1. cbn [negb]. step E2. cbn [fmap option_fmap option_map]. cbv beta iota. step E3. exact E4.
  - intros q Hq Hq0 Hqp. assert (q ∈ ({[sec]} ∪ H : gset Z)) as Hq' by (by apply elem_of_union_r).
    eapply kept_trans; [by apply HK1|]. eapply kept_trans; [by apply HV2|]. apply HK3; [done|by intros ->].
Qed.

(** C9: a UNIX file that [Copy] brings in under a new name, to a directory with a free entry
    and a disk that [fits] it, is printed by [Print] byte for byte, in every directory of
    the tree and whatever its length up to the largest file, 0 included: both programs run
    to their end, no other file changes, and no file is left open. *)
Theorem Copy_Print_roundtrip fs c o r bm H T name p m data :
  fs_ok fs c o r bm H T → c_string name → in_dir T name p m → zlen data ≤ MaxFileSize →
  m !! cut name = None → Z.of_nat (size m) < NumDirEntries → fits env (zlen data) bm →
  ∃ sec fs1 fs2 c2 bm2, Copy env (Some data) name fs = Ok ((), fs1) ∧ Print env name fs1 = Ok (Some data, fs2) ∧
    fs_ok fs2 c2 o r bm2 ({[sec]} ∪ H) (grown T p m (cut name) sec false) ∧
    ∀ q, q ∈ H → q ≠ FreeMapSector → q ≠ p → kept c c2 q.
Proof using HE.
  intros HF Hs Hin Hsz Hnone Hroom Hfit.
  destruct (Copy_ok fs c o r bm H T name p m data HF Hs Hin Hsz Hnone Hroom Hfit)
    as (sec & fs1 & c1 & bm1 & E1 & _ & HF1 & Hb1 & HK1 & Hin1).
  destruct (Print_ok fs1 c1 o r bm1 _ _ name p _ sec false HF1 Hs Hin1 (lookup_insert_eq _ _ _)) as (fs2 & c2 & E2 & HF2 & HV2).
  exists sec, fs1, fs2, c2, bm1. rewrite Hb1 in E2. split_and!; try done. intros q Hq Hq0 Hqp.
  eapply kept_trans; [by apply HK1|]. apply HV2. by apply elem_of_union_r.
Qed.
End proofs.

Lemma Copy_Print_roundtrip_witness :
  ∃ fs fs1 fs2 : FS SynchDisk, Copy example_env (Some (digits 35)) name_f fs = Ok ((), fs1) ∧
    Print example_env name_f fs1 = Ok (Some (digits 35), fs2).
Proof.
  destruct example_root as (fs & c & o & r & bm & HF & Hsz & _). exists fs.
  destruct (fk_map _ _ _ _ _ _ _ HF) as (WF & Hb & _).
  destruct (Copy_Print_roundtrip example_env example_env_ok fs c o r bm _ _ name_f DirectorySector ∅ (digits 35) HF)
    as (sec & fs1 & fs2 & _ & _ & E1 & E2 & _).
  - by repeat constructor.
  - by apply in_root; [|apply lookup_singleton_eq].
  - done.
  - done.
  - done.
  - apply (fits_small example_env _ bm eq_refl WF Hb); [lia|done].
  - exists fs1, fs2. exact (conj E1 E2).
Defined.

(** ** The other programs, on the formatted disk *)

(** The performance test cannot succeed: the file has no bytes, so the first write is at its
    end and writes nothing, and the first read finds nothing; the file is removed. *)
Theorem performance_test_fails :
  value_of (PerformanceTest example_env 0) = Some [CantWrite; CantRead].
Proof. vm_compute. reflexivity. Qed.

(** All calls of the exercises succeed; the last one of [ex4_test] removes a directory that
    is not empty, and [ex5_test] writes 6000 bytes from the middle of a file of 600. *)
Theorem exercises_succeed :
  value_of (ex3_test example_env 0) = Some [true; true] ∧
  value_of (ex4_test example_env 1) = Some [true; true; true; true; true; true] ∧
  value_of (ex5_test example_env) = Some (true, 6000).
Proof. split_and!; vm_compute; reflexivity. Qed.

(** A reader and a writer of "/test.txt" one after the other, and the file afterwards: the
    writer has put its first 200 bytes at 200. *)
Theorem reader_after_writer :
  value_of (Create example_env (text "/test.txt") 600;; WriterFunc example_env;; ReaderFunc example_env;;
            Print example_env (text "/test.txt")) =
    Some (Some (replicate 200 0 ++ take 200 (digits 600) ++ replicate 200 0)).
Proof. vm_compute. reflexivity. Qed.
