(* ===== verification/NachosList.v ===== *)
(** * Singly linked lists: threads/list.cc

    A [List] keeps pointers into a heap of [ListElement]s.  The operations are
    translated with the pointers they follow and overwrite; [is_list] relates a list
    object to the sequence of keys and items it stands for, and every operation is
    proved to act on that sequence and on no cell of another list. *)

From stdpp Require Import sorting.
From S2P Require Import Prelude.

Definition addr : Type := positive.

(** Class [ListElement]; a null pointer is [None]. *)
Record ListElement (A : Type) := mkElement {
  next : option addr;
  key : Z;
  item : A
}.
Arguments mkElement {A} _ _ _.
Arguments next {A} _.
Arguments key {A} _.
Arguments item {A} _.

(** Class [List]. *)
Record List := mkList {
  first : option addr;
  last : option addr;
  numInList : Z
}.

Section operations.
Context {A : Type} `{EqDecision A}.
#[local] Abbreviation heap := (gmap addr (ListElement A)).
#[local] Abbreviation M := (ST (List * heap)).

(** Reading and writing through a pointer. *)
Definition deref (p : option addr) : M (ListElement A) := λ '(L, h),
  match p ≫= (h !!.) with Some e => Ok (e, (L, h)) | None => Stop Undefined end.
Definition set_next (p : option addr) (q : option addr) : M () := λ '(L, h),
  match p with
  | Some a =>
      match h !! a with
      | Some e => Ok ((), (L, <[a := mkElement q (key e) (item e)]> h))
      | None => Stop Undefined
      end
  | None => Stop Undefined
  end.
(** [new ListElement(item, sortKey)] at an address that is not in use. *)
Definition new_element (x : A) (k : Z) : M (option addr) := λ '(L, h),
  let a := fresh (dom h) in Ok (Some a, (L, <[a := mkElement None k x]> h)).
Definition delete_element (p : option addr) : M () := λ '(L, h),
  match p with Some a => Ok ((), (L, delete a h)) | None => Ok ((), (L, h)) end.
Definition this : M List := λ '(L, h), Ok (L, (L, h)).
Definition set_this (f : List → List) : M () := λ '(L, h), Ok ((), (f L, h)).

Definition set_first (p : option addr) : M () := set_this (λ L, mkList p (last L) (numInList L)).
Definition set_last (p : option addr) : M () := set_this (λ L, mkList (first L) p (numInList L)).
Definition add_num (d : Z) : M () := set_this (λ L, mkList (first L) (last L) (numInList L + d)).

Definition List_new : List := mkList None None 0.
Definition IsEmpty : M bool := L ← this; mret (bool_decide (first L = None)).
Definition NumInList : M Z := L ← this; mret (numInList L).

Definition Append (x : A) : M () :=
  element ← new_element x 0;
  e ← IsEmpty;
  (if (e : bool) then set_first element;; set_last element
   else L ← this; set_next (last L) element;; set_last element);;
  add_num 1.

Definition Prepend (x : A) : M () :=
  element ← new_element x 0;
  e ← IsEmpty;
  (if (e : bool) then set_first element;; set_last element
   else L ← this; set_next element (first L);; set_first element);;
  add_num 1.

(** The loop of [SortedInsert] from [ptr]: whether the element was linked in.  A
    list has at most as many elements as the heap has cells, which bounds the loop. *)
Fixpoint insert_loop (fuel : nat) (element ptr : option addr) (sortKey : Z) : M bool :=
  match fuel with
  | O => λ _, Stop Undefined
  | S fuel' =>
      p ← deref ptr;
      match next p with
      | None => mret false
      | Some _ =>
          n ← deref (next p);
          if (sortKey <? key n : bool) then
            set_next element (next p);; set_next ptr element;; add_num 1;; mret true
          else insert_loop fuel' element (next p) sortKey
      end
  end.

Definition heap_size : M nat := λ '(L, h), Ok (size h, (L, h)).

Definition SortedInsert (x : A) (sortKey : Z) : M () :=
  element ← new_element x sortKey;
  e ← IsEmpty;
  if (e : bool) then set_first element;; set_last element;; add_num 1
  else
    L ← this;
    f ← deref (first L);
    if (sortKey <? key f : bool) then
      set_next element (first L);; set_first element;; add_num 1
    else
      fuel ← heap_size;
      linked ← insert_loop fuel element (first L) sortKey;
      if (linked : bool) then mret () else
      set_next (last L) element;; set_last element;; add_num 1.

(** [SortedRemove]: the item and its key, [None] for [NULL]. *)
Definition SortedRemove : M (option (Z * A)) :=
  e ← IsEmpty;
  if (e : bool) then mret None else
  L ← this;
  element ← deref (first L);
  (if bool_decide (first L = last L) then set_first None;; set_last None
   else set_first (next element));;
  delete_element (first L);;
  add_num (-1);;
  mret (Some (key element, item element)).

(** [List::Remove()]. *)
Definition Remove : M (option A) :=
  r ← SortedRemove;
  mret (snd <$> r).

(** The loop of [List::Remove(item)]: whether the item was found. *)
Fixpoint remove_loop (fuel : nat) (x : A) (prev ptr : option addr) : M bool :=
  match fuel with
  | O => λ _, Stop Undefined
  | S fuel' =>
      match ptr with
      | None => mret false
      | Some _ =>
          p ← deref ptr;
          if bool_decide (x = item p) then
            set_next prev (next p);;
            (if bool_decide (next p = None) then set_last prev else mret ());;
            delete_element ptr;;
            add_num (-1);;
            mret true
          else remove_loop fuel' x ptr (next p)
      end
  end.

Definition Remove_item (x : A) : M () :=
  L ← this;
  f ← deref (first L);
  if bool_decide (x = item f) then
    removed ← Remove;
    lift (ASSERT (bool_decide (removed = Some x)))
  else
    fuel ← heap_size;
    found ← remove_loop fuel x (first L) (next f);
    lift (ASSERT found).

(** [List::~List]: the elements are removed one by one. *)
Fixpoint List_delete (fuel : nat) : M () :=
  match fuel with
  | O => λ _, Stop Undefined
  | S fuel' => r ← Remove; match r with Some _ => List_delete fuel' | None => mret () end
  end.

(** [Mapcar] with a function that acts on a state [T] of the caller. *)
Fixpoint mapcar_loop {T} (fuel : nat) (func : A → T → result T) (ptr : option addr) (t : T) : M T :=
  match fuel with
  | O => λ _, Stop Undefined
  | S fuel' =>
      match ptr with
      | None => mret t
      | Some _ =>
          p ← deref ptr;
          t' ← lift (func (item p) t);
          mapcar_loop fuel' func (next p) t'
      end
  end.
Definition Mapcar {T} (func : A → T → result T) (t : T) : M T :=
  L ← this;
  fuel ← heap_size;
  mapcar_loop (S fuel) func (first L) t.
End operations.

(** ** The sequence a list stands for *)

Section sequences.
Context {A : Type}.

(** What [SortedInsert] means on sequences: before the first larger key. *)
Fixpoint sorted_insert (k : Z) (x : A) (l : list (Z * A)) : list (Z * A) :=
  match l with
  | [] => [(k, x)]
  | (k', x') :: l' =>
      if k <? k' then (k, x) :: (k', x') :: l' else (k', x') :: sorted_insert k x l'
  end.
Definition by_key (a b : Z * A) : Prop := a.1 ≤ b.1.
#[local] Abbreviation ordered := (StronglySorted by_key).

Lemma sorted_insert_perm k x l : sorted_insert k x l ≡ₚ (k, x) :: l.
Proof.
  induction l as [|[k' x'] l IH]; cbn; [done|]. case_match; [done|].
  rewrite IH. apply Permutation_swap.
Qed.
Lemma filter_all (P : Z * A → Prop) `{!∀ e, Decision (P e)} l : Forall P l → filter P l = l.
Proof. induction 1 as [|e l He _ IH]; [done|]. by rewrite filter_cons_True, IH. Qed.
Lemma filter_none (P : Z * A → Prop) `{!∀ e, Decision (P e)} l :
  Forall (λ e, ¬ P e) l → filter P l = [].
Proof. induction 1 as [|e l He _ IH]; [done|]. by rewrite filter_cons_False, IH. Qed.

(** In an ordered sequence the new element follows those of equal key. *)
Lemma sorted_insert_split k x l :
  ordered l →
  sorted_insert k x l = filter (λ e, e.1 ≤ k) l ++ (k, x) :: filter (λ e, k < e.1) l.
Proof.
  induction 1 as [|[k' x'] l HS IH HF]; [done|].
  cbn [sorted_insert]. destruct (Z.ltb_spec k k').
  - assert (Forall (λ e, k < e.1) ((k', x') :: l)) as HA.
    { constructor; [done|]. eapply Forall_impl; [|exact HF].
      intros [] H1; unfold by_key in H1; cbn in *; lia. }
    rewrite (filter_all _ _ HA), filter_none; [done|].
    eapply Forall_impl; [|exact HA]. cbn. lia.
  - rewrite filter_cons_True, filter_cons_False by (cbn; lia). by rewrite IH.
Qed.
Lemma sorted_insert_ordered k x l : ordered l → ordered (sorted_insert k x l).
Proof.
  induction 1 as [|[k' x'] l HS IH HF]; cbn [sorted_insert]; [repeat constructor|].
  destruct (Z.ltb_spec k k').
  - constructor; [by constructor|]. constructor; [unfold by_key; cbn; lia|].
    eapply Forall_impl; [|exact HF]. unfold by_key. cbn. lia.
  - constructor; [done|]. rewrite sorted_insert_perm. constructor; [|done].
    unfold by_key; cbn; lia.
Qed.

(** [h] holds the elements of [l] at the addresses [ps], linked up to [q]. *)
Definition hd (q : option addr) (ps : list addr) : option addr :=
  match ps with [] => q | p :: _ => Some p end.
Fixpoint seg (h : gmap addr (ListElement A)) (ps : list addr) (l : list (Z * A))
    (q : option addr) : Prop :=
  match ps, l with
  | [], [] => True
  | p :: ps', (k, x) :: l' => h !! p = Some (mkElement (hd q ps') k x) ∧ seg h ps' l' q
  | _, _ => False
  end.

(** The representation invariant of a list object. *)
Record is_list (ps : list addr) (L : List) (h : gmap addr (ListElement A))
    (l : list (Z * A)) : Prop := {
  il_seg : seg h ps l None;
  il_nodup : NoDup ps;
  il_first : first L = hd None ps;
  il_last : last L = list.last ps;
  il_num : numInList L = zlen l
}.

(** What an operation on the list at [ps] may do to the heap: other cells stay, new
    cells are fresh. *)
Definition confined (ps ps' : list addr) (h h' : gmap addr (ListElement A)) : Prop :=
  (∀ q, q ∈ dom h → q ∉ ps → h' !! q = h !! q) ∧ (∀ q, q ∈ ps' → q ∈ ps ∨ q ∉ dom h).

Lemma seg_length h ps l q : seg h ps l q → length ps = length l.
Proof. revert l. induction ps as [|p ps IH]; intros [|[k x] l] H; try done. cbn. f_equal. destruct H as [_ H]. by apply IH. Qed.
Lemma seg_dom h ps l q p : seg h ps l q → p ∈ ps → p ∈ dom h.
Proof.
  revert l. induction ps as [|p' ps IH]; intros [|[k x] l] H Hp; try done; [set_solver|].
  destruct H as [H1 H2]. apply elem_of_cons in Hp as [->|Hp]; [by apply elem_of_dom_2 in H1|by eapply IH].
Qed.
Lemma seg_ext h h' ps l q : (∀ p, p ∈ ps → h' !! p = h !! p) → seg h ps l q → seg h' ps l q.
Proof.
  revert l. induction ps as [|p ps IH]; intros [|[k x] l] HE H; try done. destruct H as [H1 H2].
  split; [by rewrite HE by set_solver|]. apply IH; [|done]. set_solver.
Qed.
Lemma seg_app h ps1 ps2 l1 l2 q :
  length ps1 = length l1 →
  seg h (ps1 ++ ps2) (l1 ++ l2) q ↔ seg h ps1 l1 (hd q ps2) ∧ seg h ps2 l2 q.
Proof.
  revert l1. induction ps1 as [|p ps1 IH]; intros [|[k x] l1] HL; try done; [cbn; tauto|].
  cbn. rewrite IH by (cbn in HL; lia). destruct ps1; cbn; tauto.
Qed.
Lemma seg_insert h ps l q p e : p ∉ ps → seg h ps l q → seg (<[p := e]> h) ps l q.
Proof. intros Hp. apply seg_ext. intros p' Hp'. apply lookup_insert_ne. set_solver. Qed.
Lemma seg_delete h ps l q p : p ∉ ps → seg h ps l q → seg (delete p h) ps l q.
Proof. intros Hp. apply seg_ext. intros p' Hp'. apply lookup_delete_ne. set_solver. Qed.
Lemma seg_size h ps l q : seg h ps l q → NoDup ps → (length ps ≤ size h)%nat.
Proof.
  intros HS HN. rewrite <-size_dom, <-(size_list_to_set (C:=gset addr) ps) by done.
  apply subseteq_size. intros p Hp%elem_of_list_to_set. by eapply seg_dom.
Qed.

(** Lists on disjoint cells do not disturb each other. *)
Lemma is_list_confined ps ps' qs L h h' l :
  confined ps ps' h h' → is_list qs L h l → (∀ q, q ∈ qs → q ∉ ps) →
  is_list qs L h' l ∧ ∀ q, q ∈ qs → q ∉ ps'.
Proof.
  intros [HC HN] [HS ? ? ? ?] HD. split.
  - split; try done. eapply seg_ext; [|done]. intros q Hq. apply HC; [by eapply seg_dom|by apply HD].
  - intros q Hq Hq'. apply HN in Hq' as [?|Hq']; [by eapply HD|]. apply Hq'. by eapply seg_dom.
Qed.

(** Linking a cell behind the last one. *)
Lemma seg_snoc h ps l pl e k x :
  seg h ps l None → NoDup ps → list.last ps = Some pl → e ∉ ps →
  h !! e = Some (mkElement None k x) →
  ∃ el, h !! pl = Some el ∧
    seg (<[pl := mkElement (Some e) (key el) (item el)]> h) (ps ++ [e]) (l ++ [(k, x)]) None.
Proof.
  intros HS HN Hl He Hee. pose proof (seg_length _ _ _ _ HS) as HL.
  destruct ps as [|pl' ps _] using rev_ind; [done|]. rewrite last_snoc in Hl. injection Hl as ->.
  destruct l as [|[k0 x0] l _] using rev_ind; [rewrite length_app in HL; cbn in HL; lia|].
  rewrite !length_app in HL. cbn in HL.
  apply seg_app in HS as [HS1 [HS2 _]]; [|lia]. cbn in HS2.
  apply list.NoDup_app in HN as (HN1 & HN2 & _).
  eexists. split; [done|]. cbn. rewrite <-!app_assoc. apply seg_app; [lia|]. cbn. split.
  - apply seg_insert; [|done]. intros Hin. apply (HN2 pl Hin). set_solver.
  - rewrite lookup_insert_eq, lookup_insert_ne by set_solver. done.
Qed.
End sequences.

(** ** Every operation acts on the sequence *)

Section refinement.
Context {A : Type} `{EqDecision A}.
Implicit Types (h : gmap addr (ListElement A)) (l : list (Z * A)).

(** [op], run on a list at [ps], returns [r] and leaves the sequence [l']. *)
Definition acts {R} (op : ST (List * gmap addr (ListElement A)) R) (ps : list addr)
    (L : List) h (r : R) l' : Prop :=
  ∃ ps' L' h', op (L, h) = Ok (r, (L', h')) ∧ is_list ps' L' h' l' ∧ confined ps ps' h h'.

Lemma is_list_empty ps L h l : is_list ps L h l → first L = None ↔ l = [].
Proof.
  intros [HS _ -> _ _]. destruct ps as [|p ps], l as [|[k x] l]; done.
Qed.

(** The state after [new_element]. *)
Lemma seg_alloc h ps l q k x :
  seg h ps l q → NoDup ps →
  let e := fresh (dom h) in
  seg (<[e := mkElement None k x]> h) ps l q ∧ e ∉ ps ∧ e ∉ dom h.
Proof.
  intros HS HN e. assert (e ∉ dom h) as He by apply is_fresh.
  assert (e ∉ ps) by (intros Hin; apply He; by eapply seg_dom).
  split_and!; [by apply seg_insert|done|done].
Qed.

Lemma singleton_ok h k x e n :
  h !! e = Some (mkElement None k x) →
  is_list [e] (mkList (Some e) (Some e) n) h [(k, x)] ↔ n = 1.
Proof. intros He. split; [by intros [_ _ _ _ H]|]. intros ->. split; try done. apply NoDup_singleton. Qed.

Lemma confined_new ps h h' (e : addr) (ps' : list addr) :
  e ∉ dom h → (∀ q, q ∉ ps → q ≠ e → h' !! q = h !! q) → (∀ q, q ∈ ps' → q = e ∨ q ∈ ps) →
  confined ps ps' h h'.
Proof. intros He Hh Hp. split; [intros q Hq Hq'; apply Hh; set_solver|set_solver]. Qed.

(** Linking a new cell to the end of a non-empty list. *)
Lemma snoc_ok ps L h l k x :
  is_list ps L h l → l ≠ [] →
  let e := fresh (dom h) in
  ∃ h', (set_next (last L) (Some e);; set_last (Some e);; add_num 1)
      (L, <[e := mkElement None k x]> h) =
      Ok ((), (mkList (first L) (Some e) (numInList L + 1), h')) ∧
    is_list (ps ++ [e]) (mkList (first L) (Some e) (numInList L + 1)) h' (l ++ [(k, x)]) ∧
    confined ps (ps ++ [e]) h h'.
Proof.
  intros [HS HN Hf Hl Hn] Hne e. destruct (seg_alloc h ps l None k x HS HN) as (HS' & He & Hed).
  fold e in HS', He, Hed. clearbody e.
  destruct (list.last ps) as [pl|] eqn:Hps.
  2:{ apply last_None in Hps as ->. by destruct l as [|[]]. }
  destruct (seg_snoc _ ps l pl e k x HS' HN Hps He) as (el & Hel & HS2);
    [apply lookup_insert_eq|].
  eexists. split; [|split].
  - rewrite Hl. cbn. unfold mbind, ST_bind. cbn. rewrite Hel. reflexivity.
  - split; cbn; [exact HS2| | | |].
    + apply list.NoDup_app. split_and!; [done|set_solver|apply NoDup_singleton].
    + rewrite Hf. by destruct ps.
    + by rewrite last_snoc.
    + rewrite Hn, zlen_app. done.
  - apply (confined_new _ _ _ e); [done| |set_solver]. intros q Hq Hqe.
    rewrite !lookup_insert_ne; [done|done|]. intros ->. apply Hq.
    apply last_Some in Hps as [l' ->]. set_solver.
Qed.

Lemma first_ok ps L h l k x e :
  is_list ps L h l → l ≠ [] → e ∉ ps →
  is_list (e :: ps) (mkList (Some e) (last L) (numInList L + 1))
    (<[e := mkElement (first L) k x]> h) ((k, x) :: l).
Proof.
  intros [HS HN Hf Hl Hn] Hne He. split; cbn.
  - rewrite lookup_insert_eq, Hf. split; [done|]. by apply seg_insert.
  - by apply list.NoDup_cons.
  - done.
  - rewrite Hl. destruct ps; [|done]. by destruct l as [|[]].
  - rewrite Hn. unfold zlen. cbn. lia.
Qed.

Lemma single_acts (h : gmap addr (ListElement A)) ps L k x :
  is_list ps L h [] →
  let e := fresh (dom h) in
  is_list [e] (mkList (Some e) (Some e) (numInList L + 1)) (<[e := mkElement None k x]> h) [(k, x)] ∧
  confined ps [e] h (<[e := mkElement None k x]> h).
Proof.
  intros [_ _ _ _ Hn] e. split.
  - apply singleton_ok; [apply lookup_insert_eq|]. by rewrite Hn.
  - apply (confined_new _ _ _ e); [apply is_fresh| |set_solver]. intros q _ Hq. by apply lookup_insert_ne.
Qed.

Lemma new_element_ok L h x k :
  new_element x k (L, h) = Ok (Some (fresh (dom h)), (L, <[fresh (dom h) := mkElement None k x]> h)).
Proof. done. Qed.
Lemma IsEmpty_ok L h (b : bool) : (first L = None ↔ b = true) → IsEmpty (L, h) = Ok (b, (L, h)).
Proof.
  intros HE. unfold IsEmpty, mbind, ST_bind, this, mret, ST_ret. cbv beta iota.
  do 2 f_equal. destruct b; [by apply bool_decide_true, HE|apply bool_decide_false]. naive_solver.
Qed.
Lemma this_ok L h : this (A:=A) (L, h) = Ok (L, (L, h)).
Proof. done. Qed.
Lemma deref_ok L h p e : h !! p = Some e → deref (Some p) (L, h) = Ok (e, (L, h)).
Proof. intros E. unfold deref. cbn. by rewrite E. Qed.
Lemma set_next_ok L h p e q : h !! p = Some e →
  set_next (Some p) q (L, h) = Ok ((), (L, <[p := mkElement q (key e) (item e)]> h)).
Proof. intros E. unfold set_next. by rewrite E. Qed.

(** The first two steps of every insertion. *)
Ltac insertion b :=
  erewrite ST_step by apply new_element_ok; cbv beta;
  erewrite (ST_step IsEmpty b) by (apply IsEmpty_ok; naive_solver); cbv beta iota.

Lemma Append_ok ps L h l x : is_list ps L h l → acts (Append x) ps L h () (l ++ [(0, x)]).
Proof.
  intros HL. pose proof (is_list_empty _ _ _ _ HL) as HE. unfold Append, acts.
  destruct l as [|e0 l].
  - destruct (single_acts h ps L 0 x HL) as [H1 H2]. do 3 eexists. split; [|split; [exact H1|exact H2]].
    insertion true.
    reflexivity.
  - destruct (snoc_ok ps L h (e0 :: l) 0 x HL) as (h' & HR & HL' & HC); [done|].
    do 3 eexists. split; [|split; [exact HL'|exact HC]].
    insertion false.
    rewrite <-HR. unfold mbind, ST_bind. cbn. destruct (last L); cbn in *; [|done]. by destruct (_ !! _).
Qed.

Lemma Prepend_ok ps L h l x : is_list ps L h l → acts (Prepend x) ps L h () ((0, x) :: l).
Proof.
  intros HL. pose proof (is_list_empty _ _ _ _ HL) as HE. unfold Prepend, acts.
  destruct l as [|e0 l].
  - destruct (single_acts h ps L 0 x HL) as [H1 H2]. do 3 eexists. split; [|split; [exact H1|exact H2]].
    insertion true.
    reflexivity.
  - destruct (seg_alloc h ps (e0 :: l) None 0 x (il_seg _ _ _ _ HL) (il_nodup _ _ _ _ HL)) as (_ & He & Hed).
    do 3 eexists. split; [|split; [exact (first_ok ps L h (e0 :: l) 0 x _ HL ltac:(done) He)|]].
    + insertion false.
      unfold mbind, ST_bind. cbn. rewrite lookup_insert_eq, insert_insert_eq. reflexivity.
    + apply (confined_new _ _ _ (fresh (dom h))); [done| |set_solver].
      intros q _ Hq. by apply lookup_insert_ne.
Qed.

(** The loop of [SortedInsert] behind the cell [p]. *)
Lemma insert_loop_ok fuel h p ps k0 x0 l e k x L :
  seg h (p :: ps) ((k0, x0) :: l) None → NoDup (p :: ps) → e ∉ p :: ps →
  h !! e = Some (mkElement None k x) → (length ps < fuel)%nat →
  (∃ h' ps', insert_loop fuel (Some e) (Some p) k (L, h) =
       Ok (true, (mkList (first L) (last L) (numInList L + 1), h')) ∧
     seg h' (p :: ps') ((k0, x0) :: sorted_insert k x l) None ∧ ps' ≡ₚ e :: ps ∧
     list.last (p :: ps') = list.last (p :: ps) ∧
     ∀ q, q ≠ e → q ∉ p :: ps → h' !! q = h !! q) ∨
  (insert_loop fuel (Some e) (Some p) k (L, h) = Ok (false, (L, h)) ∧
   sorted_insert k x l = l ++ [(k, x)]).
Proof.
  revert p ps k0 x0 l. induction fuel as [|fuel IH]; intros p ps k0 x0 l HS HN He Hee Hfuel; [lia|].
  destruct HS as [Hp HS]. cbn [insert_loop]. step (deref_ok L h p _ Hp). cbn [next].
  destruct ps as [|p2 ps], l as [|[k2 x2] l]; try done; [by right|]. cbn [hd].
  destruct HS as [Hp2 HS]. step (deref_ok L h p2 _ Hp2). cbn [key sorted_insert].
  assert (p ≠ p2) by (apply list.NoDup_cons in HN; set_solver).
  destruct (Z.ltb_spec k k2).
  - left. do 2 eexists. split; [|split; [|split; [reflexivity|split]]].
    + step (set_next_ok L h e _ (Some p2) Hee).
      erewrite ST_step by (apply set_next_ok; rewrite lookup_insert_ne by set_solver; exact Hp).
      reflexivity.
    + cbn. rewrite lookup_insert_eq, !(lookup_insert_ne _ p) by set_solver.
      rewrite lookup_insert_eq, lookup_insert_ne by set_solver. split_and!; try done.
      apply list.NoDup_cons in HN as [? HN]. apply list.NoDup_cons in HN as [? HN].
      do 2 (apply seg_insert; [set_solver|]). done.
    + done.
    + intros q Hq Hq'. rewrite !lookup_insert_ne by set_solver. done.
  - apply list.NoDup_cons in HN as [Hnp HN].
    destruct (IH p2 ps k2 x2 l) as [(h' & ps' & -> & HS' & HP & Hl & Hq)|[-> ->]];
      [by split|done|set_solver|done|cbn in Hfuel; lia| |by right].
    left. exists h', (p2 :: ps'). split_and!; [done| |by rewrite HP, Permutation_swap|by cbn in *|].
    + split; [rewrite Hq by set_solver; exact Hp|exact HS'].
    + intros q ? ?. apply Hq; set_solver.
Qed.

Lemma SortedInsert_ok ps L h l x k :
  is_list ps L h l → acts (SortedInsert x k) ps L h () (sorted_insert k x l).
Proof.
  intros HL. pose proof (is_list_empty _ _ _ _ HL) as HE. unfold SortedInsert, acts.
  destruct l as [|[k0 x0] l].
  { destruct (single_acts h ps L k x HL) as [H1 H2]. do 3 eexists. split; [|split; [exact H1|exact H2]].
    insertion true. reflexivity. }
  destruct (seg_alloc h ps _ None k x (il_seg _ _ _ _ HL) (il_nodup _ _ _ _ HL)) as (HS & He & Hed).
  set (e := fresh (dom h)) in *. insertion false. fold e. step (this_ok L (<[e := mkElement None k x]> h)).
  destruct ps as [|p ps]; [by destruct HS|]. pose proof (il_first _ _ _ _ HL) as Hf. cbn [hd] in Hf. rewrite Hf.
  step (deref_ok L _ p _ (proj1 HS)). cbn [key sorted_insert]. destruct (Z.ltb_spec k k0).
  - do 3 eexists. split; [|split; [exact (first_ok _ L h ((k0, x0) :: l) k x e HL ltac:(done) He)|]].
    + unfold mbind, ST_bind. cbn. rewrite lookup_insert_eq, insert_insert_eq, Hf. reflexivity.
    + apply (confined_new _ _ _ e); [done| |set_solver]. intros q _ Hq. by apply lookup_insert_ne.
  - assert (heap_size (L, <[e:=mkElement None k x]> h) = Ok (size (<[e:=mkElement None k x]> h),
      (L, <[e:=mkElement None k x]> h))) as HZ by done. step HZ. clear HZ.
    destruct (insert_loop_ok (size (<[e:=mkElement None k x]> h)) _ p ps k0 x0 l e k x L HS)
      as [(h' & ps' & HI & HS' & HP & Hl & Hq)|[HI HEq]];
      [apply HL|done|apply lookup_insert_eq| | |].
    { apply seg_size in HS; [|apply HL]. cbn in HS. lia. }
    + step HI. exists (p :: ps'). do 2 eexists. split; [reflexivity|]. destruct HL as [_ HN _ HLl HLn].
      split; [split; cbn; [exact HS'| |exact Hf|by rewrite HLl, <-Hl|]|].
      * apply list.NoDup_cons in HN as [? ?]. rewrite HP. apply list.NoDup_cons; split; [set_solver|].
        apply list.NoDup_cons; split; [set_solver|done].
      * rewrite HLn. unfold zlen. cbn. rewrite sorted_insert_perm. cbn. lia.
      * apply (confined_new _ _ _ e); [done| |].
        -- intros q Hq1 Hq2. rewrite Hq by done. by apply lookup_insert_ne.
        -- intros q. rewrite HP. set_solver.
    + step HI. destruct (snoc_ok (p :: ps) L h ((k0, x0) :: l) k x HL) as (h' & HR & HL' & HC); [done|].
      fold e in HR, HL', HC. rewrite HEq. do 3 eexists. split; [exact HR|]. split; [exact HL'|exact HC].
Qed.

Lemma zlen_cons {B} (b : B) bs : zlen (b :: bs) = 1 + zlen bs.
Proof. unfold zlen. cbn. lia. Qed.

Lemma SortedRemove_ok ps L h l :
  is_list ps L h l → acts SortedRemove ps L h (head l) (tail l).
Proof.
  intros HL. pose proof (is_list_empty _ _ _ _ HL) as HE. unfold SortedRemove, acts.
  destruct l as [|[k x] l].
  { exists ps, L, h. erewrite (ST_step IsEmpty true) by (apply IsEmpty_ok; naive_solver).
    split_and!; [done|done|]. split; [done|by left]. }
  erewrite (ST_step IsEmpty false) by (apply IsEmpty_ok; naive_solver). cbv beta iota.
  step (this_ok L h). destruct HL as [HS HN Hf Hl Hn]. destruct ps as [|p ps]; [done|].
  destruct HS as [Hp HS]. cbn [hd] in Hf. rewrite Hf. step (deref_ok L h p _ Hp). cbn [next key item].
  apply list.NoDup_cons in HN as [Hnp HN].
  exists ps, (mkList (if bool_decide (Some p = last L) then None else hd None ps)
    (if bool_decide (Some p = last L) then None else last L) (numInList L + -1)), (delete p h). split.
  - unfold mbind, ST_bind. case_bool_decide as HD; cbn; reflexivity.
  - rewrite Hl. split; [|split; [intros q _ Hq; apply lookup_delete_ne; set_solver|set_solver]].
    destruct ps as [|p2 ps], l as [|[k2 x2] l]; try done.
    + rewrite !bool_decide_true by done. split; cbn; try done. rewrite Hn. done.
    + rewrite !bool_decide_false.
      * split; cbn; try done; [by apply (seg_delete _ (p2 :: ps) ((k2, x2) :: l))|].
        rewrite Hn, !zlen_cons. lia.
      * intros HD. change (Some p = list.last (p2 :: ps)) in HD. symmetry in HD.
        apply last_Some in HD as [l2 HD]. rewrite HD in Hnp. set_solver.
Qed.

Lemma Remove_ok ps L h l : is_list ps L h l → acts Remove ps L h (snd <$> head l) (tail l).
Proof.
  intros HL. destruct (SortedRemove_ok _ _ _ _ HL) as (ps' & L' & h' & HR & ?).
  exists ps', L', h'. split; [|done]. unfold Remove. by step HR.
Qed.

(** Removal of the first element with a given item. *)
Fixpoint remove_first (x : A) l : list (Z * A) :=
  match l with
  | [] => []
  | (k, y) :: l' => if decide (x = y) then l' else (k, y) :: remove_first x l'
  end.

Lemma remove_loop_ok fuel h p ps k0 x0 l x L :
  seg h (p :: ps) ((k0, x0) :: l) None → NoDup (p :: ps) → (length ps < fuel)%nat →
  last L = list.last (p :: ps) →
  if decide (x ∈ l.*2) then
    ∃ h' ps', remove_loop fuel x (Some p) (hd None ps) (L, h) =
       Ok (true, (mkList (first L) (list.last (p :: ps')) (numInList L - 1), h')) ∧
     seg h' (p :: ps') ((k0, x0) :: remove_first x l) None ∧ NoDup (p :: ps') ∧
     (∀ q, q ∈ ps' → q ∈ ps) ∧ (∀ q, q ∉ p :: ps → h' !! q = h !! q)
  else remove_loop fuel x (Some p) (hd None ps) (L, h) = Ok (false, (L, h)).
Proof.
  revert p ps k0 x0 l. induction fuel as [|fuel IH]; intros p ps k0 x0 l HS HN Hfuel HL; [lia|].
  destruct HS as [Hp HS]. cbn [remove_loop].
  destruct ps as [|p2 ps], l as [|[k2 x2] l]; try done. cbn [hd fmap list_fmap snd remove_first] in *.
  destruct HS as [Hp2 HS]. erewrite ST_step by exact (deref_ok L h p2 _ Hp2). cbn [item next].
  pose proof HN as [Hnp HN']%list.NoDup_cons. pose proof HN' as [Hnp2 HN2]%list.NoDup_cons.
  destruct (decide (x = x2)) as [->|Hx].
  - rewrite decide_True by set_solver. rewrite bool_decide_true by done.
    exists (delete p2 (<[p := mkElement (hd None ps) k0 x0]> h)), ps. split_and!.
    + erewrite ST_step by exact (set_next_ok L h p _ _ Hp). cbn [key item]. unfold mbind, ST_bind.
      destruct ps as [|p3 ps]; cbn; [done|]. rewrite HL. done.
    + cbn. rewrite lookup_delete_ne, lookup_insert_eq by set_solver. split; [done|].
      apply seg_delete; [done|]. apply seg_insert; [set_solver|done].
    + apply list.NoDup_cons; split; [set_solver|done].
    + set_solver.
    + intros q Hq. rewrite lookup_delete_ne, lookup_insert_ne by set_solver. done.
  - rewrite bool_decide_false by done.
    assert (list.last (p :: p2 :: ps) = list.last (p2 :: ps)) as HE by done. rewrite HE in HL.
    specialize (IH p2 ps k2 x2 l (conj Hp2 HS) HN' ltac:(cbn in Hfuel; lia) HL).
    destruct (decide (x ∈ l.*2)).
    + rewrite decide_True by set_solver. destruct IH as (h' & ps' & -> & HS' & HN1 & Hin & Hq).
      exists h', (p2 :: ps'). split_and!; [done| | | |].
      * split; [rewrite Hq by done; exact Hp|exact HS'].
      * apply list.NoDup_cons; split; [set_solver|done].
      * set_solver.
      * intros q ?. apply Hq. set_solver.
    + rewrite decide_False by set_solver. exact IH.
Qed.

(** [List::Remove(item)]: it removes the first such item; it aborts when the item is
    not on the list, and dereferences a null pointer when the list is empty. *)
Lemma Remove_item_ok ps L h l x :
  is_list ps L h l →
  if decide (x ∈ l.*2) then acts (Remove_item x) ps L h () (remove_first x l)
  else Remove_item x (L, h) = Stop (if decide (l = []) then Undefined else AssertFailed).
Proof.
  intros HL. unfold Remove_item. destruct l as [|[k0 x0] l].
  { rewrite decide_False, decide_True by set_solver. step (this_ok L h).
    rewrite (proj2 (is_list_empty _ _ _ _ HL) eq_refl). done. }
  pose proof HL as [HS HN Hf Hl Hn]. destruct ps as [|p ps]; [done|]. cbn [hd] in Hf.
  pose proof (seg_size _ _ _ _ HS HN) as Hsz. cbn in Hsz.
  cbn [fmap list_fmap snd remove_first]. unfold acts. rewrite (ST_step _ _ _ _ _ (this_ok L h)), Hf.
  rewrite (ST_step _ _ _ _ _ (deref_ok L h p _ (proj1 HS))). cbn [item next].
  destruct (decide (x = x0)) as [->|Hx].
  - rewrite decide_True by set_solver. rewrite bool_decide_true by done.
    destruct (Remove_ok _ _ _ _ HL) as (ps' & L' & h' & HR & HL' & HC). exists ps', L', h'.
    split; [|by split]. step HR. cbn. by rewrite bool_decide_true.
  - rewrite bool_decide_false by done.
    assert (heap_size (L, h) = Ok (size h, (L, h))) as HZ by done. rewrite (ST_step _ _ _ _ _ HZ).
    pose proof (remove_loop_ok (size h) h p ps k0 x0 l x L HS HN ltac:(lia) Hl) as HR.
    destruct (decide (x ∈ l.*2)).
    + rewrite decide_True by set_solver. destruct HR as (h' & ps' & HR & HS' & HN' & Hin & Hq).
      exists (p :: ps'). do 2 eexists. split; [step HR; reflexivity|]. split.
      * split; cbn; [exact HS'|exact HN'|exact Hf|done|].
        apply seg_length in HS, HS'. cbn in HS, HS'. unfold zlen in *. cbn in *.
        assert (length (remove_first x l) = length l - 1 ∧ 0 < length l)%nat; [|lia].
        clear -e. induction l as [|[k y] l IH]; [set_solver|]. cbn in *.
        destruct (decide (x = y)); cbn; [lia|]. destruct IH; [set_solver|]. lia.
      * split; [intros q _ ?; by apply Hq|set_solver].
    + rewrite decide_False by set_solver. rewrite decide_False by done. by step HR.
Qed.

(** [Mapcar] visits the items in order. *)
Lemma Mapcar_ok {T} (func : A → T → result T) ps L h l t :
  is_list ps L h l →
  Mapcar func t (L, h) =
    match for_each func l.*2 t with Ok t' => Ok (t', (L, h)) | Stop e => Stop e end.
Proof.
  intros [HS HN Hf _ _]. unfold Mapcar. step (this_ok L h).
  assert (heap_size (L, h) = Ok (size h, (L, h))) as HZ by done. step HZ. rewrite Hf.
  pose proof (seg_size _ _ _ _ HS HN) as Hsz. apply Nat.lt_succ_r in Hsz.
  clear Hf HN HZ. revert ps l t Hsz HS. generalize (S (size h)) as n.
  induction n as [|n IH]; intros ps l t Hn HS; [lia|].
  destruct ps as [|p ps], l as [|[k x] l]; try done. destruct HS as [Hp HS]. cbn [mapcar_loop hd].
  step (deref_ok L h p _ Hp). cbn [item next fmap list_fmap snd for_each].
  unfold mbind, ST_bind, result_bind, lift. destruct (func x t) as [t'|e] eqn:E; [|done]. apply IH; [cbn in Hn; lia|done].
Qed.

(** The destructor empties the list. *)
Lemma List_delete_ok ps L h l fuel :
  is_list ps L h l → (length l < fuel)%nat → acts (List_delete fuel) ps L h () [].
Proof.
  revert ps L h l. induction fuel as [|fuel IH]; intros ps L h l HL Hf; [lia|].
  destruct (Remove_ok _ _ _ _ HL) as (ps' & L' & h' & HR & HL' & HC). unfold acts. cbn [List_delete].
  destruct l as [|[k x] l]; cbn [head tail fmap option_fmap option_map snd] in *.
  - exists ps', L', h'. split; [by step HR|by split].
  - destruct (IH ps' L' h' l HL' ltac:(cbn in Hf; lia)) as (ps2 & L2 & h2 & HR2 & HL2 & [HC2 HD2]).
    exists ps2, L2, h2. split; [step HR; exact HR2|]. split; [done|]. destruct HC as [HC HD]. split.
    + intros q Hq Hq'. assert (q ∉ ps') by (intros Hin; apply HD in Hin; tauto).
      rewrite HC2; [by apply HC| |done]. apply elem_of_dom. rewrite HC by done. by apply elem_of_dom.
    + intros q Hq. destruct (HD2 q Hq) as [?|Hq2]; [by apply HD|].
      destruct (decide (q ∈ ps)); [by left|right]. intros Hd. apply Hq2. apply elem_of_dom.
      rewrite HC by done. by apply elem_of_dom.
Qed.
End refinement.

(** ** Properties *)

Section properties.
Context {A : Type} `{EqDecision A}.
Implicit Types (h : gmap addr (ListElement A)) (l : list (Z * A)).

(** C19: a list object is the sequence of its keys and items.  On a well-formed list,
    every operation returns what it returns on the sequence, leaves a well-formed list,
    and touches no cell of any other list; [Remove(item)] aborts when the item is not
    on the list and dereferences a null pointer when the list is empty. *)
Theorem List_refines_sequence ps L h l x k :
  is_list ps L h l →
  acts (Append x) ps L h () (l ++ [(0, x)]) ∧
  acts (Prepend x) ps L h () ((0, x) :: l) ∧
  acts (SortedInsert x k) ps L h () (sorted_insert k x l) ∧
  acts SortedRemove ps L h (head l) (tail l) ∧
  acts Remove ps L h (snd <$> head l) (tail l) ∧
  (if decide (x ∈ l.*2) then acts (Remove_item x) ps L h () (remove_first x l)
   else Remove_item x (L, h) = Stop (if decide (l = []) then Undefined else AssertFailed)) ∧
  acts (List_delete (S (length l))) ps L h () [] ∧
  IsEmpty (L, h) = Ok (bool_decide (l = []), (L, h)) ∧
  NumInList (L, h) = Ok (zlen l, (L, h)).
Proof.
  intros HL. split_and!; [by apply Append_ok|by apply Prepend_ok|by apply SortedInsert_ok|
    by apply SortedRemove_ok|by apply Remove_ok|by apply Remove_item_ok|
    apply (List_delete_ok _ _ _ _ _ HL); lia| |].
  - apply IsEmpty_ok. rewrite bool_decide_eq_true. by apply (is_list_empty _ _ _ _ HL).
  - unfold NumInList. step (this_ok L h). by rewrite (il_num _ _ _ _ HL).
Qed.

Fixpoint insert_all (l : list (Z * A)) : ST (List * gmap addr (ListElement A)) () :=
  match l with [] => mret () | (k, x) :: l' => SortedInsert x k;; insert_all l' end.
Fixpoint drain (fuel : nat) : ST (List * gmap addr (ListElement A)) (list (Z * A)) :=
  match fuel with
  | O => λ _, Stop Undefined
  | S fuel' =>
      r ← SortedRemove;
      match r with None => mret [] | Some e => l ← drain fuel'; mret (e :: l) end
  end.

Lemma insert_all_ok l ps L h l0 :
  is_list ps L h l0 →
  ∃ ps' L' h', insert_all l (L, h) = Ok ((), (L', h')) ∧
    is_list ps' L' h' (foldl (λ acc e, sorted_insert e.1 e.2 acc) l0 l).
Proof.
  revert ps L h l0. induction l as [|[k x] l IH]; intros ps L h l0 HL; [by exists ps, L, h|].
  destruct (SortedInsert_ok _ _ _ _ x k HL) as (ps1 & L1 & h1 & HR & HL1 & _).
  destruct (IH _ _ _ _ HL1) as (ps2 & L2 & h2 & HR2 & HL2). exists ps2, L2, h2.
  split; [|done]. cbn [insert_all]. by step HR.
Qed.
Lemma drain_ok l ps L h fuel :
  is_list ps L h l → (length l < fuel)%nat → ∃ s, drain fuel (L, h) = Ok (l, s).
Proof.
  revert ps L h l. induction fuel as [|fuel IH]; intros ps L h l HL Hf; [lia|].
  destruct (SortedRemove_ok _ _ _ _ HL) as (ps1 & L1 & h1 & HR & HL1 & _). cbn [drain].
  destruct l as [|e l]; cbn [head tail] in *; [eexists; by step HR|].
  destruct (IH _ _ _ _ HL1) as [s HD]; [cbn in Hf; lia|]. exists s. step HR. by step HD.
Qed.

Lemma filter_sorted_insert k0 k x l :
  StronglySorted by_key l →
  filter (λ e, e.1 = k0) (sorted_insert k x l) = filter (λ e, e.1 = k0) (l ++ [(k, x)]).
Proof.
  induction 1 as [|[k' x'] l HS IH HF]; [done|]. cbn [sorted_insert].
  destruct (Z.ltb_spec k k').
  - rewrite list.filter_app. destruct (decide (k = k0)) as [->|Hk].
    + rewrite (filter_cons_True _ (k0, x) ((k', x') :: l)), (filter_none _ ((k', x') :: l)); [by rewrite filter_cons_True| |done].
      constructor; [cbn; lia|]. eapply Forall_impl; [|exact HF]. unfold by_key. cbn. lia.
    + rewrite filter_cons_False, (filter_none _ [(k, x)]), app_nil_r by (repeat constructor; done). done.
  - rewrite <-app_comm_cons. destruct (decide (k' = k0)).
    + rewrite !filter_cons_True by done. by rewrite IH.
    + rewrite !filter_cons_False by done. by rewrite IH.
Qed.
Lemma insertion_sort l l0 :
  StronglySorted by_key l0 →
  let s := foldl (λ acc e, sorted_insert e.1 e.2 acc) l0 l in
  StronglySorted by_key s ∧ s ≡ₚ l0 ++ l ∧
  ∀ k, filter (λ e, e.1 = k) s = filter (λ e, e.1 = k) (l0 ++ l).
Proof.
  revert l0. induction l as [|[k x] l IH]; intros l0 HS; cbn.
  { by rewrite app_nil_r. }
  destruct (IH (sorted_insert k x l0)) as (H1 & H2 & H3); [by apply sorted_insert_ordered|].
  cbn in *. split_and!; [done| |].
  - rewrite H2, sorted_insert_perm. cbn. by rewrite <-Permutation_middle.
  - intros k0. rewrite H3, list.filter_app, filter_sorted_insert by done.
    by rewrite <-list.filter_app, <-app_assoc.
Qed.

(** C37: items put on an empty list with [SortedInsert] and taken off with
    [SortedRemove] come out in the order of their keys, each exactly once, and items of
    equal key in the order they were put in. *)
Theorem SortedInsert_SortedRemove_sorts l h :
  ∃ out s, (insert_all l;; drain (S (length l))) (List_new, h) = Ok (out, s) ∧
    StronglySorted by_key out ∧ out ≡ₚ l ∧
    ∀ k, filter (λ e, e.1 = k) out = filter (λ e, e.1 = k) l.
Proof.
  destruct (insertion_sort l [] ltac:(constructor)) as (H1 & H2 & H3).
  destruct (insert_all_ok l [] List_new h []) as (ps & L & h' & HI & HL); [by split; try constructor|].
  destruct (drain_ok _ _ _ _ (S (length l)) HL) as [s HD].
  { rewrite (Permutation_length H2). cbn. lia. }
  eexists _, s. split; [|done]. by step HI.
Qed.
End properties.

(** ** Examples *)

Definition example_heap : gmap addr (ListElement Z) :=
  {[ 1%positive := mkElement (Some 2%positive) 5 100; 2%positive := mkElement None 7 200 ]}.
Definition example_list : List := mkList (Some 1%positive) (Some 2%positive) 2.
Lemma example_is_list : is_list [1%positive; 2%positive] example_list example_heap [(5, 100); (7, 200)].
Proof.
  split; [done| |done|done|done]. by apply (bool_decide_unpack (NoDup [1%positive; 2%positive])).
Qed.

Lemma List_refines_sequence_witness :
  acts (SortedInsert 300 6) [1%positive; 2%positive] example_list example_heap ()
    [(5, 100); (6, 300); (7, 200)].
Proof.
  destruct (List_refines_sequence _ _ _ _ 300 6 example_is_list) as (_ & _ & H & _). exact H.
Defined.
