(* ===== verification/Kernel.v ===== *)
(** * Threads, scheduler, interrupts and synchronization

    threads/thread.cc, threads/scheduler.cc, threads/synch.cc, threads/synchlist.cc,
    machine/interrupt.cc, machine/timer.cc, threads/system.cc, as compiled for the
    threads assignment ([SCHED_PRIO] of scheduler.h, no user programs).

    A routine of the kernel can lose the processor in its middle: [Scheduler::Run]
    calls [SWITCH], which continues another thread where that one called [SWITCH].
    The model therefore keeps, for every thread, the list of instructions it has still
    to execute: the calls of its program and the points where a routine that has been
    left is to continue.  [exec] executes one instruction; a call replaces it by the
    body of the routine, and what [exec] returns is put in front of the instructions
    of the thread that executed it, even when [Run] has made another thread current. *)

From S2P Require Import Prelude NachosList.

Definition ThreadsNumLimit : Z := 128.
Definition STACK_FENCEPOST : Z := 0xdeadbeef.
Definition SystemTick : Z := 10.
Definition UserTick : Z := 1.
Definition TimerTicks : Z := 80.

Inductive ThreadStatus := JUST_CREATED | RUNNING | READY | BLOCKED.
Inductive IntStatus := IntOff | IntOn.
Inductive MachineStatus := IdleMode | SystemMode | UserMode.
Inductive IntType :=
  TimerInt | DiskInt | ConsoleWriteInt | ConsoleReadInt | ElevatorInt | NetworkSendInt | NetworkRecvInt.

#[export] Instance ThreadStatus_eq_dec : EqDecision ThreadStatus.
Proof. solve_decision. Defined.
#[export] Instance IntStatus_eq_dec : EqDecision IntStatus.
Proof. solve_decision. Defined.
#[export] Instance MachineStatus_eq_dec : EqDecision MachineStatus.
Proof. solve_decision. Defined.
#[export] Instance IntType_eq_dec : EqDecision IntType.
Proof. solve_decision. Defined.

(** A [Thread *]; semaphores, locks and the like are named by numbers. *)
Definition ptr : Type := positive.

(** What a thread can have to execute: calls, and points inside a routine. *)
Inductive instr :=
(* calls of a program *)
| Call_P (s : Z) | Call_V (s : Z)
| Call_Acquire (l : Z) | Call_Release (l : Z)
| Call_Wait (c l : Z) | Call_Signal (c l : Z) | Call_Broadcast (c l : Z)
| Call_BarrierWait (b : Z)
| Call_SAppend (x : Z) (item : Z) | Call_SRemove (x : Z)
| Call_Yield | Call_Sleep | Call_Finish
| New_thread (prio : Z) (prog : list instr)
(* interrupt handlers *)
| Call_TimerExpired
(* interrupt.cc *)
| Do_SetLevel (now : IntStatus) | Do_OneTick | Do_CheckLoop | Do_TickEnd (old : MachineStatus)
| Do_setStatus (old : MachineStatus) | Do_HandlerEnd (old : MachineStatus)
| Do_Idle | Do_IdleEnd
(* thread.cc, scheduler.cc *)
| Do_Fork (t : ptr) (prog : list instr) | Do_ReadyToRun (t : ptr) | Do_YieldNext | Do_SleepLoop
| Do_Run (next : ptr) | Do_RunTail | Do_Deleted (t : ptr)
(* synch.cc *)
| Do_P_loop (s : Z) | Do_V_inc (s : Z) | Do_SetOwner (l : Z) | Do_WaitSleep (c : Z)
| Do_BroadcastLoop (c : Z)
| Do_Arrive (b : Z) | Do_BarrierLoop (b : Z) | Do_BarrierLast (b : Z)
(* synchlist.cc *)
| Do_SAppend (x : Z) (item : Z) | Do_SWait (x : Z) | Do_STake (x : Z).

(** Class [Thread]; [stack] is the lowest word of the stack, [None] for the main thread. *)
Record Thread := mkThread {
  tid : Z;
  priority : Z;
  status : ThreadStatus;
  stack : option Z;
  code : list instr
}.

Record PendingInterrupt := mkPending { handler : list instr; when : Z; type : IntType }.
Record Interrupt := mkInterrupt {
  level : IntStatus;
  pending : list (Z * PendingInterrupt);
  inHandler : bool;
  yieldOnReturn : bool;
  mstatus : MachineStatus
}.
(** The counters of class [Statistics] are of type [int]. *)
Record Ticks := mkTicks { totalTicks : Z; idleTicks : Z; systemTicks : Z; userTicks : Z }.

(** The table of thread identifiers (threads/system.cc). *)
Record Tids := mkTids { TidMap : list bool; MinAvailableTid : Z; PCBList : list (Z * ptr) }.

Record Scheduler := mkScheduler {
  threads : gmap ptr Thread;
  currentThread : ptr;
  readyList : list (Z * ptr);
  threadToBeDestroyed : option ptr
}.

Record Semaphore := mkSemaphore { value : Z; queue : list ptr }.
Record Lock := mkLock { OwnerId : Z; mutex : Z }.
Record Barrier := mkBarrier { nTotal : Z; nArrived : Z; b_cv : Z; b_lock : Z }.
(** Class [SynchList]; [given] and [taken] record what has been put in and taken out. *)
Record SynchList := mkSynchList {
  items : list Z; s_lock : Z; listEmpty : Z; given : list Z; taken : list Z
}.
Record Objects := mkObjects {
  sems : gmap Z Semaphore;
  locks : gmap Z Lock;
  conds : gmap Z (list ptr);
  barriers : gmap Z Barrier;
  slists : gmap Z SynchList
}.

(** The kernel; [calls] counts the calls of [Random]. *)
Record K := mkK {
  intr : Interrupt;
  ticks : Ticks;
  tids : Tids;
  sched : Scheduler;
  objs : Objects;
  calls : Z
}.

Abbreviation M := (ST K).

Definition on_intr (f : Interrupt → Interrupt) : M () := λ k,
  Ok ((), mkK (f (intr k)) (ticks k) (tids k) (sched k) (objs k) (calls k)).
(** Arithmetic on the counters of time; an [int] that overflows is undefined. *)
Definition int_fits (x : Z) : bool := (- 2 ^ 31 <=? x) && (x <? 2 ^ 31).
Definition ticks_fit (t : Ticks) : bool :=
  int_fits (totalTicks t) && int_fits (idleTicks t) && int_fits (systemTicks t) && int_fits (userTicks t).
Definition on_ticks (f : Ticks → Ticks) : M () := λ k,
  if ticks_fit (f (ticks k))
  then Ok ((), mkK (intr k) (f (ticks k)) (tids k) (sched k) (objs k) (calls k))
  else Stop Undefined.
Definition on_tids (f : Tids → Tids) : M () := λ k,
  Ok ((), mkK (intr k) (ticks k) (f (tids k)) (sched k) (objs k) (calls k)).
Definition on_sched (f : Scheduler → Scheduler) : M () := λ k,
  Ok ((), mkK (intr k) (ticks k) (tids k) (f (sched k)) (objs k) (calls k)).
Definition on_objs (f : Objects → Objects) : M () := λ k,
  Ok ((), mkK (intr k) (ticks k) (tids k) (sched k) (f (objs k)) (calls k)).
Definition get {A} (f : K → A) : M A := λ k, Ok (f k, k).
(** Following a pointer to an object that may not exist. *)
Definition get_at {A} (f : K → option A) : M A := λ k,
  match f k with Some a => Ok (a, k) | None => Stop Undefined end.

Definition set_level (l : IntStatus) : M () :=
  on_intr (λ i, mkInterrupt l (pending i) (inHandler i) (yieldOnReturn i) (mstatus i)).
Definition set_pending (p : list (Z * PendingInterrupt)) : M () :=
  on_intr (λ i, mkInterrupt (level i) p (inHandler i) (yieldOnReturn i) (mstatus i)).
Definition set_inHandler (b : bool) : M () :=
  on_intr (λ i, mkInterrupt (level i) (pending i) b (yieldOnReturn i) (mstatus i)).
Definition set_yieldOnReturn (b : bool) : M () :=
  on_intr (λ i, mkInterrupt (level i) (pending i) (inHandler i) b (mstatus i)).
Definition set_mstatus (st : MachineStatus) : M () :=
  on_intr (λ i, mkInterrupt (level i) (pending i) (inHandler i) (yieldOnReturn i) st).

Definition thread (t : ptr) : M Thread := get_at (λ k, threads (sched k) !! t).
Definition put_thread (t : ptr) (th : Thread) : M () :=
  on_sched (λ s, mkScheduler (<[t := th]> (threads s)) (currentThread s) (readyList s)
                   (threadToBeDestroyed s)).
Definition current : M ptr := get (λ k, currentThread (sched k)).
Definition set_ready (l : list (Z * ptr)) : M () :=
  on_sched (λ s, mkScheduler (threads s) (currentThread s) l (threadToBeDestroyed s)).
Definition set_current (t : ptr) : M () :=
  on_sched (λ s, mkScheduler (threads s) t (readyList s) (threadToBeDestroyed s)).
Definition set_toBeDestroyed (t : option ptr) : M () :=
  on_sched (λ s, mkScheduler (threads s) (currentThread s) (readyList s) t).
Definition setStatus (t : ptr) (st : ThreadStatus) : M () :=
  th ← thread t; put_thread t (mkThread (tid th) (priority th) st (stack th) (code th)).

(** ** Interrupts *)

(** [interrupt->SetLevel(IntOff)]: the old level. *)
Definition disable : M IntStatus :=
  old ← get (λ k, level (intr k)); set_level IntOff;; mret old.

(** [Interrupt::SetLevel]; enabling interrupts goes on with [OneTick]. *)
Definition SetLevel (now : IntStatus) : M (list instr) :=
  old ← get (λ k, level (intr k));
  h ← get (λ k, inHandler (intr k));
  lift (ASSERT (bool_decide (now = IntOff) || negb h));;
  set_level now;;
  mret (if bool_decide (now = IntOn) && bool_decide (old = IntOff) then [Do_OneTick] else []).

(** [Interrupt::Schedule]. *)
Definition Schedule (h : list instr) (fromNow : Z) (ty : IntType) : M () :=
  now ← get (λ k, totalTicks (ticks k));
  lift (if int_fits (now + fromNow) then Ok () else Stop Undefined);;
  lift (ASSERT (fromNow >? 0));;
  p ← get (λ k, pending (intr k));
  set_pending (sorted_insert (now + fromNow) (mkPending h (now + fromNow) ty) p).

(** The part of [CheckIfDue] that calls the handler of [toOccur]. *)
Definition fire (old : MachineStatus) (toOccur : PendingInterrupt) : M (list instr) :=
  set_inHandler true;;
  set_mstatus SystemMode;;
  mret (handler toOccur ++ [Do_HandlerEnd old]).

(** [Interrupt::CheckIfDue]: [None] is [FALSE], otherwise the handler is to be run. *)
Definition CheckIfDue (advanceClock : bool) : M (option (list instr)) :=
  old ← get (λ k, mstatus (intr k));
  l ← get (λ k, level (intr k));
  lift (ASSERT (bool_decide (l = IntOff)));;
  p ← get (λ k, pending (intr k));
  match p with
  | [] => mret None
  | (w, toOccur) :: p' =>
      now ← get (λ k, totalTicks (ticks k));
      if negb advanceClock && (w >? now) then
        set_pending (sorted_insert w toOccur p');; mret None  (* not time yet, put it back *)
      else
        (if advanceClock && (w >? now) then
           on_ticks (λ t, mkTicks w (idleTicks t + (w - now)) (systemTicks t) (userTicks t))
         else mret ());;
        if bool_decide (old = IdleMode) && bool_decide (type toOccur = TimerInt) &&
           bool_decide (p' = []) then
          set_pending (sorted_insert w toOccur p');; mret None
        else
          set_pending p';;
          fr ← fire old toOccur;
          mret (Some fr)
  end.

Definition OneTick : M (list instr) :=
  old ← get (λ k, mstatus (intr k));
  on_ticks (λ t,
    if bool_decide (old = SystemMode)
    then mkTicks (totalTicks t + SystemTick) (idleTicks t) (systemTicks t + SystemTick) (userTicks t)
    else mkTicks (totalTicks t + UserTick) (idleTicks t) (systemTicks t) (userTicks t + UserTick));;
  set_level IntOff;;
  mret [Do_CheckLoop; Do_TickEnd old].

(** [while (CheckIfDue(FALSE));]. *)
Definition CheckLoop : M (list instr) :=
  fired ← CheckIfDue false;
  mret (match fired with Some fr => fr ++ [Do_CheckLoop] | None => [] end).

(** The end of [OneTick]: interrupts are enabled again and the thread may yield. *)
Definition TickEnd (old : MachineStatus) : M (list instr) :=
  set_level IntOn;;
  y ← get (λ k, yieldOnReturn (intr k));
  if (y : bool) then
    set_yieldOnReturn false;; set_mstatus SystemMode;; mret [Call_Yield; Do_setStatus old]
  else mret [].

(** [Interrupt::YieldOnReturn]. *)
Definition YieldOnReturn : M () :=
  h ← get (λ k, inHandler (intr k)); lift (ASSERT h);; set_yieldOnReturn true.

(** [Interrupt::Idle]; [Halt] ends the run: nothing can ever become ready. *)
Definition Idle : M (list instr) :=
  set_mstatus IdleMode;;
  fired ← CheckIfDue true;
  match fired with
  | Some fr => mret (fr ++ [Do_CheckLoop; Do_IdleEnd])
  | None => lift (Stop Blocked)
  end.

(** [TimerInterruptHandler] of system.cc. *)
Definition TimerInterruptHandler : M () :=
  st ← get (λ k, mstatus (intr k));
  if bool_decide (st = IdleMode) then mret () else YieldOnReturn.

(** [Timer::TimeOfNextInterrupt] and [Timer::TimerExpired]; [rnd i] is what the [i]-th
    call of [Random] returns. *)
Definition count_call : M () := λ k,
  Ok ((), mkK (intr k) (ticks k) (tids k) (sched k) (objs k) (calls k + 1)).
Definition TimeOfNextInterrupt (rnd : Z → Z) (randomize : bool) : M Z :=
  n ← get calls;
  if randomize then
    count_call;;
    mret (1 + Z.rem (rnd n) (TimerTicks * 2))
  else mret TimerTicks.
Definition TimerExpired (rnd : Z → Z) (randomize : bool) : M () :=
  d ← TimeOfNextInterrupt rnd randomize;
  Schedule [Call_TimerExpired] d TimerInt;;
  TimerInterruptHandler.

(** ** Threads and the scheduler *)

(** The loop of the constructor [Thread::Thread]: for want of braces, [break] is
    executed in its first iteration. *)
Definition next_tid (map : list bool) (t min : Z) : result Z :=
  if t + 1 <? ThreadsNumLimit then
    b ← aget map (t + 1);
    Ok (if (b : bool) then min else t + 1)
  else Ok min.

(** [Thread::Thread] at the address [t]. *)
Definition Thread_new (t : ptr) (prio : Z) : M (list instr) :=
  oldLevel ← disable;
  min ← get (λ k, MinAvailableTid (tids k));
  map ← get (λ k, TidMap (tids k));
  lift (ASSERT ((min >=? 0) && (min <? ThreadsNumLimit)));;
  used ← lift (aget map min);
  lift (ASSERT (negb used));;
  map ← lift (aset map min true);
  min' ← lift (next_tid map min min);
  let min' := if min' =? min then ThreadsNumLimit else min' in
  on_tids (λ p, mkTids map min' (sorted_insert min t (PCBList p)));;
  fr ← SetLevel oldLevel;
  put_thread t (mkThread min prio JUST_CREATED None []);;
  mret fr.

(** [PCBList->Remove(this)], by the specification of [List::Remove]. *)
Definition pcb_remove (t : ptr) (l : list (Z * ptr)) : result (list (Z * ptr)) :=
  if decide (t ∈ l.*2) then Ok (remove_first t l)
  else Stop (if decide (l = []) then Undefined else AssertFailed).

(** [Thread::~Thread] up to its last assertion; [Deleted] is the rest. *)
Definition Thread_delete (t : ptr) : M (list instr) :=
  oldLevel ← disable;
  th ← thread t;
  p ← get tids;
  l ← lift (pcb_remove t (PCBList p));
  used ← lift (aget (TidMap p) (tid th));
  lift (ASSERT used);;
  map ← lift (aset (TidMap p) (tid th) false);
  on_tids (λ _, mkTids map (Z.min (tid th) (MinAvailableTid p)) l);;
  fr ← SetLevel oldLevel;
  mret (fr ++ [Do_Deleted t]).
Definition Deleted (t : ptr) : M () :=
  cur ← current;
  lift (ASSERT (bool_decide (t ≠ cur)));;
  on_sched (λ s, mkScheduler (delete t (threads s)) (currentThread s) (readyList s)
                   (threadToBeDestroyed s));;
  set_toBeDestroyed None.

(** [StackAllocate] and the rest of [Thread::Fork]; [ThreadRoot] enables interrupts,
    calls the function and then [Thread::Finish]. *)
Definition Fork (t : ptr) (prog : list instr) : M (list instr) :=
  th ← thread t;
  put_thread t (mkThread (tid th) (priority th) (status th) (Some STACK_FENCEPOST)
                  (Do_SetLevel IntOn :: prog ++ [Call_Finish]));;
  oldLevel ← disable;
  mret [Do_ReadyToRun t; Do_SetLevel oldLevel].

Definition CheckOverflow (th : Thread) : result () :=
  match stack th with Some w => ASSERT (w =? STACK_FENCEPOST) | None => Ok () end.

Definition ReadyToRun (t : ptr) : M (list instr) :=
  setStatus t READY;;
  th ← thread t;
  l ← get (λ k, readyList (sched k));
  set_ready (sorted_insert (priority th) t l);;
  cur ← current;
  c ← thread cur;
  mret (if bool_decide (t ≠ cur) && (priority th <? priority c) then [Call_Yield] else []).

Definition FindNextToRun : M (option ptr) :=
  l ← get (λ k, readyList (sched k));
  match l with
  | [] => mret None
  | (_, candidate) :: l' =>
      set_ready l';;
      cur ← current;
      c ← thread cur;
      if bool_decide (status c = BLOCKED) then mret (Some candidate) else
      th ← thread candidate;
      if priority th >? priority c then
        set_ready (sorted_insert (priority th) candidate l');; mret None
      else mret (Some candidate)
  end.

(** [Scheduler::Run] up to [SWITCH]; [RunTail] is the rest. *)
Definition Run (nextThread : ptr) : M (list instr) :=
  cur ← current;
  oldThread ← thread cur;
  lift (CheckOverflow oldThread);;
  set_current nextThread;;
  setStatus nextThread RUNNING;;
  mret [Do_RunTail].
Definition RunTail : M (list instr) :=
  d ← get (λ k, threadToBeDestroyed (sched k));
  match d with Some t => Thread_delete t | None => mret [] end.

Definition Yield : M (list instr) :=
  oldLevel ← disable;
  cur ← current;
  mret [Do_ReadyToRun cur; Do_YieldNext; Do_SetLevel oldLevel].
Definition YieldNext : M (list instr) :=
  nextThread ← FindNextToRun;
  mret (match nextThread with Some t => [Do_Run t] | None => [] end).

Definition Sleep : M (list instr) :=
  l ← get (λ k, level (intr k));
  lift (ASSERT (bool_decide (l = IntOff)));;
  cur ← current;
  setStatus cur BLOCKED;;
  mret [Do_SleepLoop].
Definition SleepLoop : M (list instr) :=
  nextThread ← FindNextToRun;
  mret (match nextThread with Some t => [Do_Run t] | None => [Do_Idle; Do_SleepLoop] end).

Definition Finish : M (list instr) :=
  disable;;
  cur ← current;
  set_toBeDestroyed (Some cur);;
  mret [Call_Sleep].

(** ** Semaphores, locks, condition variables, barriers *)

Definition sem (s : Z) : M Semaphore := get_at (λ k, sems (objs k) !! s).
Definition put_sem (s : Z) (x : Semaphore) : M () :=
  on_objs (λ o, mkObjects (<[s := x]> (sems o)) (locks o) (conds o) (barriers o) (slists o)).
Definition lock (l : Z) : M Lock := get_at (λ k, locks (objs k) !! l).
Definition put_lock (l : Z) (x : Lock) : M () :=
  on_objs (λ o, mkObjects (sems o) (<[l := x]> (locks o)) (conds o) (barriers o) (slists o)).
Definition cond (c : Z) : M (list ptr) := get_at (λ k, conds (objs k) !! c).
Definition put_cond (c : Z) (x : list ptr) : M () :=
  on_objs (λ o, mkObjects (sems o) (locks o) (<[c := x]> (conds o)) (barriers o) (slists o)).
Definition barrier (b : Z) : M Barrier := get_at (λ k, barriers (objs k) !! b).
Definition put_barrier (b : Z) (x : Barrier) : M () :=
  on_objs (λ o, mkObjects (sems o) (locks o) (conds o) (<[b := x]> (barriers o)) (slists o)).
Definition slist (x : Z) : M SynchList := get_at (λ k, slists (objs k) !! x).
Definition put_slist (x : Z) (s : SynchList) : M () :=
  on_objs (λ o, mkObjects (sems o) (locks o) (conds o) (barriers o) (<[x := s]> (slists o))).

Definition P (s : Z) : M (list instr) :=
  oldLevel ← disable; mret [Do_P_loop s; Do_SetLevel oldLevel].
(** [while (value == 0) ...], and [value--] behind it. *)
Definition P_loop (s : Z) : M (list instr) :=
  x ← sem s;
  if value x =? 0 then
    cur ← current;
    put_sem s (mkSemaphore (value x) (queue x ++ [cur]));;
    mret [Call_Sleep; Do_P_loop s]
  else put_sem s (mkSemaphore (value x - 1) (queue x));; mret [].

Definition V (s : Z) : M (list instr) :=
  oldLevel ← disable;
  x ← sem s;
  match queue x with
  | t :: q =>
      put_sem s (mkSemaphore (value x) q);;
      mret [Do_ReadyToRun t; Do_V_inc s; Do_SetLevel oldLevel]
  | [] => mret [Do_V_inc s; Do_SetLevel oldLevel]
  end.
Definition V_inc (s : Z) : M () :=
  x ← sem s; put_sem s (mkSemaphore (value x + 1) (queue x)).

Definition Acquire (l : Z) : M (list instr) :=
  oldLevel ← disable;
  x ← lock l;
  mret [Call_P (mutex x); Do_SetOwner l; Do_SetLevel oldLevel].
Definition SetOwner (l : Z) : M () :=
  cur ← current; c ← thread cur; x ← lock l; put_lock l (mkLock (tid c) (mutex x)).
Definition isHeldByCurrentThread (l : Z) : M bool :=
  x ← lock l; cur ← current; c ← thread cur; mret (OwnerId x =? tid c).
Definition Release (l : Z) : M (list instr) :=
  oldLevel ← disable;
  held ← isHeldByCurrentThread l;
  lift (ASSERT held);;
  x ← lock l;
  put_lock l (mkLock (-1) (mutex x));;
  mret [Call_V (mutex x); Do_SetLevel oldLevel].

Definition Wait (c l : Z) : M (list instr) :=
  oldLevel ← disable;
  mret [Call_Release l; Do_WaitSleep c; Call_Acquire l; Do_SetLevel oldLevel].
Definition WaitSleep (c : Z) : M (list instr) :=
  w ← cond c; cur ← current; put_cond c (w ++ [cur]);; mret [Call_Sleep].
Definition Signal (c l : Z) : M (list instr) :=
  oldLevel ← disable;
  held ← isHeldByCurrentThread l;
  w ← cond c;
  match w with
  | t :: w' =>
      if (held : bool) then put_cond c w';; mret [Do_ReadyToRun t; Do_SetLevel oldLevel]
      else mret [Do_SetLevel oldLevel]
  | [] => mret [Do_SetLevel oldLevel]
  end.
Definition Broadcast (c l : Z) : M (list instr) :=
  oldLevel ← disable;
  held ← isHeldByCurrentThread l;
  mret (if (held : bool) then [Do_BroadcastLoop c; Do_SetLevel oldLevel] else [Do_SetLevel oldLevel]).
Definition BroadcastLoop (c : Z) : M (list instr) :=
  w ← cond c;
  match w with
  | t :: w' => put_cond c w';; mret [Do_ReadyToRun t; Do_BroadcastLoop c]
  | [] => mret []
  end.

Definition BarrierWait (b : Z) : M (list instr) :=
  x ← barrier b;
  mret [Call_Acquire (b_lock x); Do_Arrive b; Do_BarrierLoop b; Do_BarrierLast b;
        Call_Release (b_lock x)].
Definition Arrive (b : Z) : M () :=
  x ← barrier b; put_barrier b (mkBarrier (nTotal x) (nArrived x + 1) (b_cv x) (b_lock x)).
Definition BarrierLoop (b : Z) : M (list instr) :=
  x ← barrier b;
  mret (if nArrived x <? nTotal x then [Call_Wait (b_cv x) (b_lock x); Do_BarrierLoop b] else []).
Definition BarrierLast (b : Z) : M (list instr) :=
  x ← barrier b;
  mret (if nArrived x =? nTotal x then [Call_Broadcast (b_cv x) (b_lock x)] else []).

(** ** Synchronized lists *)

Definition SAppend (x item : Z) : M (list instr) :=
  s ← slist x;
  mret [Call_Acquire (s_lock s); Do_SAppend x item; Call_Signal (listEmpty s) (s_lock s);
        Call_Release (s_lock s)].
Definition SAppend_list (x item : Z) : M () :=
  s ← slist x;
  put_slist x (mkSynchList (items s ++ [item]) (s_lock s) (listEmpty s) (given s ++ [item]) (taken s)).
Definition SRemove (x : Z) : M (list instr) :=
  s ← slist x;
  mret [Call_Acquire (s_lock s); Do_SWait x; Do_STake x; Call_Release (s_lock s)].
Definition SWait (x : Z) : M (list instr) :=
  s ← slist x;
  mret (match items s with
        | [] => [Call_Wait (listEmpty s) (s_lock s); Do_SWait x]
        | _ :: _ => []
        end).
(** [item = list->Remove(); ASSERT(item != NULL)]. *)
Definition STake (x : Z) : M () :=
  s ← slist x;
  match items s with
  | [] => lift (Stop AssertFailed)
  | i :: l => put_slist x (mkSynchList l (s_lock s) (listEmpty s) (given s) (taken s ++ [i]))
  end.

(** ** One step of the current thread *)

Section machine.
Context (rnd : Z → Z) (randomize : bool).

Definition done (m : M ()) : M (list instr) := m;; mret [].

Definition exec (i : instr) : M (list instr) :=
  match i with
  | Call_P s => P s
  | Call_V s => V s
  | Call_Acquire l => Acquire l
  | Call_Release l => Release l
  | Call_Wait c l => Wait c l
  | Call_Signal c l => Signal c l
  | Call_Broadcast c l => Broadcast c l
  | Call_BarrierWait b => BarrierWait b
  | Call_SAppend x item => SAppend x item
  | Call_SRemove x => SRemove x
  | Call_Yield => Yield
  | Call_Sleep => Sleep
  | Call_Finish => Finish
  | New_thread prio prog =>
      ts ← get (λ k, threads (sched k));
      let t := fresh (dom ts) in
      fr ← Thread_new t prio;
      mret (fr ++ [Do_Fork t prog])
  | Call_TimerExpired => done (TimerExpired rnd randomize)
  | Do_SetLevel now => SetLevel now
  | Do_OneTick => OneTick
  | Do_CheckLoop => CheckLoop
  | Do_TickEnd old => TickEnd old
  | Do_setStatus old => done (set_mstatus old)
  | Do_HandlerEnd old => done (set_mstatus old;; set_inHandler false)
  | Do_Idle => Idle
  | Do_IdleEnd => done (set_yieldOnReturn false;; set_mstatus SystemMode)
  | Do_Fork t prog => Fork t prog
  | Do_ReadyToRun t => ReadyToRun t
  | Do_YieldNext => YieldNext
  | Do_SleepLoop => SleepLoop
  | Do_Run next => Run next
  | Do_RunTail => RunTail
  | Do_Deleted t => done (Deleted t)
  | Do_P_loop s => P_loop s
  | Do_V_inc s => done (V_inc s)
  | Do_SetOwner l => done (SetOwner l)
  | Do_WaitSleep c => WaitSleep c
  | Do_BroadcastLoop c => BroadcastLoop c
  | Do_Arrive b => done (Arrive b)
  | Do_BarrierLoop b => BarrierLoop b
  | Do_BarrierLast b => BarrierLast b
  | Do_SAppend x item => done (SAppend_list x item)
  | Do_SWait x => SWait x
  | Do_STake x => done (STake x)
  end.

Definition set_code (t : ptr) (c : list instr) : M () :=
  th ← thread t; put_thread t (mkThread (tid th) (priority th) (status th) (stack th) c).

(** The current thread executes its next instruction. *)
Definition kstep : M () :=
  t ← current;
  th ← thread t;
  match code th with
  | [] => lift (Stop Blocked)
  | i :: rest =>
      set_code t rest;;
      fr ← exec i;
      th' ← thread t;
      set_code t (fr ++ code th')
  end.

Fixpoint ksteps (n : nat) : M () :=
  match n with O => mret () | S n' => kstep;; ksteps n' end.
End machine.

(** [Initialize] of system.cc for the threads assignment, without a timer; [main] of
    main.cc ends with [currentThread->Finish()]. *)
Definition main_thread : ptr := 1%positive.
Definition K0 : K :=
  mkK (mkInterrupt IntOff [] false false SystemMode) (mkTicks 0 0 0 0)
    (mkTids (replicate (Z.to_nat ThreadsNumLimit) false) 0 [])
    (mkScheduler ∅ main_thread [] None) (mkObjects ∅ ∅ ∅ ∅ ∅) 0.
Definition Initialize (prog : list instr) : M () :=
  fr ← Thread_new main_thread 0;
  setStatus main_thread RUNNING;;
  set_code main_thread (fr ++ Do_SetLevel IntOn :: prog ++ [Call_Finish]).
