(* ===== verification/KernelLocks.v ===== *)
(** * Mutual exclusion of locks

    [Lock::Acquire] and [Lock::Release] of synch.cc are built on a semaphore, whose
    routines are interrupted by context switches and interrupt handlers.  The proof
    follows one token per lock: it is in the semaphore's value, in the lock's
    [OwnerId], or in the instructions of a thread that has passed [P] and not yet set
    the owner, or called [V] and not yet incremented the value. *)

From S2P Require Import Prelude NachosList Kernel.

Section token.
(** A lock and its semaphore. *)
Context (l m : Z).

(** How many tokens an instruction stands for. *)
Definition w (i : instr) : Z :=
  match i with
  | Call_P s | Do_P_loop s => if s =? m then -1 else 0
  | Call_V s | Do_V_inc s => if s =? m then 1 else 0
  | Do_SetOwner l' => if l' =? l then 1 else 0
  | _ => 0
  end.
Fixpoint W (c : list instr) : Z := match c with [] => 0 | i :: c' => w i + W c' end.
Fixpoint shape (c : list instr) : Prop :=
  match c with [] => True | i :: c' => 0 ≤ w i + W c' ∧ shape c' end.

(** Programs do not touch the lock's semaphore but through the lock. *)
Fixpoint user (i : instr) : bool :=
  match i with
  | Call_P s | Do_P_loop s | Call_V s | Do_V_inc s => negb (s =? m)
  | Do_SetOwner l' => negb (l' =? l)
  | New_thread _ p | Do_Fork _ p => forallb user p
  | _ => true
  end.
Definition frame_ok (i : instr) : bool :=
  match i with New_thread _ p | Do_Fork _ p => forallb user p | _ => true end.

Lemma user_frame i : user i = true → w i = 0 ∧ frame_ok i = true.
Proof. destruct i; cbn; try done; rewrite ?negb_true_iff; intros ->; done. Qed.
Lemma user_code c : forallb user c = true → W c = 0 ∧ shape c ∧ forallb frame_ok c = true.
Proof.
  induction c as [|i c IH]; [done|]. cbn [forallb W shape]. intros [Hi Hc]%andb_true_iff.
  apply user_frame in Hi as [-> ->]. destruct (IH Hc) as (-> & ? & ->). done.
Qed.
Lemma W_app c d : W (c ++ d) = W c + W d.
Proof. induction c as [|i c IH]; [done|]. cbn. rewrite IH. lia. Qed.
Lemma shape_nonneg c : shape c → 0 ≤ W c.
Proof. destruct c; cbn; [done|tauto]. Qed.

(** Replacing an instruction by [fr] keeps every tail of the code balanced. *)
Fixpoint balanced (x : Z) (fr : list instr) : Prop :=
  match fr with [] => True | i :: fr' => (0 ≤ W fr ∨ x ≤ W fr) ∧ balanced x fr' end.
Lemma shape_replace i fr rest : shape (i :: rest) → balanced (w i) fr → shape (fr ++ rest).
Proof.
  intros [Hi Hr]. induction fr as [|j fr IH]; [done|]. intros [Hb Hfr]. cbn [app shape].
  split; [|by apply IH]. rewrite W_app. apply shape_nonneg in Hr. cbn [W] in Hb. lia.
Qed.
Lemma balanced_user x fr : forallb user fr = true → balanced x fr.
Proof.
  induction fr as [|i fr IH]; [done|]. intros Hu. cbn [balanced]. split.
  - left. destruct (user_code _ Hu) as [-> _]. done.
  - apply IH. cbn in Hu. by apply andb_true_iff in Hu as [_ ?].
Qed.
Lemma balanced_app_user x fr fr' :
  forallb user fr = true → balanced x fr' → balanced x (fr ++ fr').
Proof.
  induction fr as [|i fr IH]; [done|]. intros Hu Hb. cbn [app balanced].
  pose proof Hu as [_ Hu']%andb_true_iff. split; [|by apply IH].
  destruct (user_code _ Hu) as [HW _]. change (i :: fr ++ fr') with ((i :: fr) ++ fr').
  rewrite W_app, HW. destruct fr'; cbn [balanced W] in *; [by left|tauto].
Qed.

(** ** Where the token is *)
Definition code_of (k : K) (t : ptr) : list instr :=
  match threads (sched k) !! t with Some th => code th | None => [] end.
Definition the_value (k : K) : Z :=
  match sems (objs k) !! m with Some x => value x | None => 0 end.
Definition the_owner (k : K) : Z :=
  match locks (objs k) !! l with Some x => OwnerId x | None => -1 end.

Inductive place := In_value | In_owner | In_thread (t : ptr).
Definition wt (k : K) (p : place) : Z :=
  match p with
  | In_value => the_value k
  | In_owner => if the_owner k =? -1 then 0 else 1
  | In_thread t => W (code_of k t)
  end.
Definition exclusive (f : place → Z) : Prop :=
  (∀ p, 0 ≤ f p ≤ 1) ∧ ∀ p q, p ≠ q → f p + f q ≤ 1.

#[local] Instance place_eq_dec : EqDecision place.
Proof. solve_decision. Defined.

Lemma exclusive_le f g : exclusive f → (∀ p, 0 ≤ g p ≤ f p) → exclusive g.
Proof.
  intros [H1 H2] HG. split; [intros p; specialize (HG p); specialize (H1 p); lia|].
  intros p q Hpq. specialize (H2 p q Hpq). pose proof (HG p). pose proof (HG q). lia.
Qed.
(** A token moves from [p] to [q]. *)
Lemma exclusive_move f g p q :
  exclusive f → p ≠ q → (∀ r, r ≠ p → r ≠ q → g r = f r) →
  g p + g q = f p + f q → 0 ≤ g p → 0 ≤ g q → exclusive g.
Proof.
  intros [H1 H2] Hpq Hr Hs Hp Hq. pose proof (H2 p q Hpq) as H2pq. split.
  - intros r. destruct (decide (r = p)) as [->|]; [lia|]. destruct (decide (r = q)) as [->|]; [lia|].
    rewrite Hr by done. apply H1.
  - assert (∀ a, a ≠ p → a ≠ q → f a + (f p + f q) ≤ 1) as H3.
    { intros a Ha Hb. pose proof (H2 a p Ha). pose proof (H2 a q Hb). pose proof (H1 p). pose proof (H1 q).
      pose proof (H1 a). destruct (decide (f p = 0)); lia. }
    assert (∀ a, a ≠ p → a ≠ q → g a + (g p + g q) ≤ 1) as H4 by (intros; rewrite Hr, Hs; auto).
    assert (∀ a b, a = p ∨ a = q → b ≠ p → b ≠ q → g a + g b ≤ 1) as H5.
    { intros a b [->| ->] Hb1 Hb2; specialize (H4 b Hb1 Hb2); lia. }
    intros a b Hab. destruct (decide (a = p ∨ a = q)) as [Ha|Ha], (decide (b = p ∨ b = q)) as [Hb|Hb].
    + destruct Ha as [->| ->], Hb as [->| ->]; try done; lia.
    + apply H5; tauto.
    + rewrite Z.add_comm. apply H5; tauto.
    + rewrite !Hr by tauto. by apply H2.
Qed.

(** ** Steps that leave the token alone *)
Record good (k : K) : Prop := {
  g_pending : Forall (λ e, forallb user (handler e.2) = true) (pending (intr k));
  g_mutex : ∀ l' x, locks (objs k) !! l' = Some x → mutex x = m ↔ l' = l;
  g_tids : ∀ t th, threads (sched k) !! t = Some th → 0 ≤ tid th
}.
Record quiet (k k' : K) : Prop := {
  q_good : good k';
  q_value : the_value k' = the_value k;
  q_owner : the_owner k' = the_owner k;
  q_code : ∀ t, code_of k' t = code_of k t ∨ forallb user (code_of k' t) = true
}.
Lemma quiet_refl k : good k → quiet k k.
Proof. split; auto. Qed.
Lemma quiet_trans k1 k2 k3 : quiet k1 k2 → quiet k2 k3 → quiet k1 k3.
Proof.
  intros [? V1 O1 C1] [? V2 O2 C2]. split; [done|congruence|congruence|].
  intros t. destruct (C2 t) as [->|]; [apply C1|by right].
Qed.

(** [op] leaves the token alone and returns a value with property [Q]. *)
Definition calm {A} (op : M A) (Q : A → Prop) : Prop :=
  ∀ k a k', good k → op k = Ok (a, k') → quiet k k' ∧ Q a.

Lemma calm_bind {A B} (op : M A) (f : A → M B) Q R :
  calm op Q → (∀ a, Q a → calm (f a) R) → calm (op ≫= f) R.
Proof.
  intros Hop Hf k b k' HG HE. apply ST_bind_Ok in HE as (a & k1 & H1 & H2).
  destruct (Hop _ _ _ HG H1) as [HQ1 Ha]. destruct (Hf a Ha _ _ _ (q_good _ _ HQ1) H2) as [HQ2 Hb].
  split; [by eapply quiet_trans|done].
Qed.
Lemma calm_ret {A} (a : A) (Q : A → Prop) : Q a → calm (mret a) Q.
Proof. intros Ha k a' k' HG HE. injection HE as <- <-. split; [by apply quiet_refl|done]. Qed.
Lemma calm_get {A} (f : K → A) : calm (get f) (λ _, True).
Proof. intros k a k' HG HE. injection HE as <- <-. split; [by apply quiet_refl|done]. Qed.
Lemma calm_get_at {A} (f : K → option A) : calm (get_at f) (λ _, True).
Proof.
  intros k a k' HG HE. unfold get_at in HE. destruct (f k); [|done]. injection HE as <- <-.
  split; [by apply quiet_refl|done].
Qed.
Lemma calm_lift {A} (r : result A) : calm (lift r) (λ _, True).
Proof.
  intros k a k' HG HE. unfold lift in HE. destruct r; [|done]. injection HE as <- <-.
  split; [by apply quiet_refl|done].
Qed.
Lemma calm_ASSERT b : calm (lift (ASSERT b)) (λ _, b = true).
Proof.
  intros k a k' HG HE. unfold lift, ASSERT in HE. destruct b; [|done]. injection HE as <- <-.
  split; [by apply quiet_refl|done].
Qed.
Lemma calm_thread t : calm (thread t) (λ th, 0 ≤ tid th).
Proof.
  intros k a k' HG HE. unfold thread, get_at in HE. destruct (_ !! _) eqn:E; [|done]. injection HE as <- <-.
  split; [by apply quiet_refl|by eapply HG].
Qed.
Lemma calm_lock l' : calm (lock l') (λ x, mutex x = m ↔ l' = l).
Proof.
  intros k a k' HG HE. unfold lock, get_at in HE. destruct (_ !! _) eqn:E; [|done]. injection HE as <- <-.
  split; [by apply quiet_refl|by eapply HG].
Qed.
Lemma calm_weaken {A} (op : M A) (Q R : A → Prop) : calm op Q → (∀ a, Q a → R a) → calm op R.
Proof. intros H1 H2 k a k' HG HE. destruct (H1 _ _ _ HG HE). auto. Qed.

(** *** Primitive state changes *)
Lemma calm_update (f : K → K) :
  (∀ k, good k → quiet k (f k)) → calm (λ k, Ok ((), f k)) (λ _, True).
Proof. intros Hf k a k' HG HE. injection HE as <- <-. auto. Qed.
Lemma calm_put_sem s x : s ≠ m → calm (put_sem s x) (λ _, True).
Proof.
  intros Hs. apply calm_update. intros k [H1 H2 H3]. split; [by split|cbn|done|by left].
  unfold the_value. cbn. by rewrite lookup_insert_ne.
Qed.
Lemma calm_on_intr f :
  (∀ i, pending (f i) = pending i) → calm (on_intr f) (λ _, True).
Proof. intros Hf. apply calm_update. intros k [H1 H2 H3]. split; try done; [|by left]. split; cbn; try done. by rewrite Hf. Qed.
Lemma calm_set_pending p :
  Forall (λ e, forallb user (handler e.2) = true) p → calm (set_pending p) (λ _, True).
Proof. intros Hp. apply calm_update. intros k [H1 H2 H3]. split; try done; by left. Qed.
Lemma calm_get_pending :
  calm (get (λ k, pending (intr k))) (Forall (λ e, forallb user (handler e.2) = true)).
Proof. intros k a k' HG HE. injection HE as <- <-. split; [by apply quiet_refl|apply HG]. Qed.
Lemma calm_on_ticks f : calm (on_ticks f) (λ _, True).
Proof.
  intros k a k' [H1 H2 H3] HE. unfold on_ticks in HE. destruct (ticks_fit _); [|done]. injection HE as <- <-.
  split; [|done]. split; try done; by left.
Qed.
Lemma calm_on_tids f : calm (on_tids f) (λ _, True).
Proof. apply calm_update. intros k [H1 H2 H3]. split; try done; by left. Qed.
Lemma calm_count_call : calm count_call (λ _, True).
Proof. apply calm_update. intros k [H1 H2 H3]. split; try done; by left. Qed.
Lemma calm_on_sched f :
  (∀ s t, match threads (f s) !! t with
          | Some th' => (∃ th, threads s !! t = Some th ∧ code th' = code th ∧ tid th' = tid th) ∨
                        (forallb user (code th') = true ∧ 0 ≤ tid th')
          | None => True
          end) → calm (on_sched f) (λ _, True).
Proof.
  intros Hf. apply calm_update. intros k [H1 H2 H3]. split; try done.
  - split; try done. intros t th Ht. specialize (Hf (sched k) t). cbn in Ht. rewrite Ht in Hf.
    destruct Hf as [(th0 & Ht0 & _ & ->)|[_ ?]]; [by eapply H3|done].
  - intros t. unfold code_of. cbn. specialize (Hf (sched k) t). destruct (threads (f (sched k)) !! t); [|by right].
    destruct Hf as [(th & -> & -> & _)|[? _]]; [by left|by right].
Qed.
Lemma calm_put_thread t th : forallb user (code th) = true → 0 ≤ tid th → calm (put_thread t th) (λ _, True).
Proof.
  intros Hu Ht. apply calm_on_sched. intros s t'. cbn.
  destruct (decide (t = t')) as [->|]; [rewrite lookup_insert_eq; by right|].
  rewrite lookup_insert_ne by done. case_match; [|done]. left. eauto.
Qed.
Lemma calm_setStatus t st : calm (setStatus t st) (λ _, True).
Proof.
  intros k a k' HG HE. unfold setStatus in HE. apply ST_bind_Ok in HE as (th & k1 & H1 & HE).
  unfold thread, get_at in H1. destruct (threads (sched k) !! t) as [th0|] eqn:Ht; [|done].
  injection H1 as <- <-. injection HE as <- <-. split; [|done]. destruct HG as [H1 H2 H3].
  split; try done.
  { split; try done. intros t' th'. cbn. rewrite lookup_insert_Some. intros [[<- <-]|[_ ?]]; [cbn|]; by eapply H3. }
  intros t'. left. unfold code_of. cbn.
  destruct (decide (t = t')) as [->|]; [by rewrite lookup_insert_eq, Ht|by rewrite lookup_insert_ne].
Qed.
Lemma calm_put_cond c x : calm (put_cond c x) (λ _, True).
Proof. apply calm_update. intros k [H1 H2 H3]. split; try done; by left. Qed.
Lemma calm_put_barrier b x : calm (put_barrier b x) (λ _, True).
Proof. apply calm_update. intros k [H1 H2 H3]. split; try done; by left. Qed.
Lemma calm_put_slist x s : calm (put_slist x s) (λ _, True).
Proof. apply calm_update. intros k [H1 H2 H3]. split; try done; by left. Qed.

Lemma sorted_insert_pending k0 e p :
  forallb user (handler e) = true → Forall (λ e, forallb user (handler e.2) = true) p →
  Forall (λ e, forallb user (handler e.2) = true) (sorted_insert k0 e p).
Proof. intros He Hp. rewrite sorted_insert_perm. by constructor. Qed.

(** A call of [Schedule] that returns. *)
Lemma Schedule_Ok h d ty k k' :
  Schedule h d ty k = Ok ((), k') →
  let t := totalTicks (ticks k) + d in
  int_fits t = true ∧ 0 < d ∧
  set_pending (sorted_insert t (mkPending h t ty) (pending (intr k))) k = Ok ((), k').
Proof.
  intros HE. unfold Schedule in HE. erewrite ST_step in HE by reflexivity.
  destruct (int_fits (totalTicks (ticks k) + d)) eqn:Hi; [|done]. erewrite ST_step in HE by reflexivity.
  destruct (Z.gtb_spec d 0); [|done]. erewrite ST_step in HE by reflexivity. erewrite ST_step in HE by reflexivity. done.
Qed.

Create HintDb calm.
Hint Resolve calm_get calm_get_at calm_lift calm_on_ticks calm_on_tids calm_count_call
  calm_setStatus calm_put_cond calm_put_barrier calm_put_slist calm_get_pending : calm.
Hint Extern 1 (calm (on_intr _) _) => apply calm_on_intr; reflexivity : calm.
Hint Extern 1 (calm (set_level _) _) => apply calm_on_intr; reflexivity : calm.
Hint Extern 1 (calm (set_inHandler _) _) => apply calm_on_intr; reflexivity : calm.
Hint Extern 1 (calm (set_yieldOnReturn _) _) => apply calm_on_intr; reflexivity : calm.
Hint Extern 1 (calm (set_mstatus _) _) => apply calm_on_intr; reflexivity : calm.
Hint Extern 1 (calm (set_ready _) _) =>
  apply calm_on_sched; intros ? ?; cbn; case_match; eauto : calm.
Hint Extern 1 (calm (set_current _) _) =>
  apply calm_on_sched; intros ? ?; cbn; case_match; eauto : calm.
Hint Extern 1 (calm (set_toBeDestroyed _) _) =>
  apply calm_on_sched; intros ? ?; cbn; case_match; eauto : calm.
Hint Extern 1 (calm current _) => apply calm_get : calm.
Hint Extern 1 (calm (sem _) _) => apply calm_get_at : calm.
Hint Extern 1 (calm (cond _) _) => apply calm_get_at : calm.
Hint Extern 1 (calm (barrier _) _) => apply calm_get_at : calm.
Hint Extern 1 (calm (slist _) _) => apply calm_get_at : calm.

(** One step through a routine: the next call is calm by the hints. *)
Ltac calm1 :=
  match goal with
  | |- calm (mret _) _ => apply calm_ret
  | |- calm (_ ≫= _) _ => eapply calm_bind; [solve [apply calm_ASSERT | apply calm_thread | apply calm_lock | eauto with calm]|let H := fresh "H" in intros ? H; cbv beta in H]
  | |- calm (match ?x with _ => _ end) _ => destruct x eqn:?
  | |- calm (if ?x then _ else _) _ => destruct x eqn:?
  end.
Ltac calms := repeat calm1; try solve [eauto with calm].

Lemma calm_disable : calm disable (λ _, True).
Proof. unfold disable. by calms. Qed.
Lemma calm_SetLevel now : calm (SetLevel now) (λ fr, forallb user fr = true).
Proof. unfold SetLevel. calms. by case_match. Qed.
Hint Resolve calm_disable calm_SetLevel : calm.

Lemma calm_Schedule h d ty : forallb user h = true → calm (Schedule h d ty) (λ _, True).
Proof. intros Hh. unfold Schedule. calms. apply calm_set_pending. by apply sorted_insert_pending. Qed.
Lemma calm_CheckIfDue adv :
  calm (CheckIfDue adv) (λ r, match r with Some fr => forallb user fr = true | None => True end).
Proof.
  unfold CheckIfDue.
  do 4 calm1. calm1; [by calms|]. destruct p as [w0 e]. match goal with H : Forall _ (_ :: _) |- _ => apply Forall_cons_iff in H as [He Hp] end. cbn in He.
  calm1. calm1.
  - eapply calm_bind; [apply calm_set_pending; by apply sorted_insert_pending|intros ? ?]. by calms.
  - eapply calm_bind with (Q := λ _, True); [calms; done|intros ? ?]. calm1.
    + eapply calm_bind; [apply calm_set_pending; by apply sorted_insert_pending|intros ? ?]. by calms.
    + eapply calm_bind; [by apply calm_set_pending|intros ? ?].
      eapply calm_bind with (Q := λ fr, forallb user fr = true).
      * unfold fire. calms. rewrite forallb_app, He. done.
      * intros fr Hfr. by calms.
Qed.
Hint Resolve calm_CheckIfDue : calm.

(** *** The routines *)
#[local] Abbreviation users := (λ fr, forallb user fr = true).

Lemma calm_OneTick : calm OneTick users.
Proof. unfold OneTick. by calms. Qed.
Lemma calm_CheckLoop : calm CheckLoop users.
Proof.
  unfold CheckLoop. calm1. calm1. destruct a as [fr|]; [|done].
  by rewrite forallb_app, H.
Qed.
Lemma calm_TickEnd old : calm (TickEnd old) users.
Proof. unfold TickEnd. by calms. Qed.
Lemma calm_Idle : calm Idle users.
Proof.
  unfold Idle. calm1. calm1. destruct a0 as [fr|].
  - calm1. by rewrite forallb_app, H0.
  - intros k x k' _ HE. done.
Qed.
Lemma calm_YieldOnReturn : calm YieldOnReturn (λ _, True).
Proof. unfold YieldOnReturn. by calms. Qed.
Hint Resolve calm_YieldOnReturn : calm.
Lemma calm_TimerExpired rnd r : calm (TimerExpired rnd r) (λ _, True).
Proof.
  unfold TimerExpired, TimeOfNextInterrupt, TimerInterruptHandler.
  eapply calm_bind with (Q := λ _, True); [by calms|intros d _].
  eapply calm_bind; [by apply calm_Schedule|intros ? ?]. by calms.
Qed.
Lemma calm_Thread_new t prio : calm (Thread_new t prio) users.
Proof.
  unfold Thread_new. do 10 calm1. eapply calm_bind; [apply calm_put_thread; [done|cbn; lia]|intros ? ?].
  by calms.
Qed.
Lemma calm_Thread_delete t : calm (Thread_delete t) users.
Proof. unfold Thread_delete. calms. by rewrite forallb_app, H7. Qed.
Lemma calm_Deleted t : calm (Deleted t) (λ _, True).
Proof.
  unfold Deleted. calm1. calm1. eapply calm_bind with (Q := λ _, True); [|intros ? ?; by calms].
  apply calm_on_sched. intros s t'. cbn. destruct (decide (t = t')) as [->|].
  - by rewrite lookup_delete_eq.
  - rewrite lookup_delete_ne by done. case_match; eauto.
Qed.
Lemma calm_Fork t prog : forallb user prog = true → calm (Fork t prog) users.
Proof.
  intros Hp. unfold Fork. calm1. eapply calm_bind with (Q := λ _, True); [|intros ? ?; by calms].
  apply calm_put_thread; [cbn; by rewrite forallb_app, Hp|done].
Qed.
Lemma calm_ReadyToRun t : calm (ReadyToRun t) users.
Proof. unfold ReadyToRun. calms. by case_match. Qed.
Lemma calm_FindNextToRun : calm FindNextToRun (λ _, True).
Proof. unfold FindNextToRun. by calms. Qed.
Hint Resolve calm_FindNextToRun : calm.
Lemma calm_Run t : calm (Run t) users.
Proof. unfold Run. by calms. Qed.
Lemma calm_RunTail : calm RunTail users.
Proof. unfold RunTail. calm1. calm1; [apply calm_Thread_delete|by calms]. Qed.
Lemma calm_Yield : calm Yield users.
Proof. unfold Yield. by calms. Qed.
Lemma calm_YieldNext : calm YieldNext users.
Proof. unfold YieldNext. calms. by case_match. Qed.
Lemma calm_Sleep : calm Sleep users.
Proof. unfold Sleep. by calms. Qed.
Lemma calm_SleepLoop : calm SleepLoop users.
Proof. unfold SleepLoop. calms. by case_match. Qed.
Lemma calm_Finish : calm Finish users.
Proof. unfold Finish. by calms. Qed.
Lemma calm_Wait c l' : calm (Wait c l') users.
Proof. unfold Wait. by calms. Qed.
Lemma calm_WaitSleep c : calm (WaitSleep c) users.
Proof. unfold WaitSleep. by calms. Qed.
Lemma calm_isHeld l' : calm (isHeldByCurrentThread l') (λ _, True).
Proof. unfold isHeldByCurrentThread. by calms. Qed.
Hint Resolve calm_isHeld : calm.
Lemma calm_Signal c l' : calm (Signal c l') users.
Proof. unfold Signal. by calms. Qed.
Lemma calm_Broadcast c l' : calm (Broadcast c l') users.
Proof. unfold Broadcast. calms. by case_match. Qed.
Lemma calm_BroadcastLoop c : calm (BroadcastLoop c) users.
Proof. unfold BroadcastLoop. by calms. Qed.
Lemma calm_BarrierWait b : calm (BarrierWait b) users.
Proof. unfold BarrierWait. by calms. Qed.
Lemma calm_Arrive b : calm (Arrive b) (λ _, True).
Proof. unfold Arrive. by calms. Qed.
Lemma calm_BarrierLoop b : calm (BarrierLoop b) users.
Proof. unfold BarrierLoop. calms. by case_match. Qed.
Lemma calm_BarrierLast b : calm (BarrierLast b) users.
Proof. unfold BarrierLast. calms. by case_match. Qed.
Lemma calm_SAppend x i : calm (SAppend x i) users.
Proof. unfold SAppend. by calms. Qed.
Lemma calm_SAppend_list x i : calm (SAppend_list x i) (λ _, True).
Proof. unfold SAppend_list. by calms. Qed.
Lemma calm_SRemove x : calm (SRemove x) users.
Proof. unfold SRemove. by calms. Qed.
Lemma calm_SWait x : calm (SWait x) users.
Proof. unfold SWait. calms. by case_match. Qed.
Lemma calm_STake x : calm (STake x) (λ _, True).
Proof. unfold STake. by calms. Qed.
Lemma calm_done (op : M ()) : calm op (λ _, True) → calm (done op) users.
Proof. intros Hop. unfold done. eapply calm_bind; [done|]. intros ? ?. by calms. Qed.

(** The instructions that replace [i]. *)
Definition replaces (i : instr) (fr : list instr) : Prop :=
  W fr = w i ∧ balanced (w i) fr ∧ forallb frame_ok fr = true.
Lemma replaces_user i fr : w i = 0 → forallb user fr = true → replaces i fr.
Proof.
  intros Hi Hfr. destruct (user_code _ Hfr) as (HW & _ & HF).
  split_and!; [by rewrite HW, Hi|by apply balanced_user|done].
Qed.
Lemma calm_users i op : w i = 0 → calm op users → calm op (replaces i).
Proof. intros Hi Hop. eapply calm_weaken; [exact Hop|]. intros fr. by apply replaces_user. Qed.

Lemma calm_P s : calm (P s) (replaces (Call_P s)).
Proof.
  unfold P. calms. unfold replaces. cbn. destruct (s =? m); cbn; split_and!; try done; lia.
Qed.
Lemma calm_P_loop s : s ≠ m → calm (P_loop s) (replaces (Do_P_loop s)).
Proof.
  intros Hs. apply calm_users; [cbn; by rewrite (proj2 (Z.eqb_neq s m))|].
  unfold P_loop. calm1. destruct (value a =? 0).
  - calm1. eapply calm_bind; [by apply calm_put_sem|intros ? ?]. calms. cbn.
    by rewrite (proj2 (Z.eqb_neq s m)).
  - eapply calm_bind; [by apply calm_put_sem|intros ? ?]. by calms.
Qed.
Lemma calm_V_inc s : s ≠ m → calm (V_inc s) (λ _, True).
Proof. intros Hs. unfold V_inc. calm1. by apply calm_put_sem. Qed.
Lemma calm_SetOwner l' : l' ≠ l → calm (SetOwner l') (λ _, True).
Proof.
  intros Hl. unfold SetOwner. do 3 calm1. apply calm_update. intros k [H2 H3 H4]. split; [|done| |by left].
  - split; cbn; [done| |done]. intros l2 x. rewrite lookup_insert_Some.
    intros [[<- <-]|[_ ?]]; [cbn; done|by eapply H3].
  - unfold the_owner. cbn. by rewrite lookup_insert_ne.
Qed.
Lemma calm_Release l' : l' ≠ l → calm (Release l') (replaces (Call_Release l')).
Proof.
  intros Hl. apply calm_users; [done|]. unfold Release. do 4 calm1.
  assert (mutex a2 ≠ m) by tauto. eapply calm_bind with (Q := λ _, True); [|intros ? _].
  - apply calm_update. intros k [H4 H5 H6]. split; [|done| |by left].
    + split; cbn; [done| |done]. intros l2 x. rewrite lookup_insert_Some.
      intros [[<- <-]|[_ ?]]; [cbn; done|by eapply H5].
    + unfold the_owner. cbn. by rewrite lookup_insert_ne.
  - calms. cbn. rewrite (proj2 (Z.eqb_neq _ _)); done.
Qed.
Lemma calm_Acquire l' : calm (Acquire l') (replaces (Call_Acquire l')).
Proof.
  unfold Acquire. calm1. calm1. calm1. unfold replaces. cbn.
  destruct (Z.eqb_spec (mutex a0) m), (Z.eqb_spec l' l); cbn; try tauto; split_and!; try done; lia.
Qed.
(** [V] of the semaphore itself: only the queue changes. *)
Lemma quiet_put_sem k s x x' :
  good k → sems (objs k) !! s = Some x → value x' = value x →
  quiet k (mkK (intr k) (ticks k) (tids k) (sched k)
     (mkObjects (<[s := x']> (sems (objs k))) (locks (objs k)) (conds (objs k)) (barriers (objs k))
        (slists (objs k))) (calls k)).
Proof.
  intros [H1 H2 H3] Hx Hv. split; [by split| |done|by left]. unfold the_value. cbn.
  destruct (decide (s = m)) as [->|]; [by rewrite lookup_insert_eq, Hx|by rewrite lookup_insert_ne].
Qed.
Lemma calm_V s : calm (V s) (replaces (Call_V s)).
Proof.
  unfold V. calm1. intros k fr k' HG HE. apply ST_bind_Ok in HE as (x & k1 & H1 & HE).
  unfold sem, get_at in H1. destruct (sems (objs k) !! s) as [x0|] eqn:Ex; [|done]. injection H1 as <- <-.
  destruct (queue x0) as [|t q]; [|apply ST_bind_Ok in HE as ([] & k1 & H1 & HE); injection H1 as <-];
    injection HE as <- <-; (split; [|unfold replaces; cbn; destruct (s =? m); cbn; split_and!; try done; lia]).
  - by apply quiet_refl.
  - by eapply quiet_put_sem.
Qed.
Lemma calm_New_thread rnd r prio prog :
  forallb user prog = true → calm (exec rnd r (New_thread prio prog)) users.
Proof.
  intros Hp. cbn [exec]. calm1. eapply calm_bind; [apply calm_Thread_new|]. intros fr Hfr. calm1.
  by rewrite forallb_app, Hfr; cbn; rewrite Hp.
Qed.

(** The four instructions that move the token. *)
Definition moves (i : instr) : bool :=
  match i with
  | Do_P_loop s | Do_V_inc s => s =? m
  | Do_SetOwner l' | Call_Release l' => l' =? l
  | _ => false
  end.

Hint Resolve calm_OneTick calm_CheckLoop calm_TickEnd calm_Idle calm_TimerExpired calm_Thread_new
  calm_Thread_delete calm_Deleted calm_ReadyToRun calm_Run calm_RunTail calm_Yield calm_YieldNext
  calm_Sleep calm_SleepLoop calm_Finish calm_Wait calm_WaitSleep calm_Signal calm_Broadcast
  calm_BroadcastLoop calm_BarrierWait calm_Arrive calm_BarrierLoop calm_BarrierLast calm_SAppend
  calm_SAppend_list calm_SRemove calm_SWait calm_STake calm_done : calm.

Lemma exec_calm rnd r i :
  frame_ok i = true → moves i = false → calm (exec rnd r i) (replaces i).
Proof.
  destruct i; cbn [frame_ok moves]; intros HF HM; rewrite ?Z.eqb_neq in HM; cbn [exec];
    try apply calm_P; try apply calm_V; try apply calm_Acquire; try (by apply calm_Release);
    try (by apply calm_P_loop);
    (apply calm_users; [cbn; rewrite ?(proj2 (Z.eqb_neq _ _)) by done; done|]);
    try (eauto with calm; fail).
  - by apply (calm_New_thread rnd r).
  - apply calm_done. by calms.
  - apply calm_done. by calms.
  - by apply calm_Fork.
  - apply calm_done. by apply calm_V_inc.
  - apply calm_done. by apply calm_SetOwner.
Qed.

(** ** The invariant *)

(** [h] is the holder of the lock. *)
Record Inv (h : option Z) (k : K) : Prop := {
  i_good : good k;
  i_code : ∀ t, forallb frame_ok (code_of k t) = true ∧ shape (code_of k t);
  i_excl : exclusive (wt k);
  i_owner : the_owner k = default (-1) h;
  i_tid : h ≠ Some (-1)
}.

(** The state [k] with the code of [t] replaced. *)
Definition with_code (k : K) (t : ptr) (th : Thread) (c : list instr) : K :=
  mkK (intr k) (ticks k) (tids k)
    (mkScheduler (<[t := mkThread (tid th) (priority th) (status th) (stack th) c]> (threads (sched k)))
       (currentThread (sched k)) (readyList (sched k)) (threadToBeDestroyed (sched k)))
    (objs k) (calls k).
Lemma code_of_with k t th c t' : code_of (with_code k t th c) t' = if decide (t = t') then c else code_of k t'.
Proof.
  unfold code_of. cbn. destruct (decide (t = t')) as [->|]; [by rewrite lookup_insert_eq|by rewrite lookup_insert_ne].
Qed.
Lemma good_with k t th c : good k → threads (sched k) !! t = Some th → good (with_code k t th c).
Proof.
  intros [H1 H2 H3] Ht. split; [done|done|]. intros t' th'. cbn. rewrite lookup_insert_Some.
  intros [[<- <-]|[_ ?]]; [exact (H3 _ _ Ht)|by eapply H3].
Qed.

Lemma kstep_inv rnd r k k' :
  kstep rnd r k = Ok ((), k') →
  ∃ th i rest fr k2 th2, let t := currentThread (sched k) in
    threads (sched k) !! t = Some th ∧ code th = i :: rest ∧
    exec rnd r i (with_code k t th rest) = Ok (fr, k2) ∧
    threads (sched k2) !! t = Some th2 ∧ k' = with_code k2 t th2 (fr ++ code th2).
Proof.
  unfold kstep. intros HE. apply ST_bind_Ok in HE as (t & k0 & H0 & HE). injection H0 as <- <-.
  apply ST_bind_Ok in HE as (th & k0 & H0 & HE). unfold thread, get_at in H0.
  destruct (threads (sched k) !! _) as [th0|] eqn:Ht; [|done]. injection H0 as <- <-.
  destruct (code th0) as [|i rest] eqn:Hc; [done|].
  apply ST_bind_Ok in HE as ([] & k1 & H1 & HE). unfold set_code, thread in H1.
  apply ST_bind_Ok in H1 as (th1 & k0 & H0 & H1). unfold get_at in H0. rewrite Ht in H0.
  injection H0 as <- <-. injection H1 as <-.
  apply ST_bind_Ok in HE as (fr & k2 & HX & HE). apply ST_bind_Ok in HE as (th2 & k0 & H0 & HE).
  unfold thread, get_at in H0. destruct (threads (sched k2) !! _) as [th3|] eqn:Ht2; [|done].
  injection H0 as <- <-. unfold set_code, thread in HE.
  apply ST_bind_Ok in HE as (th1 & k0 & H0 & HE). unfold get_at in H0. rewrite Ht2 in H0.
  injection H0 as <- <-. injection HE as <-. by exists th0, i, rest, fr, k2, th3.
Qed.

Section one_step.
Context (h : option Z) (k : K) (th : Thread) (i : instr) (rest : list instr) (k2 : K) (th2 : Thread)
  (fr : list instr).
Let t := currentThread (sched k).
Context (HI : Inv h k) (Ht : threads (sched k) !! t = Some th) (Hc : code th = i :: rest).
Context (Ht2 : threads (sched k2) !! t = Some th2).
Let k1 := with_code k t th rest.
Let k' := with_code k2 t th2 (fr ++ code th2).

Lemma code_k : code_of k t = i :: rest.
Proof. unfold code_of. by rewrite Ht. Qed.
Lemma shape_k : shape (i :: rest) ∧ forallb frame_ok (i :: rest) = true.
Proof. rewrite <-code_k. destruct (i_code _ _ HI t). done. Qed.
Lemma good_k1 : good k1.
Proof. apply good_with; [apply HI|done]. Qed.

(** A step that leaves the token alone. *)
Lemma step_quiet :
  quiet k1 k2 → replaces i fr → (w i ≠ 0 → sched k2 = sched k1) → Inv h k'.
Proof.
  intros [HG HV HO HC] (HW & HB & HF) Hs. destruct shape_k as [Hsh Hfo].
  assert (code th2 = rest ∨ (w i = 0 ∧ forallb user (code th2) = true)) as Hth2.
  { assert (code_of k2 t = code th2) as <- by (unfold code_of; by rewrite Ht2).
    assert (code_of k1 t = rest) as Hk1 by (unfold k1; rewrite code_of_with; by rewrite decide_True).
    destruct (decide (w i = 0)).
    - destruct (HC t) as [->|]; [by left|by right].
    - left. unfold code_of. rewrite Hs by done. exact Hk1. }
  assert (shape (fr ++ code th2) ∧ forallb frame_ok (fr ++ code th2) = true ∧
          0 ≤ W (fr ++ code th2) ≤ W (i :: rest)) as (Hsh' & Hfo' & HWt).
  { cbn [forallb] in Hfo. apply andb_true_iff in Hfo as [Hfi Hfo]. destruct Hth2 as [->|[Hi Hu]].
    - split_and!; [by eapply shape_replace|by rewrite forallb_app, HF, Hfo| |rewrite W_app, HW; cbn; lia].
      apply shape_nonneg. by eapply shape_replace.
    - destruct (user_code _ Hu) as (HW0 & Hs0 & Hf0). rewrite W_app, HW, HW0, Hi.
      split_and!; [|by rewrite forallb_app, HF, Hf0|lia|by apply shape_nonneg in Hsh].
      rewrite Hi in HB. clear -HB HW0 Hs0. induction fr as [|j f IH]; [done|]. cbn [balanced app shape W] in *.
      destruct HB as [HB1 HB2]. rewrite W_app, HW0. split; [lia|by apply IH]. }
  destruct HI as [HGk HCk HEk HOk Htid]. split.
  - by apply good_with.
  - intros t'. unfold k'. rewrite code_of_with. case_decide as Htt; [done|].
    destruct (HC t') as [->|Hu].
    + unfold k1. rewrite code_of_with, decide_False by done. apply HCk.
    + apply user_code in Hu. tauto.
  - eapply exclusive_le; [exact HEk|]. intros [| |t']; cbn [wt].
    + change (the_value k') with (the_value k2). rewrite HV. pose proof (proj1 HEk In_value) as Hv. cbn in Hv. split; [apply Hv|done].
    + change (the_owner k') with (the_owner k2). rewrite HO. change (the_owner k1) with (the_owner k). by case_match.
    + unfold k'. rewrite code_of_with. case_decide as Htt; [subst t'; by rewrite code_k|].
      pose proof (shape_nonneg _ (proj2 (HCk t'))). destruct (HC t') as [->|Hu].
      * unfold k1. rewrite code_of_with, decide_False by done. lia.
      * apply user_code in Hu as [-> _]. lia.
  - change (the_owner k') with (the_owner k2). rewrite HO. exact HOk.
  - done.
Qed.

(** A step that moves the token, with the threads untouched. *)
Lemma step_move h' p :
  sched k2 = sched k1 → good k2 → shape (fr ++ rest) → forallb frame_ok fr = true →
  p ≠ In_thread t → (∀ q, (∀ t, q ≠ In_thread t) → q ≠ p → wt k2 q = wt k q) →
  0 ≤ wt k2 p → wt k2 p + W (fr ++ rest) = wt k p + W (i :: rest) →
  the_owner k2 = default (-1) h' → h' ≠ Some (-1) → Inv h' k'.
Proof.
  intros Hs HG Hsh Hfo Hp Hq Hpos Hsum HO Htid. destruct shape_k as [_ Hfo0].
  assert (code th2 = rest) as Hth2.
  { rewrite Hs in Ht2. unfold k1 in Ht2. cbn in Ht2. rewrite lookup_insert_eq in Ht2. by injection Ht2 as <-. }
  assert (∀ t', t' ≠ t → code_of k' t' = code_of k t') as Hoth.
  { intros t' Htt. unfold k'. rewrite code_of_with, decide_False by done. unfold code_of. rewrite Hs. cbn.
    by rewrite lookup_insert_ne. }
  assert (code_of k' t = fr ++ rest) as Hct by (unfold k'; by rewrite code_of_with, decide_True, Hth2).
  destruct HI as [HGk HCk HEk HOk _]. cbn [forallb] in Hfo0.
  apply andb_true_iff in Hfo0 as [_ Hfo0]. split.
  - by apply good_with.
  - intros t'. destruct (decide (t' = t)) as [->|]; [|by rewrite Hoth].
    rewrite Hct. by rewrite forallb_app, Hfo, Hfo0.
  - eapply (exclusive_move (wt k) _ p (In_thread t)); [done|done| | | |].
    + intros [| |t'] H1 H2; [exact (Hq In_value ltac:(done) H1)|exact (Hq In_owner ltac:(done) H1)|].
      cbn. rewrite Hoth by congruence. done.
    + destruct p; cbn [wt] in *; rewrite Hct, code_k; try exact Hsum. rewrite Hoth by congruence.
      unfold code_of in Hsum. rewrite Hs in Hsum. cbn in Hsum. rewrite lookup_insert_ne in Hsum by congruence. exact Hsum.
    + destruct p; cbn [wt] in *; [exact Hpos|exact Hpos|]. rewrite Hoth by congruence. apply shape_nonneg, HCk.
    + cbn. rewrite Hct. by apply shape_nonneg.
  - exact HO.
  - done.
Qed.

(** The four instructions that move it. *)
Lemma move_P_loop : i = Do_P_loop m → P_loop m k1 = Ok (fr, k2) → Inv h k'.
Proof.
  intros Hi HE. unfold P_loop in HE. apply ST_bind_Ok in HE as (x & k3 & H1 & HE).
  unfold sem, get_at in H1. change (objs k1) with (objs k) in H1.
  destruct (sems (objs k) !! m) as [x0|] eqn:Hx; [|done]. injection H1 as <- <-.
  assert (w i = -1) as Hw by (rewrite Hi; cbn; by rewrite Z.eqb_refl).
  pose proof shape_k as [Hsh Hfo]. destruct (Z.eqb_spec (value x0) 0) as [Hv|Hv].
  - apply ST_bind_Ok in HE as (cur & k3 & H1 & HE). injection H1 as <- <-.
    apply ST_bind_Ok in HE as ([] & k3 & H1 & HE). injection H1 as <-. injection HE as Hf Hk2.
    apply step_quiet.
    + rewrite <-Hk2. exact (quiet_put_sem k1 m x0 (mkSemaphore (value x0) (queue x0 ++ [currentThread (sched k)])) good_k1 Hx eq_refl).
    + rewrite <-Hf. unfold replaces. cbn [W balanced forallb frame_ok w]. rewrite Hw, Z.eqb_refl.
      split_and!; try done; lia.
    + intros _. by rewrite <-Hk2.
  - apply ST_bind_Ok in HE as ([] & k3 & H1 & HE). injection H1 as <-. injection HE as Hf Hk2.
    pose proof (proj1 (i_excl _ _ HI) In_value) as Hpos. cbn in Hpos. unfold the_value in Hpos.
    rewrite Hx in Hpos. apply (step_move h In_value); rewrite <-?Hf; try done.
    + by rewrite <-Hk2.
    + rewrite <-Hk2. destruct good_k1 as [G1 G2 G3]. by split.
    + apply Hsh.
    + rewrite <-Hk2. by intros [| |t'] Hq1 Hq2; [|done|destruct (Hq1 t')].
    + rewrite <-Hk2. cbn. unfold the_value. cbn. rewrite lookup_insert_eq. cbn. lia.
    + rewrite <-Hk2. cbn [wt W app]. unfold the_value. cbn [objs sems]. rewrite lookup_insert_eq, Hx, Hw.
      cbn. lia.
    + rewrite <-Hk2. apply HI.
    + apply HI.
Qed.
Lemma move_V_inc : i = Do_V_inc m → done (V_inc m) k1 = Ok (fr, k2) → Inv h k'.
Proof.
  intros Hi HE. unfold done, V_inc in HE. apply ST_bind_Ok in HE as ([] & k3 & HE & Hf).
  injection Hf as Hf Hk3. subst k3. apply ST_bind_Ok in HE as (x & k4 & H1 & HE).
  unfold sem, get_at in H1. change (objs k1) with (objs k) in H1.
  destruct (sems (objs k) !! m) as [x0|] eqn:Hx; [|done]. injection H1 as <- <-. injection HE as Hk2.
  assert (w i = 1) as Hw by (rewrite Hi; cbn; by rewrite Z.eqb_refl). pose proof shape_k as [Hsh Hfo].
  pose proof (proj1 (i_excl _ _ HI) In_value) as Hpos. cbn in Hpos. unfold the_value in Hpos.
  rewrite Hx in Hpos. apply (step_move h In_value); rewrite <-?Hf; try done.
  - by rewrite <-Hk2.
  - rewrite <-Hk2. destruct good_k1 as [G1 G2 G3]. by split.
  - apply Hsh.
  - rewrite <-Hk2. by intros [| |t'] Hq1 Hq2; [|done|destruct (Hq1 t')].
  - rewrite <-Hk2. cbn. unfold the_value. cbn. rewrite lookup_insert_eq. cbn. lia.
  - rewrite <-Hk2. cbn [wt W app]. unfold the_value. cbn [objs sems]. rewrite lookup_insert_eq, Hx, Hw.
    cbn. lia.
  - rewrite <-Hk2. apply HI.
  - apply HI.
Qed.
Lemma good_put_lock k0 x o : good k0 → locks (objs k0) !! l = Some x →
  good (mkK (intr k0) (ticks k0) (tids k0) (sched k0)
     (mkObjects (sems (objs k0)) (<[l := mkLock o (mutex x)]> (locks (objs k0))) (conds (objs k0))
        (barriers (objs k0)) (slists (objs k0))) (calls k0)).
Proof.
  intros [G1 G2 G3] Hx. split; try done. intros l' y. cbn. rewrite lookup_insert_Some.
  intros [[<- <-]|[_ ?]]; [cbn; by apply (G2 l)|by eapply G2].
Qed.
Lemma move_SetOwner : i = Do_SetOwner l → done (SetOwner l) k1 = Ok (fr, k2) →
  h = None ∧ Inv (Some (tid th)) k'.
Proof.
  intros Hi HE. unfold done, SetOwner in HE. apply ST_bind_Ok in HE as ([] & k3 & HE & Hf).
  injection Hf as Hf Hk3. subst k3. apply ST_bind_Ok in HE as (cur & k4 & H1 & HE). injection H1 as <- <-.
  apply ST_bind_Ok in HE as (c & k4 & H1 & HE). unfold thread, get_at in H1. cbn in H1. fold t in H1.
  rewrite lookup_insert_eq in H1. injection H1 as <- <-.
  apply ST_bind_Ok in HE as (x & k4 & H1 & HE). unfold lock, get_at in H1. change (objs k1) with (objs k) in H1.
  destruct (locks (objs k) !! l) as [x0|] eqn:Hx; [|done]. injection H1 as <- <-. injection HE as Hk2.
  assert (w i = 1) as Hw by (rewrite Hi; cbn; by rewrite Z.eqb_refl). pose proof shape_k as [Hsh Hfo].
  pose proof (g_tids _ (i_good _ _ HI) _ _ Ht) as Htid.
  assert (the_owner k = -1) as Ho.
  { pose proof (proj2 (i_excl _ _ HI) In_owner (In_thread t) ltac:(done)) as H2. cbn in H2. rewrite code_k in H2.
    cbn in H2. pose proof (shape_nonneg _ (proj2 Hsh)). destruct (Z.eqb_spec (the_owner k) (-1)); [done|lia]. }
  assert (h = None) as Hnone.
  { pose proof (i_owner _ _ HI) as Hh. rewrite Ho in Hh. pose proof (i_tid _ _ HI).
    destruct h; cbn in *; [congruence|done]. }
  split; [done|]. apply (step_move (Some (tid th)) In_owner); rewrite <-?Hf; try done.
  - by rewrite <-Hk2.
  - rewrite <-Hk2. exact (good_put_lock k1 x0 (tid th) good_k1 Hx).
  - apply Hsh.
  - rewrite <-Hk2. by intros [| |t'] Hq1 Hq2; [| |destruct (Hq1 t')].
  - cbn. by case_match.
  - rewrite <-Hk2. cbn [wt W app]. rewrite Ho, Hw. unfold the_owner. cbn [objs locks].
    rewrite lookup_insert_eq. cbn [OwnerId tid]. destruct (Z.eqb_spec (tid th) (-1)); cbn; lia.
  - rewrite <-Hk2. unfold the_owner. cbn. by rewrite lookup_insert_eq.
  - intros [= ?]. lia.
Qed.
Lemma move_Release : i = Call_Release l → Release l k1 = Ok (fr, k2) →
  h = Some (tid th) ∧ Inv None k'.
Proof.
  intros Hi HE. unfold Release in HE. apply ST_bind_Ok in HE as (old & k3 & H1 & HE). injection H1 as Ho <-.
  apply ST_bind_Ok in HE as (held & k3 & H1 & HE). unfold isHeldByCurrentThread in H1.
  apply ST_bind_Ok in H1 as (x & k4 & H2 & H1). unfold lock, get_at in H2. cbn in H2.
  destruct (locks (objs k) !! l) as [x0|] eqn:Hx; [|done]. injection H2 as <- <-.
  apply ST_bind_Ok in H1 as (cur & k4 & H2 & H1). injection H2 as <- <-.
  apply ST_bind_Ok in H1 as (c & k4 & H2 & H1). unfold thread, get_at in H2. cbn in H2. fold t in H2.
  rewrite lookup_insert_eq in H2. injection H2 as <- <-. injection H1 as <- <-.
  apply ST_bind_Ok in HE as ([] & k3 & H1 & HE). unfold lift, ASSERT in H1. cbn [tid] in H1.
  destruct (Z.eqb_spec (OwnerId x0) (tid th)) as [Hown|]; [|done]. injection H1 as <-.
  apply ST_bind_Ok in HE as (x & k3 & H1 & HE). unfold lock, get_at in H1. cbn in H1. rewrite Hx in H1.
  injection H1 as <- <-. apply ST_bind_Ok in HE as ([] & k3 & H1 & HE). injection H1 as <-. injection HE as Hf Hk2.
  pose proof (proj2 (g_mutex _ (i_good _ _ HI) _ _ Hx) eq_refl) as Hm.
  assert (w i = 0) as Hw by by rewrite Hi. pose proof shape_k as [Hsh Hfo].
  pose proof (g_tids _ (i_good _ _ HI) _ _ Ht) as Htid.
  assert (the_owner k = tid th) as Ho' by (unfold the_owner; by rewrite Hx).
  assert (h = Some (tid th)) as Hsome.
  { pose proof (i_owner _ _ HI) as Hh. rewrite Ho' in Hh. destruct h; cbn in *; [congruence|lia]. }
  assert (W fr = 1 ∧ shape fr) as [HWf Hsf] by (rewrite <-Hf; cbn; rewrite Hm, Z.eqb_refl; split_and!; lia).
  pose proof (shape_nonneg _ (proj2 Hsh)).
  split; [done|]. apply (step_move None In_owner); try done.
  - by rewrite <-Hk2.
  - rewrite <-Hk2. assert (good (mkK (mkInterrupt IntOff (pending (intr k1)) (inHandler (intr k1))
      (yieldOnReturn (intr k1)) (mstatus (intr k1))) (ticks k1) (tids k1) (sched k1) (objs k1) (calls k1))) as G.
    { destruct good_k1. by split. }
    exact (good_put_lock _ _ (-1) G Hx).
  - rewrite <-Hf. cbn. rewrite Hm, Z.eqb_refl. cbn in Hsh. split_and!; [lia|lia|apply Hsh].
  - by rewrite <-Hf.
  - rewrite <-Hk2. by intros [| |t'] Hq1 Hq2; [| |destruct (Hq1 t')].
  - cbn. by case_match.
  - rewrite <-Hk2. cbn [wt W]. rewrite Ho', Hw, W_app, HWf. unfold the_owner. cbn [objs locks].
    rewrite lookup_insert_eq. cbn [OwnerId]. destruct (Z.eqb_spec (tid th) (-1)); cbn; lia.
  - rewrite <-Hk2. unfold the_owner. cbn. by rewrite lookup_insert_eq.
Qed.
End one_step.

Lemma weighted_sched rnd r i k fr k' :
  w i ≠ 0 → exec rnd r i k = Ok (fr, k') → sched k' = sched k.
Proof.
  intros Hi HE. destruct i; try done; cbn [exec] in HE;
    unfold P, P_loop, V, V_inc, SetOwner, done, disable, sem, lock, thread, current, put_sem, put_lock, get, get_at in HE;
    repeat match goal with
    | H : (_ ≫= _) _ = Ok (_, _) |- _ => apply ST_bind_Ok in H as (? & ? & ? & H)
    | H : match ?x with _ => _ end = Ok _ |- _ => destruct x eqn:?; try discriminate H
    | H : (match ?x with _ => _ end) _ = Ok _ |- _ => destruct x eqn:?; try discriminate H
    | H : (if ?x then _ else _) _ = Ok _ |- _ => destruct x eqn:?; try discriminate H
    | H : Ok _ = Ok _ |- _ => injection H as ? ?; subst
    | H : mret _ _ = Ok _ |- _ => injection H as ? ?; subst
    | H : on_objs _ _ = Ok _ |- _ => injection H as ?; subst
    | H : set_level _ _ = Ok _ |- _ => injection H as ?; subst
    end; try done.
Qed.

(** ** Events *)

Definition lock_step (h : option Z) (i : instr) (t : Z) : option (option Z) :=
  match i with
  | Do_SetOwner l' => if l' =? l then (if h is Some _ then None else Some (Some t)) else Some h
  | Call_Release l' => if l' =? l then (if bool_decide (h = Some t) then Some None else None) else Some h
  | _ => Some h
  end.
Lemma lock_step_moves h i t : moves i = false → lock_step h i t = Some h.
Proof. destruct i; try done; cbn; by intros ->. Qed.

Lemma step_Inv rnd r h k k' :
  Inv h k → kstep rnd r k = Ok ((), k') →
  ∃ th i rest h', threads (sched k) !! currentThread (sched k) = Some th ∧ code th = i :: rest ∧
    lock_step h i (tid th) = Some h' ∧ Inv h' k'.
Proof.
  intros HI HE. destruct (kstep_inv _ _ _ _ HE) as (th & i & rest & fr & k2 & th2 & Ht & Hc & HX & Ht2 & ->).
  exists th, i, rest. set (t := currentThread (sched k)) in *.
  pose proof (shape_k _ _ _ _ _ HI Ht Hc) as [Hsh Hfo]. pose proof (good_k1 _ _ _ rest HI Ht) as HG1. fold t in HG1.
  destruct (moves i) eqn:Hm.
  2:{ exists h. split_and!; [done|done|by apply lock_step_moves|].
      cbn [forallb] in Hfo. apply andb_true_iff in Hfo as [Hfi _].
      destruct (exec_calm rnd r i Hfi Hm _ _ _ HG1 HX) as [HQ HR].
      eapply step_quiet; try done. intros Hw. by eapply weighted_sched. }
  destruct i; try discriminate Hm; cbn [moves] in Hm; apply Z.eqb_eq in Hm; subst; cbn [exec] in HX;
    cbn [lock_step]; rewrite ?Z.eqb_refl.
  - destruct (move_Release _ _ _ _ _ _ _ _ HI Ht Hc Ht2 eq_refl HX) as [-> ?].
    rewrite bool_decide_true by done. by exists None.
  - exists h. by eauto using move_P_loop.
  - exists h. by eauto using move_V_inc.
  - destruct (move_SetOwner _ _ _ _ _ _ _ _ HI Ht Hc Ht2 eq_refl HX) as [-> ?]. by eexists.
Qed.
End token.

(** ** Runs of the kernel *)

Section runs.
Context (dev : list instr → Prop) (rnd : Z → Z) (randomize : bool).

(** A run and the instructions executed in it, each with the identifier of the thread
    that executed it.  Between two steps, a device may schedule an interrupt. *)
Inductive runs : K → list (instr * Z) → K → Prop :=
| runs_nil k : runs k [] k
| runs_step k th i rest k1 tr k2 :
    threads (sched k) !! currentThread (sched k) = Some th → code th = i :: rest →
    kstep rnd randomize k = Ok ((), k1) → runs k1 tr k2 → runs k ((i, tid th) :: tr) k2
| runs_device k h d ty k1 tr k2 :
    dev h → Schedule h d ty k = Ok ((), k1) → runs k1 tr k2 → runs k tr k2.

(** The instructions executed in [n] steps. *)
Fixpoint trace (n : nat) (k : K) : list (instr * Z) * K :=
  match n with
  | O => ([], k)
  | S n' =>
      match threads (sched k) !! currentThread (sched k), kstep rnd randomize k with
      | Some th, Ok (_, k1) =>
          match code th with
          | i :: _ => let '(tr, k2) := trace n' k1 in ((i, tid th) :: tr, k2)
          | [] => ([], k)
          end
      | _, _ => ([], k)
      end
  end.
Lemma runs_trace n k : runs k (trace n k).1 (trace n k).2.
Proof.
  revert k. induction n as [|n IH]; intros k; cbn; [constructor|].
  destruct (threads (sched k) !! currentThread (sched k)) as [th|] eqn:Ht; [|constructor].
  destruct (kstep rnd randomize k) as [[[] k1]|e] eqn:Hk; [|constructor].
  destruct (code th) as [|i rest] eqn:Hc; [constructor|].
  specialize (IH k1). destruct (trace n k1) as [tr k2]. by econstructor.
Qed.
End runs.

(** Who holds the lock [l] after the events of a trace; [None] if a thread passed
    [Acquire] while another one, or it itself, held the lock, or left [Release] without
    holding it. *)
Fixpoint lock_trace (l : Z) (h : option Z) (tr : list (instr * Z)) : option (option Z) :=
  match tr with
  | [] => Some h
  | (i, t) :: tr' => match lock_step l h i t with Some h' => lock_trace l h' tr' | None => None end
  end.

(** A state in which the lock [l] is free and [m], its semaphore, is used by it alone. *)
Record fresh_lock (l m : Z) (k : K) : Prop := {
  fl_lock : locks (objs k) !! l = Some (mkLock (-1) m);
  fl_sem : ∃ q, sems (objs k) !! m = Some (mkSemaphore 1 q);
  fl_code : ∀ t th, threads (sched k) !! t = Some th → forallb (user l m) (code th) = true;
  fl_good : good l m k
}.

Lemma fresh_lock_Inv l m k : fresh_lock l m k → Inv l m None k.
Proof.
  intros [Hl [q Hs] Hc HG].
  assert (∀ t, forallb (user l m) (code_of k t) = true) as Hcode.
  { intros t. unfold code_of. destruct (threads (sched k) !! t) eqn:E; [by eapply Hc|done]. }
  assert (∀ t, W l m (code_of k t) = 0 ∧ shape l m (code_of k t) ∧
    forallb (frame_ok l m) (code_of k t) = true) as HW by (intros t; by apply user_code).
  assert (the_owner l k = -1) as Ho by (unfold the_owner; by rewrite Hl).
  assert (the_value m k = 1) as Hv by (unfold the_value; by rewrite Hs).
  split; try done.
  - intros t. destruct (HW t) as (_ & ? & ?). done.
  - split.
    + intros [| |t]; cbn; rewrite ?Ho, ?Hv, ?(proj1 (HW t)); cbn; lia.
    + intros [| |t] [| |t']; cbn; rewrite ?Ho, ?Hv, ?(proj1 (HW t)), ?(proj1 (HW t')); cbn; try lia; done.
Qed.

Lemma Schedule_Inv l m h d ty hd k k' :
  forallb (user l m) h = true → Inv l m hd k → Schedule h d ty k = Ok ((), k') → Inv l m hd k'.
Proof.
  intros Hh HI HE. destruct (calm_Schedule l m h d ty Hh k () k' (i_good _ _ _ _ HI) HE) as [HQ _].
  assert (sched k' = sched k ∧ objs k' = objs k) as [Hs Ho].
  { apply Schedule_Ok in HE as (_ & _ & HE). by injection HE as <-. }
  destruct HI as [HG HC HE2 HO HT]. split; try done.
  - apply HQ.
  - intros t. unfold code_of. rewrite Hs. apply HC.
  - eapply exclusive_le; [exact HE2|]. pose proof (proj1 HE2) as Hp.
    intros p. specialize (Hp p). destruct p; cbn in *; unfold the_value, the_owner, code_of in *;
      rewrite ?Hs, ?Ho; lia.
  - unfold the_owner. rewrite Ho. exact HO.
Qed.

Lemma runs_Inv dev rnd r l m h k tr k' :
  (∀ hd, dev hd → forallb (user l m) hd = true) → Inv l m h k → runs dev rnd r k tr k' →
  ∃ h', lock_trace l h tr = Some h' ∧ Inv l m h' k'.
Proof.
  intros Hdev HI HR. revert h HI.
  induction HR as [k|k th i rest k1 tr k2 Ht Hc HE HR IH|k hd d ty k1 tr k2 Hd HE HR IH]; intros h HI.
  - by exists h.
  - destruct (step_Inv _ _ _ _ _ _ _ HI HE) as (th' & i' & rest' & h' & Ht' & Hc' & Hl & HI').
    rewrite Ht in Ht'. injection Ht' as <-. rewrite Hc in Hc'. injection Hc' as <- <-.
    cbn. rewrite Hl. by apply IH.
  - apply IH. by eapply Schedule_Inv; [apply Hdev| |].
Qed.

(** C3: locks give mutual exclusion.  Start from any state in which a lock is free and
    its semaphore is used by the lock alone.  Whatever programs the threads run, however
    the scheduler, preemption by priority and interrupts interleave them, the calls of
    [Acquire] that returned and of [Release] alternate, each [Release] by the thread
    that acquired the lock last, and [OwnerId] is the thread that holds it. *)
Theorem lock_mutual_exclusion dev rnd r l m k tr k' :
  (∀ hd, dev hd → forallb (user l m) hd = true) → fresh_lock l m k → runs dev rnd r k tr k' →
  ∃ h, lock_trace l None tr = Some h ∧ the_owner l k' = default (-1) h.
Proof.
  intros Hdev HF HR. destruct (runs_Inv _ _ _ _ m None _ _ _ Hdev (fresh_lock_Inv _ _ _ HF) HR) as (h & ? & HI).
  exists h. split; [done|]. apply HI.
Qed.

(** ** Example: two threads compete for a lock; the second one is forked while the
    first one holds it. *)
Definition contend : K :=
  match (on_objs (λ _, mkObjects {[8 := mkSemaphore 1 []]} {[7 := mkLock (-1) 8]} ∅ ∅ ∅);;
         Initialize [New_thread 50 [Call_Acquire 7; New_thread 50 [Call_Acquire 7; Call_Release 7];
                                    Call_Yield; Call_Release 7]]) K0 with
  | Ok (_, k) => k
  | Stop _ => K0
  end.
Definition lock_events (l : Z) (tr : list (instr * Z)) : list (instr * Z) :=
  List.filter (λ e, match e.1 with Do_SetOwner l' | Call_Release l' => l' =? l | _ => false end) tr.

Lemma lock_mutual_exclusion_witness :
  let run := trace (λ _, 0) false 300 contend in
  lock_events 7 run.1 = [(Do_SetOwner 7, 1); (Call_Release 7, 1); (Do_SetOwner 7, 2); (Call_Release 7, 2)] ∧
  ∃ h, lock_trace 7 None run.1 = Some h ∧ the_owner 7 run.2 = default (-1) h.
Proof.
  intros run. split; [vm_compute; reflexivity|].
  apply (lock_mutual_exclusion (λ _, False) (λ _, 0) false 7 8 contend run.1 run.2).
  - done.
  - split.
    + vm_compute. reflexivity.
    + exists []. vm_compute. reflexivity.
    + apply (map_Forall_to_list (λ _ th, forallb (user 7 8) (code th) = true)).
      vm_compute. repeat constructor.
    + split.
      * vm_compute. constructor.
      * apply (map_Forall_to_list (λ l' x, mutex x = 8 ↔ l' = 7)). vm_compute. repeat constructor.
      * apply (map_Forall_to_list (λ _ th, 0 ≤ tid th)). vm_compute. repeat constructor; discriminate.
  - apply runs_trace.
Defined.
