(* ===== verification/KernelProps.v ===== *)
(** * Threads, scheduler and interrupts: properties

    Thread identifiers, the choice of the next thread, the order in which interrupts
    fire, and executions of the kernel that go wrong. *)

From stdpp Require Import sorting.
From S2P Require Import Prelude NachosList Kernel KernelLocks.

(** ** Thread identifiers *)

(** Every live thread is on [PCBList] under its identifier, the identifiers are
    distinct and exactly those marked in [TidMap], and [MinAvailableTid] is a free
    identifier or [ThreadsNumLimit]. *)
Record tids_ok (k : K) : Prop := {
  to_len : zlen (TidMap (tids k)) = ThreadsNumLimit;
  to_used : ∀ i, znth (TidMap (tids k)) i = Some true ↔ i ∈ (PCBList (tids k)).*1;
  to_nodup : NoDup (PCBList (tids k)).*1;
  to_threads : ∀ i t, (i, t) ∈ PCBList (tids k) ↔ ∃ th, threads (sched k) !! t = Some th ∧ tid th = i;
  to_min : MinAvailableTid (tids k) = ThreadsNumLimit ∨
           znth (TidMap (tids k)) (MinAvailableTid (tids k)) = Some false
}.

Lemma SetLevel_back old k :
  inHandler (intr k) = false →
  ∃ fr, SetLevel old k = Ok (fr, mkK (mkInterrupt old (pending (intr k)) (inHandler (intr k))
          (yieldOnReturn (intr k)) (mstatus (intr k))) (ticks k) (tids k) (sched k) (objs k) (calls k)).
Proof.
  intros Hh. unfold SetLevel, mbind, ST_bind. cbn. rewrite !Hh. cbn. rewrite orb_true_r. cbn. rewrite Hh. eexists. reflexivity.
Qed.

Lemma SetLevel_off k :
  SetLevel IntOff k = Ok ([], mkK (mkInterrupt IntOff (pending (intr k)) (inHandler (intr k))
          (yieldOnReturn (intr k)) (mstatus (intr k))) (ticks k) (tids k) (sched k) (objs k) (calls k)).
Proof. reflexivity. Qed.

Section tid_tables.
Context (k : K) (HT : tids_ok k).
Let min := MinAvailableTid (tids k).
Let map := TidMap (tids k).

Lemma min_free : min ≠ ThreadsNumLimit → 0 ≤ min < ThreadsNumLimit ∧ znth map min = Some false.
Proof.
  intros Hm. destruct (to_min _ HT) as [?|Hf]; [done|]. split; [|done].
  apply znth_Some_range in Hf. by rewrite (to_len _ HT) in Hf.
Qed.
Lemma next_tid_ok :
  0 ≤ min < ThreadsNumLimit →
  ∃ n, next_tid (zset map min true) min min = Ok n ∧
    (n = min ∨ n = min + 1 ∧ znth (zset map min true) n = Some false).
Proof.
  intros Hm. unfold next_tid. destruct (Z.ltb_spec (min + 1) ThreadsNumLimit); [|eauto].
  assert (0 ≤ min + 1 < zlen (zset map min true)) as Hr.
  { rewrite zlen_zset. unfold map. rewrite (to_len _ HT). unfold ThreadsNumLimit in *. lia. }
  destruct (znth_range _ _ Hr) as [b Hb]. unfold aget. rewrite Hb. cbn. destruct b; eauto 6.
Qed.
End tid_tables.

(** The table after a thread has been put into it. *)
Lemma tids_ok_insert k k' t th n :
  tids_ok k → threads (sched k) !! t = None →
  znth (TidMap (tids k)) (tid th) = Some false →
  tids k' = mkTids (zset (TidMap (tids k)) (tid th) true) n (sorted_insert (tid th) t (PCBList (tids k))) →
  threads (sched k') = <[t := th]> (threads (sched k)) →
  n = ThreadsNumLimit ∨ znth (zset (TidMap (tids k)) (tid th) true) n = Some false →
  tids_ok k'.
Proof.
  intros [HL HU HN HP HM] Ht Hf Hk' Hs Hn. pose proof (znth_Some_range _ _ _ Hf) as Hr.
  assert (tid th ∉ (PCBList (tids k)).*1) as Hnew by (rewrite <-HU; congruence).
  assert ((PCBList (tids k')).*1 ≡ₚ tid th :: (PCBList (tids k)).*1) as Hperm.
  { rewrite Hk'. cbn. by rewrite sorted_insert_perm. }
  split.
  - rewrite Hk'. cbn. by rewrite zlen_zset.
  - intros i. rewrite Hperm, elem_of_cons, <-HU, Hk'. cbn. rewrite znth_zset.
    case_bool_decide; naive_solver.
  - rewrite Hperm. by apply list.NoDup_cons.
  - intros i u. rewrite Hk', Hs. cbn. rewrite sorted_insert_perm, elem_of_cons, HP.
    setoid_rewrite lookup_insert_Some. split.
    + intros [[= -> ->]|(th' & Ht' & <-)]; [naive_solver|]. exists th'. split; [|done]. right. split; [|done].
      intros ->. congruence.
    + intros (th' & [[-> ->]|[_ Ht']] & <-); eauto.
  - rewrite Hk'. exact Hn.
Qed.

Lemma Thread_new_run k t prio :
  tids_ok k → threads (sched k) !! t = None → inHandler (intr k) = false →
  MinAvailableTid (tids k) ≠ ThreadsNumLimit →
  ∃ fr k' th, Thread_new t prio k = Ok (fr, k') ∧ tids_ok k' ∧ threads (sched k') !! t = Some th ∧
    tid th = MinAvailableTid (tids k) ∧ priority th = prio ∧ level (intr k') = level (intr k).
Proof.
  intros HT Ht Hh Hmin. destruct (min_free _ HT Hmin) as [Hr Hf].
  destruct (next_tid_ok _ HT Hr) as (n & Hn & Hcase). set (min := MinAvailableTid (tids k)) in *.
  assert (aget (TidMap (tids k)) min = Ok false) as Hg by by apply aget_Ok.
  assert (aset (TidMap (tids k)) min true = Ok (zset (TidMap (tids k)) min true)) as Hset.
  { apply aset_in. by apply znth_Some_range in Hf. }
  set (n' := if n =? min then ThreadsNumLimit else n).
  destruct (SetLevel_back (level (intr k))
    (mkK (mkInterrupt IntOff (pending (intr k)) (inHandler (intr k)) (yieldOnReturn (intr k)) (mstatus (intr k)))
       (ticks k) (mkTids (zset (TidMap (tids k)) min true) n' (sorted_insert min t (PCBList (tids k))))
       (sched k) (objs k) (calls k)) Hh) as [fr HSL].
  do 3 eexists. split_and!.
  - unfold Thread_new, disable, get. unfold mbind, ST_bind. cbn -[SetLevel aget aset next_tid]. fold min.
    assert ((min >=? 0) && (min <? ThreadsNumLimit) = true) as -> by lia. cbn -[SetLevel aget aset next_tid].
    rewrite Hg. cbn -[SetLevel aget aset next_tid]. rewrite Hset. cbn -[SetLevel next_tid]. rewrite Hn.
    cbn -[SetLevel]. fold n'. rewrite HSL. reflexivity.
  - eapply (tids_ok_insert k _ t (mkThread min prio JUST_CREATED None []) n' HT Ht); [done|done|done|].
    unfold n'. destruct Hcase as [->|[-> Hc]]; [rewrite Z.eqb_refl; by left|].
    destruct (Z.eqb_spec (min + 1) min); [by left|by right].
  - cbn. apply lookup_insert_eq.
  - done.
  - done.
  - done.
Qed.

(** Deleting a thread takes its entry out of the tables. *)
Lemma remove_first_notin (t : ptr) (l : list (Z * ptr)) :
  NoDup l.*2 → ∀ i u, (i, u) ∈ remove_first t l ↔ (i, u) ∈ l ∧ u ≠ t.
Proof.
  induction l as [|[j v] l IH]; cbn; intros HN i u; [set_solver|].
  apply list.NoDup_cons in HN as [Hv HN]. destruct (decide (t = v)) as [->|Ht].
  - rewrite elem_of_cons. split.
    + intros Hin. split; [by right|]. intros ->. apply Hv. apply list_elem_of_fmap. by exists (i, v).
    + intros [[[= -> ->]|?] Hne]; done.
  - rewrite !elem_of_cons, IH by done. naive_solver.
Qed.
Lemma remove_first_fst (t : ptr) (i : Z) (l : list (Z * ptr)) :
  NoDup l.*1 → (∀ j, (j, t) ∈ l ↔ j = i) →
  ∀ j, j ∈ (remove_first t l).*1 ↔ j ∈ l.*1 ∧ j ≠ i.
Proof.
  induction l as [|[j v] l IH]; cbn; intros HN Hi j'.
  { pose proof (proj2 (Hi i) eq_refl) as Hx. set_solver. }
  apply list.NoDup_cons in HN as [Hj HN]. destruct (decide (t = v)) as [<-|Ht]; cbn.
  - assert (j = i) as -> by (apply Hi; by left). set_solver.
  - assert (j ≠ i) as Hji.
    { intros ->. pose proof (proj2 (Hi i) eq_refl) as [[= ->]|Hin]%elem_of_cons; [done|].
      apply Hj. apply list_elem_of_fmap. by exists (i, t). }
    rewrite !elem_of_cons, IH; [naive_solver|done|]. intros j2. rewrite <-Hi, elem_of_cons. naive_solver.
Qed.
Lemma remove_first_sublist (t : ptr) (l : list (Z * ptr)) : remove_first t l `sublist_of` l.
Proof.
  induction l as [|[j v] l IH]; cbn; [done|]. case_decide; [by apply sublist_cons|by apply sublist_skip].
Qed.

Lemma tids_snd_nodup k : tids_ok k → NoDup (PCBList (tids k)).*2.
Proof.
  intros [_ _ HN HP _]. assert (∀ i j t, (i, t) ∈ PCBList (tids k) → (j, t) ∈ PCBList (tids k) → i = j) as Hf.
  { intros i j t (th & Ht & <-)%HP (th' & Ht' & <-)%HP. congruence. }
  clear HP. induction (PCBList (tids k)) as [|[i t] l IH]; cbn in *; [constructor|].
  apply list.NoDup_cons in HN as [Hi HN]. apply list.NoDup_cons. split.
  - intros ([j u] & -> & Hin)%list_elem_of_fmap. cbn in *. apply Hi. apply list_elem_of_fmap. exists (j, u).
    split; [|done]. cbn. apply (Hf _ _ u); [by left|by right].
  - apply IH; [done|]. intros ? ? ? ? ?. eapply Hf; by right.
Qed.

(** [delete thread], with interrupts disabled. *)
Definition destroy (t : ptr) : M () := Thread_delete t;; Deleted t.

Lemma Deleted_run k t :
  t ≠ currentThread (sched k) →
  Deleted t k = Ok ((), mkK (intr k) (ticks k) (tids k)
    (mkScheduler (delete t (threads (sched k))) (currentThread (sched k)) (readyList (sched k)) None)
    (objs k) (calls k)).
Proof.
  intros Ht. unfold Deleted. erewrite ST_step by reflexivity.
  erewrite lift_step by (apply ASSERT_true; by apply bool_decide_true). reflexivity.
Qed.
Lemma Thread_delete_run k t th :
  threads (sched k) !! t = Some th → t ∈ (PCBList (tids k)).*2 →
  znth (TidMap (tids k)) (tid th) = Some true → level (intr k) = IntOff →
  Thread_delete t k = Ok ([Do_Deleted t],
    mkK (mkInterrupt IntOff (pending (intr k)) (inHandler (intr k)) (yieldOnReturn (intr k)) (mstatus (intr k)))
      (ticks k) (mkTids (zset (TidMap (tids k)) (tid th) false) (Z.min (tid th) (MinAvailableTid (tids k)))
                   (remove_first t (PCBList (tids k)))) (sched k) (objs k) (calls k)).
Proof.
  intros Ht Hin Hused Hlev. pose proof (znth_Some_range _ _ _ Hused) as Hr.
  unfold Thread_delete, disable, get, thread, get_at, pcb_remove.
  unfold mbind, ST_bind. cbn -[SetLevel]. rewrite Ht. cbn -[SetLevel]. rewrite decide_True by done.
  cbn -[SetLevel]. rewrite (proj2 (aget_Ok _ _ _) Hused). cbn -[SetLevel]. rewrite aset_in by done.
  cbn -[SetLevel]. rewrite Hlev, SetLevel_off. reflexivity.
Qed.
Lemma destroy_ok k t th :
  tids_ok k → threads (sched k) !! t = Some th → t ≠ currentThread (sched k) → level (intr k) = IntOff →
  ∃ k', destroy t k = Ok ((), k') ∧ tids_ok k' ∧ threads (sched k') = delete t (threads (sched k)) ∧
    znth (TidMap (tids k')) (tid th) = Some false ∧
    MinAvailableTid (tids k') = Z.min (tid th) (MinAvailableTid (tids k)) ∧
    threadToBeDestroyed (sched k') = None.
Proof.
  intros HT Ht Hcur Hlev. pose proof HT as [HL HU HN HP HM].
  assert ((tid th, t) ∈ PCBList (tids k)) as Hin by (apply HP; eauto).
  assert (t ∈ (PCBList (tids k)).*2) as Hin2 by (apply list_elem_of_fmap; by exists (tid th, t)).
  assert (znth (TidMap (tids k)) (tid th) = Some true) as Hused.
  { apply HU, list_elem_of_fmap. by exists (tid th, t). }
  pose proof (znth_Some_range _ _ _ Hused) as Hr.
  assert (∀ j, (j, t) ∈ PCBList (tids k) ↔ j = tid th) as Hj.
  { intros j. split; [|by intros ->]. intros (th' & Ht' & <-)%HP. congruence. }
  eexists. split.
  - unfold destroy. erewrite ST_step by (by eapply Thread_delete_run). by apply Deleted_run.
  - cbn. split_and!; try done.
    + split; cbn.
      * by rewrite zlen_zset.
      * intros i. rewrite (remove_first_fst t (tid th)), <-HU, znth_zset by done. case_bool_decide; naive_solver.
      * eapply sublist_NoDup; [exact HN|]. apply (fmap_sublist fst), remove_first_sublist.
      * intros i u. rewrite (remove_first_notin t) by by apply tids_snd_nodup.
        rewrite HP. setoid_rewrite lookup_delete_Some. naive_solver.
      * destruct (Z.min_spec (tid th) (MinAvailableTid (tids k))) as [[? ->]|[? ->]].
        -- right. rewrite znth_zset_eq; done.
        -- destruct HM as [?|HM]; [by left|]. right. rewrite znth_zset. by case_bool_decide.
    + by rewrite znth_zset_eq.
Qed.

(** Thread identifiers are managed safely.  While the identifiers of the live threads
    are distinct and recorded in [TidMap] and [PCBList], creating a thread either aborts,
    exactly when [MinAvailableTid] is [ThreadsNumLimit], or gives the new thread an
    identifier that no live thread has and keeps the tables in order; and deleting a thread that
    is not running frees its identifier and keeps the tables in order. *)
Theorem tids_managed k t prio :
  tids_ok k → inHandler (intr k) = false →
  (threads (sched k) !! t = None →
   if decide (MinAvailableTid (tids k) = ThreadsNumLimit) then Thread_new t prio k = Stop AssertFailed
   else ∃ fr k' th, Thread_new t prio k = Ok (fr, k') ∧ tids_ok k' ∧ threads (sched k') !! t = Some th ∧
     ∀ u thu, threads (sched k) !! u = Some thu → tid thu ≠ tid th) ∧
  (∀ th, threads (sched k) !! t = Some th → t ≠ currentThread (sched k) → level (intr k) = IntOff →
   ∃ k', destroy t k = Ok ((), k') ∧ tids_ok k' ∧ threads (sched k') = delete t (threads (sched k)) ∧
     znth (TidMap (tids k')) (tid th) = Some false).
Proof.
  intros HT Hh. split.
  - intros Ht. case_decide as Hmin.
    + unfold Thread_new, disable, get, mbind, ST_bind. cbn. by rewrite Hmin.
    + destruct (Thread_new_run k t prio HT Ht Hh Hmin) as (fr & k' & th & HE & HT' & Ht' & Htid & _).
      exists fr, k', th. split_and!; try done. intros u thu Hu Heq.
      destruct (min_free _ HT Hmin) as [_ Hf].
      assert (znth (TidMap (tids k)) (tid thu) = Some true) as Htrue.
      { apply (to_used _ HT), list_elem_of_fmap. exists (tid thu, u). split; [done|].
        apply (to_threads _ HT). eauto. }
      congruence.
  - intros th Ht Hc Hl. destruct (destroy_ok k t th HT Ht Hc Hl) as (k' & ? & ? & ? & ? & _). by exists k'.
Qed.

(** The constructor of [Thread] runs out of identifiers early.  With four threads
    alive, identifiers 0 to 3, deleting thread 1 and creating a thread again makes
    [MinAvailableTid] the limit, because the loop that should look for the next free
    identifier stops after one iteration: the next constructor aborts although only 4 of
    the 128 identifiers are in use. *)
Theorem tids_exhausted_early :
  ∃ k, (Thread_new 1%positive 0;; Thread_new 2%positive 0;; Thread_new 3%positive 0;;
        Thread_new 4%positive 0;; destroy 2%positive;; Thread_new 5%positive 0;; mret ()) K0 = Ok ((), k) ∧
    size (threads (sched k)) = 4%nat ∧
    List.length (List.filter (λ b, b) (TidMap (tids k))) = 4%nat ∧
    Thread_new 6%positive 0 k = Stop AssertFailed.
Proof. eexists. split; [vm_compute; reflexivity|]. split_and!; vm_compute; reflexivity. Qed.

(** ** The ready list *)

(** The ready list is ordered by priority, a smaller number being more urgent. *)
Record ready_ok (k : K) : Prop := {
  ro_sorted : StronglySorted by_key (readyList (sched k));
  ro_prio : ∀ p t, (p, t) ∈ readyList (sched k) →
    ∃ th, threads (sched k) !! t = Some th ∧ priority th = p
}.

Lemma ready_cons p t l :
  StronglySorted (by_key (A:=ptr)) ((p, t) :: l) →
  StronglySorted by_key l ∧ ∀ q u, (q, u) ∈ l → p ≤ q.
Proof.
  intros HS. apply StronglySorted_inv in HS as [HS HF]. split; [done|]. intros q u Hin.
  rewrite list.Forall_forall in HF. by specialize (HF _ Hin).
Qed.

(** C34: [FindNextToRun] implements priority scheduling.  On an ordered ready list, if the
    running thread is blocked it returns the first entry, which has the best priority,
    and takes it off the list.  Otherwise it does so only if that priority is at least
    as good as the running thread's; if not it returns [NULL], and the running thread is
    more urgent than every ready thread.  The list stays ordered and loses nothing else. *)
Theorem FindNextToRun_best_priority k c :
  ready_ok k → threads (sched k) !! currentThread (sched k) = Some c →
  ∃ r k', FindNextToRun k = Ok (r, k') ∧ ready_ok k' ∧
    match r with
    | Some t => ∃ p rest, readyList (sched k) = (p, t) :: rest ∧ readyList (sched k') = rest ∧
        (∀ q u, (q, u) ∈ rest → p ≤ q) ∧ (status c = BLOCKED ∨ p ≤ priority c)
    | None => readyList (sched k') ≡ₚ readyList (sched k) ∧
        (readyList (sched k) = [] ∨
         status c ≠ BLOCKED ∧ ∀ q u, (q, u) ∈ readyList (sched k) → priority c < q)
    end.
Proof.
  intros [HS HP] Hc. unfold FindNextToRun. erewrite ST_step by reflexivity.
  destruct (readyList (sched k)) as [|[p t] rest] eqn:Hl.
  { exists None, k. split_and!; [done|split; by rewrite Hl|by rewrite Hl|by left]. }
  destruct (ready_cons _ _ _ HS) as [HS' Hmin]. erewrite ST_step by reflexivity.
  erewrite ST_step by reflexivity. cbn [currentThread sched].
  erewrite ST_step by (unfold thread, get_at; cbn; rewrite Hc; reflexivity).
  destruct (decide (status c = BLOCKED)) as [Hb|Hb].
  { rewrite bool_decide_true by done. do 2 eexists. split; [reflexivity|]. split.
    - split; cbn; [done|]. intros q u Hin. apply HP. by right.
    - exists p, rest. split_and!; try done. by left. }
  rewrite bool_decide_false by done. destruct (HP p t) as (th & Ht & Hp); [by left|].
  erewrite ST_step by (unfold thread, get_at; cbn; rewrite Ht; reflexivity). cbv beta.
  destruct (Z.gtb_spec (priority th) (priority c)); rewrite Hp in *.
  - do 2 eexists. split; [reflexivity|]. split.
    + split; cbn; [by apply sorted_insert_ordered|]. intros q u Hin. apply HP.
      by rewrite sorted_insert_perm in Hin.
    + cbn. split; [apply sorted_insert_perm|]. right. split; [done|]. intros q u [[= -> ->]|Hin]%elem_of_cons; [done|].
      specialize (Hmin _ _ Hin). lia.
  - do 2 eexists. split; [reflexivity|]. split.
    + split; cbn; [done|]. intros q u Hin. apply HP. by right.
    + exists p, rest. split_and!; try done. by right.
Qed.

(** [ReadyToRun] queues a thread behind the ready threads of the same or a better
    priority and before the others, and makes the running thread yield exactly when the
    new thread is another one with a strictly better priority. *)
Theorem ReadyToRun_queues k t th c :
  ready_ok k → threads (sched k) !! t = Some th →
  threads (sched k) !! currentThread (sched k) = Some c →
  ∃ fr k', ReadyToRun t k = Ok (fr, k') ∧ ready_ok k' ∧
    readyList (sched k') = filter (λ e, e.1 ≤ priority th) (readyList (sched k)) ++
      (priority th, t) :: filter (λ e, priority th < e.1) (readyList (sched k)) ∧
    (fr = [Call_Yield] ↔ t ≠ currentThread (sched k) ∧ priority th < priority c).
Proof.
  intros [HS HP] Ht Hc. unfold ReadyToRun.
  set (th' := mkThread (tid th) (priority th) READY (stack th) (code th)).
  set (k1 := mkK (intr k) (ticks k) (tids k) (mkScheduler (<[t := th']> (threads (sched k)))
    (currentThread (sched k)) (readyList (sched k)) (threadToBeDestroyed (sched k))) (objs k) (calls k)).
  assert (setStatus t READY k = Ok ((), k1)) as H1.
  { unfold setStatus. erewrite ST_step by (unfold thread, get_at; rewrite Ht; reflexivity). reflexivity. }
  step H1. erewrite ST_step by (unfold thread, get_at; cbn; rewrite lookup_insert_eq; reflexivity).
  erewrite ST_step by reflexivity. erewrite ST_step by reflexivity. erewrite ST_step by reflexivity.
  cbn [currentThread sched k1].
  assert (∃ c', <[t := th']> (threads (sched k)) !! currentThread (sched k) = Some c' ∧
          priority c' = priority c) as (c' & Hc' & Hpc).
  { destruct (decide (t = currentThread (sched k))) as [->|].
    - rewrite lookup_insert_eq. exists th'. split; [done|]. rewrite Ht in Hc. by injection Hc as <-.
    - rewrite lookup_insert_ne by done. eauto. }
  erewrite ST_step by (unfold thread, get_at; cbn; rewrite Hc'; reflexivity).
  do 2 eexists. split; [reflexivity|]. cbn -[filter]. split_and!.
  - split; cbn; [by apply sorted_insert_ordered|]. intros p u Hin. rewrite sorted_insert_perm in Hin.
    destruct (decide (t = u)) as [<-|].
    + rewrite lookup_insert_eq. exists th'. split; [done|]. cbn.
      apply elem_of_cons in Hin as [[= -> ]|Hin]; [done|]. destruct (HP _ _ Hin) as (th2 & Ht2 & <-). congruence.
    + rewrite lookup_insert_ne by done. apply elem_of_cons in Hin as [[= -> ->]|Hin]; [done|by apply HP].
  - by apply sorted_insert_split.
  - rewrite Hpc. destruct (decide (t = currentThread (sched k))) as [Heq|Heq].
    + rewrite bool_decide_false by tauto. cbn. naive_solver.
    + rewrite bool_decide_true by done. cbn. destruct (Z.ltb_spec (priority th) (priority c)); naive_solver lia.
Qed.

(** ** Simulated time *)

(** The clock and the pending interrupts: these are in the order of their times, all times
    fit in an [int], and the clock is the sum of the ticks that were idle, in the system and
    in user programs. *)
Record time_ok (k : K) : Prop := {
  tm_sorted : StronglySorted by_key (pending (intr k));
  tm_when : ∀ w e, (w, e) ∈ pending (intr k) → int_fits w = true;
  tm_parts : 0 ≤ idleTicks (ticks k) ∧ 0 ≤ systemTicks (ticks k) ∧ 0 ≤ userTicks (ticks k);
  tm_sum : totalTicks (ticks k) = idleTicks (ticks k) + systemTicks (ticks k) + userTicks (ticks k);
  tm_total : totalTicks (ticks k) < 2 ^ 31
}.

Lemma int_fits_true x : int_fits x = true ↔ is_s32 x.
Proof. unfold int_fits, is_s32. rewrite andb_true_iff, Z.leb_le, Z.ltb_lt. lia. Qed.
Lemma ticks_fit_true t : ticks_fit t = true ↔
  is_s32 (totalTicks t) ∧ is_s32 (idleTicks t) ∧ is_s32 (systemTicks t) ∧ is_s32 (userTicks t).
Proof. unfold ticks_fit. rewrite !andb_true_iff, !int_fits_true. tauto. Qed.

Lemma CheckIfDue_spec k adv :
  time_ok k → level (intr k) = IntOff →
  ∃ r k', CheckIfDue adv k = Ok (r, k') ∧ time_ok k' ∧
    match r with
    | Some fr => ∃ w e p, pending (intr k) = (w, e) :: p ∧ pending (intr k') = p ∧
        fr = handler e ++ [Do_HandlerEnd (mstatus (intr k))] ∧ inHandler (intr k') = true ∧
        (∀ w' e', (w', e') ∈ p → w ≤ w') ∧ w ≤ totalTicks (ticks k') ∧
        totalTicks (ticks k') = (if adv then Z.max (totalTicks (ticks k)) w else totalTicks (ticks k))
    | None => pending (intr k') ≡ₚ pending (intr k) ∧ inHandler (intr k') = inHandler (intr k) ∧
        (pending (intr k) = [] ∨
         adv = false ∧ (∀ w e, (w, e) ∈ pending (intr k) → totalTicks (ticks k) < w) ∨
         mstatus (intr k) = IdleMode ∧ ∃ w e, pending (intr k) = [(w, e)] ∧ type e = TimerInt)
    end.
Proof.
  intros [HS HW HP HSum HT] Hl. unfold CheckIfDue.
  do 2 (erewrite ST_step by reflexivity). erewrite lift_step by (apply ASSERT_true; by apply bool_decide_true).
  erewrite ST_step by reflexivity. destruct (pending (intr k)) as [|[w e] p] eqn:Hp.
  { exists None, k. rewrite Hp. split_and!; try done; [split; rewrite ?Hp; try done|by left]. }
  apply StronglySorted_inv in HS as [HS HF].
  assert (∀ w' e', (w', e') ∈ p → w ≤ w') as Hmin.
  { intros w' e' Hin. rewrite list.Forall_forall in HF. by specialize (HF _ Hin). }
  assert (is_s32 w) as Hw by (apply int_fits_true, (HW w e); by left).
  assert (∀ w' e', (w', e') ∈ p → int_fits w' = true) as HW' by (intros w' e' Hin; apply (HW w' e'); by right).
  erewrite ST_step by reflexivity. set (now := totalTicks (ticks k)) in *.
  destruct adv; cbn [negb andb].
  - destruct (Z.gtb_spec w now).
    + erewrite (ST_step (on_ticks _)) by (unfold on_ticks; rewrite (proj2 (ticks_fit_true _)); [reflexivity|];
        unfold is_s32 in *; cbn; lia).
      (case_match eqn:Hidle; [apply andb_true_iff in Hidle as [[H1 H2]%andb_true_iff H3];
         apply bool_decide_eq_true in H1, H2, H3; subst p|]);
      (do 2 eexists; split; [reflexivity|]); cbn.
      * split_and!; [split; cbn; try done; try (unfold is_s32 in *; lia); repeat constructor|done|done|].
        right. right. split; [done|]. by exists w, e.
      * split; [split; cbn; try done; unfold is_s32 in *; lia|]. exists w, e, p. split_and!; try done; lia.
    + erewrite ST_step by reflexivity.
      (case_match eqn:Hidle; [apply andb_true_iff in Hidle as [[H1 H2]%andb_true_iff H3];
         apply bool_decide_eq_true in H1, H2, H3; subst p|]);
      (do 2 eexists; split; [reflexivity|]); cbn.
      * split_and!; [split; cbn; try done; repeat constructor|done|done|]. right. right. split; [done|]. by exists w, e.
      * split; [by split|]. exists w, e, p. split_and!; try done; lia.
  - destruct (Z.gtb_spec w now).
    + do 2 eexists. split; [reflexivity|]. cbn. split_and!; [|apply sorted_insert_perm|done|].
      { split; cbn; try done; [by apply sorted_insert_ordered|]. intros w' e'. rewrite sorted_insert_perm. apply HW. }
      right. left. split; [done|]. intros w' e' [[= -> ->]|Hin]%elem_of_cons; [done|]. specialize (Hmin _ _ Hin). lia.
    + erewrite ST_step by reflexivity.
      case_match eqn:Hidle; [apply andb_true_iff in Hidle as [[H1 H2]%andb_true_iff H3];
         apply bool_decide_eq_true in H1, H2, H3; subst p|]; (do 2 eexists; split; [reflexivity|]); cbn.
      * split_and!; [split; cbn; try done; repeat constructor|done|done|]. right. right. split; [done|]. by exists w, e.
      * split; [by split|]. exists w, e, p. split_and!; try done; lia.
Qed.

(** [CheckIfDue] fires the earliest pending interrupt.  With interrupts disabled and
    the pending interrupts in the order of their times, it calls the handler of the
    first one if it is due, or, when the clock may be advanced, after moving the clock to
    its time; it keeps the others.  If it fires nothing, then nothing is pending, nothing
    is due, or the machine is idle and only the timer is pending. *)
Theorem CheckIfDue_fires_earliest k adv :
  time_ok k → level (intr k) = IntOff →
  ∃ r k', CheckIfDue adv k = Ok (r, k') ∧ time_ok k' ∧
    match r with
    | Some fr => ∃ w e p, pending (intr k) = (w, e) :: p ∧ pending (intr k') = p ∧
        fr = handler e ++ [Do_HandlerEnd (mstatus (intr k))] ∧ inHandler (intr k') = true ∧
        (∀ w' e', (w', e') ∈ p → w ≤ w') ∧ w ≤ totalTicks (ticks k') ∧
        totalTicks (ticks k') = (if adv then Z.max (totalTicks (ticks k)) w else totalTicks (ticks k))
    | None => pending (intr k') ≡ₚ pending (intr k) ∧ inHandler (intr k') = inHandler (intr k) ∧
        (pending (intr k) = [] ∨
         adv = false ∧ (∀ w e, (w, e) ∈ pending (intr k) → totalTicks (ticks k) < w) ∨
         mstatus (intr k) = IdleMode ∧ ∃ w e, pending (intr k) = [(w, e)] ∧ type e = TimerInt)
    end.
Proof. apply CheckIfDue_spec. Qed.

(** Time and the pending interrupts across a step. *)
Record later (k k' : K) : Prop := {
  lt_ticks : totalTicks (ticks k) ≤ totalTicks (ticks k');
  lt_ok : time_ok k → time_ok k'
}.
Lemma later_same k k' : ticks k' = ticks k → pending (intr k') = pending (intr k) → later k k'.
Proof. intros H1 H2. split; [by rewrite H1|]. intros []. split; by rewrite ?H1, ?H2. Qed.
#[local] Instance later_preorder : PreOrder later.
Proof.
  split; [split; [lia|done]|]. intros k1 k2 k3 [? H1] [? H2]. split; [lia|auto].
Qed.
Definition forward {A} (op : M A) : Prop := ∀ k a k', op k = Ok (a, k') → later k k'.

Lemma forward_bind {A B} (op : M A) (f : A → M B) :
  forward op → (∀ a, forward (f a)) → forward (op ≫= f).
Proof.
  intros H1 H2 k b k' HE. apply ST_bind_Ok in HE as (a & k1 & HE1 & HE2).
  transitivity k1; [by eapply H1|by eapply H2].
Qed.
Lemma forward_ret {A} (a : A) : forward (mret a).
Proof. intros k b k' HE. injection HE as <- <-. reflexivity. Qed.
Lemma forward_get {A} (f : K → A) : forward (get f).
Proof. intros k b k' HE. injection HE as <- <-. reflexivity. Qed.
Lemma forward_get_at {A} (f : K → option A) : forward (get_at f).
Proof. intros k b k' HE. unfold get_at in HE. destruct (f k); [|done]. injection HE as <- <-. reflexivity. Qed.
Lemma forward_lift {A} (r : result A) : forward (lift r).
Proof. intros k b k' HE. unfold lift in HE. destruct r; [|done]. injection HE as <- <-. reflexivity. Qed.
Lemma forward_on_intr f : (∀ i, pending (f i) = pending i) → forward (on_intr f).
Proof. intros Hf k b k' HE. injection HE as <- <-. by apply later_same; cbn. Qed.
Lemma forward_on_tids f : forward (on_tids f).
Proof. intros k b k' HE. injection HE as <- <-. by apply later_same. Qed.
Lemma forward_on_sched f : forward (on_sched f).
Proof. intros k b k' HE. injection HE as <- <-. by apply later_same. Qed.
Lemma forward_on_objs f : forward (on_objs f).
Proof. intros k b k' HE. injection HE as <- <-. by apply later_same. Qed.
Lemma forward_count_call : forward count_call.
Proof. intros k b k' HE. injection HE as <- <-. by apply later_same. Qed.
Lemma forward_OneTick : forward OneTick.
Proof.
  intros k b k' HE. unfold OneTick in HE. erewrite ST_step in HE by reflexivity.
  apply ST_bind_Ok in HE as ([] & k1 & H1 & HE). unfold on_ticks in H1. destruct (ticks_fit _) eqn:Hf; [|done].
  apply ticks_fit_true in Hf as (Hf & _). injection H1 as <-. erewrite ST_step in HE by reflexivity. injection HE as <- <-.
  unfold is_s32, SystemTick, UserTick in *. destruct (bool_decide _); cbn in *; (split; cbn; [lia|]);
    intros [? ? ? ? ?]; split; cbn; try done; lia.
Qed.
Lemma forward_Schedule h d ty : forward (Schedule h d ty).
Proof.
  intros k [] k' HE. apply Schedule_Ok in HE as (Hi & Hd & HE). injection HE as <-.
  split; [cbn; lia|]. intros [HS HW HP HSum HT]. split; cbn; try done; [by apply sorted_insert_ordered|].
  intros w e. rewrite sorted_insert_perm. intros [[= -> ->]|Hin]%elem_of_cons; [done|by eapply HW].
Qed.
Lemma forward_CheckIfDue adv : forward (CheckIfDue adv).
Proof.
  intros k b k' HE. split.
  - unfold CheckIfDue in HE. do 2 (erewrite ST_step in HE by reflexivity).
    apply ST_bind_Ok in HE as ([] & k1 & H1 & HE). unfold lift in H1. destruct (ASSERT _) as [[]|]; [|done].
    injection H1 as <-. erewrite ST_step in HE by reflexivity.
    destruct (pending (intr k)) as [|[w e] p]; [by injection HE as <- <-|].
    erewrite ST_step in HE by reflexivity. destruct (negb adv && _); [by injection HE as <- <-|].
    apply ST_bind_Ok in HE as ([] & k1 & H1 & HE).
    assert (totalTicks (ticks k) ≤ totalTicks (ticks k1)) as Hle.
    { destruct (adv && (w >? totalTicks (ticks k))) eqn:Ha; [|by injection H1 as <-].
      apply andb_true_iff in Ha as [_ Ha]. unfold on_ticks in H1. destruct (ticks_fit _); [|done].
      injection H1 as <-. cbn. lia. }
    case_match; injection HE as <- <-; done.
  - intros HP. destruct (decide (level (intr k) = IntOff)) as [Hl|Hl].
    + destruct (CheckIfDue_spec k adv HP Hl) as (r & k2 & HE2 & HP2 & _). congruence.
    + unfold CheckIfDue in HE. do 2 (erewrite ST_step in HE by reflexivity).
      erewrite lift_stop in HE by (apply ASSERT_false; by apply bool_decide_false). done.
Qed.

Create HintDb time.
#[local] Hint Resolve forward_ret forward_get forward_get_at forward_lift forward_on_tids forward_on_sched
  forward_on_objs forward_count_call forward_OneTick forward_Schedule forward_CheckIfDue : time.
#[local] Hint Extern 1 (forward (on_intr _)) => apply forward_on_intr; reflexivity : time.

(** Unfold a routine down to its primitive steps. *)
Ltac forwards :=
  repeat first
    [ match goal with |- forward (match ?x with _ => _ end) => destruct x end
    | solve [eauto with time]
    | apply forward_bind; [|intros ?] ].

#[local] Hint Unfold thread put_thread current set_ready set_current set_toBeDestroyed setStatus set_level
  set_inHandler set_yieldOnReturn set_mstatus disable SetLevel fire CheckLoop TickEnd YieldOnReturn Idle
  TimerInterruptHandler TimeOfNextInterrupt TimerExpired Thread_new Thread_delete Deleted Fork ReadyToRun
  FindNextToRun Run RunTail Yield YieldNext Sleep SleepLoop Finish sem put_sem lock put_lock cond put_cond
  barrier put_barrier slist put_slist P P_loop V V_inc Acquire SetOwner isHeldByCurrentThread Release Wait
  WaitSleep Signal Broadcast BroadcastLoop BarrierWait Arrive BarrierLoop BarrierLast SAppend SAppend_list
  SRemove SWait STake done set_code : time.

Lemma forward_exec rnd r i : forward (exec rnd r i).
Proof. destruct i; cbn [exec]; autounfold with time; forwards. Qed.
Lemma forward_kstep rnd r : forward (kstep rnd r).
Proof.
  unfold kstep. pose proof (forward_exec rnd r). autounfold with time. forwards.
Qed.

(** C36: simulated time never runs backwards in a run of the kernel, whatever the threads
    and the devices do: the pending interrupts stay in the order of their times, and the
    clock stays the sum of the idle, system and user ticks.  The counters are [int]s: a run
    ends, with undefined behaviour, where one of them or the time of an interrupt would
    overflow, so every time in a run is below 2^31. *)
Theorem time_runs_forward dev rnd r k tr k' :
  runs dev rnd r k tr k' → time_ok k →
  time_ok k' ∧ totalTicks (ticks k) ≤ totalTicks (ticks k').
Proof.
  intros HR HP. assert (later k k') as [? H]; [|split; [by apply H|done]]. clear HP.
  induction HR as [k|k th i rest k1 tr k2 Ht Hc HE HR IH|k hd d ty k1 tr k2 Hd HE HR IH]; [reflexivity| |];
    (transitivity k1; [|done]).
  - by eapply forward_kstep.
  - by eapply forward_Schedule.
Qed.

(** ** Executions that go wrong *)

(** The kernel after [Initialize] with the given objects, pending interrupts and program. *)
Definition boot (o : Objects) (p : list (Z * PendingInterrupt)) (prog : list instr) : K :=
  match (on_objs (λ _, o);; set_pending p;; Initialize prog) K0 with Ok (_, k) => k | Stop _ => K0 end.
Definition one_sem (v : Z) : Objects := mkObjects {[1 := mkSemaphore v []]} ∅ ∅ ∅ ∅.

Definition wakeup_lost : K :=
  boot (one_sem 0) [] [New_thread 5 [Call_P 1]; New_thread 50 [Call_V 1]].

(** A wakeup can be lost.  A thread of priority 5 waits in [P] of a semaphore and a
    thread of priority 50 calls [V]: [V] makes the waiter ready before it increments the
    value, [ReadyToRun] switches to the waiter at once, which finds the value still 0 and
    queues itself again.  In the end the value is 1, the waiter is blocked in the queue,
    and the machine halts because nothing can run. *)
Theorem V_lost_wakeup :
  ∃ k th, runs (λ _, False) (λ _, 0) false wakeup_lost (trace (λ _, 0) false 63 wakeup_lost).1 k ∧
    kstep (λ _, 0) false k = Stop Blocked ∧
    sems (objs k) !! 1 = Some (mkSemaphore 1 [2%positive]) ∧
    threads (sched k) !! 2%positive = Some th ∧ status th = BLOCKED ∧
    code th = [Do_RunTail; Do_P_loop 1; Do_SetLevel IntOn; Call_Finish].
Proof.
  exists (trace (λ _, 0) false 63 wakeup_lost).2. eexists. split; [apply runs_trace|].
  split_and!; vm_compute; reflexivity.
Qed.

(** Without the difference in priority the same program runs to its end. *)
Lemma V_wakes_equal_priority :
  let run := trace (λ _, 0) false 300 (boot (one_sem 0) [] [New_thread 50 [Call_P 1]; New_thread 50 [Call_V 1]]) in
  sems (objs run.2) !! 1 = Some (mkSemaphore 0 []).
Proof. vm_compute. reflexivity. Qed.

Definition handler_switch : K :=
  boot (one_sem 0)
    [(100, mkPending [Call_V 1] 100 DiskInt); (200, mkPending [Call_V 1] 200 DiskInt)]
    [New_thread 5 [Call_P 1]; New_thread 50 (repeat Call_Yield 40)].
Definition handler_abort : K := (trace (λ _, 0) false 500 handler_switch).2.

(** An interrupt handler that wakes a more urgent thread can bring the system down.
    [V] in the handler switches to the woken thread inside the handler; that thread goes
    on to enable interrupts, and [SetLevel] aborts because a handler is still active. *)
Theorem handler_switch_aborts :
  runs (λ _, False) (λ _, 0) false handler_switch (trace (λ _, 0) false 500 handler_switch).1 handler_abort ∧
  kstep (λ _, 0) false handler_abort = Stop AssertFailed ∧
  inHandler (intr handler_abort) = true ∧
  code_of handler_abort (currentThread (sched handler_abort)) = [Do_SetLevel IntOn; Call_Finish].
Proof. split; [apply runs_trace|]. split_and!; vm_compute; reflexivity. Qed.

Definition zombies : K :=
  boot (one_sem 0) [] [New_thread 50 []; New_thread 50 []; New_thread 50 []].

(** Threads that finish can be leaked.  Three threads without a body run one after
    the other; a thread that starts does not go through the end of [Run], where the
    finished thread is deleted, so that [threadToBeDestroyed] is overwritten.  When the
    machine stops, all three and their identifiers are still allocated. *)
Theorem finished_threads_leak :
  ∃ k, runs (λ _, False) (λ _, 0) false zombies (trace (λ _, 0) false 400 zombies).1 k ∧
    kstep (λ _, 0) false k = Stop Blocked ∧ readyList (sched k) = [] ∧
    size (threads (sched k)) = 4%nat ∧ threadToBeDestroyed (sched k) = Some 4%positive.
Proof.
  exists (trace (λ _, 0) false 400 zombies).2. split; [apply runs_trace|]. split_and!; vm_compute; reflexivity.
Qed.

(** ** Witnesses *)

Definition two_threads : K := boot (one_sem 1) [] [].

Lemma two_threads_tids : tids_ok two_threads.
Proof.
  split.
  - vm_compute. reflexivity.
  - intros i. destruct (decide (i = 0)) as [->|Hi].
    + split; [intros _; vm_compute; by left|done].
    + assert (PCBList (tids two_threads) = [(0, 1%positive)]) as -> by (vm_compute; reflexivity).
      split; [|cbn; set_solver]. intros H. exfalso.
      assert (TidMap (tids two_threads) = true :: replicate 127 false) as E by (vm_compute; reflexivity).
      rewrite E in H. unfold znth in H. case_match eqn:Hz; [done|].
      destruct (Z.to_nat i) as [|n] eqn:Hn; [lia|]. cbn [lookup list_lookup] in H.
      apply lookup_replicate_1 in H as [H _]. done.
  - vm_compute. repeat constructor. set_solver.
  - assert (PCBList (tids two_threads) = [(0, 1%positive)]) as -> by (vm_compute; reflexivity).
    assert (∃ th, threads (sched two_threads) = {[1%positive := th]} ∧ tid th = 0) as (th & -> & Hth)
      by (eexists; split; vm_compute; reflexivity).
    intros i t. setoid_rewrite lookup_singleton_Some. split.
    + intros [= -> ->]%list_elem_of_singleton. by exists th.
    + intros (th' & [<- <-] & <-). rewrite Hth. by left.
  - right. vm_compute. reflexivity.
Qed.

Lemma tids_managed_witness : ∃ fr k' th,
  Thread_new 9%positive 7 two_threads = Ok (fr, k') ∧ tids_ok k' ∧
  threads (sched k') !! 9%positive = Some th ∧
  ∀ u thu, threads (sched two_threads) !! u = Some thu → tid thu ≠ tid th.
Proof.
  destruct (tids_managed two_threads 9%positive 7 two_threads_tids) as [H _]; [vm_compute; reflexivity|].
  specialize (H ltac:(vm_compute; reflexivity)). rewrite decide_False in H by (vm_compute; discriminate). exact H.
Defined.

(** The kernel when the thread of priority 50 of [wakeup_lost] is about to run. *)
Definition two_ready : K :=
  (trace (λ _, 0) false 20 (boot (one_sem 0) [] [New_thread 50 []; New_thread 5 []; New_thread 50 []])).2.
Lemma two_ready_ok : ready_ok two_ready.
Proof.
  assert (readyList (sched two_ready) = [(5, 3%positive); (50, 2%positive)]) as E by (vm_compute; reflexivity).
  split; rewrite E.
  - repeat constructor; vm_compute; discriminate.
  - intros p t [[= -> ->]|[[= -> ->]|[]%elem_of_nil]%elem_of_cons]%elem_of_cons;
      eexists; (split; [vm_compute; reflexivity|reflexivity]).
Qed.

Lemma FindNextToRun_best_priority_witness : ∃ c r k',
  FindNextToRun two_ready = Ok (r, k') ∧ ready_ok k' ∧
    match r with
    | Some t => ∃ p rest, readyList (sched two_ready) = (p, t) :: rest ∧ readyList (sched k') = rest ∧
        (∀ q u, (q, u) ∈ rest → p ≤ q) ∧ (status c = BLOCKED ∨ p ≤ priority c)
    | None => readyList (sched k') ≡ₚ readyList (sched two_ready) ∧
        (readyList (sched two_ready) = [] ∨
         status c ≠ BLOCKED ∧ ∀ q u, (q, u) ∈ readyList (sched two_ready) → priority c < q)
    end.
Proof.
  eexists. apply (FindNextToRun_best_priority two_ready _ two_ready_ok). vm_compute. reflexivity.
Defined.

Lemma ReadyToRun_queues_witness : ∃ th c fr k',
  ReadyToRun 1%positive two_ready = Ok (fr, k') ∧ ready_ok k' ∧
    readyList (sched k') = filter (λ e, e.1 ≤ priority th) (readyList (sched two_ready)) ++
      (priority th, 1%positive) :: filter (λ e, priority th < e.1) (readyList (sched two_ready)) ∧
    (fr = [Call_Yield] ↔ 1%positive ≠ currentThread (sched two_ready) ∧ priority th < priority c).
Proof.
  do 2 eexists. apply (ReadyToRun_queues two_ready 1%positive _ _ two_ready_ok); vm_compute; reflexivity.
Defined.

Lemma handler_switch_time : time_ok handler_switch.
Proof.
  split.
  - vm_compute. repeat constructor; vm_compute; discriminate.
  - assert (forallb (λ x, int_fits x.1) (pending (intr handler_switch)) = true) as HF by (vm_compute; reflexivity).
    rewrite forallb_forall in HF. intros w e Hin%list_elem_of_In. exact (HF _ Hin).
  - vm_compute. split_and!; discriminate.
  - vm_compute. reflexivity.
  - vm_compute. reflexivity.
Qed.

Lemma CheckIfDue_fires_earliest_witness : ∃ r k',
  let k := match (set_level IntOff) handler_switch with Ok (_, k) => k | Stop _ => handler_switch end in
  CheckIfDue true k = Ok (r, k') ∧ time_ok k'.
Proof.
  destruct (CheckIfDue_fires_earliest
    (match (set_level IntOff) handler_switch with Ok (_, k) => k | Stop _ => handler_switch end) true)
    as (r & k' & H1 & H2 & _); [exact handler_switch_time|vm_compute; reflexivity|].
  exists r, k'. split; [exact H1|exact H2].
Defined.

Lemma time_runs_forward_witness :
  time_ok handler_abort ∧ totalTicks (ticks handler_switch) ≤ totalTicks (ticks handler_abort).
Proof.
  apply (time_runs_forward (λ _, False) (λ _, 0) false handler_switch
    (trace (λ _, 0) false 500 handler_switch).1 handler_abort).
  - apply runs_trace.
  - exact handler_switch_time.
Defined.
