(* ===== verification/Machine.v ===== *)
(** * The simulated machine: machine/machine.cc and machine/translate.cc

    Registers, main memory, the TLB, and the student's demand paging: on a TLB
    miss the kernel refills the TLB from the page table ([LRU_TLB]) and brings the
    page into a frame ([AllocatePhysicalPage]), evicting the least recently used
    one.  The shared pointers of the code are explicit: a thread names its address
    space, [pageTable] names the address space whose table the machine uses, and a
    frame names the thread that owns it.

    The build is that of userprog/ and vm/: [USE_TLB] is defined, [DiskImage] is
    not; the host is little-endian. *)

From S2P Require Import Prelude.

(** ** Constants of machine.h *)
Definition PageSize : Z := 128.
Definition NumPhysPages : Z := 32.
Definition MemorySize : Z := NumPhysPages * PageSize.
Definition TLBSize : Z := 4.

Definition StackReg : Z := 29.
Definition RetAddrReg : Z := 31.
Definition HiReg : Z := 32.
Definition LoReg : Z := 33.
Definition PCReg : Z := 34.
Definition NextPCReg : Z := 35.
Definition PrevPCReg : Z := 36.
Definition LoadReg : Z := 37.
Definition LoadValueReg : Z := 38.
Definition BadVAddrReg : Z := 39.
Definition NumTotalRegs : Z := 40.

Inductive ExceptionType :=
| NoException | SyscallException | PageFaultException | ReadOnlyException
| BusErrorException | AddressErrorException | OverflowException | IllegalInstrException.
#[export] Instance ExceptionType_eq_dec : EqDecision ExceptionType.
Proof. solve_decision. Defined.

Inductive MachineStatus := IdleMode | SystemMode | UserMode.

(** ** Data *)

(** Class [TranslationEntry] of translate.h. *)
Record TranslationEntry := mkTE {
  virtualPage : Z;
  physicalPage : Z;
  valid : bool;
  readOnly : bool;
  use : bool;
  dirty : bool;
  InTime : Z;
  LastHitTime : Z
}.

(** Class [PhysicalPageEntry] of system.h; [OwnerThread] is [NULL] or a thread. *)
Record PhysicalPageEntry := mkPPE {
  VirtualPageNumber : Z;
  OwnerThread : option Z;
  F_LastHitTime : Z;
  F_valid : bool;
  F_dirty : bool
}.

(** Class [AddrSpace]; [vSpace] is the backing store of the pages. *)
Record AddrSpace := mkAS {
  AS_pageTable : list TranslationEntry;
  numPages : Z;
  vSpace : list Z
}.

(** Class [Machine] with the globals its routines use: [PhysicalPageTable],
    [currentThread], the field [space] of each thread ([space_of]), the address
    spaces the pointers refer to, and the clock and status of the interrupt
    simulation. *)
Record Machine := mkMachine {
  registers : list Z;
  mainMemory : list Z;
  tlb : list TranslationEntry;
  pageTable : option Z;
  pageTableSize : Z;
  TLBHit : Z;
  TLBMiss : Z;
  PhysicalPageTable : list PhysicalPageEntry;
  currentThread : Z;
  space_of : list (option Z);
  spaces : list AddrSpace;
  totalTicks : Z;
  status : MachineStatus
}.

Definition set_registers (m : Machine) x := mkMachine x (mainMemory m) (tlb m) (pageTable m)
  (pageTableSize m) (TLBHit m) (TLBMiss m) (PhysicalPageTable m) (currentThread m) (space_of m)
  (spaces m) (totalTicks m) (status m).
Definition set_mainMemory (m : Machine) x := mkMachine (registers m) x (tlb m) (pageTable m)
  (pageTableSize m) (TLBHit m) (TLBMiss m) (PhysicalPageTable m) (currentThread m) (space_of m)
  (spaces m) (totalTicks m) (status m).
Definition set_tlb (m : Machine) x := mkMachine (registers m) (mainMemory m) x (pageTable m)
  (pageTableSize m) (TLBHit m) (TLBMiss m) (PhysicalPageTable m) (currentThread m) (space_of m)
  (spaces m) (totalTicks m) (status m).
Definition set_counts (m : Machine) h n := mkMachine (registers m) (mainMemory m) (tlb m)
  (pageTable m) (pageTableSize m) h n (PhysicalPageTable m) (currentThread m) (space_of m)
  (spaces m) (totalTicks m) (status m).
Definition set_frames (m : Machine) x := mkMachine (registers m) (mainMemory m) (tlb m)
  (pageTable m) (pageTableSize m) (TLBHit m) (TLBMiss m) x (currentThread m) (space_of m)
  (spaces m) (totalTicks m) (status m).
Definition set_spaces (m : Machine) x := mkMachine (registers m) (mainMemory m) (tlb m)
  (pageTable m) (pageTableSize m) (TLBHit m) (TLBMiss m) (PhysicalPageTable m) (currentThread m)
  (space_of m) x (totalTicks m) (status m).
Definition set_pageTable (m : Machine) p n := mkMachine (registers m) (mainMemory m) (tlb m)
  p n (TLBHit m) (TLBMiss m) (PhysicalPageTable m) (currentThread m)
  (space_of m) (spaces m) (totalTicks m) (status m).
Definition set_threads (m : Machine) c x := mkMachine (registers m) (mainMemory m) (tlb m)
  (pageTable m) (pageTableSize m) (TLBHit m) (TLBMiss m) (PhysicalPageTable m) c
  x (spaces m) (totalTicks m) (status m).
Definition set_clock (m : Machine) t u := mkMachine (registers m) (mainMemory m) (tlb m)
  (pageTable m) (pageTableSize m) (TLBHit m) (TLBMiss m) (PhysicalPageTable m) (currentThread m)
  (space_of m) (spaces m) t u.

Definition set_valid (e : TranslationEntry) b := mkTE (virtualPage e) (physicalPage e) b
  (readOnly e) (use e) (dirty e) (InTime e) (LastHitTime e).
Definition set_dirty (e : TranslationEntry) b := mkTE (virtualPage e) (physicalPage e) (valid e)
  (readOnly e) (use e) b (InTime e) (LastHitTime e).
Definition set_use (e : TranslationEntry) b := mkTE (virtualPage e) (physicalPage e) (valid e)
  (readOnly e) b (dirty e) (InTime e) (LastHitTime e).
Definition set_InTime (e : TranslationEntry) t := mkTE (virtualPage e) (physicalPage e) (valid e)
  (readOnly e) (use e) (dirty e) t (LastHitTime e).
Definition set_LastHitTime (e : TranslationEntry) t := mkTE (virtualPage e) (physicalPage e)
  (valid e) (readOnly e) (use e) (dirty e) (InTime e) t.
Definition set_F_dirty (f : PhysicalPageEntry) b :=
  mkPPE (VirtualPageNumber f) (OwnerThread f) (F_LastHitTime f) (F_valid f) b.
Definition set_F_valid (f : PhysicalPageEntry) b :=
  mkPPE (VirtualPageNumber f) (OwnerThread f) (F_LastHitTime f) b (F_dirty f).
Definition set_F_LastHitTime (f : PhysicalPageEntry) t :=
  mkPPE (VirtualPageNumber f) (OwnerThread f) t (F_valid f) (F_dirty f).

Abbreviation MM := (ST Machine).

(** ** Accesses *)
Definition undefined {A} : MM A := lift (Stop Undefined).
Definition reg (i : Z) : MM Z := s ← getS; lift (aget (registers s) i).
Definition set_reg (i v : Z) : MM () :=
  s ← getS; r ← lift (aset (registers s) i v); putS (set_registers s r).

Definition tlb_get (i : Z) : MM TranslationEntry := s ← getS; lift (aget (tlb s) i).
Definition tlb_upd (i : Z) (f : TranslationEntry → TranslationEntry) : MM () :=
  s ← getS; e ← lift (aget (tlb s) i); putS (set_tlb s (zset (tlb s) i (f e))).

Definition frame_get (i : Z) : MM PhysicalPageEntry :=
  s ← getS; lift (aget (PhysicalPageTable s) i).
Definition frame_upd (i : Z) (f : PhysicalPageEntry → PhysicalPageEntry) : MM () :=
  s ← getS; e ← lift (aget (PhysicalPageTable s) i);
  putS (set_frames s (zset (PhysicalPageTable s) i (f e))).

Definition space_get (sp : Z) : MM AddrSpace := s ← getS; lift (aget (spaces s) sp).
Definition space_put (sp : Z) (a : AddrSpace) : MM () :=
  s ← getS; l ← lift (aset (spaces s) sp a); putS (set_spaces s l).

(** [p->pageTable[i]] of an address space, and [machine->pageTable[i]]. *)
Definition entry_get (sp i : Z) : MM TranslationEntry :=
  a ← space_get sp; lift (aget (AS_pageTable a) i).
Definition entry_upd (sp i : Z) (f : TranslationEntry → TranslationEntry) : MM () :=
  a ← space_get sp;
  e ← lift (aget (AS_pageTable a) i);
  space_put sp (mkAS (zset (AS_pageTable a) i (f e)) (numPages a) (vSpace a)).
Definition cur_table : MM Z :=
  s ← getS; match pageTable s with Some sp => mret sp | None => undefined end.
Definition pt_get (i : Z) : MM TranslationEntry := sp ← cur_table; entry_get sp i.
Definition pt_upd (i : Z) (f : TranslationEntry → TranslationEntry) : MM () :=
  sp ← cur_table; entry_upd sp i f.

(** [t->space], which the code dereferences at once. *)
Definition thread_space (t : Z) : MM Z :=
  s ← getS; o ← lift (aget (space_of s) t);
  match o with Some sp => mret sp | None => undefined end.

(** ** machine.cc *)

(** [interrupt->OneTick()] as the machine uses it: a component that advances the
    clock.  [Interrupt::OneTick] itself, with pending interrupts, handlers and context
    switches, is modelled in Kernel.v; the machine relies on time being all that
    changes ([InterruptLaws]).  That is so for a tick at which no interrupt is due and
    for a handler that does not touch the machine.  It is not so for a tick at which
    the scheduler switches to another thread with an address space: [SaveState] and
    [RestoreState] (AddrSpace.v) then run and empty the TLB, and the other program may
    evict pages.  The theorems on user memory that assume the law are therefore about
    the stretch of a program between two context switches. *)
Class InterruptOps := OneTick : MM ().
Class InterruptLaws `{InterruptOps} :=
  OneTick_frame : ∀ s, ∃ t, OneTick s = Ok ((), set_clock s t (status s)).

(** The instance of a machine with no pending interrupt. *)
#[export] Instance quiet_interrupts : InterruptOps := λ s,
  Ok ((), set_clock s (totalTicks s + match status s with SystemMode => 10 | _ => 1 end) (status s)).
#[export] Instance quiet_laws : InterruptLaws.
Proof. intros s. by eexists. Qed.

Definition setStatus (u : MachineStatus) : MM () :=
  s ← getS; putS (set_clock s (totalTicks s) u).

(** [Machine::Machine]; [garbage] is the memory [new TranslationEntry[TLBSize]]
    returns, whose other fields stay uninitialised. *)
Definition Machine_new (garbage : list TranslationEntry) (m : Machine) : Machine :=
  mkMachine (replicate (Z.to_nat NumTotalRegs) 0) (replicate (Z.to_nat MemorySize) 0)
    ((λ e, set_valid e false) <$> garbage) None (pageTableSize m) 0 0 (PhysicalPageTable m)
    (currentThread m) (space_of m) (spaces m) (totalTicks m) (status m).

(** The initialisation of [PhysicalPageTable] in [Initialize]. *)
Definition PhysicalPageTable_new : list PhysicalPageEntry :=
  replicate (Z.to_nat NumPhysPages) (mkPPE 0 None 0 false false).

Definition ReadRegister (num : Z) : MM Z :=
  lift (ASSERT ((0 <=? num) && (num <? NumTotalRegs)));; reg num.
Definition WriteRegister (num value : Z) : MM () :=
  lift (ASSERT ((0 <=? num) && (num <? NumTotalRegs)));; set_reg num value.
Definition IncrementPC : MM () :=
  pc ← reg PCReg; WriteRegister PrevPCReg pc;;
  pc ← reg PCReg; WriteRegister PCReg (s32 (pc + 4));;
  npc ← reg NextPCReg; WriteRegister NextPCReg (s32 (npc + 4)).

Definition DelayedLoad (nextReg nextValue : Z) : MM () :=
  r ← reg LoadReg; v ← reg LoadValueReg;
  set_reg r v;;
  set_reg LoadReg nextReg;;
  set_reg LoadValueReg nextValue;;
  set_reg 0 0.

(** [memcpy(&dst[off], bytes, n)] and the source side [&src[off], n]. *)
Definition bytes_at (src : list Z) (off n : Z) : result (list Z) :=
  if (0 <=? off) && (off + n <=? zlen src) then Ok (read_at src off n) else Stop Undefined.
Definition bytes_to (dst : list Z) (off : Z) (b : list Z) : result (list Z) :=
  if (0 <=? off) && (off + zlen b <=? zlen dst) then Ok (write_at dst off b) else Stop Undefined.

(** [memcpy(&(space->vSpace[vpn*PageSize]), &(mainMemory[ppn*PageSize]), PageSize)] *)
Definition page_out (sp vpn ppn : Z) : MM () :=
  s ← getS; a ← space_get sp;
  b ← lift (bytes_at (mainMemory s) (ppn * PageSize) PageSize);
  v ← lift (bytes_to (vSpace a) (vpn * PageSize) b);
  space_put sp (mkAS (AS_pageTable a) (numPages a) v).
(** [memcpy(&(mainMemory[ppn*PageSize]), &(space->vSpace[vpn*PageSize]), PageSize)] *)
Definition page_in (sp vpn ppn : Z) : MM () :=
  s ← getS; a ← space_get sp;
  b ← lift (bytes_at (vSpace a) (vpn * PageSize) PageSize);
  mm ← lift (bytes_to (mainMemory s) (ppn * PageSize) b);
  putS (set_mainMemory s mm).

(** [for (i in l) body(i)] in the machine monad. *)
Fixpoint for_in (l : list Z) (body : Z → MM ()) : MM () :=
  match l with [] => mret () | i :: l' => body i;; for_in l' body end.

(** [Machine::Save]. *)
Definition Save : MM () :=
  for_in (seqZ 0 NumPhysPages) (λ ppn,
    f ← frame_get ppn;
    if negb (F_valid f) then mret ()
    else
      (match OwnerThread f with
       | Some t => sp ← thread_space t; page_out sp (VirtualPageNumber f) ppn
       | None => mret ()
       end);;
      frame_upd ppn (λ f, set_F_dirty (set_F_valid f false) false));;
  s ← getS;
  for_in (seqZ 0 (pageTableSize s)) (λ i, pt_upd i (λ e, set_dirty (set_valid e false) false));;
  for_in (seqZ 0 TLBSize) (λ i, tlb_upd i (λ e, set_valid (set_dirty e false) false)).

(** ** translate.cc *)

(** On the little-endian host the conversions return their argument. *)
Definition WordToHost (word : Z) : Z := word.
Definition ShortToHost (shortword : Z) : Z := shortword.
Definition WordToMachine (word : Z) : Z := WordToHost word.
Definition ShortToMachine (shortword : Z) : Z := ShortToHost shortword.

(** The loop of [Translate] over the TLB. *)
Fixpoint tlb_find (l : list TranslationEntry) (i vpn : Z) : option Z :=
  match l with
  | [] => None
  | e :: l' => if valid e && (u32 (virtualPage e) =? vpn) then Some i else tlb_find l' (i + 1) vpn
  end.

Definition misaligned (virtAddr size : Z) : bool :=
  ((size =? 4) && negb (Z.land virtAddr 3 =? 0)) || ((size =? 2) && negb (Z.land virtAddr 1 =? 0)).

(** [Machine::Translate]: the exception and [*physAddr] (0 when it is not set). *)
Definition Translate (virtAddr size : Z) (writing : bool) : MM (ExceptionType * Z) :=
  if misaligned virtAddr size then mret (AddressErrorException, 0)
  else
    let vpn := u32 virtAddr / PageSize in
    let offset := u32 virtAddr mod PageSize in
    s ← getS;
    match tlb_find (tlb s) 0 vpn with
    | None => putS (set_counts s (TLBHit s) (TLBMiss s + 1));; mret (PageFaultException, 0)
    | Some i =>
        putS (set_counts s (TLBHit s + 1) (TLBMiss s));;
        e ← tlb_get i;
        if readOnly e && writing then mret (ReadOnlyException, 0)
        else
          let pageFrame := u32 (physicalPage e) in
          if NumPhysPages <=? pageFrame then mret (BusErrorException, 0)
          else
            tlb_upd i (λ e, set_use e true);;
            (if writing then
               tlb_upd i (λ e, set_dirty e true);;
               pt_upd vpn (λ e, set_dirty e true);;
               frame_upd pageFrame (λ f, set_F_dirty f true)
             else mret ());;
            tlb_upd i (λ e, set_LastHitTime e (totalTicks s));;
            frame_upd pageFrame (λ f, set_F_LastHitTime f (totalTicks s));;
            let physAddr := pageFrame * PageSize + offset in
            lift (ASSERT ((0 <=? physAddr) && (physAddr + size <=? MemorySize)));;
            mret (NoException, physAddr)
    end.

(** The search of a victim, which the TLB refills and the frame allocators share:
    the first invalid entry, else the first one with the least key. *)
Fixpoint scan {A} (ok : A → bool) (key : A → Z) (l : list A) (i best kbest : Z) : Z :=
  match l with
  | [] => best
  | e :: l' =>
      if negb (ok e) then i
      else if key e <? kbest then scan ok key l' (i + 1) i (key e)
      else scan ok key l' (i + 1) best kbest
  end.
Definition victim {A} (ok : A → bool) (key : A → Z) (l : list A) : Z :=
  match l with [] => 0 | e :: _ => scan ok key l 0 0 (key e) end.

(** The loop "update tlb" of [AllocatePhysicalPage]. *)
Definition tlb_flush (ppn OldVpn : Z) : MM () :=
  for_in (seqZ 0 TLBSize) (λ i,
    tlb_upd i (λ e, if valid e && (physicalPage e =? ppn) && (virtualPage e =? OldVpn)
                    then set_valid e false else e)).

(** The eviction of the page in frame [ppn]. *)
Definition evict (ppn : Z) (f : PhysicalPageEntry) : MM () :=
  let OldVpn := VirtualPageNumber f in
  (match OwnerThread f with
   | Some T =>
       sp ← thread_space T;
       entry_upd sp OldVpn (λ e, set_valid e false);;
       page_out sp OldVpn ppn;;
       pt_upd OldVpn (λ e, set_dirty e false);;
       entry_upd sp OldVpn (λ e, set_dirty e false);;
       frame_upd ppn (λ f, set_F_dirty f false)
   | None => mret ()
   end);;
  pt_upd OldVpn (λ e, set_valid e false);;
  tlb_flush ppn OldVpn.

(** [Machine::AllocatePhysicalPage]. *)
Definition AllocatePhysicalPage (vpn : Z) : MM Z :=
  s ← getS;
  let ppn := victim F_valid F_LastHitTime (PhysicalPageTable s) in
  f ← frame_get ppn;
  (if F_valid f then evict ppn f else mret ());;
  sp ← thread_space (currentThread s);
  page_in sp vpn ppn;;
  frame_upd ppn (λ f, mkPPE vpn (Some (currentThread s)) (totalTicks s) true (F_dirty f));;
  pt_upd vpn (λ e, mkTE vpn ppn true false false (dirty e) (totalTicks s) (totalTicks s));;
  mret ppn.

(** [Machine::LRU_TLB] and [Machine::FIFO_TLB], which differ in the key. *)
Definition refill_TLB (key : TranslationEntry → Z) (virtAddr : Z) : MM () :=
  let vpn := u32 virtAddr / PageSize in
  s ← getS;
  let i := victim valid key (tlb s) in
  e ← tlb_get i;
  (if valid e then pt_upd (virtualPage e) (λ _, e) else mret ());;
  p ← pt_get vpn;
  (if valid p then tlb_upd i (λ _, p)
   else
     AllocatePhysicalPage vpn;;
     p ← pt_get vpn; tlb_upd i (λ _, p));;
  tlb_upd i (λ e, set_InTime e (totalTicks s)).
Definition LRU_TLB (virtAddr : Z) : MM () := refill_TLB LastHitTime virtAddr.
Definition FIFO_TLB (virtAddr : Z) : MM () := refill_TLB InTime virtAddr.

(** [Machine::InvertedAllocatePage]: [pageTable] is indexed by frames. *)
Definition InvertedAllocatePage (vpn : Z) : MM Z :=
  s ← getS;
  let ppn := victim F_valid F_LastHitTime (PhysicalPageTable s) in
  f ← frame_get ppn;
  (if F_valid f then
     (match OwnerThread f with
      | Some T =>
          if F_dirty f then sp ← thread_space T; page_out sp (VirtualPageNumber f) ppn
          else mret ()
      | None => mret ()
      end);;
     for_in (seqZ 0 TLBSize) (λ i,
       tlb_upd i (λ e, if valid e && (physicalPage e =? ppn) then set_valid e false else e));;
     for_in (seqZ 0 (pageTableSize s)) (λ i,
       e ← pt_get i;
       if (physicalPage e =? ppn) && valid e then
         pt_upd i (λ e, set_valid e false);;
         match OwnerThread f with
         | Some T => sp ← thread_space T; entry_upd sp i (λ e, set_valid e false)
         | None => mret ()
         end
       else mret ())
   else mret ());;
  sp ← thread_space (currentThread s);
  page_in sp vpn ppn;;
  frame_upd ppn (λ _, mkPPE vpn (Some (currentThread s)) (totalTicks s) true false);;
  pt_upd ppn (λ _, mkTE vpn ppn true false false false (totalTicks s) (totalTicks s));;
  mret ppn.

(** The search of [Invert_LRU_TLB] in the inverted table: [true] when found. *)
Fixpoint load_inverted (l : list Z) (i vpn now : Z) : MM bool :=
  match l with
  | [] => mret false
  | j :: l' =>
      p ← pt_get j;
      if valid p && (u32 (virtualPage p) =? vpn) then
        tlb_upd i (λ _, set_InTime p now);; mret true
      else load_inverted l' i vpn now
  end.
Definition Invert_LRU_TLB (virtAddr : Z) : MM () :=
  let vpn := u32 virtAddr / PageSize in
  s ← getS;
  let i := victim valid LastHitTime (tlb s) in
  e ← tlb_get i;
  (if valid e then pt_upd (physicalPage e) (λ _, e) else mret ());;
  found ← load_inverted (seqZ 0 (pageTableSize s)) i vpn (totalTicks s);
  if (found : bool) then mret ()
  else
    InvertedAllocatePage vpn;;
    load_inverted (seqZ 0 (pageTableSize s)) i vpn (totalTicks s);;
    mret ().

(** [Machine::TLB_PageTable_check]. *)
Definition TLB_PageTable_check : MM () :=
  s ← getS;
  for_in (seqZ 0 TLBSize) (λ i,
    e ← tlb_get i;
    if valid e then
      p ← pt_get (virtualPage e);
      lift (ASSERT (physicalPage e =? physicalPage p));;
      lift (ASSERT (valid p));;
      f ← frame_get (physicalPage e);
      lift (ASSERT (F_valid f))
    else mret ());;
  for_in (seqZ 0 (pageTableSize s)) (λ i,
    p ← pt_get i;
    if valid p then
      f ← frame_get (physicalPage p);
      lift (ASSERT (F_valid f));;
      lift (ASSERT (VirtualPageNumber f =? i))
    else mret ()).

Section traps.
Context `{InterruptOps}.

(** [ExceptionHandler] for what a memory access can raise (exception.cc): a page
    fault refills the TLB, every other exception of an access is fatal. *)
Definition ExceptionHandler_memory (which : ExceptionType) : MM () :=
  ReadRegister 2;;
  match which with
  | PageFaultException => virtAddr ← ReadRegister BadVAddrReg; LRU_TLB virtAddr
  | _ => lift (ASSERT false)
  end.

(** [Machine::RaiseException] around a handler. *)
Definition RaiseException_with (handler : ExceptionType → MM ())
    (which : ExceptionType) (badVAddr : Z) : MM () :=
  set_reg BadVAddrReg badVAddr;;
  DelayedLoad 0 0;;
  setStatus SystemMode;;
  OneTick;;
  handler which;;
  setStatus UserMode.
Definition RaiseException_memory := RaiseException_with ExceptionHandler_memory.

(** The part [ReadMem] and [WriteMem] share: translate, trap, and translate again
    twice after a page fault; [None] is [return false]. *)
Definition translate_retry (addr size : Z) (writing : bool) : MM (option Z) :=
  r1 ← Translate addr size writing;
  if decide (r1.1 = NoException) then mret (Some r1.2)
  else
    RaiseException_memory r1.1 addr;;
    if decide (r1.1 = PageFaultException) then
      r2 ← Translate addr size writing;
      (if decide (r2.1 = NoException) then mret () else RaiseException_memory r2.1 addr);;
      r3 ← Translate addr size writing;
      if decide (r3.1 = NoException) then mret (Some r3.2)
      else RaiseException_memory r3.1 addr;; mret None
    else mret None.

(** A [char] of main memory read as an [int]: the type is signed on the host. *)
Definition s8 (x : Z) : Z := (x + 128) mod 256 - 128.

(** [Machine::ReadMem]: [None] is [FALSE], [Some v] is [TRUE] with [*value = v]. *)
Definition ReadMem (addr size : Z) : MM (option Z) :=
  o ← translate_retry addr size false;
  match o with
  | None => mret None
  | Some physicalAddress =>
      s ← getS;
      if size =? 1 then
        b ← lift (bytes_at (mainMemory s) physicalAddress 1); mret (Some (s8 (le_combine b)))
      else if size =? 2 then
        b ← lift (bytes_at (mainMemory s) physicalAddress 2);
        mret (Some (ShortToHost (le_combine b)))
      else if size =? 4 then
        b ← lift (bytes_at (mainMemory s) physicalAddress 4);
        mret (Some (s32 (WordToHost (le_combine b))))
      else lift (ASSERT false);; mret None
  end.

(** [Machine::WriteMem]. *)
Definition WriteMem (addr size value : Z) : MM bool :=
  o ← translate_retry addr size true;
  match o with
  | None => mret false
  | Some physicalAddress =>
      s ← getS;
      mm ← (if size =? 1 then
              lift (bytes_to (mainMemory s) physicalAddress (le_split 1 (Z.land value 255)))
            else if size =? 2 then
              lift (bytes_to (mainMemory s) physicalAddress
                      (le_split 2 (ShortToMachine (Z.land value 65535))))
            else if size =? 4 then
              lift (bytes_to (mainMemory s) physicalAddress
                      (le_split 4 (WordToMachine (u32 value))))
            else lift (ASSERT false);; mret []);
      putS (set_mainMemory s mm);;
      mret true
  end.
End traps.
