(* ===== verification/Paging.v ===== *)
(** * Demand paging is transparent (machine/translate.cc)

    [paged] is the invariant of the TLB, the page table and the frame table that
    [TLB_PageTable_check] samples; [user_byte] is the byte a user program sees at
    an address, wherever the page is.  The refill of the TLB with its eviction and
    its page-in is proved to change no such byte, so that [ReadMem] and [WriteMem]
    are the accesses of a flat array. *)

From S2P Require Import Prelude Machine.

(** ** What the user program sees *)

(** The byte at address [i]: in the frame of its page, or in the backing store. *)
Definition user_byte (a : AddrSpace) (mm : list Z) (i : Z) : option Z :=
  p ← znth (AS_pageTable a) (i / PageSize);
  if valid p then znth mm (physicalPage p * PageSize + i mod PageSize) else znth (vSpace a) i.

Definition current_space (s : Machine) : option AddrSpace :=
  sp ← pageTable s; znth (spaces s) sp.

(** The user's memory as one array of [numPages * PageSize] bytes. *)
Definition user_memory (s : Machine) : list Z :=
  match current_space s with
  | Some a => (λ i, default 0 (user_byte a (mainMemory s) i)) <$> seqZ 0 (numPages a * PageSize)
  | None => []
  end.

(** ** The invariant *)

(** [hole] is the frame being replaced, if any. *)
Record paged (hole : option Z) (a : AddrSpace) (mm : list Z) (tl : list TranslationEntry)
    (fr : list PhysicalPageEntry) (cur : Z) : Prop := {
  pg_pt_len : zlen (AS_pageTable a) = numPages a;
  pg_vs_len : zlen (vSpace a) = numPages a * PageSize;
  pg_size : numPages a * PageSize ≤ 2 ^ 31;
  pg_mm_len : zlen mm = MemorySize;
  pg_fr_len : zlen fr = NumPhysPages;
  pg_tl_len : zlen tl = TLBSize;
  pg_tlb : ∀ i e, znth tl i = Some e → valid e = true →
    readOnly e = false ∧
    ∃ p, znth (AS_pageTable a) (virtualPage e) = Some p ∧ valid p = true ∧
         physicalPage p = physicalPage e;
  pg_pt : ∀ v p, znth (AS_pageTable a) v = Some p → valid p = true →
    virtualPage p = v ∧ readOnly p = false ∧ hole ≠ Some (physicalPage p) ∧
    ∃ f, znth fr (physicalPage p) = Some f ∧ F_valid f = true ∧ VirtualPageNumber f = v;
  pg_frames : ∀ k f, znth fr k = Some f → F_valid f = true → hole ≠ Some k →
    OwnerThread f = Some cur ∧
    ∃ p, znth (AS_pageTable a) (VirtualPageNumber f) = Some p ∧ valid p = true ∧
         physicalPage p = k
}.

(** The fields of an entry that the invariant reads. *)
Definition core (e : TranslationEntry) := (virtualPage e, physicalPage e, valid e, readOnly e).
Definition frame_core (f : PhysicalPageEntry) := (VirtualPageNumber f, OwnerThread f, F_valid f).
Definition with_pt (a : AddrSpace) pt := mkAS pt (numPages a) (vSpace a).

Lemma core_inj e1 e2 : core e1 = core e2 →
  virtualPage e1 = virtualPage e2 ∧ physicalPage e1 = physicalPage e2 ∧
  valid e1 = valid e2 ∧ readOnly e1 = readOnly e2.
Proof. unfold core. by intros [= -> -> -> ->]. Qed.
Lemma frame_core_inj f1 f2 : frame_core f1 = frame_core f2 →
  VirtualPageNumber f1 = VirtualPageNumber f2 ∧ OwnerThread f1 = OwnerThread f2 ∧
  F_valid f1 = F_valid f2.
Proof. unfold frame_core. by intros [= -> -> ->]. Qed.

(** Looking up an array after an update that keeps a projection of the entry. *)
Lemma znth_zset_proj {A B} (g : A → B) l i x y j z :
  znth l i = Some x → g y = g x → znth (zset l i y) j = Some z →
  ∃ z', znth l j = Some z' ∧ g z = g z'.
Proof.
  intros Hi Hg. rewrite znth_zset. case_bool_decide as Hj.
  - destruct Hj as [-> _]. intros [= <-]. eauto.
  - eauto.
Qed.
Lemma znth_zset_proj_inv {A B} (g : A → B) l i x y j z :
  znth l i = Some x → g y = g x → znth l j = Some z →
  ∃ z', znth (zset l i y) j = Some z' ∧ g z' = g z.
Proof.
  intros Hi Hg Hj. rewrite znth_zset. case_bool_decide as Hc; [|by eauto].
  destruct Hc as [-> _]. exists y. split; [done|]. congruence.
Qed.

Section pure_steps.
Context (hole : option Z) (a : AddrSpace) (mm : list Z) (tl : list TranslationEntry).
Context (fr : list PhysicalPageEntry) (cur : Z).
Context (HP : paged hole a mm tl fr cur).

(** Updates that keep what the invariant reads. *)
Lemma paged_entry v p q :
  znth (AS_pageTable a) v = Some p → core q = core p →
  paged hole (with_pt a (zset (AS_pageTable a) v q)) mm tl fr cur.
Proof.
  intros Hv Hq. destruct HP. split; cbn; try done.
  - by rewrite zlen_zset.
  - intros i e Hi He. destruct (pg_tlb0 i e Hi He) as (Hr & p0 & Hp0 & Hvp0 & Hph).
    split; [done|]. destruct (znth_zset_proj_inv core _ _ _ q _ _ Hv Hq Hp0) as (z & Hz & Hc).
    apply core_inj in Hc as (? & ? & ? & ?). exists z. split_and!; [done|congruence..].
  - intros u z Hz Hval. destruct (znth_zset_proj core _ _ _ q _ _ Hv Hq Hz) as (z' & Hz' & Hc).
    apply core_inj in Hc as (-> & -> & Hcv & ->). apply pg_pt0; [done|congruence].
  - intros k f Hk Hf Hh. destruct (pg_frames0 k f Hk Hf Hh) as (Ho & p0 & Hp0 & Hvp0 & Hph).
    split; [done|]. destruct (znth_zset_proj_inv core _ _ _ q _ _ Hv Hq Hp0) as (z & Hz & Hc).
    apply core_inj in Hc as (? & ? & ? & ?). exists z. split_and!; [done|congruence..].
Qed.

Lemma user_byte_entry v p q i :
  znth (AS_pageTable a) v = Some p → core q = core p →
  user_byte (with_pt a (zset (AS_pageTable a) v q)) mm i = user_byte a mm i.
Proof.
  intros Hv Hq. unfold user_byte, with_pt. cbn [AS_pageTable vSpace].
  rewrite znth_zset. case_bool_decide as Hc; [|done]. destruct Hc as [-> _]. rewrite Hv. cbn.
  apply core_inj in Hq as (_ & -> & -> & _). done.
Qed.

Lemma paged_tlb i e' :
  (valid e' = true → ∃ p, znth (AS_pageTable a) (virtualPage e') = Some p ∧ valid p = true ∧
     physicalPage p = physicalPage e' ∧ readOnly e' = false) →
  paged hole a mm (zset tl i e') fr cur.
Proof.
  intros He'. destruct HP. split; try done.
  - by rewrite zlen_zset.
  - intros j e. rewrite znth_zset. case_bool_decide as Hc.
    + intros [= <-] (p & ? & ? & ? & ?)%He'. eauto 6.
    + apply pg_tlb0.
Qed.

Lemma paged_tlb_core i e e' :
  znth tl i = Some e → core e' = core e → paged hole a mm (zset tl i e') fr cur.
Proof.
  intros Hi Hc. apply paged_tlb. apply core_inj in Hc as (-> & -> & -> & ->).
  intros Hv. destruct (pg_tlb _ _ _ _ _ _ HP i e Hi Hv) as (? & p & ? & ? & ?). eauto 6.
Qed.

Lemma paged_frame k f f' :
  znth fr k = Some f → frame_core f' = frame_core f →
  paged hole a mm tl (zset fr k f') cur.
Proof.
  intros Hk Hf. destruct HP. split; try done.
  - by rewrite zlen_zset.
  - intros v p Hv Hval. destruct (pg_pt0 v p Hv Hval) as (? & ? & ? & f0 & Hf0 & ? & ?).
    split_and!; try done.
    destruct (znth_zset_proj_inv frame_core _ _ _ f' _ _ Hk Hf Hf0) as (z & Hz & Hc).
    apply frame_core_inj in Hc as (? & ? & ?). exists z. split_and!; [done|congruence..].
  - intros j z Hz Hval Hh.
    destruct (znth_zset_proj frame_core _ _ _ f' _ _ Hk Hf Hz) as (z' & Hz' & Hc).
    apply frame_core_inj in Hc as (Hc1 & -> & Hc2). rewrite Hc1. apply pg_frames0; [done| |done].
    congruence.
Qed.

(** Pages in distinct frames: the frame table is the inverse of the page table. *)
Lemma paged_inj v1 v2 p1 p2 :
  znth (AS_pageTable a) v1 = Some p1 → valid p1 = true →
  znth (AS_pageTable a) v2 = Some p2 → valid p2 = true →
  physicalPage p1 = physicalPage p2 → v1 = v2.
Proof.
  intros H1 V1 H2 V2 E.
  destruct (pg_pt _ _ _ _ _ _ HP v1 p1 H1 V1) as (_ & _ & _ & f1 & F1 & _ & <-).
  destruct (pg_pt _ _ _ _ _ _ HP v2 p2 H2 V2) as (_ & _ & _ & f2 & F2 & _ & <-).
  congruence.
Qed.

Lemma paged_frame_range v p :
  znth (AS_pageTable a) v = Some p → valid p = true → 0 ≤ physicalPage p < NumPhysPages.
Proof.
  intros Hv Hval. destruct (pg_pt _ _ _ _ _ _ HP v p Hv Hval) as (_ & _ & _ & f & Hf & _).
  apply znth_Some_range in Hf. by rewrite (pg_fr_len _ _ _ _ _ _ HP) in Hf.
Qed.
End pure_steps.

(** ** Addresses and pages *)
Lemma page_of i v : i / PageSize = v ↔ v * PageSize ≤ i < v * PageSize + PageSize.
Proof. unfold PageSize. split; intros; Z.to_euclidean_division_equations; lia. Qed.
Lemma offset_of i : i mod PageSize = i - i / PageSize * PageSize.
Proof. unfold PageSize. Z.to_euclidean_division_equations; lia. Qed.

(** Splicing a page into an array of pages. *)
Lemma znth_write_page (l b : list Z) v n i :
  zlen l = n * PageSize → zlen b = PageSize → 0 ≤ v < n →
  znth (write_at l (v * PageSize) b) i =
    if decide (i / PageSize = v) then znth b (i mod PageSize) else znth l i.
Proof.
  intros Hl Hb Hv. rewrite znth_write_at by (unfold PageSize in *; lia).
  rewrite Hb. pose proof (offset_of i). pose proof (page_of i v).
  case_bool_decide; destruct (decide (i / PageSize = v)); try tauto.
  f_equal. lia.
Qed.
Lemma znth_read_page (l : list Z) v n i :
  zlen l = n * PageSize → 0 ≤ v < n →
  znth (read_at l (v * PageSize) PageSize) (i mod PageSize) =
  znth l (v * PageSize + i mod PageSize).
Proof.
  intros Hl Hv. apply znth_read_at; unfold PageSize in *; [lia|apply Z.mod_pos_bound; lia|lia].
Qed.

Lemma zlen_mm (mm : list Z) : zlen mm = MemorySize ↔ zlen mm = NumPhysPages * PageSize.
Proof. done. Qed.

(** ** Eviction *)
Section eviction.
Context (a : AddrSpace) (mm : list Z) (tl : list TranslationEntry).
Context (fr : list PhysicalPageEntry) (cur k : Z) (f : PhysicalPageEntry).
Context (p q : TranslationEntry).
Context (HP : paged None a mm tl fr cur) (Hk : znth fr k = Some f) (Hf : F_valid f = true).
Abbreviation v := (VirtualPageNumber f).
Context (Hv : znth (AS_pageTable a) v = Some p) (Hp : valid p = true) (Hpk : physicalPage p = k).
Context (Hq : valid q = false).

Definition evicted : AddrSpace :=
  mkAS (zset (AS_pageTable a) v q) (numPages a)
    (write_at (vSpace a) (v * PageSize) (read_at mm (k * PageSize) PageSize)).

Lemma evict_range : 0 ≤ k < NumPhysPages ∧ 0 ≤ v < numPages a.
Proof.
  apply znth_Some_range in Hk, Hv. rewrite (pg_fr_len _ _ _ _ _ _ HP) in Hk.
  rewrite (pg_pt_len _ _ _ _ _ _ HP) in Hv. done.
Qed.
Lemma evict_page_len : zlen (read_at mm (k * PageSize) PageSize) = PageSize.
Proof.
  pose proof evict_range as [? _]. apply read_at_length. rewrite (pg_mm_len _ _ _ _ _ _ HP).
  unfold MemorySize, NumPhysPages, PageSize in *. lia.
Qed.

Lemma paged_evicted tl' f' :
  zlen tl' = zlen tl →
  (∀ i e, znth tl' i = Some e → valid e = true → znth tl i = Some e ∧
     ¬ (physicalPage e = k ∧ virtualPage e = v)) →
  paged (Some k) evicted mm tl' (zset fr k f') cur.
Proof.
  intros Hlen Htl. pose proof evict_range as [Hkr Hvr]. destruct HP. split; cbn; try done.
  - by rewrite zlen_zset.
  - rewrite write_at_length; [done|unfold PageSize; lia|].
    rewrite evict_page_len. unfold PageSize in *. lia.
  - by rewrite zlen_zset.
  - congruence.
  - intros i e Hi He. destruct (Htl i e Hi He) as [Hi' Hne].
    destruct (pg_tlb0 i e Hi' He) as (Hr & p0 & Hp0 & Hvp0 & Hph). split; [done|]. exists p0.
    rewrite znth_zset_ne; [done|]. intros E. apply Hne. rewrite <-E in *. split; [|done].
    rewrite <-Hph. congruence.
  - intros u z. rewrite znth_zset. case_bool_decide as Hc; [intros [= <-]; congruence|].
    intros Hz Hval. destruct (pg_pt0 u z Hz Hval) as (? & ? & ? & f0 & Hf0 & ? & ?).
    assert (physicalPage z ≠ k) as Hzk by (intros E; apply Hc; split; [congruence|lia]).
    split_and!; try done; [congruence|]. exists f0. by rewrite znth_zset_ne.
  - intros j z Hz Hval Hh. rewrite znth_zset_ne in Hz by congruence.
    destruct (pg_frames0 j z Hz Hval) as (Ho & p0 & Hp0 & Hvp0 & Hph); [done|].
    split; [done|]. exists p0. rewrite znth_zset_ne; [done|]. intros E. apply Hh. congruence.
Qed.

Lemma user_byte_evicted i : user_byte evicted mm i = user_byte a mm i.
Proof.
  pose proof evict_range as [Hkr Hvr]. pose proof (pg_mm_len _ _ _ _ _ _ HP) as Hmm.
  apply zlen_mm in Hmm. unfold user_byte, evicted. cbn [AS_pageTable vSpace].
  rewrite znth_zset, (pg_pt_len _ _ _ _ _ _ HP),
    (znth_write_page _ _ _ _ _ (pg_vs_len _ _ _ _ _ _ HP) evict_page_len Hvr).
  destruct (decide (i / PageSize = v)) as [E|E].
  - rewrite bool_decide_true by done. cbn. rewrite Hq, E, Hv. cbn. rewrite Hp, Hpk.
    by apply (znth_read_page _ _ NumPhysPages).
  - rewrite bool_decide_false by tauto. done.
Qed.
End eviction.

(** ** Bringing a page in *)
Section installation.
Context (a : AddrSpace) (mm : list Z) (tl : list TranslationEntry).
Context (fr : list PhysicalPageEntry) (cur k u : Z) (p q : TranslationEntry) (f : PhysicalPageEntry).
Context (HP : paged (Some k) a mm tl fr cur) (Hk : 0 ≤ k < NumPhysPages).
Context (Hu : znth (AS_pageTable a) u = Some p) (Hp : valid p = false).
Context (Hq : core q = (u, k, true, false)) (Hf : frame_core f = (u, Some cur, true)).

Definition brought_in : list Z := write_at mm (k * PageSize) (read_at (vSpace a) (u * PageSize) PageSize).

Lemma install_range : 0 ≤ u < numPages a.
Proof. apply znth_Some_range in Hu. by rewrite (pg_pt_len _ _ _ _ _ _ HP) in Hu. Qed.
Lemma install_page_len : zlen (read_at (vSpace a) (u * PageSize) PageSize) = PageSize.
Proof.
  pose proof install_range. apply read_at_length. rewrite (pg_vs_len _ _ _ _ _ _ HP).
  unfold PageSize in *. nia.
Qed.

Lemma paged_installed :
  paged None (with_pt a (zset (AS_pageTable a) u q)) brought_in tl (zset fr k f) cur.
Proof.
  pose proof install_range as Hur. unfold core in Hq. unfold frame_core in Hf.
  injection Hq as Q1 Q2 Q3 Q4. injection Hf as F1 F2 F3.
  destruct HP. assert (zlen (AS_pageTable a) = numPages a) as Hl by done.
  split; cbn; try done.
  - by rewrite zlen_zset.
  - unfold brought_in. rewrite write_at_length; [done|unfold PageSize; lia|].
    rewrite install_page_len. unfold MemorySize, PageSize in *. lia.
  - by rewrite zlen_zset.
  - intros i e Hi He. destruct (pg_tlb0 i e Hi He) as (? & p0 & Hp0 & ? & ?). split; [done|].
    exists p0. rewrite znth_zset_ne; [done|]. intros E. congruence.
  - intros w z. rewrite znth_zset. case_bool_decide as Hc.
    + intros [= <-] _. destruct Hc as [-> _]. split_and!; try done. exists f.
      rewrite Q2, znth_zset_eq by lia. done.
    + intros Hz Hval. destruct (pg_pt0 w z Hz Hval) as (? & ? & ? & f0 & ? & ? & ?).
      split_and!; try done. exists f0. rewrite znth_zset_ne by congruence. done.
  - intros j z. rewrite znth_zset. case_bool_decide as Hc.
    + intros [= <-] _ _. destruct Hc as [-> _]. split; [congruence|]. exists q.
      rewrite F1, znth_zset_eq by lia. done.
    + intros Hz Hval _. assert (j ≠ k).
      { intros ->. apply Hc. split; [done|]. by rewrite pg_fr_len0. }
      destruct (pg_frames0 j z Hz Hval) as (? & p0 & ? & ? & ?); [congruence|].
      split; [done|]. exists p0. rewrite znth_zset_ne; [done|]. congruence.
Qed.

Lemma user_byte_installed i :
  user_byte (with_pt a (zset (AS_pageTable a) u q)) brought_in i = user_byte a mm i.
Proof.
  pose proof install_range as Hur. pose proof (pg_mm_len _ _ _ _ _ _ HP) as Hmm.
  apply zlen_mm in Hmm. unfold core in Hq. injection Hq as Q1 Q2 Q3 Q4.
  pose proof (Z.mod_pos_bound i PageSize ltac:(done)).
  unfold user_byte, brought_in, with_pt. cbn [AS_pageTable vSpace].
  rewrite znth_zset, (pg_pt_len _ _ _ _ _ _ HP).
  destruct (decide (i / PageSize = u)) as [E|E].
  - rewrite bool_decide_true by done. cbn. rewrite Q3, E, Hu. cbn. rewrite Hp, Q2.
    rewrite (znth_write_page _ _ _ _ _ Hmm install_page_len Hk).
    assert ((k * PageSize + i mod PageSize) / PageSize = k) as -> by (apply page_of; lia).
    destruct (decide (k = k)); [|done].
    assert ((k * PageSize + i mod PageSize) mod PageSize = i mod PageSize) as ->.
    { rewrite Z.add_comm, Z.mod_add by done. by apply Z.mod_mod. }
    rewrite (znth_read_page _ _ _ _ (pg_vs_len _ _ _ _ _ _ HP) Hur).
    f_equal. rewrite offset_of. lia.
  - rewrite bool_decide_false by tauto.
    destruct (znth (AS_pageTable a) (i / PageSize)) as [z|] eqn:Hz; [|done]. cbn.
    destruct (valid z) eqn:Hval; [|done].
    destruct (pg_pt _ _ _ _ _ _ HP _ _ Hz Hval) as (_ & _ & Hne & _).
    rewrite (znth_write_page _ _ _ _ _ Hmm install_page_len Hk).
    destruct (decide ((physicalPage z * PageSize + i mod PageSize) / PageSize = k)) as [E'|]; [|done].
    exfalso. apply Hne. apply page_of in E'. f_equal. unfold PageSize in *. lia.
Qed.
End installation.

(** ** Running the operations *)

(** The machine runs a thread in the address space [a], named [sp]. *)
Record running (hole : option Z) (s : Machine) (sp : Z) (a : AddrSpace) : Prop := {
  rn_table : pageTable s = Some sp;
  rn_thread : znth (space_of s) (currentThread s) = Some (Some sp);
  rn_space : znth (spaces s) sp = Some a;
  rn_paged : paged hole a (mainMemory s) (tlb s) (PhysicalPageTable s) (currentThread s)
}.

(** What no routine of the pager changes. *)
Definition same_cpu (s s' : Machine) : Prop :=
  registers s' = registers s ∧ totalTicks s' = totalTicks s ∧ status s' = status s ∧
  currentThread s' = currentThread s ∧ pageTableSize s' = pageTableSize s.
Definition same_bytes (a : AddrSpace) (mm : list Z) (a' : AddrSpace) (mm' : list Z) : Prop :=
  numPages a' = numPages a ∧ ∀ i, user_byte a' mm' i = user_byte a mm i.

#[export] Instance same_cpu_preorder : PreOrder same_cpu.
Proof.
  split; [by intros s|]. intros s1 s2 s3 (?&?&?&?&?) (?&?&?&?&?). unfold same_cpu. split_and!; congruence.
Qed.
Lemma same_bytes_trans a1 m1 a2 m2 a3 m3 :
  same_bytes a1 m1 a2 m2 → same_bytes a2 m2 a3 m3 → same_bytes a1 m1 a3 m3.
Proof.
  intros [E1 H1] [E2 H2]. split; [congruence|]. intros i. by rewrite H2, H1.
Qed.

Lemma tlb_upd_step i g s e :
  znth (tlb s) i = Some e → tlb_upd i g s = Ok ((), set_tlb s (zset (tlb s) i (g e))).
Proof. intros Hi%aget_Ok. unfold tlb_upd. erewrite ST_step by reflexivity. by step Hi. Qed.
Lemma frame_upd_step k g s f :
  znth (PhysicalPageTable s) k = Some f →
  frame_upd k g s = Ok ((), set_frames s (zset (PhysicalPageTable s) k (g f))).
Proof. intros Hk%aget_Ok. unfold frame_upd. erewrite ST_step by reflexivity. by step Hk. Qed.
Lemma space_get_step sp s a :
  znth (spaces s) sp = Some a → space_get sp s = Ok (a, s).
Proof.
  intros Hs%aget_Ok. unfold space_get. erewrite ST_step by reflexivity. unfold lift. by rewrite Hs.
Qed.
Lemma space_put_step sp s a a' :
  znth (spaces s) sp = Some a → space_put sp a' s = Ok ((), set_spaces s (zset (spaces s) sp a')).
Proof.
  intros Hs%znth_Some_range. unfold space_put. erewrite ST_step by reflexivity.
  by step (aset_in _ _ a' Hs).
Qed.
Lemma entry_upd_step sp v g s a e :
  znth (spaces s) sp = Some a → znth (AS_pageTable a) v = Some e →
  entry_upd sp v g s =
    Ok ((), set_spaces s (zset (spaces s) sp (with_pt a (zset (AS_pageTable a) v (g e))))).
Proof.
  intros Hs Hv. unfold entry_upd. step (space_get_step _ _ _ Hs).
  apply aget_Ok in Hv. step Hv. by apply (space_put_step _ _ a).
Qed.
Lemma cur_table_step s sp : pageTable s = Some sp → cur_table s = Ok (sp, s).
Proof. intros Ht. unfold cur_table. erewrite ST_step by reflexivity. by rewrite Ht. Qed.
Lemma pt_upd_step v g s sp a e :
  pageTable s = Some sp → znth (spaces s) sp = Some a → znth (AS_pageTable a) v = Some e →
  pt_upd v g s =
    Ok ((), set_spaces s (zset (spaces s) sp (with_pt a (zset (AS_pageTable a) v (g e))))).
Proof.
  intros Ht Hs Hv. unfold pt_upd. step (cur_table_step _ _ Ht). by apply entry_upd_step.
Qed.
Lemma pt_get_step v s sp a e :
  pageTable s = Some sp → znth (spaces s) sp = Some a → znth (AS_pageTable a) v = Some e →
  pt_get v s = Ok (e, s).
Proof.
  intros Ht Hs Hv. unfold pt_get. step (cur_table_step _ _ Ht).
  unfold entry_get. step (space_get_step _ _ _ Hs). apply aget_Ok in Hv. unfold lift. by rewrite Hv.
Qed.
Lemma thread_space_step t s sp :
  znth (space_of s) t = Some (Some sp) → thread_space t s = Ok (sp, s).
Proof. intros Ht%aget_Ok. unfold thread_space. erewrite ST_step by reflexivity. by step Ht. Qed.

Lemma bytes_at_in l off n :
  0 ≤ off → off + n ≤ zlen l → bytes_at l off n = Ok (read_at l off n).
Proof.
  intros. unfold bytes_at.
  by rewrite (proj2 (Z.leb_le 0 off)), (proj2 (Z.leb_le (off + n) (zlen l))).
Qed.
Lemma bytes_to_in l off b :
  0 ≤ off → off + zlen b ≤ zlen l → bytes_to l off b = Ok (write_at l off b).
Proof.
  intros. unfold bytes_to.
  by rewrite (proj2 (Z.leb_le 0 off)), (proj2 (Z.leb_le (off + zlen b) (zlen l))).
Qed.
Lemma page_out_step sp v k s a :
  znth (spaces s) sp = Some a → zlen (mainMemory s) = MemorySize → 0 ≤ k < NumPhysPages →
  zlen (vSpace a) = numPages a * PageSize → 0 ≤ v < numPages a →
  page_out sp v k s = Ok ((), set_spaces s (zset (spaces s) sp
    (mkAS (AS_pageTable a) (numPages a)
       (write_at (vSpace a) (v * PageSize) (read_at (mainMemory s) (k * PageSize) PageSize))))).
Proof.
  intros Hs Hm Hk Hl Hv. unfold MemorySize, NumPhysPages, PageSize in *.
  unfold page_out. erewrite ST_step by reflexivity. step (space_get_step _ _ _ Hs).
  erewrite lift_step by (apply bytes_at_in; unfold PageSize; lia).
  erewrite lift_step by (apply bytes_to_in; [unfold PageSize; lia|];
    rewrite read_at_length; unfold PageSize; lia).
  by apply (space_put_step _ _ a).
Qed.
Lemma page_in_step sp v k s a :
  znth (spaces s) sp = Some a → zlen (mainMemory s) = MemorySize → 0 ≤ k < NumPhysPages →
  zlen (vSpace a) = numPages a * PageSize → 0 ≤ v < numPages a →
  page_in sp v k s = Ok ((), set_mainMemory s
    (write_at (mainMemory s) (k * PageSize) (read_at (vSpace a) (v * PageSize) PageSize))).
Proof.
  intros Hs Hm Hk Hl Hv. unfold MemorySize, NumPhysPages, PageSize in *.
  unfold page_in. erewrite ST_step by reflexivity. step (space_get_step _ _ _ Hs).
  erewrite lift_step by (apply bytes_at_in; unfold PageSize; lia).
  erewrite lift_step by (apply bytes_to_in; [unfold PageSize; lia|];
    rewrite read_at_length; unfold PageSize; lia). done.
Qed.

(** The loops over the four entries of the TLB. *)
Lemma for_tlb_step g s :
  zlen (tlb s) = TLBSize →
  for_in (seqZ 0 TLBSize) (λ i, tlb_upd i g) s = Ok ((), set_tlb s (g <$> tlb s)).
Proof.
  destruct s as [r mm tl pt n h1 h2 fr c so sps t u]. unfold zlen, TLBSize. cbn [tlb].
  destruct tl as [|e0 [|e1 [|e2 [|e3 [|]]]]]; cbn [length]; try lia. intros _. reflexivity.
Qed.

(** ** The victim *)
Section victims.
Context {A : Type} (ok : A → bool) (key : A → Z).

Lemma scan_range l i best kb :
  0 ≤ best < i → best ≤ scan ok key l i best kb < i + zlen l ∨ scan ok key l i best kb = best.
Proof.
  revert i best kb. unfold zlen. induction l as [|e l IH]; intros i best kb Hb; cbn [scan length].
  - by right.
  - destruct (ok e); cbn [negb]; [|left; lia]. destruct (Z.ltb_spec (key e) kb).
    + left. destruct (IH (i + 1) i (key e)); lia.
    + destruct (IH (i + 1) best kb); [lia| |]; [left; lia|by right].
Qed.

Lemma victim_range l : 0 < zlen l → 0 ≤ victim ok key l < zlen l.
Proof.
  destruct l as [|e l]; [done|]. intros _. cbn [victim scan]. rewrite Z.ltb_irrefl.
  change (0 + 1) with 1. pose proof (scan_range l 1 0 (key e) ltac:(lia)) as Hr.
  unfold zlen in *. cbn [length]. destruct (ok e); cbn [negb]; lia.
Qed.
End victims.

(** ** Eviction and allocation, as the code runs them *)
Lemma evict_ok s sp a k f :
  running None s sp a → znth (PhysicalPageTable s) k = Some f → F_valid f = true →
  ∃ s' a', evict k f s = Ok ((), s') ∧ running (Some k) s' sp a' ∧ same_cpu s s' ∧
    same_bytes a (mainMemory s) a' (mainMemory s') ∧
    (∀ u p, znth (AS_pageTable a) u = Some p → valid p = false →
       ∃ p', znth (AS_pageTable a') u = Some p' ∧ valid p' = false).
Proof.
  intros [Ht Hth Hs HP] Hk Hf.
  destruct (pg_frames _ _ _ _ _ _ HP k f Hk Hf) as (Ho & p & Hv & Hp & Hpk); [done|].
  destruct (evict_range a _ _ _ _ k f p HP Hk Hv) as [Hkr Hvr].
  unfold evict. rewrite Ho.
  pose proof (znth_Some_range _ _ _ Hs) as Hspr. pose proof (znth_Some_range _ _ _ Hv) as Hvl.
  erewrite ST_step.
  2:{ step (thread_space_step _ _ _ Hth).
      step (entry_upd_step _ _ (λ e, set_valid e false) _ _ _ Hs Hv).
      erewrite ST_step.
      2:{ apply page_out_step; cbn; [by apply znth_zset_eq|by destruct HP|done|by destruct HP|done]. }
      cbv beta iota. cbn.
      erewrite ST_step.
      2:{ eapply (pt_upd_step _ _ _ sp); cbn; [done|by apply znth_zset_eq; rewrite zlen_zset|].
          by apply znth_zset_eq. }
      cbv beta iota. cbn.
      erewrite ST_step.
      2:{ eapply entry_upd_step; cbn; [by apply znth_zset_eq; rewrite !zlen_zset|].
          cbn. by apply znth_zset_eq; rewrite zlen_zset. }
      cbv beta iota. cbn. eapply frame_upd_step. cbn. exact Hk. }
  cbv beta iota. cbn.
  erewrite ST_step.
  2:{ eapply (pt_upd_step _ _ _ sp); cbn; [done|by apply znth_zset_eq; rewrite !zlen_zset|].
      cbn. by apply znth_zset_eq; rewrite !zlen_zset. }
  cbv beta iota. cbn. rewrite !zset_twice. unfold with_pt. cbn.
  unfold tlb_flush. rewrite for_tlb_step by (cbn; by destruct HP). cbn.
  eexists _, (evicted a (mainMemory s) k f _).
  split; [reflexivity|]. split_and!.
  - split; cbn; try done; [by apply znth_zset_eq|].
    apply (paged_evicted _ _ _ _ _ _ _ p _ HP Hk Hv Hpk); [done|by rewrite zlen_fmap|].
    intros i e. rewrite znth_fmap. destruct (znth (tlb s) i) as [e0|]; [|done]. cbn.
    intros [= <-]. destruct (valid e0) eqn:Ev; cbn; [|congruence].
    destruct (Z.eqb_spec (physicalPage e0) k), (Z.eqb_spec (virtualPage e0) (VirtualPageNumber f));
      cbn; try done; intros _; (split; [done|tauto]).
  - done.
  - split; [done|]. intros i. cbn [mainMemory set_tlb set_spaces set_frames].
    by apply (user_byte_evicted _ _ _ _ _ _ _ p _ HP Hk Hv).
  - intros u p' Hu Hpu. cbn. rewrite znth_zset. case_bool_decide; [by eexists|by eexists].
Qed.

Lemma AllocatePhysicalPage_ok s sp a u p :
  running None s sp a → znth (AS_pageTable a) u = Some p → valid p = false →
  ∃ s' a' k q, AllocatePhysicalPage u s = Ok (k, s') ∧ running None s' sp a' ∧ same_cpu s s' ∧
    same_bytes a (mainMemory s) a' (mainMemory s') ∧
    znth (AS_pageTable a') u = Some q ∧ core q = (u, k, true, false).
Proof.
  intros HR Hu Hp. pose proof HR as [Ht Hth Hs HP]. unfold AllocatePhysicalPage.
  erewrite ST_step by reflexivity. cbv beta iota zeta.
  set (k := victim F_valid F_LastHitTime (PhysicalPageTable s)).
  assert (0 ≤ k < NumPhysPages) as Hk.
  { rewrite <-(pg_fr_len _ _ _ _ _ _ HP). apply victim_range. by rewrite (pg_fr_len _ _ _ _ _ _ HP). }
  destruct (znth_range (PhysicalPageTable s) k) as [f Hf];
    [by rewrite (pg_fr_len _ _ _ _ _ _ HP)|].
  unfold frame_get. erewrite ST_step.
  2:{ erewrite ST_step by reflexivity. unfold lift. by rewrite (proj2 (aget_Ok _ _ _) Hf). }
  cbv beta iota.
  assert (∃ s1 a1, (if F_valid f then evict k f else mret ()) s = Ok ((), s1) ∧
            running (Some k) s1 sp a1 ∧ same_cpu s s1 ∧
            same_bytes a (mainMemory s) a1 (mainMemory s1) ∧
            ∃ p', znth (AS_pageTable a1) u = Some p' ∧ valid p' = false)
    as (s1 & a1 & Hev & HR1 & HC1 & HB1 & p1 & Hu1 & Hp1).
  { destruct (F_valid f) eqn:Hval.
    - destruct (evict_ok _ _ _ _ _ HR Hf Hval) as (s1 & a1 & ? & ? & ? & ? & Hinv).
      exists s1, a1. split_and!; eauto.
    - exists s, a. split_and!; try done; [|eauto]. split; try done.
      destruct HP. split; try done.
      + intros v z Hz Hvz. destruct (pg_pt0 v z Hz Hvz) as (? & ? & ? & f0 & Hf0 & ? & ?).
        split_and!; eauto. intros [= E]. congruence.
      + intros j z Hz Hvz _. by apply pg_frames0. }
  destruct HR1 as [Ht1 Hth1 Hs1 HP1]. pose proof HC1 as (Hreg & Htick & Hstat & Hcur & _).
  pose proof (install_range _ _ _ _ _ _ _ _ HP1 Hu1) as Hur.
  step Hev. clear Hev. rewrite <-Hcur. step (thread_space_step _ _ _ Hth1).
  erewrite ST_step by (apply page_in_step; [done|by destruct HP1|done|by destruct HP1|done]).
  cbv beta iota.
  destruct (znth_range (PhysicalPageTable s1) k) as [f1 Hf1];
    [by rewrite (pg_fr_len _ _ _ _ _ _ HP1)|].
  erewrite ST_step by (apply frame_upd_step; cbn; exact Hf1). cbv beta iota.
  erewrite ST_step by (eapply pt_upd_step; cbn; [exact Ht1|exact Hs1|exact Hu1]).
  cbv beta iota.
  eexists _, _, k, _. split; [reflexivity|]. split_and!.
  - split; cbn; [done|done|by apply znth_zset_eq, (znth_Some_range _ _ _ Hs1)|].
    by apply (paged_installed _ _ _ _ _ k u p1 _ _ HP1).
  - by etrans.
  - eapply same_bytes_trans; [done|]. split; [done|]. intros i. cbn.
    by apply (user_byte_installed _ _ _ _ _ k u p1 _ HP1).
  - cbn. apply znth_zset_eq, (znth_Some_range _ _ _ Hu1).
  - done.
Qed.

(** ** The TLB *)
Definition tlb_hits (s : Machine) (v : Z) : Prop := ∃ i, tlb_find (tlb s) 0 v = Some i.

Lemma tlb_find_Some l j v i :
  tlb_find l j v = Some i →
  j ≤ i ∧ ∃ e, znth l (i - j) = Some e ∧ valid e = true ∧ u32 (virtualPage e) = v.
Proof.
  revert j. induction l as [|e l IH]; intros j; [done|]. cbn [tlb_find].
  destruct (valid e) eqn:Hv, (Z.eqb_spec (u32 (virtualPage e)) v); cbn [andb].
  1:{ intros [= <-]. split; [lia|]. exists e. by rewrite Z.sub_diag. }
  all: intros (Hi & e' & He & ?)%IH; split; [lia|]; exists e'; split; [|done];
    rewrite <-He; unfold znth; destruct (Z.ltb_spec (i - j) 0), (Z.ltb_spec (i - (j + 1)) 0); try lia;
    replace (Z.to_nat (i - j)) with (S (Z.to_nat (i - (j + 1)))) by lia; done.
Qed.
Lemma tlb_find_exists l j i e v :
  znth l i = Some e → valid e = true → u32 (virtualPage e) = v → ∃ i', tlb_find l j v = Some i'.
Proof.
  revert i j. induction l as [|e' l IH]; intros i j Hi Hv He.
  { apply znth_Some_range in Hi. unfold zlen in Hi. cbn in Hi. lia. }
  cbn [tlb_find]. destruct (valid e' && _) eqn:E; [by eexists|].
  unfold znth in Hi. destruct (Z.ltb_spec i 0); [done|].
  destruct (Z.to_nat i) as [|n] eqn:Hn.
  - cbn in Hi. injection Hi as ->. rewrite Hv, He, Z.eqb_refl in E. done.
  - apply (IH (Z.of_nat n) (j + 1)); try done. unfold znth.
    destruct (Z.ltb_spec (Z.of_nat n) 0); [lia|]. by rewrite Nat2Z.id.
Qed.
Lemma tlb_hits_core s s' v i e e' :
  tlb_hits s v → znth (tlb s) i = Some e → core e' = core e →
  tlb s' = zset (tlb s) i e' → tlb_hits s' v.
Proof.
  intros [j (Hj & x & Hx & Hvx & Hux)%tlb_find_Some] Hi Hc E. unfold tlb_hits. rewrite E.
  rewrite Z.sub_0_r in Hx.
  destruct (znth_zset_proj_inv core _ _ _ e' _ _ Hi Hc Hx) as (z & Hz & Hcz).
  apply core_inj in Hcz as (? & ? & ? & ?). apply (tlb_find_exists _ _ j z); congruence.
Qed.

Lemma vpn_u32 hole a mm tl fr cur v :
  paged hole a mm tl fr cur → 0 ≤ v < numPages a → u32 v = v.
Proof. intros HP ?. apply u32_small. destruct HP. unfold is_u32, PageSize in *. lia. Qed.

(** The victim of a refill goes back to the page table. *)
Lemma victim_written_back s sp a i e :
  running None s sp a → znth (tlb s) i = Some e →
  ∃ s1 a1, (if valid e then pt_upd (virtualPage e) (λ _, e) else mret ()) s = Ok ((), s1) ∧
    running None s1 sp a1 ∧ same_cpu s s1 ∧ tlb s1 = tlb s ∧
    same_bytes a (mainMemory s) a1 (mainMemory s1).
Proof.
  intros HR He. pose proof HR as [Ht Hth Hs HP]. destruct (valid e) eqn:Hval; [|by exists s, a].
  destruct (pg_tlb _ _ _ _ _ _ HP i e He Hval) as (Hro & p & Hp & Hvp & Hph).
  destruct (pg_pt _ _ _ _ _ _ HP _ _ Hp Hvp) as (Hpv & Hpr & _).
  assert (core e = core p) as Hc by (unfold core; congruence).
  eexists _, (with_pt a (zset (AS_pageTable a) (virtualPage e) e)).
  split; [by apply (pt_upd_step _ _ _ sp a p)|]. split_and!; try done.
  - split; cbn; [done|done|by apply znth_zset_eq, (znth_Some_range _ _ _ Hs)|].
    by apply (paged_entry _ _ _ _ _ _ HP _ p).
  - split; [done|]. intros j. by apply (user_byte_entry _ _ _ p).
Qed.

(** The page is resident, or is brought in; then it is loaded into entry [i]. *)
Lemma page_loaded s sp a i v p :
  running None s sp a → 0 ≤ i < TLBSize → znth (AS_pageTable a) v = Some p →
  ∃ s' a' q, (if valid p then tlb_upd i (λ _, p) else
                AllocatePhysicalPage v;; p ← pt_get v; tlb_upd i (λ _, p)) s =
              Ok ((), set_tlb s' (zset (tlb s') i q)) ∧
    running None s' sp a' ∧ same_cpu s s' ∧ same_bytes a (mainMemory s) a' (mainMemory s') ∧
    znth (AS_pageTable a') v = Some q ∧ valid q = true.
Proof.
  intros HR Hi Hp. destruct (valid p) eqn:Hval.
  - pose proof (pg_tl_len _ _ _ _ _ _ (rn_paged _ _ _ _ HR)) as Hl.
    destruct (znth_range (tlb s) i) as [e He]; [lia|].
    exists s, a, p. split_and!; try done. by apply (tlb_upd_step _ _ _ e).
  - destruct (AllocatePhysicalPage_ok s sp a v p HR Hp Hval)
      as (s2 & a2 & k & q & HA & HR2 & ? & ? & Hq & Hc). pose proof HR2 as [Ht2 ? Hs2 HP2].
    pose proof (pg_tl_len _ _ _ _ _ _ HP2) as Hl.
    destruct (znth_range (tlb s2) i) as [e2 He2]; [lia|].
    exists s2, a2, q. split_and!; try done.
    + step HA. step (pt_get_step _ _ _ _ _ Ht2 Hs2 Hq). by apply (tlb_upd_step _ _ _ e2).
    + by injection Hc.
Qed.

(** The refill, whatever the replacement policy. *)
Lemma refill_TLB_ok key s sp a va :
  running None s sp a → 0 ≤ u32 va / PageSize < numPages a →
  ∃ s' a', refill_TLB key va s = Ok ((), s') ∧ running None s' sp a' ∧ same_cpu s s' ∧
    same_bytes a (mainMemory s) a' (mainMemory s') ∧ tlb_hits s' (u32 va / PageSize).
Proof.
  set (v := u32 va / PageSize). intros HR Hv. pose proof (rn_paged _ _ _ _ HR) as HP.
  unfold refill_TLB. cbv zeta. fold v. erewrite ST_step by reflexivity. cbv beta.
  set (i := victim valid key (tlb s)).
  assert (0 ≤ i < TLBSize) as Hi.
  { rewrite <-(pg_tl_len _ _ _ _ _ _ HP). apply victim_range. by rewrite (pg_tl_len _ _ _ _ _ _ HP). }
  destruct (znth_range (tlb s) i) as [e He]; [by rewrite (pg_tl_len _ _ _ _ _ _ HP)|].
  unfold tlb_get. erewrite ST_step.
  2:{ erewrite ST_step by reflexivity. unfold lift. by rewrite (proj2 (aget_Ok _ _ _) He). }
  cbv beta iota.
  destruct (victim_written_back s sp a i e HR He) as (s1 & a1 & Hw & HR1 & HC1 & _ & HB1).
  step Hw. pose proof HR1 as [Ht1 Hth1 Hs1 HP1]. pose proof HB1 as [Hn1 _].
  destruct (znth_range (AS_pageTable a1) v) as [p Hp];
    [by rewrite (pg_pt_len _ _ _ _ _ _ HP1), Hn1|].
  step (pt_get_step _ _ _ _ _ Ht1 Hs1 Hp).
  destruct (page_loaded s1 sp a1 i v p HR1 Hi Hp) as (s2 & a2 & q & Hb & HR2 & HC2 & HB2 & Hq & Hvq).
  step Hb. destruct HR2 as [Ht2 Hth2 Hs2 HP2]. pose proof (pg_tl_len _ _ _ _ _ _ HP2) as Hl2.
  erewrite tlb_upd_step by (cbn; apply znth_zset_eq; lia). cbn. rewrite zset_twice.
  destruct (pg_pt _ _ _ _ _ _ HP2 _ _ Hq Hvq) as (Hqv & Hqr & _).
  eexists _, a2. split; [reflexivity|]. split_and!.
  - split; cbn; try done. apply (paged_tlb _ _ _ _ _ _ HP2). intros _. exists q.
    cbn. by rewrite Hqv.
  - etrans; [done|]. by etrans.
  - by eapply same_bytes_trans.
  - eapply (tlb_find_exists _ _ i); [cbn; apply znth_zset_eq; lia|done|]. cbn. rewrite Hqv.
    by apply (vpn_u32 _ _ _ _ _ _ _ HP).
Qed.
