(* ===== verification/UserMemory.v ===== *)
(** * Loads and stores of a user program (machine/translate.cc)

    [ReadMem] and [WriteMem] with their page faults: the trap to the kernel, the
    refill of the TLB and the second translation.  They are proved to read and
    write the flat array [user_memory], in full, for a program that runs alone;
    with a second address space [AllocatePhysicalPage] is shown to lose a page. *)

From S2P Require Import Prelude Machine Paging.

(** ** The register file *)

(** 40 [int]s, register 0 is zero, and a pending load names a register. *)
Record regs_ok (r : list Z) : Prop := {
  ro_len : zlen r = NumTotalRegs;
  ro_s32 : Forall is_s32 r;
  ro_zero : znth r 0 = Some 0;
  ro_load : ∃ n, znth r LoadReg = Some n ∧ 0 ≤ n < 32
}.

(** The effect of [DelayedLoad] on the registers. *)
Definition delayed_load (r : list Z) (nextReg nextValue : Z) : list Z :=
  zset (zset (zset (zset r (default 0 (znth r LoadReg)) (default 0 (znth r LoadValueReg)))
    LoadReg nextReg) LoadValueReg nextValue) 0 0.

Lemma reg_step i s v : znth (registers s) i = Some v → reg i s = Ok (v, s).
Proof.
  intros Hi%aget_Ok. unfold reg. erewrite ST_step by reflexivity. unfold lift. by rewrite Hi.
Qed.
Lemma set_reg_step i v s :
  0 ≤ i < zlen (registers s) → set_reg i v s = Ok ((), set_registers s (zset (registers s) i v)).
Proof. intros Hi. unfold set_reg. erewrite ST_step by reflexivity. by step (aset_in _ _ v Hi). Qed.

Lemma DelayedLoad_step n v s :
  zlen (registers s) = NumTotalRegs →
  (∃ k, znth (registers s) LoadReg = Some k ∧ 0 ≤ k < 32) →
  DelayedLoad n v s = Ok ((), set_registers s (delayed_load (registers s) n v)).
Proof.
  intros Hl (k & Hk & Hkr). unfold NumTotalRegs in *.
  destruct (znth_range (registers s) LoadValueReg) as [w Hw]; [unfold LoadValueReg; lia|].
  unfold DelayedLoad. step (reg_step _ _ _ Hk). step (reg_step _ _ _ Hw).
  erewrite ST_step by (apply set_reg_step; lia). cbv beta iota.
  erewrite ST_step by (apply set_reg_step; cbn [registers set_registers]; rewrite zlen_zset; unfold LoadReg; lia).
  cbv beta iota.
  erewrite ST_step by (apply set_reg_step; cbn [registers set_registers]; rewrite !zlen_zset; unfold LoadValueReg; lia).
  cbv beta iota. rewrite set_reg_step by (cbn [registers set_registers]; rewrite !zlen_zset; lia).
  unfold delayed_load. by rewrite Hk, Hw.
Qed.

Lemma zset_comm {A} (l : list A) i j (x y : A) :
  0 ≤ i → 0 ≤ j → i ≠ j → zset (zset l i x) j y = zset (zset l j y) i x.
Proof.
  intros. unfold zset. destruct (Z.ltb_spec i 0), (Z.ltb_spec j 0); try lia.
  apply list_insert_insert_ne. lia.
Qed.

Lemma delayed_load_lookup r n v i :
  zlen r = NumTotalRegs → 0 ≤ i < 32 →
  znth (delayed_load r n v) i =
    if decide (i = 0) then Some 0
    else if decide (i = default 0 (znth r LoadReg)) then Some (default 0 (znth r LoadValueReg))
    else znth r i.
Proof.
  intros Hl Hi. unfold delayed_load, NumTotalRegs, LoadValueReg, LoadReg in *.
  destruct (decide (i = 0)) as [->|Hne].
  { apply znth_zset_eq. rewrite !zlen_zset. lia. }
  rewrite 3!znth_zset_ne by lia. rewrite znth_zset.
  destruct (decide _); case_bool_decide; try lia; done.
Qed.

Lemma delayed_load_ok r n v :
  zlen r = NumTotalRegs → Forall is_s32 r → is_s32 v → 0 ≤ n < 32 →
  regs_ok (delayed_load r n v).
Proof.
  intros Hl Hs Hv Hn.
  assert (is_s32 0 ∧ is_s32 n) as [H0 Hn'] by (unfold is_s32; lia).
  assert (is_s32 (default 0 (znth r LoadValueReg))) as Hw.
  { destruct (znth r LoadValueReg) as [w|] eqn:E; [|done]. by apply (Forall_znth _ _ _ _ Hs E). }
  unfold NumTotalRegs in *. split.
  - unfold delayed_load. by rewrite !zlen_zset.
  - unfold delayed_load. repeat (apply Forall_zset; [|done]). done.
  - by rewrite delayed_load_lookup.
  - exists n. split; [|done]. unfold delayed_load, LoadReg, LoadValueReg.
    rewrite !(znth_zset_ne _ 0), !(znth_zset_ne _ 38) by lia.
    apply znth_zset_eq. rewrite zlen_zset. lia.
Qed.

(** ** A translation that hits *)

(** Steps that touch only bookkeeping fields of the tables. *)
Record touched (sp : Z) (s : Machine) (a : AddrSpace) (s' : Machine) (a' : AddrSpace) : Prop := {
  tc_running : running None s' sp a';
  tc_cpu : same_cpu s s';
  tc_bytes : same_bytes a (mainMemory s) a' (mainMemory s');
  tc_mm : mainMemory s' = mainMemory s;
  tc_tlb : ∀ i e, znth (tlb s) i = Some e → ∃ e', znth (tlb s') i = Some e' ∧ core e' = core e;
  tc_pt : ∀ v p, znth (AS_pageTable a) v = Some p →
    ∃ p', znth (AS_pageTable a') v = Some p' ∧ core p' = core p;
  tc_so : space_of s' = space_of s
}.

Lemma touched_step sp s1 a1 s2 a2 s3 a3 :
  touched sp s1 a1 s2 a2 → touched sp s2 a2 s3 a3 → touched sp s1 a1 s3 a3.
Proof.
  intros [] []. split; try congruence.
  - by etrans.
  - by eapply same_bytes_trans.
  - intros i e (e' & He' & Hc)%tc_tlb0. destruct (tc_tlb1 _ _ He') as (e'' & ? & ?).
    exists e''. split; [done|congruence].
  - intros v p (p' & Hp' & Hc)%tc_pt0. destruct (tc_pt1 _ _ Hp') as (p'' & ? & ?).
    exists p''. split; [done|congruence].
Qed.

Section touching.
Context (sp : Z) (s : Machine) (a : AddrSpace) (HR : running None s sp a).

Lemma touch_tlb i e g :
  znth (tlb s) i = Some e → (∀ x, core (g x) = core x) →
  ∃ s', tlb_upd i g s = Ok ((), s') ∧ touched sp s a s' a.
Proof.
  intros Hi Hg. eexists. split; [by apply tlb_upd_step|]. pose proof HR as [Ht Hth Hs HP]. split; try done.
  - split; try done. by apply (paged_tlb_core _ _ _ _ _ _ HP _ e).
  - intros j x Hx. cbn. by apply (znth_zset_proj_inv core _ _ _ _ _ _ Hi).
  - eauto.
Qed.
Lemma touch_frame k f g :
  znth (PhysicalPageTable s) k = Some f → (∀ x, frame_core (g x) = frame_core x) →
  ∃ s', frame_upd k g s = Ok ((), s') ∧ touched sp s a s' a.
Proof.
  intros Hi Hg. eexists. split; [by apply frame_upd_step|]. pose proof HR as [Ht Hth Hs HP].
  split; try done; [|by eauto..]. split; try done. by apply (paged_frame _ _ _ _ _ _ HP _ f).
Qed.
Lemma touch_pt v p g :
  znth (AS_pageTable a) v = Some p → (∀ x, core (g x) = core x) →
  ∃ s' a', pt_upd v g s = Ok ((), s') ∧ touched sp s a s' a'.
Proof.
  intros Hi Hg. pose proof HR as [Ht Hth Hs HP].
  eexists _, (with_pt a (zset (AS_pageTable a) v (g p))). split; [by apply (pt_upd_step _ _ _ sp a p)|].
  split; try done.
  - split; cbn; [done|done|by apply znth_zset_eq, (znth_Some_range _ _ _ Hs)|].
    by apply (paged_entry _ _ _ _ _ _ HP _ p).
  - split; [done|]. intros j. by apply (user_byte_entry _ _ _ p).
  - eauto.
  - intros w q Hw. cbn. by apply (znth_zset_proj_inv core _ _ _ _ _ _ Hi).
Qed.
End touching.

Lemma touched_hits sp s a s' a' v : touched sp s a s' a' → tlb_hits s v → tlb_hits s' v.
Proof.
  intros HT [i (Hi & e & He & Hv & Hu)%tlb_find_Some].
  destruct (tc_tlb _ _ _ _ _ HT _ _ He) as (e' & He' & Hc).
  apply core_inj in Hc as (? & ? & ? & ?). apply (tlb_find_exists _ _ _ e' _ He'); congruence.
Qed.

(** An access inside the address space, within one page. *)
Record access (a : AddrSpace) (va size : Z) : Prop := {
  ac_low : 0 ≤ va;
  ac_high : va + size ≤ numPages a * PageSize;
  ac_size : size = 1 ∨ size = 2 ∨ size = 4;
  ac_aligned : misaligned va size = false
}.

Lemma access_page hole a mm tl fr cur va size :
  paged hole a mm tl fr cur → access a va size →
  u32 va = va ∧ 0 ≤ va / PageSize < numPages a ∧ va mod PageSize + size ≤ PageSize.
Proof.
  intros HP [H0 H1 H2 H3]. destruct HP. unfold PageSize in *.
  split_and!; [apply u32_small; unfold is_u32; lia|..];
    try (Z.to_euclidean_division_equations; lia).
  unfold misaligned in H3. change 3 with (Z.ones 2) in H3. change 1 with (Z.ones 1) in H3.
  rewrite !Z.land_ones in H3 by lia. change (2 ^ 2) with 4 in H3. change (2 ^ 1) with 2 in H3.
  destruct H2 as [->|[->| ->]]; cbn in H3; [Z.to_euclidean_division_equations; lia|..].
  - destruct (Z.eqb_spec (va mod 2) 0); [|done]. Z.to_euclidean_division_equations; lia.
  - destruct (Z.eqb_spec (va mod 4) 0); [|done]. Z.to_euclidean_division_equations; lia.
Qed.

Lemma access_numPages a a' va size :
  numPages a' = numPages a → access a va size → access a' va size.
Proof. intros E []. split; try done. by rewrite E. Qed.

Lemma Translate_miss a va size w s :
  u32 va = va → access a va size → tlb_find (tlb s) 0 (va / PageSize) = None →
  Translate va size w s = Ok ((PageFaultException, 0), set_counts s (TLBHit s) (TLBMiss s + 1)).
Proof.
  intros Hu HA Hf. unfold Translate. rewrite (ac_aligned _ _ _ HA), Hu.
  erewrite ST_step by reflexivity. cbv beta. by rewrite Hf.
Qed.

(** The dirty bits that a write sets in the TLB, the page table and the frame. *)
Lemma dirty_bits_ok s sp a i e v p k (w : bool) :
  running None s sp a → znth (tlb s) i = Some e → znth (AS_pageTable a) v = Some p →
  0 ≤ k < NumPhysPages →
  ∃ s' a', (if w then
              tlb_upd i (λ e, set_dirty e true);;
              pt_upd v (λ e, set_dirty e true);;
              frame_upd k (λ f, set_F_dirty f true)
            else mret ()) s = Ok ((), s') ∧ touched sp s a s' a'.
Proof.
  intros R1 He Hp Hk. destruct w; [|exists s, a; split; [done|]; split; eauto; done].
  destruct (touch_tlb _ _ _ R1 i e (λ e, set_dirty e true) He) as (s2 & E2 & T2); [done|].
  step E2. pose proof (tc_running _ _ _ _ _ T2) as R2.
  destruct (touch_pt _ _ _ R2 _ _ (λ e, set_dirty e true) Hp) as (s3 & a3 & E3 & T3); [done|].
  step E3. pose proof (tc_running _ _ _ _ _ T3) as R3.
  destruct (znth_range (PhysicalPageTable s3) k) as [f Hfr];
    [by rewrite (pg_fr_len _ _ _ _ _ _ (rn_paged _ _ _ _ R3))|].
  destruct (touch_frame _ _ _ R3 _ _ (λ f, set_F_dirty f true) Hfr) as (s4 & E4 & T4); [done|].
  exists s4, a3. split; [done|]. eapply touched_step; [done|]. by eapply touched_step.
Qed.

Lemma Translate_hit s sp a va size w :
  running None s sp a → access a va size → tlb_hits s (va / PageSize) →
  ∃ s' a' p, Translate va size w s =
      Ok ((NoException, physicalPage p * PageSize + va mod PageSize), s') ∧
    touched sp s a s' a' ∧ znth (AS_pageTable a') (va / PageSize) = Some p ∧ valid p = true.
Proof.
  intros HR HA [i Hf]. pose proof HR as [Ht Hth Hs HP].
  destruct (access_page _ _ _ _ _ _ _ _ HP HA) as (Hu & Hv & Hoff).
  pose proof Hf as (_ & e & He & Hve & Hue)%tlb_find_Some. rewrite Z.sub_0_r in He.
  destruct (pg_tlb _ _ _ _ _ _ HP i e He Hve) as (Hro & p & Hp & Hvp & Hph).
  assert (virtualPage e = va / PageSize) as Hvpn.
  { apply znth_Some_range in Hp. rewrite (pg_pt_len _ _ _ _ _ _ HP) in Hp.
    by rewrite (vpn_u32 _ _ _ _ _ _ _ HP Hp) in Hue. }
  rewrite Hvpn in Hp. pose proof (paged_frame_range _ _ _ _ _ _ HP _ _ Hp Hvp) as Hk.
  rewrite Hph in Hk.
  assert (u32 (physicalPage e) = physicalPage e) as Hku
    by (apply u32_small; unfold is_u32, NumPhysPages in *; lia).
  assert (running None (set_counts s (TLBHit s + 1) (TLBMiss s)) sp a) as HR1 by (by split).
  unfold Translate. rewrite (ac_aligned _ _ _ HA), Hu.
  erewrite ST_step by reflexivity. cbv beta. rewrite Hf.
  erewrite ST_step by reflexivity. cbv beta.
  unfold tlb_get. erewrite ST_step.
  2:{ erewrite ST_step by reflexivity. unfold lift. cbn [tlb set_counts].
      by rewrite (proj2 (aget_Ok _ _ _) He). }
  cbv beta iota. rewrite Hro, Hku. cbn [andb].
  destruct (Z.leb_spec NumPhysPages (physicalPage e)); [lia|].
  destruct (touch_tlb _ _ _ HR1 i e (λ e, set_use e true) He) as (s1 & E1 & T1); [done|].
  step E1. clear E1.
  pose proof T1 as [R1 _ _ _ HT1 _ _]. destruct (HT1 _ _ He) as (e1 & He1 & _).
  destruct (dirty_bits_ok s1 sp a i e1 (va / PageSize) p (physicalPage e) w R1 He1 Hp Hk)
    as (s2 & a2 & E2 & T2).
  step E2. clear E2. pose proof (touched_step _ _ _ _ _ _ _ T1 T2) as T12.
  pose proof T12 as [R2 _ _ _ HT2 _ _]. destruct (HT2 _ _ He) as (e2 & He2 & _).
  destruct (touch_tlb _ _ _ R2 i e2 (λ e, set_LastHitTime e (totalTicks s)) He2) as (s3 & E3 & T3);
    [done|]. step E3. clear E3. pose proof T3 as [R3 _ _ _ _ _ _].
  destruct (znth_range (PhysicalPageTable s3) (physicalPage e)) as [f Hfr];
    [by rewrite (pg_fr_len _ _ _ _ _ _ (rn_paged _ _ _ _ R3))|].
  destruct (touch_frame _ _ _ R3 _ _ (λ f, set_F_LastHitTime f (totalTicks s)) Hfr) as (s4 & E4 & T4);
    [done|]. step E4. clear E4. cbv zeta.
  pose proof (Z.mod_pos_bound va PageSize ltac:(done)).
  erewrite lift_step.
  2:{ apply ASSERT_true, andb_true_intro; split; apply Z.leb_le;
      unfold MemorySize, NumPhysPages, PageSize in *; lia. }
  cbv beta.
  pose proof (touched_step _ _ _ _ _ _ _ T12 (touched_step _ _ _ _ _ _ _ T3 T4)) as T.
  destruct (tc_pt _ _ _ _ _ T _ _ Hp) as (p' & Hp' & Hc). apply core_inj in Hc as (_ & Hc & Hv' & _).
  exists s4, a2, p'. split_and!; [by rewrite Hc, Hph| |done|congruence].
  destruct T. by split.
Qed.

(** ** The flat view *)
Lemma running_space hole s sp a : running hole s sp a → current_space s = Some a.
Proof. intros [Ht _ Hs _]. unfold current_space. by rewrite Ht. Qed.

Lemma user_byte_in_range hole s sp a i :
  running hole s sp a → 0 ≤ i < numPages a * PageSize →
  ∃ b, user_byte a (mainMemory s) i = Some b.
Proof.
  intros [_ _ _ HP] Hi. unfold user_byte.
  assert (0 ≤ i / PageSize < numPages a) as Hv
    by (unfold PageSize in *; Z.to_euclidean_division_equations; lia).
  destruct (znth_range (AS_pageTable a) (i / PageSize)) as [p Hp];
    [by rewrite (pg_pt_len _ _ _ _ _ _ HP)|].
  rewrite Hp. cbn. destruct (valid p) eqn:E.
  - apply znth_range. rewrite (pg_mm_len _ _ _ _ _ _ HP).
    pose proof (paged_frame_range _ _ _ _ _ _ HP _ _ Hp E).
    pose proof (Z.mod_pos_bound i PageSize ltac:(done)).
    unfold MemorySize, NumPhysPages, PageSize in *. lia.
  - apply znth_range. by rewrite (pg_vs_len _ _ _ _ _ _ HP).
Qed.

Lemma zlen_user_memory hole s sp a :
  running hole s sp a → zlen (user_memory s) = numPages a * PageSize.
Proof.
  intros HR. unfold user_memory. rewrite (running_space _ _ _ _ HR), zlen_fmap. apply zlen_seqZ.
  destruct HR as [_ _ _ HP]. rewrite <-(pg_vs_len _ _ _ _ _ _ HP). apply zlen_nonneg.
Qed.
Lemma znth_user_memory hole s sp a i :
  running hole s sp a → 0 ≤ i < numPages a * PageSize →
  znth (user_memory s) i = user_byte a (mainMemory s) i.
Proof.
  intros HR Hi. unfold user_memory.
  rewrite (running_space _ _ _ _ HR), znth_fmap, znth_seqZ, Z.add_0_l by done.
  destruct (user_byte_in_range _ _ _ _ _ HR Hi) as [b Hb]. cbn -[user_byte]. by rewrite Hb.
Qed.
Lemma user_memory_same s sp a s' a' :
  running None s sp a → running None s' sp a' →
  same_bytes a (mainMemory s) a' (mainMemory s') → user_memory s' = user_memory s.
Proof.
  intros HR HR' [En Hb]. apply znth_ext.
  - by rewrite (zlen_user_memory _ _ _ _ HR), (zlen_user_memory _ _ _ _ HR'), En.
  - intros i. rewrite (zlen_user_memory _ _ _ _ HR'), En. intros Hi.
    rewrite (znth_user_memory _ _ _ _ _ HR Hi), (znth_user_memory _ _ _ _ _ HR') by (by rewrite En).
    apply Hb.
Qed.

Section one_page.
Context (s : Machine) (sp : Z) (a : AddrSpace) (va size : Z) (p : TranslationEntry).
Context (HR : running None s sp a) (HA : access a va size).
Context (Hp : znth (AS_pageTable a) (va / PageSize) = Some p) (Hv : valid p = true).
Definition phys_addr : Z := physicalPage p * PageSize + va mod PageSize.

Lemma phys_addr_range : 0 ≤ phys_addr ∧ phys_addr + size ≤ zlen (mainMemory s) ∧ 1 ≤ size.
Proof.
  destruct HR as [_ _ _ HP]. rewrite (pg_mm_len _ _ _ _ _ _ HP).
  destruct (access_page _ _ _ _ _ _ _ _ HP HA) as (_ & _ & ?).
  pose proof (paged_frame_range _ _ _ _ _ _ HP _ _ Hp Hv).
  pose proof (Z.mod_pos_bound va PageSize ltac:(done)). destruct HA.
  unfold phys_addr, MemorySize, NumPhysPages, PageSize in *. lia.
Qed.

(** Addresses of the access are in one page. *)
Lemma access_div i :
  va ≤ i < va + size → i / PageSize = va / PageSize ∧ i mod PageSize = va mod PageSize + (i - va).
Proof.
  destruct HR as [_ _ _ HP]. destruct (access_page _ _ _ _ _ _ _ _ HP HA) as (_ & _ & ?).
  intros. unfold PageSize in *. Z.to_euclidean_division_equations; lia.
Qed.

Lemma user_memory_read :
  read_at (mainMemory s) phys_addr size = read_at (user_memory s) va size.
Proof.
  pose proof phys_addr_range as (? & ? & ?).
  pose proof (zlen_user_memory _ _ _ _ HR) as Hl. pose proof HA as [? ? _ _].
  assert (zlen (read_at (user_memory s) va size) = size) by (apply read_at_length; lia).
  assert (zlen (read_at (mainMemory s) phys_addr size) = size) by (apply read_at_length; lia).
  apply znth_ext; [lia|]. intros j Hj. rewrite !znth_read_at by lia.
  rewrite (znth_user_memory _ _ _ _ _ HR) by lia.
  destruct (access_div (va + j)) as [E1 E2]; [lia|].
  unfold user_byte. rewrite E1, Hp. cbn. rewrite Hv, E2. f_equal. unfold phys_addr. lia.
Qed.

Lemma running_store b :
  zlen b = size → running None (set_mainMemory s (write_at (mainMemory s) phys_addr b)) sp a.
Proof.
  intros Hb. pose proof phys_addr_range as (? & ? & ?).
  destruct HR as [Ht Hth Hs HP]. split; try done. destruct HP. split; try done.
  cbn. rewrite write_at_length; lia.
Qed.

Lemma user_memory_write b :
  zlen b = size →
  user_memory (set_mainMemory s (write_at (mainMemory s) phys_addr b)) =
  write_at (user_memory s) va b.
Proof.
  intros Hb. pose proof phys_addr_range as (? & ? & ?). pose proof HA as [? ? _ _].
  pose proof (zlen_user_memory _ _ _ _ HR) as Hl. pose proof (running_store b Hb) as HR'.
  assert (zlen (write_at (user_memory s) va b) = zlen (user_memory s))
    by (apply write_at_length; lia).
  apply znth_ext; rewrite (zlen_user_memory _ _ _ _ HR'); [lia|]. intros i Hi.
  rewrite (znth_user_memory _ _ _ _ _ HR' Hi), znth_write_at, (znth_user_memory _ _ _ _ _ HR Hi)
    by lia.
  rewrite Hb. unfold user_byte. case_bool_decide as Hin.
  - destruct (access_div i Hin) as [E1 E2]. rewrite E1, Hp. cbn. rewrite Hv, E2.
    rewrite znth_write_at by lia. rewrite bool_decide_true by (unfold phys_addr; lia).
    f_equal. unfold phys_addr. lia.
  - destruct (znth (AS_pageTable a) (i / PageSize)) as [z|] eqn:Hz; [|done]. cbn.
    destruct (valid z) eqn:Hvz; [|done]. rewrite znth_write_at by lia.
    rewrite bool_decide_false; [done|]. intros Hc. apply Hin. rewrite Hb in Hc.
    destruct HR as [_ _ _ HP]. destruct (access_page _ _ _ _ _ _ _ _ HP HA) as (_ & _ & ?).
    pose proof (Z.mod_pos_bound va PageSize ltac:(done)).
    pose proof (Z.mod_pos_bound i PageSize ltac:(done)). unfold phys_addr in Hc.
    assert (physicalPage z = physicalPage p) as E by (unfold PageSize in *; lia).
    pose proof (paged_inj _ _ _ _ _ _ HP _ _ _ _ Hz Hvz Hp Hv E) as Ev.
    rewrite E, !offset_of, Ev in Hc. lia.
Qed.
End one_page.

(** ** Page faults *)

(** A user program runs, alone in memory, on a well-formed machine. *)
Definition user_running (s : Machine) : Prop :=
  regs_ok (registers s) ∧ ∃ sp a, running None s sp a.

Section faults.
Context `{InterruptOps, !InterruptLaws}.

Lemma running_clock hole s sp a t u : running hole s sp a → running hole (set_clock s t u) sp a.
Proof. by intros []. Qed.
Lemma running_registers hole s sp a r : running hole s sp a → running hole (set_registers s r) sp a.
Proof. by intros []. Qed.

Lemma ReadRegister_step i s v :
  0 ≤ i < NumTotalRegs → znth (registers s) i = Some v → ReadRegister i s = Ok (v, s).
Proof.
  intros Hi Hv. unfold ReadRegister. erewrite lift_step.
  2:{ apply ASSERT_true, andb_true_intro; split; [apply Z.leb_le|apply Z.ltb_lt]; lia. }
  by apply reg_step.
Qed.

(** The registers the handler sees: [BadVAddrReg] is set and the pending load done. *)
Lemma trap_registers r va :
  regs_ok r → is_s32 va →
  regs_ok (delayed_load (zset r BadVAddrReg va) 0 0) ∧
  znth (delayed_load (zset r BadVAddrReg va) 0 0) BadVAddrReg = Some va.
Proof.
  intros [Hl Hs _ (n & Hn & Hnr)] Hva. unfold NumTotalRegs in *. split.
  - apply delayed_load_ok; [by rewrite zlen_zset|by apply Forall_zset|unfold is_s32; lia|lia].
  - unfold delayed_load, BadVAddrReg, LoadReg, LoadValueReg in *.
    rewrite !(znth_zset_ne _ 39 37), Hn by lia. cbn [default].
    rewrite !znth_zset_ne by (cbn; lia). apply znth_zset_eq. lia.
Qed.

Lemma trap_step handler which va s :
  regs_ok (registers s) →
  ∃ t, let s1 := set_clock (set_registers s (delayed_load (zset (registers s) BadVAddrReg va) 0 0))
                   t SystemMode in
    RaiseException_with handler which va s = (handler which;; setStatus UserMode) s1.
Proof.
  intros [Hl _ _ (n & Hn & Hnr)]. unfold RaiseException_with.
  erewrite ST_step by (apply set_reg_step; rewrite Hl; done). cbv beta iota.
  erewrite ST_step.
  2:{ apply DelayedLoad_step; cbn [registers set_registers]; [by rewrite zlen_zset|].
      exists n. by rewrite znth_zset_ne. }
  cbv beta iota. unfold setStatus at 1. erewrite ST_step by reflexivity. cbv beta iota.
  match goal with |- context [(OneTick ≫= _) ?s1] => destruct (OneTick_frame s1) as [t Ht] end.
  exists t. step Ht. reflexivity.
Qed.

Lemma page_fault_ok s sp a va :
  running None s sp a → regs_ok (registers s) → is_s32 va → u32 va = va →
  0 ≤ va / PageSize < numPages a →
  ∃ s' a', RaiseException_memory PageFaultException va s = Ok ((), s') ∧
    running None s' sp a' ∧ same_bytes a (mainMemory s) a' (mainMemory s') ∧
    tlb_hits s' (va / PageSize) ∧ regs_ok (registers s').
Proof.
  intros HR Hok Hs Hu Hv.
  destruct (trap_step ExceptionHandler_memory PageFaultException va s Hok) as [t Ht].
  unfold RaiseException_memory. rewrite Ht. clear Ht.
  destruct (trap_registers _ va Hok Hs) as [Hok' Hbad].
  set (r := delayed_load _ _ _) in *. set (s1 := set_clock _ _ _).
  assert (running None s1 sp a) as HR1 by (by apply running_clock, running_registers).
  unfold ExceptionHandler_memory.
  destruct (znth_range r 2) as [v2 Hv2]; [by rewrite (ro_len _ Hok')|].
  destruct (refill_TLB_ok LastHitTime s1 sp a va HR1) as (s2 & a2 & E2 & HR2 & (Hr & _) & HB & Hh);
    [by rewrite Hu|].
  erewrite ST_step.
  2:{ erewrite ST_step by (by apply ReadRegister_step). cbv beta iota.
      erewrite ST_step by (by apply ReadRegister_step). exact E2. }
  cbv beta iota. eexists _, a2. split; [reflexivity|]. split_and!.
  - by apply running_clock.
  - done.
  - by rewrite Hu in Hh.
  - cbn. by rewrite Hr.
Qed.

(** ** Loads and stores *)
Lemma translate_retry_ok s sp a va size w :
  running None s sp a → regs_ok (registers s) → access a va size →
  ∃ s' a' p, translate_retry va size w s = Ok (Some (phys_addr va p), s') ∧
    running None s' sp a' ∧ same_bytes a (mainMemory s) a' (mainMemory s') ∧
    znth (AS_pageTable a') (va / PageSize) = Some p ∧ valid p = true ∧
    regs_ok (registers s').
Proof.
  intros HR Hok HA. pose proof (rn_paged _ _ _ _ HR) as HP.
  destruct (access_page _ _ _ _ _ _ _ _ HP HA) as (Hu & Hv & _).
  unfold translate_retry. destruct (tlb_find (tlb s) 0 (va / PageSize)) as [i|] eqn:Hf.
  - destruct (Translate_hit s sp a va size w HR HA) as (s1 & a1 & p & E & [R1 (Hr & _) HB _ _ _ _] & Hp & Hval);
      [by exists i|].
    step E. exists s1, a1, p. split_and!; try done. by rewrite Hr.
  - step (Translate_miss a va size w s Hu HA Hf). cbn [fst snd].
    destruct (decide (PageFaultException = NoException)); [done|].
    set (s1 := set_counts _ _ _). assert (running None s1 sp a) as HR1 by (by destruct HR; split).
    assert (is_s32 va) as Hs
      by (destruct HP, HA; unfold is_s32, PageSize in *; lia).
    destruct (page_fault_ok s1 sp a va HR1) as (s2 & a2 & E2 & R2 & HB2 & Hh2 & Hok2); try done.
    step E2. destruct (decide (PageFaultException = PageFaultException)); [|done].
    pose proof (access_numPages _ a2 _ _ (proj1 HB2) HA) as HA2.
    destruct (Translate_hit s2 sp a2 va size w R2 HA2 Hh2)
      as (s3 & a3 & p3 & E3 & T3 & _ & _). step E3. cbn [fst snd].
    destruct (decide (NoException = NoException)); [|done]. erewrite ST_step by reflexivity.
    cbv beta. pose proof T3 as [R3 (Hr3 & _) HB3 _ _ _ _].
    pose proof (access_numPages _ a3 _ _ (proj1 HB3) HA2) as HA3.
    destruct (Translate_hit s3 sp a3 va size w R3 HA3) as (s4 & a4 & p4 & E4 & [R4 (Hr4 & _) HB4 _ _ _ _] & Hp4 & Hv4);
      [by apply (touched_hits _ _ _ _ _ _ T3)|].
    step E4. exists s4, a4, p4. split_and!; try done; [|by rewrite Hr4, Hr3].
    eapply same_bytes_trans; [exact HB2|]. by eapply same_bytes_trans.
Qed.

Lemma le_split_mod n w : le_split n (w mod 2 ^ (8 * Z.of_nat n)) = le_split n w.
Proof.
  rewrite <-le_combine_split. rewrite <-(length_le_split n w) at 1.
  apply le_split_combine, le_split_byte.
Qed.

(** The [int] that the bytes of an access stand for. *)
Definition load_value (size : Z) (b : list Z) : Z :=
  if size =? 1 then s8 (le_combine b) else if size =? 2 then le_combine b else s32 (le_combine b).

Lemma ReadMem_ok s sp a va size :
  running None s sp a → regs_ok (registers s) → access a va size →
  ∃ s', ReadMem va size s = Ok (Some (load_value size (read_at (user_memory s) va size)), s') ∧
    user_running s' ∧ user_memory s' = user_memory s.
Proof.
  intros HR Hok HA.
  destruct (translate_retry_ok s sp a va size false HR Hok HA)
    as (s' & a' & p & E & R' & HB & Hp & Hv & Hok').
  pose proof (access_numPages _ a' _ _ (proj1 HB) HA) as HA'.
  pose proof (user_memory_same _ _ _ _ _ HR R' HB) as Hum.
  pose proof (user_memory_read _ _ _ _ _ _ R' HA' Hp Hv) as Hread. rewrite Hum in Hread.
  destruct (phys_addr_range _ _ _ _ _ _ R' HA' Hp Hv) as (H1 & H2 & _).
  unfold ReadMem. step E. erewrite ST_step by reflexivity. cbv beta. exists s'.
  split; [|split; [split; eauto|done]]. unfold load_value.
  destruct (ac_size _ _ _ HA) as [->|[->| ->]]; cbn [Z.eqb Pos.eqb];
    (erewrite lift_step by (by apply bytes_at_in)); by rewrite Hread.
Qed.

Lemma WriteMem_ok s sp a va size value :
  running None s sp a → regs_ok (registers s) → access a va size →
  ∃ s', WriteMem va size value s = Ok (true, s') ∧ user_running s' ∧
    user_memory s' = write_at (user_memory s) va (le_split (Z.to_nat size) value).
Proof.
  intros HR Hok HA.
  destruct (translate_retry_ok s sp a va size true HR Hok HA)
    as (s' & a' & p & E & R' & HB & Hp & Hv & Hok').
  pose proof (access_numPages _ a' _ _ (proj1 HB) HA) as HA'.
  pose proof (user_memory_same _ _ _ _ _ HR R' HB) as Hum.
  destruct (phys_addr_range _ _ _ _ _ _ R' HA' Hp Hv) as (H1 & H2 & _).
  assert (∀ n v, Z.of_nat n = size → zlen (le_split n v) = size) as Hlen
    by (intros n v <-; unfold zlen; by rewrite length_le_split).
  unfold WriteMem. step E. erewrite ST_step by reflexivity. cbv beta.
  assert (∃ b, zlen b = size ∧ b = le_split (Z.to_nat size) value ∧
    (if size =? 1 then lift (bytes_to (mainMemory s') (phys_addr va p) (le_split 1 (Z.land value 255)))
     else if size =? 2 then lift (bytes_to (mainMemory s') (phys_addr va p)
                (le_split 2 (ShortToMachine (Z.land value 65535))))
     else if size =? 4 then lift (bytes_to (mainMemory s') (phys_addr va p)
                (le_split 4 (WordToMachine (u32 value))))
     else lift (ASSERT false);; mret []) s' =
    Ok (write_at (mainMemory s') (phys_addr va p) b, s')) as (b & Hb & Eb & Hw).
  { change 255 with (Z.ones 8). change 65535 with (Z.ones 16).
    rewrite !Z.land_ones by lia. unfold u32, WordToMachine, WordToHost, ShortToMachine, ShortToHost.
    exists (le_split (Z.to_nat size) value). split; [apply Hlen; destruct HA; lia|]. split; [done|].
    destruct (ac_size _ _ _ HA) as [->|[->| ->]]; cbn [Z.eqb Pos.eqb];
      [change (2 ^ 8) with (2 ^ (8 * Z.of_nat 1))|change (2 ^ 16) with (2 ^ (8 * Z.of_nat 2))
      |change (2 ^ 32) with (2 ^ (8 * Z.of_nat 4))]; rewrite le_split_mod;
      unfold lift; by rewrite bytes_to_in by (rewrite ?Hlen; lia). }
  step Hw. erewrite ST_step by reflexivity. cbv beta. eexists. split; [reflexivity|].
  pose proof (running_store _ _ _ _ _ _ R' HA' Hp Hv b Hb) as R2.
  split; [split; [done|eauto]|].
  by rewrite (user_memory_write _ _ _ _ _ _ R' HA' Hp Hv b Hb), Hum, Eb.
Qed.
End faults.

(** ** The checks of the code itself *)
Lemma for_in_pass l body s :
  (∀ i, i ∈ l → body i s = Ok ((), s)) → for_in l body s = Ok ((), s).
Proof.
  induction l as [|i l IH]; intros Hb; [done|]. cbn [for_in].
  erewrite ST_step by (apply Hb; set_solver). cbv beta. apply IH. set_solver.
Qed.

Lemma TLB_PageTable_check_ok s sp a :
  running None s sp a → pageTableSize s = numPages a → TLB_PageTable_check s = Ok ((), s).
Proof.
  intros [Ht Hth Hs HP] Hn. unfold TLB_PageTable_check. erewrite ST_step by reflexivity. cbv beta.
  assert (∀ k f, znth (PhysicalPageTable s) k = Some f → frame_get k s = Ok (f, s)) as Hfg.
  { intros k f Hf%aget_Ok. unfold frame_get. erewrite ST_step by reflexivity. unfold lift. by rewrite Hf. }
  erewrite ST_step; cbv beta.
  - apply for_in_pass. intros i [Hi1 Hi2]%elem_of_seqZ.
    destruct (znth_range (AS_pageTable a) i) as [p Hp]; [rewrite (pg_pt_len _ _ _ _ _ _ HP); lia|].
    step (pt_get_step _ _ _ _ _ Ht Hs Hp). destruct (valid p) eqn:Hv; [|done].
    destruct (pg_pt _ _ _ _ _ _ HP i p Hp Hv) as (_ & _ & _ & f & Hf & Hfv & Hvp).
    step (Hfg _ _ Hf). rewrite Hfv, Hvp, Z.eqb_refl. done.
  - apply for_in_pass. intros i Hi%elem_of_seqZ.
    destruct (znth_range (tlb s) i) as [e He]; [rewrite (pg_tl_len _ _ _ _ _ _ HP); lia|].
    unfold tlb_get. erewrite ST_step.
    2:{ erewrite ST_step by reflexivity. unfold lift. by rewrite (proj2 (aget_Ok _ _ _) He). }
    cbv beta. destruct (valid e) eqn:Hv; [|done].
    destruct (pg_tlb _ _ _ _ _ _ HP i e He Hv) as (_ & p & Hp & Hvp & Hph).
    destruct (pg_pt _ _ _ _ _ _ HP _ _ Hp Hvp) as (_ & _ & _ & f & Hf & Hfv & _).
    step (pt_get_step _ _ _ _ _ Ht Hs Hp). rewrite Hph, Z.eqb_refl in *.
    erewrite lift_step by reflexivity. cbv beta. rewrite Hvp.
    erewrite lift_step by reflexivity. cbv beta. step (Hfg _ _ Hf). by rewrite Hfv.
Qed.

(** What the updates leave alone, when they return. *)
Lemma pt_upd_frames v g s s' r :
  pt_upd v g s = Ok (r, s') → PhysicalPageTable s' = PhysicalPageTable s.
Proof.
  unfold pt_upd, cur_table, entry_upd, space_get, space_put. intros HE. inv_bind.
  repeat match goal with
  | H : lift ?m _ = Ok _ |- _ => unfold lift in H; destruct m; [injection H as <- <-|done]
  | H : getS _ = Ok _ |- _ => injection H as <- <-
  | H : putS _ _ = Ok _ |- _ => injection H as _ <-
  | H : match ?o with _ => _ end _ = Ok _ |- _ => destruct o; [injection H as <- <-|done]
  end. done.
Qed.
Lemma frame_upd_inv k g s s' r :
  frame_upd k g s = Ok (r, s') →
  ∃ f, znth (PhysicalPageTable s) k = Some f ∧
    s' = set_frames s (zset (PhysicalPageTable s) k (g f)).
Proof.
  unfold frame_upd. erewrite ST_step by reflexivity. cbv beta. intros HE. inv_bind.
  unfold lift in *. destruct (aget _ _) as [f|] eqn:Ef; [|done]. apply aget_Ok in Ef.
  repeat match goal with H : Ok _ = Ok _ |- _ => injection H as <- <- end.
  match goal with H : putS _ _ = Ok _ |- _ => injection H as _ <- end. eauto.
Qed.

(** ** Which entry is replaced *)
Lemma scan_spec {A} (ok : A → bool) (key : A → Z) pre l best kb eb :
  znth pre best = Some eb → key eb = kb →
  Forall (λ e, ok e = true) pre → (∀ j e, znth pre j = Some e → kb ≤ key e) →
  let v := scan ok key l (zlen pre) best kb in
  ∃ e, znth (pre ++ l) v = Some e ∧
    (ok e = false ∧ (∀ j e', j < v → znth (pre ++ l) j = Some e' → ok e' = true) ∨
     Forall (λ e, ok e = true) (pre ++ l) ∧ (∀ j e', znth (pre ++ l) j = Some e' → key e ≤ key e')).
Proof.
  revert pre best kb eb. induction l as [|x l IH]; intros pre best kb eb Hb Hk Hok Hmin; cbn [scan].
  - rewrite app_nil_r. exists eb. split; [done|]. right. split; [done|]. by rewrite Hk.
  - assert (znth (pre ++ x :: l) (zlen pre) = Some x) as Hx.
    { unfold znth, zlen. destruct (Z.ltb_spec (Z.of_nat (length pre)) 0); [lia|].
      rewrite Nat2Z.id. by rewrite list_lookup_middle. }
    destruct (ok x) eqn:Eo; cbn [negb].
    2:{ exists x. split; [done|]. left. split; [done|]. intros j e' Hj He'.
        apply (Forall_znth _ _ j _ Hok).
        pose proof (znth_Some_range _ _ _ He') as Hr. unfold znth, zlen in *.
        destruct (Z.ltb_spec j 0); [lia|]. rewrite lookup_app_l in He' by lia. done. }
    assert (∀ j e, znth (pre ++ [x]) j = Some e → znth pre j = Some e ∨ e = x) as Hsnoc.
    { intros j e. unfold znth. case_match; [done|]. intros [?|[_ Hl]]%lookup_app_Some; [by left|].
      right. by apply list_lookup_singleton_Some in Hl as [_ ->]. }
    replace (zlen pre + 1) with (zlen (pre ++ [x])) by (rewrite zlen_app; done).
    replace (pre ++ x :: l) with ((pre ++ [x]) ++ l) in * by by rewrite <-app_assoc.
    assert (∀ j e, znth pre j = Some e → znth (pre ++ [x]) j = Some e) as Hpre.
    { intros j e. unfold znth. case_match; [done|]. apply lookup_app_l_Some. }
    destruct (Z.ltb_spec (key x) kb) as [Hlt|Hge].
    + apply (IH (pre ++ [x]) (zlen pre) (key x) x); try done.
      * unfold znth, zlen. destruct (Z.ltb_spec (Z.of_nat (length pre)) 0); [lia|].
        rewrite Nat2Z.id. by rewrite list_lookup_middle.
      * by apply Forall_app_2, Forall_singleton.
      * intros j e [He| ->]%Hsnoc; [|lia]. specialize (Hmin _ _ He). lia.
    + apply (IH (pre ++ [x]) best kb eb); try done.
      * by apply Hpre.
      * by apply Forall_app_2, Forall_singleton.
      * intros j e [He| ->]%Hsnoc; [by apply Hmin in He|lia].
Qed.

Lemma victim_spec {A} (ok : A → bool) (key : A → Z) l :
  0 < zlen l →
  ∃ e, znth l (victim ok key l) = Some e ∧
    (ok e = false ∧ (∀ j e', j < victim ok key l → znth l j = Some e' → ok e' = true) ∨
     Forall (λ e, ok e = true) l ∧ (∀ j e', znth l j = Some e' → key e ≤ key e')).
Proof.
  destruct l as [|x l]; [done|]. intros _. cbn [victim scan]. rewrite Z.ltb_irrefl.
  destruct (ok x) eqn:Eo; cbn [negb].
  - apply (scan_spec ok key [x] l 0 (key x) x); try done; [by apply Forall_singleton|].
    intros j e. unfold znth. case_match; [done|].
    intros [_ ->]%list_lookup_singleton_Some. lia.
  - exists x. split; [done|]. left. split; [done|]. intros j e' Hj He'.
    apply znth_Some_range in He'. lia.
Qed.

(** ** A program that has just been loaded *)

(** Nothing is resident yet. *)
Record loaded (s : Machine) (sp : Z) (a : AddrSpace) : Prop := {
  ld_table : pageTable s = Some sp;
  ld_thread : znth (space_of s) (currentThread s) = Some (Some sp);
  ld_space : znth (spaces s) sp = Some a;
  ld_pt : zlen (AS_pageTable a) = numPages a ∧ Forall (λ e, valid e = false) (AS_pageTable a);
  ld_vs : zlen (vSpace a) = numPages a * PageSize ∧ numPages a * PageSize ≤ 2 ^ 31;
  ld_mm : zlen (mainMemory s) = MemorySize;
  ld_fr : zlen (PhysicalPageTable s) = NumPhysPages ∧
          Forall (λ f, F_valid f = false) (PhysicalPageTable s);
  ld_tlb : zlen (tlb s) = TLBSize ∧ Forall (λ e, valid e = false) (tlb s)
}.

Lemma loaded_running s sp a : loaded s sp a → running None s sp a.
Proof.
  intros [Ht Hth Hs [Hp1 Hp2] [Hv1 Hv2] Hm [Hf1 Hf2] [Ht1 Ht2]]. split; try done. split; try done.
  - intros i e Hi He. pose proof (Forall_znth _ _ _ _ Ht2 Hi) as E. cbn in E. congruence.
  - intros i e Hi He. pose proof (Forall_znth _ _ _ _ Hp2 Hi) as E. cbn in E. congruence.
  - intros i e Hi He. pose proof (Forall_znth _ _ _ _ Hf2 Hi) as E. cbn in E. congruence.
Qed.

(** The user then sees the backing store. *)
Lemma loaded_memory s sp a : loaded s sp a → user_memory s = vSpace a.
Proof.
  intros HL. pose proof (loaded_running _ _ _ HL) as HR. destruct HL as [_ _ _ [Hp1 Hp2] [Hv1 _] _ _ _].
  apply znth_ext; rewrite (zlen_user_memory _ _ _ _ HR); [done|]. intros i Hi.
  rewrite (znth_user_memory _ _ _ _ _ HR Hi). unfold user_byte.
  destruct (znth_range (AS_pageTable a) (i / PageSize)) as [p Hp].
  { rewrite Hp1. unfold PageSize in *. Z.to_euclidean_division_equations; lia. }
  rewrite Hp. cbn. by rewrite (Forall_znth _ _ _ _ Hp2 Hp).
Qed.

(** ** The properties *)

(** An address space of [n] pages, each filled with its number, in a fresh machine. *)
Definition no_entry : TranslationEntry := mkTE 0 0 false false false false 0 0.
Definition example_space (n : Z) : AddrSpace :=
  mkAS (replicate (Z.to_nat n) no_entry) n
    (concat ((λ v, replicate (Z.to_nat PageSize) (v mod 256)) <$> seqZ 0 n)).
Definition example_machine (l : list AddrSpace) : Machine :=
  mkMachine (replicate 40 0) (replicate (Z.to_nat MemorySize) 0) (replicate 4 no_entry) (Some 0)
    (numPages (default (example_space 0) (head l))) 0 0 PhysicalPageTable_new 0
    (Some <$> seqZ 0 (zlen l)) l 0 UserMode.

Lemma example_regs l : regs_ok (registers (example_machine l)).
Proof.
  split; [done|..]; cbn [registers example_machine].
  - apply Forall_replicate. unfold is_s32. lia.
  - done.
  - by exists 0.
Qed.
Lemma example_loaded : loaded (example_machine [example_space 40]) 0 (example_space 40).
Proof.
  split; try (vm_compute; done).
  - split; [done|]. by apply Forall_replicate.
  - split; [done|]. by apply Forall_replicate.
  - split; [done|]. by apply Forall_replicate.
Qed.
Lemma example_running : user_running (example_machine [example_space 40]).
Proof.
  split; [apply example_regs|]. exists 0, (example_space 40). apply loaded_running, example_loaded.
Qed.

(** C1: The simulated memory with its TLB and demand paging behaves as one flat byte
    array: for a user program that runs alone, every aligned load or store of 1, 2
    or 4 bytes inside its address space succeeds, whatever page faults, refills,
    evictions and page-ins it takes; a load returns the little-endian value of the
    bytes last stored there and changes none, a store changes exactly the bytes it
    addresses. *)
Theorem paging_transparent `{InterruptLaws} s va size value :
  user_running s → 0 ≤ va → va + size ≤ zlen (user_memory s) →
  size = 1 ∨ size = 2 ∨ size = 4 → misaligned va size = false →
  (∃ s', ReadMem va size s = Ok (Some (load_value size (read_at (user_memory s) va size)), s') ∧
     user_running s' ∧ user_memory s' = user_memory s) ∧
  (∃ s', WriteMem va size value s = Ok (true, s') ∧
     user_running s' ∧ user_memory s' = write_at (user_memory s) va (le_split (Z.to_nat size) value)).
Proof.
  intros [Hok (sp & a & HR)] Hlo Hhi Hsz Hal.
  assert (access a va size) as HA by (split; try done; by rewrite <-(zlen_user_memory _ _ _ _ HR)).
  split; [by apply (ReadMem_ok _ sp a)|by apply (WriteMem_ok _ sp a)].
Qed.

Lemma paging_transparent_witness :
  let s := example_machine [example_space 40] in
  (∃ s', ReadMem 5000 4 s = Ok (Some (load_value 4 (read_at (user_memory s) 5000 4)), s') ∧
     user_running s' ∧ user_memory s' = user_memory s) ∧
  (∃ s', WriteMem 5000 4 77 s = Ok (true, s') ∧
     user_running s' ∧ user_memory s' = write_at (user_memory s) 5000 (le_split 4 77)).
Proof.
  apply (paging_transparent (example_machine [example_space 40]) 5000 4 77).
  - exact example_running.
  - lia.
  - rewrite (loaded_memory _ _ _ example_loaded). vm_compute. discriminate.
  - lia.
  - reflexivity.
Defined.

(** C33: Both refill policies keep the pager's invariant of one program in memory:
    called for a page of the address space, [LRU_TLB] and [FIFO_TLB] return, the page is
    then in the TLB, no byte the program sees has changed, and [TLB_PageTable_check], the
    consistency check of the code, passes. *)
Theorem refill_keeps_tables s sp a va :
  running None s sp a → pageTableSize s = numPages a → 0 ≤ u32 va / PageSize < numPages a →
  Forall (λ refill : Z → MM (), ∃ s' a', refill va s = Ok ((), s') ∧ running None s' sp a' ∧
      tlb_hits s' (u32 va / PageSize) ∧ user_memory s' = user_memory s ∧
      TLB_PageTable_check s' = Ok ((), s'))
    [LRU_TLB; FIFO_TLB].
Proof.
  intros HR Hn Hv.
  assert (∀ key, ∃ s' a', refill_TLB key va s = Ok ((), s') ∧ running None s' sp a' ∧
      tlb_hits s' (u32 va / PageSize) ∧ user_memory s' = user_memory s ∧
      TLB_PageTable_check s' = Ok ((), s')) as Hany; [|repeat constructor; apply Hany].
  intros key.
  destruct (refill_TLB_ok key s sp a va HR Hv) as (s' & a' & E & HR' & HC & HB & Hh).
  exists s', a'. split_and!; try done; [by apply (user_memory_same _ sp a _ a')|].
  apply (TLB_PageTable_check_ok s' sp a' HR'). destruct HC as (_ & _ & _ & _ & ->), HB as [-> _]. done.
Qed.

Lemma refill_keeps_tables_witness :
  let s := example_machine [example_space 40] in
  Forall (λ refill : Z → MM (), ∃ s' a', refill 4999 s = Ok ((), s') ∧ running None s' 0 a' ∧
      tlb_hits s' 39 ∧ user_memory s' = user_memory s ∧ TLB_PageTable_check s' = Ok ((), s'))
    [LRU_TLB; FIFO_TLB].
Proof.
  apply (refill_keeps_tables (example_machine [example_space 40]) 0 (example_space 40) 4999).
  - apply loaded_running, example_loaded.
  - reflexivity.
  - vm_compute. split; [discriminate|reflexivity].
Defined.

(** The frame [AllocatePhysicalPage] hands out is the first free one and, when no
    frame is free, the least recently used one; it then holds the page for the
    current thread. *)
Theorem AllocatePhysicalPage_lru s s' vpn k :
  zlen (PhysicalPageTable s) = NumPhysPages → AllocatePhysicalPage vpn s = Ok (k, s') →
  (∃ g, znth (PhysicalPageTable s') k = Some g ∧
        frame_core g = (vpn, Some (currentThread s), true)) ∧
  ∃ f, znth (PhysicalPageTable s) k = Some f ∧
    (F_valid f = false ∧ (∀ j g, j < k → znth (PhysicalPageTable s) j = Some g → F_valid g = true) ∨
     Forall (λ g, F_valid g = true) (PhysicalPageTable s) ∧
     (∀ j g, znth (PhysicalPageTable s) j = Some g → F_LastHitTime f ≤ F_LastHitTime g)).
Proof.
  intros Hl HA. unfold AllocatePhysicalPage in HA.
  erewrite ST_step in HA by reflexivity. cbv beta zeta in HA. inv_bind.
  destruct (victim_spec F_valid F_LastHitTime (PhysicalPageTable s)) as (f & Hf & Hcase);
    [by rewrite Hl|].
  match goal with H : mret _ _ = Ok (k, _) |- _ => injection H as <- <- end. split; [|by eauto].
  match goal with H : pt_upd _ _ _ = Ok _, H' : frame_upd _ _ _ = Ok _ |- _ =>
    apply pt_upd_frames in H as ->; apply frame_upd_inv in H' as (g & Hg & ->) end.
  eexists. split; [cbn; by apply znth_zset_eq, (znth_Some_range _ _ _ Hg)|done].
Qed.

Lemma AllocatePhysicalPage_lru_witness :
  let s := example_machine [example_space 40] in
  ∃ k s', AllocatePhysicalPage 39 s = Ok (k, s') ∧
  (∃ g, znth (PhysicalPageTable s') k = Some g ∧
        frame_core g = (39, Some (currentThread s), true)) ∧
  ∃ f, znth (PhysicalPageTable s) k = Some f ∧
    (F_valid f = false ∧ (∀ j g, j < k → znth (PhysicalPageTable s) j = Some g → F_valid g = true) ∨
     Forall (λ g, F_valid g = true) (PhysicalPageTable s) ∧
     (∀ j g, znth (PhysicalPageTable s) j = Some g → F_LastHitTime f ≤ F_LastHitTime g)).
Proof.
  intros s. destruct (AllocatePhysicalPage 39 s) as [[k s']|] eqn:E; [|vm_compute in E; discriminate E].
  exists k, s'. split; [reflexivity|]. apply (AllocatePhysicalPage_lru s s' 39 k); [reflexivity|exact E].
Defined.

(** ** Accesses that fail *)
Section failing.
Context `{InterruptOps, !InterruptLaws}.

Lemma tlb_miss_outside s sp a v :
  running None s sp a → numPages a ≤ v → tlb_find (tlb s) 0 v = None.
Proof.
  intros [_ _ _ HP] Hv. destruct (tlb_find _ _ _) as [i|] eqn:E; [|done].
  apply tlb_find_Some in E as (_ & e & He & Hval & Hu). rewrite Z.sub_0_r in He.
  destruct (pg_tlb _ _ _ _ _ _ HP i e He Hval) as (_ & p & Hp%znth_Some_range & _).
  rewrite (pg_pt_len _ _ _ _ _ _ HP) in Hp. rewrite (vpn_u32 _ _ _ _ _ _ _ HP Hp) in Hu. lia.
Qed.

Lemma refill_outside key s sp a va :
  running None s sp a → numPages a ≤ u32 va / PageSize → refill_TLB key va s = Stop Undefined.
Proof.
  intros HR Hv. pose proof HR as [Ht Hth Hs HP]. unfold refill_TLB. cbv zeta.
  erewrite ST_step by reflexivity. cbv beta.
  assert (0 ≤ victim valid key (tlb s) < zlen (tlb s)) as Hi
    by (apply victim_range; by rewrite (pg_tl_len _ _ _ _ _ _ HP)).
  destruct (znth_range _ _ Hi) as [e He]. unfold tlb_get. erewrite ST_step.
  2:{ erewrite ST_step by reflexivity. unfold lift. by rewrite (proj2 (aget_Ok _ _ _) He). }
  cbv beta.
  assert (∃ s1 a1, (if valid e then pt_upd (virtualPage e) (λ _, e) else mret ()) s = Ok ((), s1) ∧
      pageTable s1 = Some sp ∧ znth (spaces s1) sp = Some a1 ∧
      zlen (AS_pageTable a1) = numPages a) as (s1 & a1 & E1 & Ht1 & Hs1 & Hl1).
  { pose proof (pg_pt_len _ _ _ _ _ _ HP). destruct (valid e) eqn:Hval; [|by exists s, a].
    destruct (pg_tlb _ _ _ _ _ _ HP _ e He Hval) as (_ & p & Hp & _).
    eexists _, _. split; [by apply (pt_upd_step _ _ _ sp a p)|].
    split_and!; [done|apply znth_zset_eq, (znth_Some_range _ _ _ Hs)|]. cbn. by rewrite zlen_zset. }
  step E1. apply ST_stop. unfold pt_get. step (cur_table_step _ _ Ht1). unfold entry_get.
  step (space_get_step _ _ _ Hs1). unfold lift, aget.
  rewrite (proj2 (znth_None _ _)); [done|lia].
Qed.

Lemma fault_outside s sp a va :
  running None s sp a → regs_ok (registers s) → is_s32 va → numPages a ≤ u32 va / PageSize →
  RaiseException_memory PageFaultException va s = Stop Undefined.
Proof.
  intros HR Hok Hs Hv.
  destruct (trap_step ExceptionHandler_memory PageFaultException va s Hok) as [t Ht].
  unfold RaiseException_memory. rewrite Ht. clear Ht.
  destruct (trap_registers _ va Hok Hs) as [Hok' Hbad]. apply ST_stop. unfold ExceptionHandler_memory.
  destruct (znth_range _ 2 ltac:(by rewrite (ro_len _ Hok'))) as [v2 Hv2].
  erewrite ST_step by (by apply ReadRegister_step). cbv beta iota.
  erewrite ST_step by (by apply ReadRegister_step). cbv beta.
  apply (refill_outside _ _ sp a); [|done]. by apply running_clock, running_registers.
Qed.

Lemma translate_retry_outside s sp a va size w :
  running None s sp a → regs_ok (registers s) → is_s32 va → misaligned va size = false →
  numPages a ≤ u32 va / PageSize → translate_retry va size w s = Stop Undefined.
Proof.
  intros HR Hok Hs Hal Hv. unfold translate_retry. erewrite ST_step.
  2:{ unfold Translate. rewrite Hal. erewrite ST_step by reflexivity. cbv beta.
      by rewrite (tlb_miss_outside _ _ _ _ HR Hv). }
  cbv beta iota. cbn [fst snd].
  destruct (decide (PageFaultException = NoException)); [done|]. apply ST_stop.
  apply (fault_outside _ sp a); try done. by destruct HR; split.
Qed.

Lemma translate_retry_misaligned va size w s :
  regs_ok (registers s) → is_s32 va → misaligned va size = true →
  translate_retry va size w s = Stop AssertFailed.
Proof.
  intros Hok Hs Hal. unfold translate_retry. erewrite ST_step by (unfold Translate; by rewrite Hal).
  cbv beta iota. cbn [fst snd].
  destruct (decide (AddressErrorException = NoException)); [done|]. apply ST_stop.
  destruct (trap_step ExceptionHandler_memory AddressErrorException va s Hok) as [t Ht].
  unfold RaiseException_memory. rewrite Ht. clear Ht. apply ST_stop. unfold ExceptionHandler_memory.
  destruct (trap_registers _ va Hok Hs) as [Hok' _].
  destruct (znth_range _ 2 ltac:(by rewrite (ro_len _ Hok'))) as [v2 Hv2].
  by erewrite ST_step by (by apply ReadRegister_step).
Qed.

(** The two ways an access can go wrong.  A misaligned access traps with
    [AddressErrorException], which the kernel answers by aborting; an access past
    the end of the address space is not recognised as an address error: it is taken
    for a page fault, and the refill indexes [pageTable] beyond its end. *)
Theorem bad_accesses s va size value :
  user_running s → is_s32 va →
  (misaligned va size = true →
     ReadMem va size s = Stop AssertFailed ∧ WriteMem va size value s = Stop AssertFailed) ∧
  (misaligned va size = false → zlen (user_memory s) ≤ u32 va →
     ReadMem va size s = Stop Undefined ∧ WriteMem va size value s = Stop Undefined).
Proof.
  intros [Hok (sp & a & HR)] Hs. split.
  - intros Hal. split; apply ST_stop; by apply translate_retry_misaligned.
  - intros Hal Hend. rewrite (zlen_user_memory _ _ _ _ HR) in Hend.
    assert (numPages a ≤ u32 va / PageSize) by (apply Z.div_le_lower_bound; unfold PageSize in *; lia).
    split; apply ST_stop; by apply (translate_retry_outside _ sp a).
Qed.
End failing.

Lemma bad_accesses_witness :
  let s := example_machine [example_space 40] in
  (ReadMem 2 4 s = Stop AssertFailed ∧ WriteMem 2 4 7 s = Stop AssertFailed) ∧
  (ReadMem 5120 4 s = Stop Undefined ∧ WriteMem 5120 4 7 s = Stop Undefined).
Proof.
  split.
  - apply (bad_accesses (example_machine [example_space 40]) 2 4 7 example_running);
      [unfold is_s32; lia|reflexivity].
  - apply (bad_accesses (example_machine [example_space 40]) 5120 4 7 example_running);
      [unfold is_s32; lia|reflexivity|].
    rewrite (loaded_memory _ _ _ example_loaded). vm_compute. discriminate.
Defined.
