(* ===== verification/Mips.v ===== *)
(** * The MIPS simulator: machine/mipssim.cc and machine/mipssim.h

    Decoding and execution of one user instruction, with the delay slots of loads
    and branches.  Each group of cases of the [switch] in [Machine::OneInstruction]
    is a definition of its own.  [int] arithmetic wraps at 32 bits, as on the host
    the simulator is written for; [>>] on an [int] is arithmetic.

    The rest of the kernel's state is a parameter [OS]: the only way from here into
    the kernel is [RaiseException], which the interface [TrapOps] provides. *)

From S2P Require Import Prelude Machine.

(** ** Opcodes *)
Inductive OpCode :=
| OP_ADD | OP_ADDI | OP_ADDIU | OP_ADDU | OP_AND | OP_ANDI | OP_BEQ | OP_BGEZ | OP_BGEZAL
| OP_BGTZ | OP_BLEZ | OP_BLTZ | OP_BLTZAL | OP_BNE | OP_DIV | OP_DIVU | OP_J | OP_JAL | OP_JALR
| OP_JR | OP_LB | OP_LBU | OP_LH | OP_LHU | OP_LUI | OP_LW | OP_LWL | OP_LWR | OP_MFHI | OP_MFLO
| OP_MTHI | OP_MTLO | OP_MULT | OP_MULTU | OP_NOR | OP_OR | OP_ORI | OP_RFE | OP_SB | OP_SH
| OP_SLL | OP_SLLV | OP_SLT | OP_SLTI | OP_SLTIU | OP_SLTU | OP_SRA | OP_SRAV | OP_SRL | OP_SRLV
| OP_SUB | OP_SUBU | OP_SW | OP_SWL | OP_SWR | OP_XOR | OP_XORI | OP_SYSCALL | OP_UNIMP | OP_RES
| SPECIAL | BCOND.
#[export] Instance OpCode_eq_dec : EqDecision OpCode.
Proof. solve_decision. Defined.

Inductive Format := IFMT | JFMT | RFMT.

(** The table that translates bits 31:26 of an instruction. *)
Definition opTable : list (OpCode * Format) := [
  (SPECIAL, RFMT); (BCOND, IFMT); (OP_J, JFMT); (OP_JAL, JFMT);
  (OP_BEQ, IFMT); (OP_BNE, IFMT); (OP_BLEZ, IFMT); (OP_BGTZ, IFMT);
  (OP_ADDI, IFMT); (OP_ADDIU, IFMT); (OP_SLTI, IFMT); (OP_SLTIU, IFMT);
  (OP_ANDI, IFMT); (OP_ORI, IFMT); (OP_XORI, IFMT); (OP_LUI, IFMT);
  (OP_UNIMP, IFMT); (OP_UNIMP, IFMT); (OP_UNIMP, IFMT); (OP_UNIMP, IFMT);
  (OP_RES, IFMT); (OP_RES, IFMT); (OP_RES, IFMT); (OP_RES, IFMT);
  (OP_RES, IFMT); (OP_RES, IFMT); (OP_RES, IFMT); (OP_RES, IFMT);
  (OP_RES, IFMT); (OP_RES, IFMT); (OP_RES, IFMT); (OP_RES, IFMT);
  (OP_LB, IFMT); (OP_LH, IFMT); (OP_LWL, IFMT); (OP_LW, IFMT);
  (OP_LBU, IFMT); (OP_LHU, IFMT); (OP_LWR, IFMT); (OP_RES, IFMT);
  (OP_SB, IFMT); (OP_SH, IFMT); (OP_SWL, IFMT); (OP_SW, IFMT);
  (OP_RES, IFMT); (OP_RES, IFMT); (OP_SWR, IFMT); (OP_RES, IFMT);
  (OP_UNIMP, IFMT); (OP_UNIMP, IFMT); (OP_UNIMP, IFMT); (OP_UNIMP, IFMT);
  (OP_RES, IFMT); (OP_RES, IFMT); (OP_RES, IFMT); (OP_RES, IFMT);
  (OP_UNIMP, IFMT); (OP_UNIMP, IFMT); (OP_UNIMP, IFMT); (OP_UNIMP, IFMT);
  (OP_RES, IFMT); (OP_RES, IFMT); (OP_RES, IFMT); (OP_RES, IFMT)].

(** The table that translates the "funct" field of a [SPECIAL] instruction. *)
Definition specialTable : list OpCode := [
  OP_SLL; OP_RES; OP_SRL; OP_SRA; OP_SLLV; OP_RES; OP_SRLV; OP_SRAV;
  OP_JR; OP_JALR; OP_RES; OP_RES; OP_SYSCALL; OP_UNIMP; OP_RES; OP_RES;
  OP_MFHI; OP_MTHI; OP_MFLO; OP_MTLO; OP_RES; OP_RES; OP_RES; OP_RES;
  OP_MULT; OP_MULTU; OP_DIV; OP_DIVU; OP_RES; OP_RES; OP_RES; OP_RES;
  OP_ADD; OP_ADDU; OP_SUB; OP_SUBU; OP_AND; OP_OR; OP_XOR; OP_NOR;
  OP_RES; OP_RES; OP_SLT; OP_SLTU; OP_RES; OP_RES; OP_RES; OP_RES;
  OP_RES; OP_RES; OP_RES; OP_RES; OP_RES; OP_RES; OP_RES; OP_RES;
  OP_RES; OP_RES; OP_RES; OP_RES; OP_RES; OP_RES; OP_RES; OP_RES].

(** Class [Instruction]. *)
Record Instruction := mkInstruction {
  value : Z;
  opCode : OpCode;
  rs : Z;
  rt : Z;
  rd : Z;
  extra : Z
}.

Definition nonzero (x : Z) : bool := negb (x =? 0).

(** [Instruction::Decode] of the word [value], an [unsigned int]. *)
Definition Decode (value : Z) : result Instruction :=
  let rs := Z.land (Z.shiftr value 21) 31 in
  let rt := Z.land (Z.shiftr value 16) 31 in
  let rd := Z.land (Z.shiftr value 11) 31 in
  opPtr ← aget opTable (Z.land (Z.shiftr value 26) 63);
  let extra :=
    match opPtr.2 with
    | IFMT =>
        let extra := Z.land value 65535 in
        if nonzero (Z.land extra 32768) then s32 (Z.lor extra 4294901760) else extra
    | RFMT => Z.land (Z.shiftr value 6) 31
    | JFMT => Z.land value 67108863
    end in
  opCode ←
    match opPtr.1 with
    | SPECIAL => aget specialTable (Z.land value 63)
    | BCOND =>
        let i := Z.land value 2031616 in
        Ok (if i =? 0 then OP_BLTZ
            else if i =? 65536 then OP_BGEZ
            else if i =? 1048576 then OP_BLTZAL
            else if i =? 1114112 then OP_BGEZAL
            else OP_UNIMP)
    | op => Ok op
    end;
  Ok (mkInstruction value opCode rs rt rd extra).

Definition R31 : Z := 31.
Definition SIGN_BIT : Z := 2147483648.
Definition IndexToAddr (x : Z) : Z := s32 (Z.shiftl x 2).

(** ** Multiplication *)

(** The loop of [Mult], with the early exit after the last one bit of [a]. *)
Fixpoint Mult_loop (n : nat) (a bLo bHi lo hi : Z) : Z * Z :=
  match n with
  | O => (hi, lo)
  | S n' =>
      let odd := nonzero (Z.land a 1) in
      let lo := if odd then u32 (lo + bLo) else lo in
      let hi := if odd then u32 ((if lo <? bLo then u32 (hi + 1) else hi) + bHi) else hi in
      if odd && (Z.land (u32 a) 4294967294 =? 0) then (hi, lo)
      else
        let bHi := u32 (Z.shiftl bHi 1) in
        let bHi := if nonzero (Z.land bLo 2147483648) then Z.lor bHi 1 else bHi in
        Mult_loop n' (Z.shiftr a 1) (u32 (Z.shiftl bLo 1)) bHi lo hi
  end.

(** [Mult]: [*hiPtr] and [*loPtr]. *)
Definition Mult (a b : Z) (signedArith : bool) : Z * Z :=
  if (a =? 0) || (b =? 0) then (0, 0)
  else
    let negative := if signedArith then xorb (a <? 0) (b <? 0) else false in
    let a := if signedArith && (a <? 0) then s32 (- a) else a in
    let b := if signedArith && (b <? 0) then s32 (- b) else b in
    let '(hi, lo) := Mult_loop 32 a (u32 b) 0 0 0 in
    let '(hi, lo) :=
      if negative then
        let hi := u32 (Z.lnot hi) in
        let lo := u32 (u32 (Z.lnot lo) + 1) in
        (if lo =? 0 then u32 (hi + 1) else hi, lo)
      else (hi, lo) in
    (s32 hi, s32 lo).

(** ** Execution *)

(** The interface to the kernel: [RaiseException] traps into it. *)
Class TrapOps (OS : Type) := RaiseException : ExceptionType → Z → ST (Machine * OS) ().

Section instructions.
Context `{InterruptOps} {OS : Type} `{TrapOps OS}.

Abbreviation M := (ST (Machine * OS)).

(** Machine operations leave the rest of the kernel alone. *)
Definition liftM {A} (m : MM A) : M A := λ s,
  match m s.1 with Ok (x, s') => Ok (x, (s', s.2)) | Stop e => Stop e end.

Definition R (i : Z) : M Z := liftM (reg i).
Definition setR (i v : Z) : M () := liftM (set_reg i v).

(** How a case of the [switch] ends: [break] with [pcAfter] and the delayed load
    ([nextLoadReg], [nextLoadValue]), or [return] after an exception. *)
Definition outcome := option (Z * Z * Z).
Definition break_ (pcAfter : Z) : M outcome := mret (Some (pcAfter, 0, 0)).
Definition load_ (pcAfter reg v : Z) : M outcome := mret (Some (pcAfter, reg, v)).
Definition return_ : M outcome := mret None.
Definition raise_ (which : ExceptionType) (addr : Z) : M outcome :=
  RaiseException which addr;; return_.

Definition sign (x : Z) : bool := nonzero (Z.land x SIGN_BIT).

(** *** Arithmetic and logic *)
Definition exec_ADD (i : Instruction) (pcAfter : Z) : M outcome :=
  a ← R (rs i); b ← R (rt i);
  let sum := s32 (a + b) in
  if negb (sign (Z.lxor a b)) && sign (Z.lxor a sum) then raise_ OverflowException 0
  else setR (rd i) sum;; break_ pcAfter.
Definition exec_ADDI (i : Instruction) (pcAfter : Z) : M outcome :=
  a ← R (rs i);
  let sum := s32 (a + extra i) in
  if negb (sign (Z.lxor a (extra i))) && sign (Z.lxor (extra i) sum)
  then raise_ OverflowException 0
  else setR (rt i) sum;; break_ pcAfter.
Definition exec_SUB (i : Instruction) (pcAfter : Z) : M outcome :=
  a ← R (rs i); b ← R (rt i);
  let diff := s32 (a - b) in
  if sign (Z.lxor a b) && sign (Z.lxor a diff) then raise_ OverflowException 0
  else setR (rd i) diff;; break_ pcAfter.

(** The cases [registers[rd] = f(registers[rs], registers[rt])]. *)
Definition alu (i : Instruction) (pcAfter : Z) (f : Z → Z → Z) : M outcome :=
  a ← R (rs i); b ← R (rt i); setR (rd i) (f a b);; break_ pcAfter.
(** The cases [registers[rt] = f(registers[rs], extra)]. *)
Definition alui (i : Instruction) (pcAfter : Z) (f : Z → Z → Z) : M outcome :=
  a ← R (rs i); setR (rt i) (f a (extra i));; break_ pcAfter.
Definition b2z (b : bool) : Z := if b then 1 else 0.

Definition exec_ADDIU i pcAfter := alui i pcAfter (λ a x, s32 (a + x)).
Definition exec_ADDU i pcAfter := alu i pcAfter (λ a b, s32 (a + b)).
Definition exec_AND i pcAfter := alu i pcAfter Z.land.
Definition exec_ANDI i pcAfter := alui i pcAfter (λ a x, Z.land a (Z.land x 65535)).
Definition exec_NOR i pcAfter := alu i pcAfter (λ a b, Z.lnot (Z.lor a b)).
(** As written: both operands are [registers[instr->rs]]. *)
Definition exec_OR i pcAfter := alu i pcAfter (λ a _, Z.lor a a).
Definition exec_ORI i pcAfter := alui i pcAfter (λ a x, Z.lor a (Z.land x 65535)).
Definition exec_XOR i pcAfter := alu i pcAfter Z.lxor.
Definition exec_XORI i pcAfter := alui i pcAfter (λ a x, Z.lxor a (Z.land x 65535)).
Definition exec_SUBU i pcAfter := alu i pcAfter (λ a b, s32 (a - b)).
Definition exec_SLT i pcAfter := alu i pcAfter (λ a b, b2z (a <? b)).
Definition exec_SLTI i pcAfter := alui i pcAfter (λ a x, b2z (a <? x)).
Definition exec_SLTIU i pcAfter := alui i pcAfter (λ a x, b2z (u32 a <? u32 x)).
Definition exec_SLTU i pcAfter := alu i pcAfter (λ a b, b2z (u32 a <? u32 b)).
Definition exec_SLL i pcAfter := alu i pcAfter (λ _ b, s32 (Z.shiftl b (extra i))).
Definition exec_SLLV i pcAfter := alu i pcAfter (λ a b, s32 (Z.shiftl b (Z.land a 31))).
Definition exec_SRA i pcAfter := alu i pcAfter (λ _ b, Z.shiftr b (extra i)).
Definition exec_SRAV i pcAfter := alu i pcAfter (λ a b, Z.shiftr b (Z.land a 31)).
(** [tmp] is an [int]: the right shifts of SRL and SRLV are arithmetic. *)
Definition exec_SRL i pcAfter := alu i pcAfter (λ _ b, Z.shiftr b (extra i)).
Definition exec_SRLV i pcAfter := alu i pcAfter (λ a b, Z.shiftr b (Z.land a 31)).
Definition exec_LUI (i : Instruction) (pcAfter : Z) : M outcome :=
  setR (rt i) (s32 (Z.shiftl (extra i) 16));; break_ pcAfter.

(** *** Multiplication, division, [Hi] and [Lo] *)
Definition exec_DIV (i : Instruction) (pcAfter : Z) : M outcome :=
  b ← R (rt i);
  (if b =? 0 then setR LoReg 0;; setR HiReg 0
   else
     a ← R (rs i);
     (* the quotient of INT_MIN by -1 does not fit *)
     if (a =? - 2 ^ 31) && (b =? -1) then lift (Stop Undefined)
     else setR LoReg (Z.quot a b);; setR HiReg (Z.rem a b));;
  break_ pcAfter.
Definition exec_DIVU (i : Instruction) (pcAfter : Z) : M outcome :=
  a ← R (rs i); b ← R (rt i);
  (if u32 b =? 0 then setR LoReg 0;; setR HiReg 0
   else setR LoReg (s32 (u32 a / u32 b));; setR HiReg (s32 (u32 a mod u32 b)));;
  break_ pcAfter.
Definition exec_MULT (signedArith : bool) (i : Instruction) (pcAfter : Z) : M outcome :=
  a ← R (rs i); b ← R (rt i);
  let '(hi, lo) := Mult a b signedArith in
  setR HiReg hi;; setR LoReg lo;; break_ pcAfter.
Definition exec_move (dst src pcAfter : Z) : M outcome :=
  v ← R src; setR dst v;; break_ pcAfter.

(** *** Branches and jumps *)
Definition branch (i : Instruction) (pcAfter : Z) (taken : bool) : M outcome :=
  if taken then npc ← R NextPCReg; break_ (s32 (npc + IndexToAddr (extra i))) else break_ pcAfter.
(** [registers[r] = registers[NextPCReg] + 4], the return address. *)
Definition link (r : Z) : M () := npc ← R NextPCReg; setR r (s32 (npc + 4)).
Definition exec_BEQ i pcAfter : M outcome :=
  a ← R (rs i); b ← R (rt i); branch i pcAfter (a =? b).
Definition exec_BNE i pcAfter : M outcome :=
  a ← R (rs i); b ← R (rt i); branch i pcAfter (negb (a =? b)).
Definition exec_BGEZ i pcAfter : M outcome := a ← R (rs i); branch i pcAfter (negb (sign a)).
Definition exec_BGEZAL i pcAfter : M outcome := link R31;; exec_BGEZ i pcAfter.
Definition exec_BLTZ i pcAfter : M outcome := a ← R (rs i); branch i pcAfter (sign a).
Definition exec_BLTZAL i pcAfter : M outcome := link R31;; exec_BLTZ i pcAfter.
Definition exec_BGTZ i pcAfter : M outcome := a ← R (rs i); branch i pcAfter (0 <? a).
Definition exec_BLEZ i pcAfter : M outcome := a ← R (rs i); branch i pcAfter (a <=? 0).
Definition exec_J (i : Instruction) (pcAfter : Z) : M outcome :=
  break_ (s32 (Z.lor (Z.land (u32 pcAfter) 4026531840) (u32 (IndexToAddr (extra i))))).
Definition exec_JAL i pcAfter : M outcome := link R31;; exec_J i pcAfter.
Definition exec_JR (i : Instruction) (_ : Z) : M outcome := a ← R (rs i); break_ a.
Definition exec_JALR i pcAfter : M outcome := link (rd i);; exec_JR i pcAfter.

(** *** Loads and stores *)
Definition effective (i : Instruction) : M Z := a ← R (rs i); mret (s32 (a + extra i)).
Definition read_mem (addr size : Z) : M (option Z) := liftM (ReadMem addr size).
Definition write_mem (addr size v : Z) : M bool := liftM (WriteMem addr size v).

Definition exec_LB (i : Instruction) (pcAfter : Z) : M outcome :=
  tmp ← effective i;
  o ← read_mem tmp 1;
  match o with
  | None => return_
  | Some v =>
      load_ pcAfter (rt i)
        (if nonzero (Z.land v 128) && bool_decide (opCode i = OP_LB)
         then s32 (Z.lor v 4294967040) else Z.land v 255)
  end.
Definition exec_LH (i : Instruction) (pcAfter : Z) : M outcome :=
  tmp ← effective i;
  if nonzero (Z.land tmp 1) then raise_ AddressErrorException tmp
  else
    o ← read_mem tmp 2;
    match o with
    | None => return_
    | Some v =>
        load_ pcAfter (rt i)
          (if nonzero (Z.land v 32768) && bool_decide (opCode i = OP_LH)
           then s32 (Z.lor v 4294901760) else Z.land v 65535)
    end.
Definition exec_LW (i : Instruction) (pcAfter : Z) : M outcome :=
  tmp ← effective i;
  if nonzero (Z.land tmp 3) then raise_ AddressErrorException tmp
  else
    o ← read_mem tmp 4;
    match o with None => return_ | Some v => load_ pcAfter (rt i) v end.

(** The value LWL and LWR merge into: a pending load of [rt], or [rt]. *)
Definition merge_base (i : Instruction) : M Z :=
  l ← R LoadReg; if l =? rt i then R LoadValueReg else R (rt i).
Definition merge_LWL (sel base v : Z) : Z :=
  if sel =? 0 then v
  else if sel =? 1 then s32 (Z.lor (Z.land base 255) (Z.shiftl v 8))
  else if sel =? 2 then s32 (Z.lor (Z.land base 65535) (Z.shiftl v 16))
  else s32 (Z.lor (Z.land base 16777215) (Z.shiftl v 24)).
Definition merge_LWR (sel base v : Z) : Z :=
  if sel =? 0 then s32 (Z.lor (Z.land base 4294967040) (Z.land (Z.shiftr v 24) 255))
  else if sel =? 1 then s32 (Z.lor (Z.land base 4294901760) (Z.land (Z.shiftr v 16) 65535))
  else if sel =? 2 then s32 (Z.lor (Z.land base 4278190080) (Z.land (Z.shiftr v 8) 16777215))
  else v.
Definition exec_LWx (merge : Z → Z → Z → Z) (i : Instruction) (pcAfter : Z) : M outcome :=
  tmp ← effective i;
  lift (ASSERT (Z.land tmp 3 =? 0));;
  o ← read_mem tmp 4;
  match o with
  | None => return_
  | Some v => base ← merge_base i; load_ pcAfter (rt i) (merge (Z.land tmp 3) base v)
  end.

Definition exec_store (size : Z) (i : Instruction) (pcAfter : Z) : M outcome :=
  tmp ← effective i;
  v ← R (rt i);
  ok ← write_mem tmp size v;
  if (ok : bool) then break_ pcAfter else return_.
Definition merge_SWL (sel v r : Z) : Z :=
  if sel =? 0 then r
  else if sel =? 1 then s32 (Z.lor (Z.land v 4278190080) (Z.land (Z.shiftr r 8) 16777215))
  else if sel =? 2 then s32 (Z.lor (Z.land v 4294901760) (Z.land (Z.shiftr r 16) 65535))
  else s32 (Z.lor (Z.land v 4294967040) (Z.land (Z.shiftr r 24) 255)).
Definition merge_SWR (sel v r : Z) : Z :=
  if sel =? 0 then s32 (Z.lor (Z.land v 16777215) (Z.shiftl r 24))
  else if sel =? 1 then s32 (Z.lor (Z.land v 65535) (Z.shiftl r 16))
  else if sel =? 2 then s32 (Z.lor (Z.land v 255) (Z.shiftl r 8))
  else r.
Definition exec_SWx (merge : Z → Z → Z → Z) (i : Instruction) (pcAfter : Z) : M outcome :=
  tmp ← effective i;
  lift (ASSERT (Z.land tmp 3 =? 0));;
  let word := Z.land tmp (Z.lnot 3) in
  o ← read_mem word 4;
  match o with
  | None => return_
  | Some v =>
      r ← R (rt i);
      ok ← write_mem word 4 (merge (Z.land tmp 3) v r);
      if (ok : bool) then break_ pcAfter else return_
  end.

(** *** The [switch] *)
Definition execute (i : Instruction) (pcAfter : Z) : M outcome :=
  match opCode i with
  | OP_ADD => exec_ADD i pcAfter
  | OP_ADDI => exec_ADDI i pcAfter
  | OP_ADDIU => exec_ADDIU i pcAfter
  | OP_ADDU => exec_ADDU i pcAfter
  | OP_AND => exec_AND i pcAfter
  | OP_ANDI => exec_ANDI i pcAfter
  | OP_BEQ => exec_BEQ i pcAfter
  | OP_BGEZAL => exec_BGEZAL i pcAfter
  | OP_BGEZ => exec_BGEZ i pcAfter
  | OP_BGTZ => exec_BGTZ i pcAfter
  | OP_BLEZ => exec_BLEZ i pcAfter
  | OP_BLTZAL => exec_BLTZAL i pcAfter
  | OP_BLTZ => exec_BLTZ i pcAfter
  | OP_BNE => exec_BNE i pcAfter
  | OP_DIV => exec_DIV i pcAfter
  | OP_DIVU => exec_DIVU i pcAfter
  | OP_JAL => exec_JAL i pcAfter
  | OP_J => exec_J i pcAfter
  | OP_JALR => exec_JALR i pcAfter
  | OP_JR => exec_JR i pcAfter
  | OP_LB | OP_LBU => exec_LB i pcAfter
  | OP_LH | OP_LHU => exec_LH i pcAfter
  | OP_LUI => exec_LUI i pcAfter
  | OP_LW => exec_LW i pcAfter
  | OP_LWL => exec_LWx merge_LWL i pcAfter
  | OP_LWR => exec_LWx merge_LWR i pcAfter
  | OP_MFHI => exec_move (rd i) HiReg pcAfter
  | OP_MFLO => exec_move (rd i) LoReg pcAfter
  | OP_MTHI => exec_move HiReg (rs i) pcAfter
  | OP_MTLO => exec_move LoReg (rs i) pcAfter
  | OP_MULT => exec_MULT true i pcAfter
  | OP_MULTU => exec_MULT false i pcAfter
  | OP_NOR => exec_NOR i pcAfter
  | OP_OR => exec_OR i pcAfter
  | OP_ORI => exec_ORI i pcAfter
  | OP_SB => exec_store 1 i pcAfter
  | OP_SH => exec_store 2 i pcAfter
  | OP_SLL => exec_SLL i pcAfter
  | OP_SLLV => exec_SLLV i pcAfter
  | OP_SLT => exec_SLT i pcAfter
  | OP_SLTI => exec_SLTI i pcAfter
  | OP_SLTIU => exec_SLTIU i pcAfter
  | OP_SLTU => exec_SLTU i pcAfter
  | OP_SRA => exec_SRA i pcAfter
  | OP_SRAV => exec_SRAV i pcAfter
  | OP_SRL => exec_SRL i pcAfter
  | OP_SRLV => exec_SRLV i pcAfter
  | OP_SUB => exec_SUB i pcAfter
  | OP_SUBU => exec_SUBU i pcAfter
  | OP_SW => exec_store 4 i pcAfter
  | OP_SWL => exec_SWx merge_SWL i pcAfter
  | OP_SWR => exec_SWx merge_SWR i pcAfter
  | OP_SYSCALL => raise_ SyscallException 0
  | OP_XOR => exec_XOR i pcAfter
  | OP_XORI => exec_XORI i pcAfter
  | OP_RES | OP_UNIMP => raise_ IllegalInstrException 0
  | OP_RFE | SPECIAL | BCOND => lift (ASSERT false);; return_
  end.

(** The end of [OneInstruction]: the delayed load and the program counters. *)
Definition finish_instruction (pcAfter nextLoadReg nextLoadValue : Z) : M () :=
  liftM (DelayedLoad nextLoadReg nextLoadValue);;
  pc ← R PCReg; setR PrevPCReg pc;;
  npc ← R NextPCReg; setR PCReg npc;;
  setR NextPCReg pcAfter;;
  liftM OneTick.

(** [Machine::OneInstruction]. *)
Definition OneInstruction : M () :=
  pc ← R PCReg;
  o ← read_mem pc 4;
  match o with
  | None => mret ()
  | Some raw =>
      i ← lift (Decode (u32 raw));
      npc ← R NextPCReg;
      r ← execute i (s32 (npc + 4));
      match r with
      | None => mret ()
      | Some (pcAfter, nextLoadReg, nextLoadValue) =>
          finish_instruction pcAfter nextLoadReg nextLoadValue
      end
  end.

(** [Machine::Run] for [n] rounds of its endless loop. *)
Fixpoint Run_loop (n : nat) : M () :=
  match n with
  | O => mret ()
  | S n' => OneInstruction;; liftM OneTick;; Run_loop n'
  end.
Definition Run (n : nat) : M () := liftM (setStatus UserMode);; Run_loop n.
End instructions.
