(* ===== verification/MipsProps.v ===== *)
(** * Correctness of the MIPS simulator

    The shift-and-add [Mult] computes the 64-bit product; the overflow tests of ADD,
    ADDI and SUB are exact; decoding is total and never produces an opcode the
    [switch] does not handle; the register file stays well formed; loads and
    branches take effect one instruction late.  The last section shows where two
    instructions deviate from the architecture. *)

From S2P Require Import Prelude Machine Paging UserMemory Mips.

(** ** Bits of machine words *)
Lemma nonzero_land1 a : nonzero (Z.land a 1) = Z.odd a.
Proof.
  unfold nonzero. change 1 with (Z.ones 1). rewrite Z.land_ones by lia. change (2 ^ 1) with 2.
  rewrite Zmod_odd. by destruct (Z.odd a).
Qed.

(** Masking with one bit tests it. *)
Lemma nonzero_land_bit x k : 0 ≤ k → nonzero (Z.land x (2 ^ k)) = Z.testbit x k.
Proof.
  intros Hk. unfold nonzero. rewrite <-(Z.shiftl_1_l k).
  destruct (Z.eqb_spec (Z.land x (Z.shiftl 1 k)) 0) as [E|E]; cbn [negb].
  - apply (f_equal (λ z, Z.testbit z k)) in E.
    rewrite Z.land_spec, testbit_shiftl1, Z.bits_0, bool_decide_true, andb_true_r in E by done. done.
  - destruct (Z.testbit x k) eqn:B; [done|]. exfalso. apply E. apply Z.bits_inj'. intros j Hj.
    rewrite Z.land_spec, testbit_shiftl1, Z.bits_0 by done. case_bool_decide as Hc; subst.
    + by rewrite B.
    + by rewrite andb_false_r.
Qed.

(** A value fits in an [int] when all its bits from bit 31 on agree. *)
Lemma is_s32_shiftr x : is_s32 x ↔ Z.shiftr x 31 = 0 ∨ Z.shiftr x 31 = -1.
Proof.
  unfold is_s32. rewrite Z.shiftr_div_pow2 by lia. change (2 ^ 31) with 2147483648.
  split; intros; Z.to_euclidean_division_equations; lia.
Qed.
Lemma is_s32_land x y : is_s32 x → is_s32 y → is_s32 (Z.land x y).
Proof. rewrite !is_s32_shiftr, Z.shiftr_land. by intros [-> | ->] [-> | ->]; auto. Qed.
Lemma is_s32_lor x y : is_s32 x → is_s32 y → is_s32 (Z.lor x y).
Proof. rewrite !is_s32_shiftr, Z.shiftr_lor. by intros [-> | ->] [-> | ->]; auto. Qed.
Lemma is_s32_lxor x y : is_s32 x → is_s32 y → is_s32 (Z.lxor x y).
Proof. rewrite !is_s32_shiftr, Z.shiftr_lxor. by intros [-> | ->] [-> | ->]; auto. Qed.
Lemma is_s32_lnot x : is_s32 x → is_s32 (Z.lnot x).
Proof. unfold is_s32, Z.lnot. lia. Qed.
Lemma is_s32_shr x n : is_s32 x → 0 ≤ n → is_s32 (Z.shiftr x n).
Proof.
  unfold is_s32. intros. rewrite Z.shiftr_div_pow2 by lia. pose proof (Z.pow_pos_nonneg 2 n).
  split; [apply Z.div_le_lower_bound|apply Z.div_lt_upper_bound]; nia.
Qed.
Lemma is_s32_mask x k : 0 ≤ k < 32 → is_s32 (Z.land x (Z.ones k)).
Proof.
  intros. rewrite Z.land_ones by lia. pose proof (Z.mod_pos_bound x (2 ^ k)).
  pose proof (Z.pow_pos_nonneg 2 k). assert (2 ^ k ≤ 2 ^ 31) by (apply Z.pow_le_mono_r; lia).
  unfold is_s32. lia.
Qed.
Lemma sign_spec x : is_s32 x → sign x = (x <? 0).
Proof.
  intros Hx. unfold sign, SIGN_BIT. change 2147483648 with (2 ^ 31).
  rewrite nonzero_land_bit by lia. rewrite <-(Z.add_0_l 31), <-Z.shiftr_spec by lia.
  apply is_s32_shiftr in Hx as Hs. unfold is_s32 in Hx.
  destruct Hs as [E|E]; rewrite E; cbn; rewrite Z.shiftr_div_pow2 in E by lia;
    change (2 ^ 31) with 2147483648 in *; destruct (Z.ltb_spec x 0); try done; exfalso;
    Z.to_euclidean_division_equations; lia.
Qed.
Lemma sign_lxor x y : is_s32 x → is_s32 y → sign (Z.lxor x y) = xorb (x <? 0) (y <? 0).
Proof.
  intros Hx Hy. rewrite sign_spec by (by apply is_s32_lxor).
  destruct (Z.ltb_spec (Z.lxor x y) 0) as [E|E], (Z.ltb_spec x 0), (Z.ltb_spec y 0); try done;
    exfalso.
  - assert (0 ≤ Z.lxor x y); [|lia]. apply Z.lxor_nonneg. lia.
  - assert (0 ≤ Z.lxor x y); [|lia]. apply Z.lxor_nonneg. lia.
  - apply Z.lxor_nonneg in E. lia.
  - apply Z.lxor_nonneg in E. lia.
Qed.

#[export] Hint Resolve is_s32_land is_s32_lor is_s32_lxor is_s32_lnot s32_range : nachos.

(** ** Multiplication *)

(** The double word [hi:lo]. *)
Definition dword (hi lo : Z) : Z := lo + 2 ^ 32 * hi.

Lemma add_carry lo hi bLo bHi :
  is_u32 lo → is_u32 hi → is_u32 bLo → is_u32 bHi →
  let lo' := u32 (lo + bLo) in
  let hi' := u32 ((if lo' <? bLo then u32 (hi + 1) else hi) + bHi) in
  is_u32 lo' ∧ is_u32 hi' ∧ dword hi' lo' = (dword hi lo + dword bHi bLo) mod 2 ^ 64.
Proof.
  intros H1 H2 H3 H4. cbv zeta. split; [apply u32_range|]. split; [apply u32_range|].
  unfold dword, u32, is_u32 in *. change (2 ^ 64) with (2 ^ 32 * 2 ^ 32).
  change (2 ^ 32) with 4294967296 in *.
  destruct (Z.ltb_spec ((lo + bLo) mod 4294967296) bLo); Z.to_euclidean_division_equations; lia.
Qed.

Lemma shift_dword bLo bHi :
  is_u32 bLo → is_u32 bHi →
  let bLo' := u32 (Z.shiftl bLo 1) in
  let bHi' := if nonzero (Z.land bLo 2147483648) then Z.lor (u32 (Z.shiftl bHi 1)) 1
              else u32 (Z.shiftl bHi 1) in
  is_u32 bLo' ∧ is_u32 bHi' ∧ dword bHi' bLo' = (2 * dword bHi bLo) mod 2 ^ 64.
Proof.
  intros H1 H2. cbv zeta. change 2147483648 with (2 ^ 31). rewrite nonzero_land_bit by lia.
  assert (Z.testbit bLo 31 = (2 ^ 31 <=? bLo)) as ->.
  { rewrite Z.testbit_odd, Z.shiftr_div_pow2 by lia. unfold is_u32 in H1.
    change (2 ^ 32) with 4294967296 in H1. change (2 ^ 31) with 2147483648.
    destruct (Z.leb_spec 2147483648 bLo).
    - assert (bLo / 2147483648 = 1) as -> by (Z.to_euclidean_division_equations; lia). done.
    - rewrite Z.div_small by lia. done. }
  assert (Z.lor (u32 (Z.shiftl bHi 1)) 1 = u32 (Z.shiftl bHi 1) + 1) as ->.
  { rewrite Z.shiftl_mul_pow2 by lia. change (2 ^ 1) with 2.
    assert (u32 (bHi * 2) = 2 * (u32 (bHi * 2) / 2)) as ->.
    { unfold u32. change (2 ^ 32) with 4294967296. Z.to_euclidean_division_equations; lia. }
    generalize (u32 (bHi * 2) / 2). intros x. assert (Z.land (2 * x) 1 = 0) as Hl.
    { change 1 with (Z.ones 1). rewrite Z.land_ones by lia. change (2 ^ 1) with 2.
      rewrite Z.mul_comm. apply Z.mod_mul. lia. }
    by rewrite Z.add_nocarry_lxor, Z.lxor_lor. }
  rewrite !Z.shiftl_mul_pow2 by lia. change (2 ^ 1) with 2. unfold dword, u32, is_u32 in *.
  change (2 ^ 64) with (2 ^ 32 * 2 ^ 32). change (2 ^ 32) with 4294967296 in *.
  change (2 ^ 31) with 2147483648.
  destruct (Z.leb_spec 2147483648 bLo); Z.to_euclidean_division_equations; lia.
Qed.

(** The test of the early exit: no other bit of [a] is set. *)
Lemma last_bit x : is_u32 x → Z.land x 4294967294 = 0 → x = 0 ∨ x = 1.
Proof.
  intros Hx E. apply (f_equal (λ z, Z.shiftr z 1)) in E. rewrite Z.shiftr_land in E.
  change (Z.shiftr 4294967294 1) with (Z.ones 31) in E. rewrite Z.land_ones in E by lia.
  rewrite Z.shiftr_div_pow2 in E by lia. change (Z.shiftr 0 1) with 0 in E.
  unfold is_u32 in Hx. change (2 ^ 32) with 4294967296 in Hx.
  change (2 ^ 31) with 2147483648 in E. change (2 ^ 1) with 2 in E.
  Z.to_euclidean_division_equations; lia.
Qed.

Lemma mod_pow2_step a n : a mod 2 ^ Z.of_nat (S n) = a mod 2 + 2 * (a / 2 mod 2 ^ Z.of_nat n).
Proof.
  rewrite Nat2Z.inj_succ, Z.pow_succ_r by lia. apply Z.rem_mul_r; [lia|].
  apply Z.pow_pos_nonneg; lia.
Qed.

Lemma mod_pow2_one a n : (n < 32)%nat → u32 a = 1 → a mod 2 ^ Z.of_nat (S n) = 1.
Proof.
  intros Hn Ha. replace (a mod 2 ^ Z.of_nat (S n)) with (u32 a mod 2 ^ Z.of_nat (S n)).
  - rewrite Ha, Z.mod_small; [done|]. split; [lia|]. apply Z.pow_gt_1; lia.
  - unfold u32. assert (2 ^ 32 = 2 ^ Z.of_nat (S n) * 2 ^ (32 - Z.of_nat (S n))) as ->
      by (rewrite <-Z.pow_add_r by lia; f_equal; lia).
    pose proof (Z.pow_pos_nonneg 2 (Z.of_nat (S n))).
    pose proof (Z.pow_pos_nonneg 2 (32 - Z.of_nat (S n))).
    rewrite Z.rem_mul_r, (Z.mul_comm (2 ^ Z.of_nat (S n))), Z.mod_add, Z.mod_mod by lia. done.
Qed.

Lemma Mult_loop_spec n a bLo bHi lo hi h l :
  (n ≤ 32)%nat → is_u32 bLo → is_u32 bHi → is_u32 lo → is_u32 hi →
  Mult_loop n a bLo bHi lo hi = (h, l) →
  is_u32 h ∧ is_u32 l ∧
  dword h l = (dword hi lo + dword bHi bLo * (a mod 2 ^ Z.of_nat n)) mod 2 ^ 64.
Proof.
  assert (0 < 2 ^ 64) as Hpos by lia.
  assert (∀ h l, is_u32 h → is_u32 l → dword h l mod 2 ^ 64 = dword h l) as Hsmall.
  { intros h0 l0. unfold is_u32, dword. change (2 ^ 64) with (2 ^ 32 * 2 ^ 32). intros.
    apply Z.mod_small. lia. }
  revert a bLo bHi lo hi.
  induction n as [|n IH]; intros a bLo bHi lo hi Hn B1 B2 L1 L2; cbn [Mult_loop].
  { intros [= <- <-]. split_and!; try done. by rewrite Z.mod_1_r, Z.mul_0_r, Z.add_0_r, Hsmall. }
  rewrite nonzero_land1. cbv zeta.
  destruct (shift_dword bLo bHi B1 B2) as (S1 & S2 & S3). cbv zeta in S1, S2, S3.
  pose proof (Zmod_odd a) as Hodd. rewrite Z.shiftr_div_pow2 by lia. change (2 ^ 1) with 2.
  destruct (Z.odd a).
  - destruct (add_carry lo hi bLo bHi L1 L2 B1 B2) as (A1 & A2 & A3). cbv zeta in A1, A2, A3.
    cbn [andb]. destruct (Z.eqb_spec (Z.land (u32 a) 4294967294) 0) as [E|E].
    + intros [= <- <-]. split_and!; try done. rewrite A3. do 2 f_equal.
      apply last_bit in E; [|apply u32_range]. destruct E as [E|E].
      * exfalso. unfold u32 in E. change (2 ^ 32) with 4294967296 in E.
        Z.to_euclidean_division_equations; lia.
      * rewrite mod_pow2_one by (done || lia). lia.
    + intros Hl. apply IH in Hl as (? & ? & Hd); try done; [|lia]. split_and!; try done.
      rewrite Hd, A3, S3, mod_pow2_step, Hodd.
      rewrite Z.add_mod_idemp_l, <-Z.add_mod_idemp_r, Z.mul_mod_idemp_l, Z.add_mod_idemp_r by lia.
      f_equal. lia.
  - cbn [andb]. intros Hl. apply IH in Hl as (? & ? & Hd); try done; [|lia]. split_and!; try done.
    rewrite Hd, S3, mod_pow2_step, Hodd.
    rewrite <-Z.add_mod_idemp_r, Z.mul_mod_idemp_l, Z.add_mod_idemp_r by lia. f_equal. lia.
Qed.

(** Two's complement of the double word. *)
Lemma negate_dword hi lo :
  is_u32 hi → is_u32 lo →
  let hi' := u32 (Z.lnot hi) in
  let lo' := u32 (u32 (Z.lnot lo) + 1) in
  dword (if lo' =? 0 then u32 (hi' + 1) else hi') lo' = (- dword hi lo) mod 2 ^ 64 ∧
  is_u32 (if lo' =? 0 then u32 (hi' + 1) else hi') ∧ is_u32 lo'.
Proof.
  intros H1 H2. cbv zeta. split; [|split; [destruct (_ =? _)|]; apply u32_range].
  unfold dword, u32, is_u32, Z.lnot in *. change (2 ^ 64) with (2 ^ 32 * 2 ^ 32).
  change (2 ^ 32) with 4294967296 in *.
  destruct (Z.eqb_spec (((Z.pred (- lo)) mod 4294967296 + 1) mod 4294967296) 0);
    Z.to_euclidean_division_equations; lia.
Qed.

(** Splitting a 64-bit product into the two registers. *)
Lemma split_dword h l P :
  is_u32 h → is_u32 l → dword h l = P mod 2 ^ 64 →
  s32 h = s32 (P / 2 ^ 32) ∧ s32 l = s32 P.
Proof.
  intros Hh Hl E. assert (u32 P = l ∧ u32 (P / 2 ^ 32) = h) as [<- <-].
  { unfold dword, is_u32, u32 in *. change (2 ^ 64) with (2 ^ 32 * 2 ^ 32) in E.
    change (2 ^ 32) with 4294967296 in *. Z.to_euclidean_division_equations; lia. }
  by rewrite !s32_u32.
Qed.

Lemma abs_word x : is_s32 x → u32 (if x <? 0 then s32 (- x) else x) = Z.abs x.
Proof.
  unfold is_s32. intros Hx. destruct (Z.ltb_spec x 0).
  - rewrite u32_s32, u32_small; unfold is_u32; lia.
  - rewrite u32_small; unfold is_u32; lia.
Qed.

Lemma Mult_ok a b (signedArith : bool) :
  is_s32 a → is_s32 b →
  let P := if signedArith then a * b else u32 a * u32 b in
  Mult a b signedArith = (s32 (P / 2 ^ 32), s32 P).
Proof.
  intros Ha Hb P. unfold Mult.
  destruct (Z.eqb_spec a 0) as [->|Ha0]; [unfold P; by destruct signedArith|].
  destruct (Z.eqb_spec b 0) as [->|Hb0]; cbn [orb].
  { unfold P. change (u32 0) with 0. rewrite !Z.mul_0_r. by destruct signedArith. }
  set (a' := if signedArith && (a <? 0) then s32 (- a) else a).
  set (b' := if signedArith && (b <? 0) then s32 (- b) else b).
  destruct (Mult_loop 32 a' (u32 b') 0 0 0) as [h l] eqn:E.
  apply Mult_loop_spec in E as (Hh & Hl & Hd);
    [|lia|apply u32_range|unfold is_u32; lia..].
  replace (dword 0 0 + dword 0 (u32 b') * (a' mod 2 ^ Z.of_nat 32)) with (u32 a' * u32 b') in Hd
    by (unfold dword, u32; change (2 ^ Z.of_nat 32) with (2 ^ 32); lia).
  destruct signedArith; cbn [andb] in *.
  - unfold a', b' in Hd. rewrite !abs_word in Hd by done.
    destruct (negate_dword h l Hh Hl) as (Hn & Hn1 & Hn2). cbv zeta in Hn, Hn1, Hn2. unfold P.
    destruct (Z.ltb_spec a 0), (Z.ltb_spec b 0); cbn [xorb].
    2,3: destruct (split_dword _ _ (a * b) Hn1 Hn2) as [-> ->]; [|done];
      rewrite Hn, Hd, <-(Z.sub_0_l (_ mod _)), Zminus_mod_idemp_r; f_equal; lia.
    all: destruct (split_dword h l (a * b) Hh Hl) as [-> ->]; [|done]; rewrite Hd; f_equal; lia.
  - destruct (split_dword h l _ Hh Hl Hd) as [-> ->]. done.
Qed.

(** ** Decoding *)

(** The opcodes the [switch] has a case for, and those that shift by [extra]. *)
Definition handled (op : OpCode) : bool :=
  match op with OP_RFE | SPECIAL | BCOND => false | _ => true end.
Definition shifts (op : OpCode) : bool :=
  match op with OP_SLL | OP_SRA | OP_SRL => true | _ => false end.

Lemma opTable_entries :
  Forall (λ e, e = (SPECIAL, RFMT) ∨ e.1 = BCOND ∨ (handled e.1 = true ∧ shifts e.1 = false)) opTable.
Proof. unfold opTable. repeat (apply Forall_cons_2; [cbn; auto|]). apply Forall_nil_2. Qed.
Lemma specialTable_entries : Forall (λ op, handled op = true) specialTable.
Proof. repeat constructor. Qed.

Lemma mask_range x k : 0 ≤ k → 0 ≤ Z.land x (Z.ones k) < 2 ^ k.
Proof. intros. rewrite Z.land_ones by done. apply Z.mod_pos_bound, Z.pow_pos_nonneg; lia. Qed.

(** The fields of a decoded instruction are in range. *)
Record decoded (i : Instruction) : Prop := {
  dc_rs : 0 ≤ rs i < 32;
  dc_rt : 0 ≤ rt i < 32;
  dc_rd : 0 ≤ rd i < 32;
  dc_extra : is_s32 (extra i);
  dc_handled : handled (opCode i) = true;
  dc_shift : shifts (opCode i) = true → 0 ≤ extra i < 32
}.

Lemma Decode_ok v : ∃ i, Decode v = Ok i ∧ value i = v ∧ decoded i.
Proof.
  unfold Decode. change 63 with (Z.ones 6). change 31 with (Z.ones 5).
  change 65535 with (Z.ones 16). change 67108863 with (Z.ones 26).
  destruct (znth_range opTable (Z.land (Z.shiftr v 26) (Z.ones 6))) as [[op f] Hop];
    [exact (mask_range _ 6 ltac:(lia))|].
  destruct (znth_range specialTable (Z.land v (Z.ones 6))) as [sop Hsop];
    [exact (mask_range _ 6 ltac:(lia))|].
  rewrite (proj2 (aget_Ok _ _ _) Hop). cbn [mbind result_bind fst snd].
  pose proof (Forall_znth _ _ _ _ opTable_entries Hop) as He. cbn [fst snd] in He.
  pose proof (Forall_znth _ _ _ _ specialTable_entries Hsop) as Hs. cbn in Hs.
  pose proof (mask_range (Z.shiftr v 21) 5 ltac:(lia)). pose proof (mask_range (Z.shiftr v 16) 5 ltac:(lia)).
  pose proof (mask_range (Z.shiftr v 11) 5 ltac:(lia)). pose proof (mask_range (Z.shiftr v 6) 5 ltac:(lia)).
  set (ex := match f with IFMT => _ | _ => _ end).
  assert (is_s32 ex) as Hex.
  { unfold ex. destruct f; [case_match; [apply s32_range|]|..]; apply is_s32_mask; lia. }
  destruct He as [[= -> ->]|[->|[Hh Hsh]]].
  - rewrite (proj2 (aget_Ok _ _ _) Hsop). cbn [mbind result_bind].
    eexists. split; [reflexivity|]. split; [done|]. split; cbn; auto.
  - cbn [mbind result_bind]. eexists. split; [reflexivity|]. split; [done|].
    split; cbn; auto; repeat case_match; done.
  - destruct op; try discriminate Hh; cbn [mbind result_bind];
      (eexists; split; [reflexivity|]; split; [done|]; split; cbn; auto; done).
Qed.

(** ** Overflow *)

(** When the operands have one sign and the sum another, the sum overflowed. *)
Lemma add_overflow x y :
  is_s32 x → is_s32 y →
  negb (xorb (x <? 0) (y <? 0)) && xorb (x <? 0) (s32 (x + y) <? 0) =
    negb (bool_decide (is_s32 (x + y))) ∧
  negb (xorb (x <? 0) (y <? 0)) && xorb (y <? 0) (s32 (x + y) <? 0) =
    negb (bool_decide (is_s32 (x + y))).
Proof.
  intros Hx Hy. unfold is_s32, s32 in *. change (2 ^ 32) with 4294967296.
  change (2 ^ 31) with 2147483648 in *.
  case_bool_decide; destruct (Z.ltb_spec x 0), (Z.ltb_spec y 0),
    (Z.ltb_spec ((x + y + 2147483648) mod 4294967296 - 2147483648) 0);
    cbn; (split; [|done]) || split; try done; exfalso; Z.to_euclidean_division_equations; lia.
Qed.
Lemma sub_overflow x y :
  is_s32 x → is_s32 y →
  xorb (x <? 0) (y <? 0) && xorb (x <? 0) (s32 (x - y) <? 0) =
    negb (bool_decide (is_s32 (x - y))).
Proof.
  intros Hx Hy. unfold is_s32, s32 in *. change (2 ^ 32) with 4294967296.
  change (2 ^ 31) with 2147483648 in *.
  case_bool_decide; destruct (Z.ltb_spec x 0), (Z.ltb_spec y 0),
    (Z.ltb_spec ((x - y + 2147483648) mod 4294967296 - 2147483648) 0);
    cbn; try done; exfalso; Z.to_euclidean_division_equations; lia.
Qed.

(** ** Running one step *)
Section running_instructions.
Context `{InterruptOps} {OS : Type} `{TrapOps OS}.
Implicit Types (s : Machine * OS).

Abbreviation regs s := (registers s.1).
Definition put_regs s r : Machine * OS := (set_registers s.1 r, s.2).

Lemma R_step i s v : znth (regs s) i = Some v → R i s = Ok (v, s).
Proof. intros Hv. unfold R, liftM. rewrite (reg_step _ _ _ Hv). by destruct s. Qed.
Lemma setR_step i v s :
  0 ≤ i < zlen (regs s) → setR i v s = Ok ((), put_regs s (zset (regs s) i v)).
Proof. intros Hi. unfold setR, liftM. by rewrite (set_reg_step _ _ _ Hi). Qed.

(** C32: The overflow tests of ADD, ADDI and SUB, written with exclusive ors of sign
    bits, are exact: the exception is raised when, and only when, the true result
    does not fit in 32 bits; otherwise the destination gets the true result. *)
Theorem overflow_exact i pcAfter s a b :
  znth (regs s) (rs i) = Some a → znth (regs s) (rt i) = Some b →
  is_s32 a → is_s32 b → is_s32 (extra i) →
  exec_ADD i pcAfter s =
    (if decide (- 2 ^ 31 ≤ a + b < 2 ^ 31) then setR (rd i) (a + b);; break_ pcAfter
     else raise_ OverflowException 0) s ∧
  exec_ADDI i pcAfter s =
    (if decide (- 2 ^ 31 ≤ a + extra i < 2 ^ 31) then setR (rt i) (a + extra i);; break_ pcAfter
     else raise_ OverflowException 0) s ∧
  exec_SUB i pcAfter s =
    (if decide (- 2 ^ 31 ≤ a - b < 2 ^ 31) then setR (rd i) (a - b);; break_ pcAfter
     else raise_ OverflowException 0) s.
Proof.
  intros Hra Hrb Ha Hb Hx. unfold exec_ADD, exec_ADDI, exec_SUB. cbv zeta. split_and!.
  - step (R_step _ _ _ Hra). step (R_step _ _ _ Hrb). rewrite !sign_lxor by auto with nachos.
    rewrite (proj1 (add_overflow a b Ha Hb)). fold (is_s32 (a + b)).
    destruct (decide (is_s32 (a + b))) as [E|E]; [|by rewrite bool_decide_false].
    by rewrite bool_decide_true, s32_small.
  - step (R_step _ _ _ Hra). rewrite !sign_lxor by auto with nachos.
    rewrite (proj2 (add_overflow a (extra i) Ha Hx)). fold (is_s32 (a + extra i)).
    destruct (decide (is_s32 (a + extra i))) as [E|E]; [|by rewrite bool_decide_false].
    by rewrite bool_decide_true, s32_small.
  - step (R_step _ _ _ Hra). step (R_step _ _ _ Hrb). rewrite !sign_lxor by auto with nachos.
    rewrite (sub_overflow a b Ha Hb). fold (is_s32 (a - b)).
    destruct (decide (is_s32 (a - b))) as [E|E]; [|by rewrite bool_decide_false].
    by rewrite bool_decide_true, s32_small.
Qed.
End running_instructions.

(** ** Routines that leave the registers alone *)
Definition keeps {A} (m : MM A) : Prop := ∀ s x s', m s = Ok (x, s') → registers s' = registers s.

Create HintDb keeps.
Section keeping.
Lemma keeps_bind {A B} (m : MM A) (f : A → MM B) : keeps m → (∀ x, keeps (f x)) → keeps (m ≫= f).
Proof.
  intros Hm Hf s x s' HE. apply ST_bind_Ok in HE as (y & s1 & E1 & E2).
  rewrite (Hf _ _ _ _ E2). by apply (Hm _ _ _ E1).
Qed.
Lemma keeps_ret {A} (x : A) : keeps (mret x).
Proof. by intros s y s' [= <- <-]. Qed.
Lemma keeps_lift {A} (m : result A) : keeps (lift m).
Proof. intros s x s'. unfold lift. destruct m; [by intros [= <- <-]|done]. Qed.
Lemma keeps_state {A} (f : Machine → MM A) :
  (∀ s, keeps (f s)) → keeps (s ← getS; f s).
Proof. intros Hf s x s'. erewrite ST_step by reflexivity. apply Hf. Qed.

Lemma keeps_tlb_get i : keeps (tlb_get i).
Proof. apply keeps_state. intros s. apply keeps_lift. Qed.
Lemma keeps_frame_get i : keeps (frame_get i).
Proof. apply keeps_state. intros s. apply keeps_lift. Qed.
Lemma keeps_space_get i : keeps (space_get i).
Proof. apply keeps_state. intros s. apply keeps_lift. Qed.

(** A step [s ← getS; ...; putS (g s)] where [g] keeps the registers. *)
Lemma keeps_update {A} (m : Machine → result A) (g : Machine → A → Machine) :
  (∀ s x, registers (g s x) = registers s) →
  keeps (s ← getS; x ← lift (m s); putS (g s x)).
Proof.
  intros Hg s x s'. erewrite ST_step by reflexivity. cbv beta. intros HE.
  apply ST_bind_Ok in HE as (y & s1 & E1 & E2). unfold lift in E1. destruct (m s); [|done].
  injection E1 as <- <-. injection E2 as _ <-. apply Hg.
Qed.
Lemma keeps_tlb_upd i f : keeps (tlb_upd i f).
Proof. by apply (keeps_update (λ s, aget (tlb s) i) (λ s e, set_tlb s (zset (tlb s) i (f e)))). Qed.
Lemma keeps_frame_upd i f : keeps (frame_upd i f).
Proof.
  by apply (keeps_update (λ s, aget (PhysicalPageTable s) i)
    (λ s e, set_frames s (zset (PhysicalPageTable s) i (f e)))).
Qed.
Lemma keeps_space_put i a : keeps (space_put i a).
Proof. by apply (keeps_update (λ s, aset (spaces s) i a) set_spaces). Qed.
Lemma keeps_cur_table : keeps cur_table.
Proof. apply keeps_state. intros s. case_match; [apply keeps_ret|apply keeps_lift]. Qed.
Lemma keeps_thread_space t : keeps (thread_space t).
Proof.
  apply keeps_state. intros s. apply keeps_bind; [apply keeps_lift|]. intros [sp|];
    [apply keeps_ret|apply keeps_lift].
Qed.
End keeping.

#[export] Hint Resolve keeps_ret keeps_lift keeps_tlb_get keeps_frame_get keeps_space_get
  keeps_tlb_upd keeps_frame_upd keeps_space_put keeps_cur_table keeps_thread_space : keeps.

(** Walks through a routine; the pieces are in the hint database. *)
Ltac keeping :=
  repeat match goal with
  | |- keeps (getS ≫= _) => apply keeps_state; intros ?
  | |- keeps (_ ≫= _) => apply keeps_bind; [|intros ?]
  | |- keeps (match ?x with _ => _ end) => destruct x
  | |- keeps (let _ := _ in _) => cbv zeta
  | |- _ => solve [auto with keeps nocore]
  end.

Lemma keeps_entry_upd sp i f : keeps (entry_upd sp i f).
Proof. unfold entry_upd. keeping. Qed.
Lemma keeps_entry_get sp i : keeps (entry_get sp i).
Proof. unfold entry_get. keeping. Qed.
#[export] Hint Resolve keeps_entry_upd keeps_entry_get : keeps.
Lemma keeps_pt_upd i f : keeps (pt_upd i f).
Proof. unfold pt_upd. keeping. Qed.
Lemma keeps_pt_get i : keeps (pt_get i).
Proof. unfold pt_get. keeping. Qed.
Lemma keeps_page_out sp v k : keeps (page_out sp v k).
Proof. unfold page_out. keeping. Qed.
Lemma keeps_page_in sp v k : keeps (page_in sp v k).
Proof.
  unfold page_in. intros s x s'. erewrite ST_step by reflexivity. cbv beta. intros HE.
  apply ST_bind_Ok in HE as (a & s1 & E1 & HE). pose proof (keeps_space_get _ _ _ _ E1) as K1.
  apply ST_bind_Ok in HE as (b & s2 & E2 & HE). apply ST_bind_Ok in HE as (mm & s3 & E3 & HE).
  by injection HE as _ <-.
Qed.
Lemma keeps_for_in l body : (∀ i, keeps (body i)) → keeps (for_in l body).
Proof. intros Hb. induction l; cbn [for_in]; keeping; auto. Qed.
#[export] Hint Resolve keeps_pt_upd keeps_pt_get keeps_page_out keeps_page_in keeps_for_in : keeps.
Lemma keeps_evict k f : keeps (evict k f).
Proof. unfold evict, tlb_flush. keeping. Qed.
#[export] Hint Resolve keeps_evict : keeps.
Lemma keeps_Allocate v : keeps (AllocatePhysicalPage v).
Proof. unfold AllocatePhysicalPage. keeping. Qed.
#[export] Hint Resolve keeps_Allocate : keeps.
Lemma keeps_refill key va : keeps (refill_TLB key va).
Proof. unfold refill_TLB. keeping. Qed.
Lemma keeps_Translate va size w : keeps (Translate va size w).
Proof.
  unfold Translate. case_match; [apply keeps_ret|]. intros s x s'.
  erewrite ST_step by reflexivity. cbv beta. destruct (tlb_find _ _ _) as [i|].
  - erewrite ST_step by reflexivity. cbv beta.
    intros HE. change (registers s) with (registers (set_counts s (TLBHit s + 1) (TLBMiss s))).
    revert HE. revert x s'. generalize (set_counts s (TLBHit s + 1) (TLBMiss s)) as s1.
    intros s1 x s'. refine ((_ : keeps _) s1 x s'). keeping.
  - intros HE. apply ST_bind_Ok in HE as ([] & s1 & E1 & E2). injection E1 as <-.
    by injection E2 as _ <-.
Qed.
#[export] Hint Resolve keeps_refill keeps_Translate : keeps.

(** ** The register file stays well formed *)

(** Inside an instruction register 0 may be written; [z] tells that it is zero. *)
Record regs_inv (z : bool) (r : list Z) : Prop := {
  ri_len : zlen r = NumTotalRegs;
  ri_s32 : Forall is_s32 r;
  ri_zero : z = true → znth r 0 = Some 0;
  ri_load : ∃ n, znth r LoadReg = Some n ∧ 0 ≤ n < 32
}.
Lemma regs_inv_ok r : regs_inv true r ↔ regs_ok r.
Proof. split; intros []; by split; auto. Qed.
Lemma regs_inv_weaken z r : regs_inv z r → regs_inv false r.
Proof. intros []. by split. Qed.

(** What an instruction relies on in the kernel it traps into: it returns with the
    registers well formed.  Two kernels obey it: [bare_traps] below, which serves memory
    faults only, and the handler of exception.cc ([full_laws] of Exception.v). *)
Class TrapLaws (OS : Type) `{TrapOps OS} :=
  RaiseException_regs : ∀ which va (s s' : Machine * OS), is_s32 va →
    RaiseException which va s = Ok ((), s') → regs_ok (registers s.1) → regs_ok (registers s'.1).

Section register_file.
Context `{InterruptOps, !InterruptLaws} {OS : Type} `{TrapOps OS, !TrapLaws OS}.

(** Partial-correctness triples on the registers. *)
Definition spec {A} (P : list Z → Prop) (m : ST (Machine * OS) A) (Q : A → list Z → Prop) : Prop :=
  ∀ s x s', m s = Ok (x, s') → P (registers s.1) → Q x (registers s'.1).

Lemma spec_bind {A B} P (m : ST (Machine * OS) A) Q (f : A → ST (Machine * OS) B) Q' :
  spec P m Q → (∀ x, spec (Q x) (f x) Q') → spec P (m ≫= f) Q'.
Proof.
  intros Hm Hf s x s' HE HP. apply ST_bind_Ok in HE as (y & s1 & E1 & E2).
  apply (Hf _ _ _ _ E2). by apply (Hm _ _ _ E1).
Qed.
Lemma spec_ret {A} (P : list Z → Prop) (x : A) (Q : A → list Z → Prop) :
  (∀ r, P r → Q x r) → spec P (mret x) Q.
Proof. intros HQ s y s' [= <- <-]. apply HQ. Qed.
Lemma spec_pre {A} (φ : Prop) P (m : ST (Machine * OS) A) Q :
  (φ → spec P m Q) → spec (λ r, P r ∧ φ) m Q.
Proof. intros Hm s x s' HE [HP Hφ]. by apply (Hm Hφ s). Qed.
Lemma spec_weaken {A} (P P' : list Z → Prop) (m : ST (Machine * OS) A) Q :
  (∀ r, P' r → P r) → spec P m Q → spec P' m Q.
Proof. intros HP Hm s x s' HE HP'. by apply (Hm s), HP. Qed.

Lemma spec_R z i : spec (regs_inv z) (R i) (λ v r, regs_inv z r ∧ is_s32 v).
Proof.
  intros s x s' HE HP. unfold R, liftM, reg in HE. erewrite ST_step in HE by reflexivity.
  unfold lift in HE. destruct (aget (registers s.1) i) as [v|] eqn:Ev; [|done].
  injection HE as <- <-. cbn. split; [done|]. apply aget_Ok in Ev.
  by apply (Forall_znth _ _ _ _ (ri_s32 _ _ HP) Ev).
Qed.
Lemma spec_setR z i v :
  is_s32 v → i ≠ LoadReg → spec (regs_inv z) (setR i v) (λ _, regs_inv false).
Proof.
  intros Hv Hi s x s' HE [Hl Hs _ (n & Hn & Hr)]. unfold setR, liftM, set_reg in HE.
  erewrite ST_step in HE by reflexivity.
  unfold lift in HE. destruct (aset (registers s.1) i v) as [r|] eqn:Er; cbn in HE; [|done].
  injection HE as <- <-. cbn. apply aset_Ok in Er as [_ ->]. split; [by rewrite zlen_zset| |done|].
  - by apply Forall_zset.
  - exists n. by rewrite znth_zset_ne.
Qed.

(** What a case of the [switch] leaves. *)
Definition left_by (o : option (Z * Z * Z)) (r : list Z) : Prop :=
  match o with
  | None => regs_inv true r
  | Some (pcAfter, n, v) => regs_inv false r ∧ is_s32 pcAfter ∧ 0 ≤ n < 32 ∧ is_s32 v
  end.

Lemma spec_break z pc : is_s32 pc → spec (regs_inv z) (break_ pc) left_by.
Proof.
  intros Hpc. apply spec_ret. intros r Hr%regs_inv_weaken. cbn. split_and!; try done; unfold is_s32; lia.
Qed.
Lemma spec_load z pc n v :
  is_s32 pc → 0 ≤ n < 32 → is_s32 v → spec (regs_inv z) (load_ pc n v) left_by.
Proof. intros. apply spec_ret. intros r Hr%regs_inv_weaken. by cbn. Qed.
Lemma spec_return : spec (regs_inv true) return_ left_by.
Proof. by apply spec_ret. Qed.
Lemma spec_raise which va : is_s32 va → spec (regs_inv true) (raise_ which va) left_by.
Proof.
  intros Hva. unfold raise_. apply (spec_bind _ _ (λ _, regs_inv true)); [|intros []; apply spec_return].
  intros s [] s' HE. rewrite !regs_inv_ok. by apply (RaiseException_regs which va).
Qed.

(** *** Memory accesses *)
Lemma RaiseException_memory_regs which va s s' :
  is_s32 va → RaiseException_memory which va s = Ok ((), s') →
  regs_ok (registers s) → regs_ok (registers s').
Proof.
  intros Hva HE Hok. destruct (trap_step ExceptionHandler_memory which va s Hok) as [t Ht].
  unfold RaiseException_memory in HE. rewrite Ht in HE. clear Ht.
  destruct (trap_registers _ va Hok Hva) as [Hok' _].
  apply ST_bind_Ok in HE as ([] & s1 & E1 & E2). injection E2 as <-. cbn.
  assert (keeps (ExceptionHandler_memory which)) as HK.
  { unfold ExceptionHandler_memory, ReadRegister, reg. keeping. unfold LRU_TLB. keeping. }
  by rewrite (HK _ _ _ E1).
Qed.

Lemma translate_retry_regs va size w s o s' :
  is_s32 va → translate_retry va size w s = Ok (o, s') →
  regs_ok (registers s) → regs_ok (registers s').
Proof.
  intros Hva HE Hok. unfold translate_retry in HE.
  apply ST_bind_Ok in HE as (r1 & s1 & E1 & HE). rewrite <-(keeps_Translate _ _ _ _ _ _ E1) in Hok.
  destruct (decide (r1.1 = NoException)); [by injection HE as <- <-|].
  apply ST_bind_Ok in HE as ([] & s2 & E2 & HE). apply RaiseException_memory_regs in E2; [|done..].
  destruct (decide (r1.1 = PageFaultException)); [|by injection HE as <- <-].
  apply ST_bind_Ok in HE as (r2 & s3 & E3 & HE). rewrite <-(keeps_Translate _ _ _ _ _ _ E3) in E2.
  apply ST_bind_Ok in HE as ([] & s4 & E4 & HE).
  assert (regs_ok (registers s4)) as Hok4.
  { destruct (decide (r2.1 = NoException)); [by injection E4 as <-|].
    by apply RaiseException_memory_regs in E4. }
  apply ST_bind_Ok in HE as (r3 & s5 & E5 & HE). rewrite <-(keeps_Translate _ _ _ _ _ _ E5) in Hok4.
  destruct (decide (r3.1 = NoException)); [by injection HE as <- <-|].
  apply ST_bind_Ok in HE as ([] & s6 & E6 & HE). apply RaiseException_memory_regs in E6; [|done..].
  by injection HE as <- <-.
Qed.

Lemma spec_read va size :
  is_s32 va → spec (regs_inv true) (read_mem va size)
    (λ o r, regs_inv true r ∧ (size = 4 → ∀ v, o = Some v → is_s32 v)).
Proof.
  intros Hva s o s' HE. rewrite !regs_inv_ok. intros Hok. unfold read_mem, liftM in HE.
  destruct (ReadMem va size s.1) as [[o1 m]|] eqn:E; [|done]. injection HE as <- <-. cbn.
  unfold ReadMem in E. apply ST_bind_Ok in E as (o2 & s2 & E2 & E).
  apply translate_retry_regs in E2; [|done..].
  destruct o2 as [pa|]; [|injection E as <- <-; by split].
  erewrite ST_step in E by reflexivity. cbv beta in E.
  split; [|intros ->; cbn [Z.eqb Pos.eqb] in E].
  - cut (registers m = registers s2); [by intros ->|].
    revert E. generalize o1 m. intros x s3. refine ((_ : keeps _) s2 x s3). keeping.
  - intros v ->. apply ST_bind_Ok in E as (b & s3 & E3 & E). injection E as <- _. apply s32_range.
Qed.
Lemma spec_write va size v :
  is_s32 va → spec (regs_inv true) (write_mem va size v) (λ _, regs_inv true).
Proof.
  intros Hva s o s' HE. rewrite !regs_inv_ok. intros Hok. unfold write_mem, liftM in HE.
  destruct (WriteMem va size v s.1) as [[o1 m]|] eqn:E; [|done]. injection HE as <- <-. cbn.
  unfold WriteMem in E. apply ST_bind_Ok in E as (o2 & s2 & E2 & E).
  apply translate_retry_regs in E2; [|done..].
  destruct o2 as [pa|]; [|by injection E as <- <-].
  erewrite ST_step in E by reflexivity. cbv beta in E.
  apply ST_bind_Ok in E as (mm & s3 & E3 & E). apply ST_bind_Ok in E as ([] & s4 & E4 & E).
  injection E as _ <-. by injection E4 as <-.
Qed.

(** *** The cases of the [switch] *)

(** Walks through a case; the side conditions are about values and indices. *)
Ltac spec_step :=
  match goal with
  | |- spec _ (R _ ≫= _) _ => eapply spec_bind; [apply spec_R|]; intros ?; apply spec_pre; intros ?
  | |- spec _ (setR _ _ ≫= _) _ => eapply spec_bind; [apply spec_setR|]; [..|intros []]
  | |- spec _ (break_ _) _ => apply spec_break
  | |- spec _ (load_ _ _ _) _ => apply spec_load
  | |- spec _ return_ _ => apply spec_return
  | |- spec _ (raise_ _ _) _ => apply spec_raise
  | |- spec _ (if ?b then _ else _) _ => destruct b eqn:?
  | |- spec _ (let _ := _ in _) _ => cbv zeta
  end.

Lemma spec_effective z i : spec (regs_inv z) (effective i) (λ v r, regs_inv z r ∧ is_s32 v).
Proof.
  unfold effective. repeat spec_step. apply spec_ret. intros r Hr. auto with nachos.
Qed.

Context (i : Instruction) (pcAfter : Z) (Hi : decoded i) (Hpc : is_s32 pcAfter).

Lemma index_ne r : 0 ≤ r < 34 → r ≠ LoadReg.
Proof. unfold LoadReg. lia. Qed.
Lemma dest_rd : rd i ≠ LoadReg.
Proof. apply index_ne. destruct Hi. lia. Qed.
Lemma dest_rt : rt i ≠ LoadReg.
Proof. apply index_ne. destruct Hi. lia. Qed.
Lemma is_s32_b2z b : is_s32 (b2z b).
Proof. destruct b; cbn; unfold is_s32; lia. Qed.
Lemma is_s32_mask16 x : is_s32 (Z.land x 65535).
Proof. by apply (is_s32_mask x 16). Qed.
Hint Resolve dest_rd dest_rt is_s32_b2z is_s32_mask16 : nachos.

Lemma spec_alu f :
  (∀ a b, is_s32 a → is_s32 b → is_s32 (f a b)) → spec (regs_inv true) (alu i pcAfter f) left_by.
Proof. intros Hf. unfold alu. repeat spec_step; auto with nachos. Qed.
Lemma spec_alui f :
  (∀ a b, is_s32 a → is_s32 b → is_s32 (f a b)) → spec (regs_inv true) (alui i pcAfter f) left_by.
Proof. intros Hf. unfold alui. repeat spec_step; auto with nachos. apply Hf; [done|apply Hi]. Qed.
Lemma spec_branch z b : spec (regs_inv z) (branch i pcAfter b) left_by.
Proof. unfold branch. repeat spec_step; auto with nachos. Qed.
Lemma spec_link z r : r ≠ LoadReg → spec (regs_inv z) (link r) (λ _, regs_inv false).
Proof. intros Hr. unfold link. spec_step. apply spec_setR; auto with nachos. Qed.
Lemma spec_move dst src : dst ≠ LoadReg → spec (regs_inv true) (exec_move dst src pcAfter) left_by.
Proof. intros Hd. unfold exec_move. repeat spec_step; auto with nachos. Qed.
Lemma spec_J z : spec (regs_inv z) (exec_J i pcAfter) left_by.
Proof. unfold exec_J. spec_step. apply s32_range. Qed.
Lemma spec_JR z : spec (regs_inv z) (exec_JR i pcAfter) left_by.
Proof. unfold exec_JR. by repeat spec_step. Qed.
Lemma spec_ifbranch z f : spec (regs_inv z) (a ← R (rs i); branch i pcAfter (f a)) left_by.
Proof. spec_step. apply spec_branch. Qed.

Lemma spec_overflow :
  spec (regs_inv true) (exec_ADD i pcAfter) left_by ∧
  spec (regs_inv true) (exec_ADDI i pcAfter) left_by ∧
  spec (regs_inv true) (exec_SUB i pcAfter) left_by.
Proof.
  assert (is_s32 0) by (unfold is_s32; lia).
  unfold exec_ADD, exec_ADDI, exec_SUB. split_and!; repeat spec_step; auto with nachos.
Qed.

Lemma is_s32_quot_rem a b :
  is_s32 a → is_s32 b → b ≠ 0 → ¬ (a = - 2 ^ 31 ∧ b = -1) →
  is_s32 (Z.quot a b) ∧ is_s32 (Z.rem a b).
Proof.
  unfold is_s32. intros Ha Hb Hb0 Hne. change (2 ^ 31) with 2147483648 in *.
  Z.to_euclidean_division_equations; nia.
Qed.
Lemma spec_DIV : spec (regs_inv true) (exec_DIV i pcAfter) left_by.
Proof.
  unfold exec_DIV. spec_step. apply (spec_bind _ _ (λ _, regs_inv false));
    [|intros []; by apply spec_break].
  assert (is_s32 0) by (unfold is_s32; lia).
  destruct (Z.eqb_spec x 0).
  - spec_step; [done|done|]. by apply spec_setR.
  - spec_step. destruct (_ && _) eqn:E; [intros s y s' HE; discriminate HE|].
    assert (is_s32 (Z.quot x0 x) ∧ is_s32 (Z.rem x0 x)) as [Hq Hr].
    { apply is_s32_quot_rem; try done. intros [-> ->]. done. }
    spec_step; [done|done|]. by apply spec_setR.
Qed.
Lemma spec_DIVU : spec (regs_inv true) (exec_DIVU i pcAfter) left_by.
Proof.
  unfold exec_DIVU. do 2 spec_step. apply (spec_bind _ _ (λ _, regs_inv false));
    [|intros []; by apply spec_break].
  assert (is_s32 0) by (unfold is_s32; lia).
  destruct (u32 _ =? 0); (spec_step; [auto with nachos|done|]); apply spec_setR; auto with nachos.
Qed.
Lemma spec_MULT b : spec (regs_inv true) (exec_MULT b i pcAfter) left_by.
Proof.
  unfold exec_MULT. do 2 spec_step. rewrite Mult_ok by done. repeat spec_step; auto with nachos.
Qed.

Lemma spec_LB : spec (regs_inv true) (exec_LB i pcAfter) left_by.
Proof.
  unfold exec_LB. eapply spec_bind; [apply spec_effective|]. intros tmp. apply spec_pre. intros Ht.
  eapply spec_bind; [by apply spec_read|]. intros [v|]; apply spec_pre; intros _; [|apply spec_return].
  apply spec_load; [done|apply Hi|]. case_match; [apply s32_range|by apply (is_s32_mask v 8)].
Qed.
Lemma spec_LH : spec (regs_inv true) (exec_LH i pcAfter) left_by.
Proof.
  unfold exec_LH. eapply spec_bind; [apply spec_effective|]. intros tmp. apply spec_pre. intros Ht.
  spec_step; [by apply spec_raise|].
  eapply spec_bind; [by apply spec_read|]. intros [v|]; apply spec_pre; intros _; [|apply spec_return].
  apply spec_load; [done|apply Hi|]. case_match; auto with nachos.
Qed.
Lemma spec_LW : spec (regs_inv true) (exec_LW i pcAfter) left_by.
Proof.
  unfold exec_LW. eapply spec_bind; [apply spec_effective|]. intros tmp. apply spec_pre. intros Ht.
  spec_step; [by apply spec_raise|].
  eapply spec_bind; [by apply spec_read|]. intros [v|]; apply spec_pre; intros Hv; [|apply spec_return].
  apply spec_load; [done|apply Hi|by apply Hv].
Qed.
Lemma spec_lift_assert z b : spec (regs_inv z) (lift (ASSERT b)) (λ _, regs_inv z).
Proof. intros s x s' HE. unfold lift, ASSERT in HE. destruct b; by simplify_eq. Qed.
Lemma spec_LWx merge :
  (∀ sel b v, is_s32 v → is_s32 (merge sel b v)) →
  spec (regs_inv true) (exec_LWx merge i pcAfter) left_by.
Proof.
  intros Hm. unfold exec_LWx.
  eapply spec_bind; [apply spec_effective|]. intros tmp. apply spec_pre. intros Ht.
  eapply spec_bind; [apply spec_lift_assert|]. intros [].
  eapply spec_bind; [by apply spec_read|]. intros [v|]; apply spec_pre; intros Hv; [|apply spec_return].
  unfold merge_base. apply (spec_bind _ _ (λ v r, regs_inv true r ∧ is_s32 v)).
  - repeat spec_step; apply spec_R.
  - intros base. apply spec_pre. intros Hb. apply spec_load; [done|apply Hi|]. apply Hm. by apply Hv.
Qed.
Lemma spec_store size : spec (regs_inv true) (exec_store size i pcAfter) left_by.
Proof.
  unfold exec_store. eapply spec_bind; [apply spec_effective|]. intros tmp. apply spec_pre. intros Ht.
  spec_step. eapply spec_bind; [by apply spec_write|]. intros []; [by apply spec_break|apply spec_return].
Qed.
Lemma spec_SWx merge : spec (regs_inv true) (exec_SWx merge i pcAfter) left_by.
Proof.
  unfold exec_SWx.
  eapply spec_bind; [apply spec_effective|]. intros tmp. apply spec_pre. intros Ht.
  eapply spec_bind; [apply spec_lift_assert|]. intros []. cbv zeta.
  assert (is_s32 (Z.land tmp (Z.lnot 3))) by (apply is_s32_land; [done|apply is_s32_lnot; unfold is_s32; lia]).
  eapply spec_bind; [by apply spec_read|]. intros [v|]; apply spec_pre; intros Hv; [|apply spec_return].
  spec_step. eapply spec_bind; [by apply spec_write|]. intros []; [by apply spec_break|apply spec_return].
Qed.

Lemma merge_s32 sel b v :
  is_s32 v → is_s32 (merge_LWL sel b v) ∧ is_s32 (merge_LWR sel b v).
Proof. intros Hv. unfold merge_LWL, merge_LWR. split; repeat case_match; auto with nachos. Qed.

Lemma spec_execute : spec (regs_inv true) (execute i pcAfter) left_by.
Proof.
  pose proof spec_overflow as (HA & HAI & HS). pose proof (dc_shift _ Hi) as Hsh.
  assert (∀ x, 0 ≤ Z.land x 31) as H31 by (intros; by apply (mask_range x 5)).
  assert (is_s32 0) by (unfold is_s32; lia).
  unfold execute. destruct (opCode i) eqn:Eop;
    try (pose proof (dc_handled _ Hi) as Hh; rewrite Eop in Hh; discriminate Hh).
  all: try done.
  all: try (first [apply spec_alu | apply spec_alui]; intros; cbv beta;
            solve [auto 6 with nachos | apply is_s32_shr; [done|apply H31 || (apply Hsh; reflexivity)]]).
  all: try (first [apply spec_ifbranch | apply spec_J | apply spec_JR | apply spec_DIV
                  | apply spec_DIVU | apply spec_MULT | apply spec_LB | apply spec_LH | apply spec_LW
                  | apply spec_store | apply spec_SWx | by apply spec_raise
                  | apply spec_LWx; intros; by apply merge_s32
                  | apply spec_move; auto with nachos; by apply index_ne]).
  all: try (unfold exec_BEQ, exec_BNE; do 2 spec_step; apply spec_branch).
  all: try (apply (spec_bind _ _ (λ _, regs_inv false)); [apply spec_link; auto with nachos|intros []];
            first [apply spec_ifbranch | apply spec_J | apply spec_JR]).
  unfold exec_LUI. repeat spec_step; auto with nachos.
Qed.
End register_file.

(** ** The end of an instruction *)
Section finishing.
Context `{InterruptOps, !InterruptLaws} {OS : Type} `{TrapOps OS}.
Implicit Types (s : Machine * OS).

(** The registers after an instruction with outcome [(pcAfter, n, v)]. *)
Definition advance (r : list Z) (pcAfter n v : Z) : list Z :=
  let r1 := delayed_load r n v in
  zset (zset (zset r1 PrevPCReg (default 0 (znth r1 PCReg))) PCReg (default 0 (znth r1 NextPCReg)))
    NextPCReg pcAfter.

Lemma finish_step s pcAfter n v :
  regs_inv false (registers s.1) →
  ∃ t, finish_instruction pcAfter n v s =
    Ok ((), (set_clock (set_registers s.1 (advance (registers s.1) pcAfter n v)) t (status s.1), s.2)).
Proof.
  intros [Hl _ _ Hload]. unfold finish_instruction.
  erewrite ST_step by (unfold liftM; by rewrite (DelayedLoad_step n v _ Hl Hload)). cbv beta iota.
  cbn [fst snd].
  set (r1 := delayed_load (registers s.1) n v).
  assert (zlen r1 = 40) as Hl1 by (unfold r1, delayed_load; by rewrite !zlen_zset).
  destruct (znth_range r1 PCReg) as [pc Hpc]; [by rewrite Hl1|].
  destruct (znth_range r1 NextPCReg) as [npc Hnpc]; [by rewrite Hl1|].
  erewrite ST_step by (apply R_step; exact Hpc). cbv beta.
  erewrite ST_step by (apply setR_step; cbn [registers set_registers fst]; by rewrite Hl1). cbv beta iota.
  erewrite ST_step by (apply R_step; cbn [put_regs registers set_registers fst];
    rewrite znth_zset_ne by done; exact Hnpc). cbv beta.
  erewrite ST_step by (apply setR_step; cbn [put_regs registers set_registers fst];
    rewrite !zlen_zset, Hl1; done). cbv beta iota.
  erewrite ST_step by (apply setR_step; cbn [put_regs registers set_registers fst];
    rewrite !zlen_zset, Hl1; done). cbv beta iota. cbn [put_regs registers set_registers fst snd].
  unfold put_regs. cbn [fst snd].
  match goal with |- context [liftM OneTick (?m, _)] => destruct (OneTick_frame m) as [t Ht] end.
  exists t. unfold liftM. cbn [fst snd]. rewrite Ht. unfold advance. fold r1. by rewrite Hpc, Hnpc.
Qed.

Lemma delayed_load_high r n v j :
  regs_inv false r → 32 ≤ j → j ≠ LoadReg → j ≠ LoadValueReg → znth (delayed_load r n v) j = znth r j.
Proof.
  intros [Hl _ _ (k & Hk & Hkr)] Hj Hj1 Hj2. unfold delayed_load. rewrite Hk. cbn [default].
  unfold id. rewrite !znth_zset_ne by (done || lia). done.
Qed.

Lemma advance_ok r pcAfter n v :
  regs_inv false r → is_s32 pcAfter → is_s32 v → 0 ≤ n < 32 → regs_ok (advance r pcAfter n v).
Proof.
  intros Hr Hpc Hv Hn. pose proof Hr as [Hl Hs _ _].
  destruct (delayed_load_ok r n v Hl Hs Hv Hn) as [Dl Ds Dz (k & Dk & Hk)].
  assert (∀ i, is_s32 (default 0 (znth (delayed_load r n v) i))) as Hd.
  { intros i. destruct (znth (delayed_load r n v) i) as [x|] eqn:E; [by apply (Forall_znth _ _ _ _ Ds E)|].
    cbn. unfold is_s32. lia. }
  unfold advance. split.
  - by rewrite !zlen_zset.
  - do 3 (apply Forall_zset; [|by auto]). done.
  - by rewrite !znth_zset_ne by done.
  - exists k. by rewrite !znth_zset_ne by done.
Qed.
End finishing.

(** ** A kernel that only serves memory faults, to run programs with *)
#[export] Instance bare_traps : TrapOps () := λ which va, liftM (RaiseException_memory which va).
#[export] Instance bare_laws : TrapLaws ().
Proof.
  intros which va s s' Hva HE. unfold RaiseException, bare_traps, liftM in HE.
  destruct (RaiseException_memory which va s.1) as [[[] m]|] eqn:E; [|done].
  injection HE as <-. cbn. exact (RaiseException_memory_regs _ _ _ _ Hva E).
Qed.

(** ** The properties *)

(** C20: [Mult], which adds shifted copies of [b] for the one bits of [a] in two
    32-bit halves and stops early, is multiplication: for all operands, signed or
    unsigned, [Hi] and [Lo] are the upper and lower words of the 64-bit product. *)
Theorem Mult_correct a b (signedArith : bool) :
  is_s32 a → is_s32 b →
  let P := if signedArith then a * b else u32 a * u32 b in
  Mult a b signedArith = (s32 (P / 2 ^ 32), s32 P).
Proof. apply Mult_ok. Qed.

Lemma Mult_correct_witness : Mult (-7) 2147483647 true = (s32 (-7 * 2147483647 / 2 ^ 32), s32 (-7 * 2147483647)).
Proof. apply (Mult_correct (-7) 2147483647 true); unfold is_s32; lia. Defined.

Definition add_example : Instruction := mkInstruction 0 OP_ADD 1 2 3 0.
Definition add_state : Machine * () :=
  (set_registers (example_machine [example_space 40]) (0 :: 5 :: -9 :: replicate 37 0), ()).
Lemma overflow_exact_witness :
  exec_ADD add_example 8 add_state =
    (if decide (- 2 ^ 31 ≤ 5 + -9 < 2 ^ 31) then setR 3 (5 + -9);; break_ 8
     else raise_ OverflowException 0) add_state ∧
  exec_ADDI add_example 8 add_state =
    (if decide (- 2 ^ 31 ≤ 5 + 0 < 2 ^ 31) then setR 2 (5 + 0);; break_ 8
     else raise_ OverflowException 0) add_state ∧
  exec_SUB add_example 8 add_state =
    (if decide (- 2 ^ 31 ≤ 5 - -9 < 2 ^ 31) then setR 3 (5 - -9);; break_ 8
     else raise_ OverflowException 0) add_state.
Proof.
  apply (overflow_exact add_example 8 add_state 5 (-9));
    [reflexivity|reflexivity|unfold is_s32; lia|unfold is_s32; lia|unfold is_s32; cbn; lia].
Defined.

(** Decoding is total: every 32-bit word decodes to an instruction whose register
    fields are registers, whose immediate is an [int], whose shift amount is below
    32, and whose opcode has a case in the [switch], so that its
    [default: ASSERT(FALSE)] is dead. *)
Theorem Decode_total v :
  ∃ i, Decode v = Ok i ∧ value i = v ∧
    0 ≤ rs i < 32 ∧ 0 ≤ rt i < 32 ∧ 0 ≤ rd i < 32 ∧ is_s32 (extra i) ∧
    (opCode i = OP_SLL ∨ opCode i = OP_SRA ∨ opCode i = OP_SRL → 0 ≤ extra i < 32) ∧
    opCode i ≠ OP_RFE ∧ opCode i ≠ SPECIAL ∧ opCode i ≠ BCOND.
Proof.
  destruct (Decode_ok v) as (i & HE & Hv & [? ? ? ? Hh Hsh]). exists i.
  do 6 (split; [done|]). split; [intros Hop; apply Hsh; by destruct Hop as [->|[->| ->]]|].
  split_and!; intros E; by rewrite E in Hh.
Qed.

Lemma OneInstruction_regs `{InterruptLaws} {OS : Type} `{TrapLaws OS} (s s' : Machine * OS) :
  regs_ok (registers s.1) → OneInstruction s = Ok ((), s') → regs_ok (registers s'.1).
Proof.
  intros Hok HE. apply regs_inv_ok in Hok. unfold OneInstruction in HE.
  apply ST_bind_Ok in HE as (pc & s1 & E1 & HE).
  destruct (spec_R true _ _ _ _ E1 Hok) as [Hok1 Hpc].
  apply ST_bind_Ok in HE as (o & s2 & E2 & HE).
  destruct (spec_read pc 4 Hpc _ _ _ E2 Hok1) as [Hok2 _].
  destruct o as [raw|]; [|injection HE as <-; by apply regs_inv_ok].
  apply ST_bind_Ok in HE as (i & s3 & E3 & HE).
  destruct (Decode_ok (u32 raw)) as (i' & Hi' & _ & Hdec). unfold lift in E3. rewrite Hi' in E3.
  injection E3 as <- <-.
  apply ST_bind_Ok in HE as (npc & s4 & E4 & HE).
  destruct (spec_R true _ _ _ _ E4 Hok2) as [Hok4 Hnpc].
  apply ST_bind_Ok in HE as (r & s5 & E5 & HE).
  pose proof (spec_execute _ _ Hdec (s32_range _) _ _ _ E5 Hok4) as Hleft.
  destruct r as [[[pcA n] v]|]; [|injection HE as <-; by apply regs_inv_ok].
  destruct Hleft as (Hok5 & HpcA & Hn & Hv). destruct (finish_step s5 pcA n v Hok5) as [t Ht].
  rewrite Ht in HE. injection HE as <-. cbn. by apply advance_ok.
Qed.



(** Loads and branches are delayed by one instruction: when an instruction ends
    with [pcAfter] and a load of [v] into register [n], the load that was pending is
    the one that reaches its register, [v] only becomes the pending load; the next
    instruction is at the old [NextPC], and [pcAfter] is executed after it. *)
Theorem delay_slots `{InterruptLaws} {OS : Type} `{TrapOps OS} (s : Machine * OS) pcAfter n v p pv :
  regs_inv false (registers s.1) →
  znth (registers s.1) LoadReg = Some p → znth (registers s.1) LoadValueReg = Some pv →
  ∃ s', finish_instruction pcAfter n v s = Ok ((), s') ∧ s'.2 = s.2 ∧
    mainMemory s'.1 = mainMemory s.1 ∧
    znth (registers s'.1) LoadReg = Some n ∧ znth (registers s'.1) LoadValueReg = Some v ∧
    znth (registers s'.1) PCReg = znth (registers s.1) NextPCReg ∧
    znth (registers s'.1) NextPCReg = Some pcAfter ∧
    ∀ j, 0 ≤ j < 32 → znth (registers s'.1) j =
      if decide (j = 0) then Some 0 else if decide (j = p) then Some pv else znth (registers s.1) j.
Proof.
  intros Hr Hp Hpv. pose proof Hr as [Hl _ _ (k & Hk & Hkr)].
  destruct (finish_step s pcAfter n v Hr) as [t Ht]. eexists. split; [exact Ht|].
  cbn [fst snd mainMemory registers set_clock set_registers]. split; [done|]. split; [done|].
  unfold advance. set (r := registers s.1) in *.
  assert (zlen (delayed_load r n v) = 40) as Hd by (unfold delayed_load; by rewrite !zlen_zset).
  destruct (znth_range r NextPCReg) as [npc Hnpc]; [by rewrite Hl|]. split_and!.
  - rewrite !znth_zset_ne by done. unfold delayed_load. rewrite !(znth_zset_ne _ _ LoadReg) by done.
    apply znth_zset_eq. by rewrite zlen_zset, Hl.
  - rewrite !znth_zset_ne by done. unfold delayed_load. rewrite (znth_zset_ne _ 0) by done.
    apply znth_zset_eq. by rewrite !zlen_zset, Hl.
  - rewrite znth_zset_ne by done. rewrite znth_zset_eq by (rewrite zlen_zset, Hd; done).
    rewrite delayed_load_high by done. by rewrite Hnpc.
  - apply znth_zset_eq. by rewrite !zlen_zset, Hd.
  - intros j Hj. unfold PrevPCReg, PCReg, NextPCReg. rewrite !znth_zset_ne by lia.
    rewrite delayed_load_lookup by done. by rewrite Hp, Hpv.
Qed.

(** A machine with the value 77 on its way to register 5. *)
Definition pending_state : Machine * () :=
  (set_registers (example_machine [example_space 40])
     (zset (zset (zset (zset (replicate 40 0) PCReg 8) NextPCReg 12) LoadReg 5) LoadValueReg 77), ()).
Lemma delay_slots_witness :
  ∃ s', finish_instruction 100 6 55 pending_state = Ok ((), s') ∧ s'.2 = pending_state.2 ∧
    mainMemory s'.1 = mainMemory pending_state.1 ∧
    znth (registers s'.1) LoadReg = Some 6 ∧ znth (registers s'.1) LoadValueReg = Some 55 ∧
    znth (registers s'.1) PCReg = znth (registers pending_state.1) NextPCReg ∧
    znth (registers s'.1) NextPCReg = Some 100 ∧
    ∀ j, 0 ≤ j < 32 → znth (registers s'.1) j =
      if decide (j = 0) then Some 0 else if decide (j = 5) then Some 77
      else znth (registers pending_state.1) j.
Proof.
  apply (delay_slots pending_state 100 6 55 5 77); [|reflexivity|reflexivity].
  split; [reflexivity| |intros E; discriminate E|exists 5; split; [reflexivity|lia]].
  repeat (apply Forall_zset; [|unfold is_s32; lia]). apply Forall_replicate. unfold is_s32. lia.
Defined.

(** Two instructions do not compute what the architecture defines.  OR stores
    [registers[rs]] whatever [rt] holds, since both operands of the source are
    [registers[instr->rs]]; SRL shifts an [int], so that a negative value stays
    negative, where a logical shift of the word is never negative. *)
Theorem OR_SRL_deviate `{InterruptOps} {OS : Type} `{TrapOps OS} i pcAfter (s : Machine * OS) a b :
  znth (registers s.1) (rs i) = Some a → znth (registers s.1) (rt i) = Some b →
  0 ≤ extra i →
  exec_OR i pcAfter s = (setR (rd i) a;; break_ pcAfter) s ∧
  exec_SRL i pcAfter s = (setR (rd i) (Z.shiftr b (extra i));; break_ pcAfter) s ∧
  (b < 0 → Z.shiftr b (extra i) < 0 ≤ Z.shiftr (u32 b) (extra i)).
Proof.
  intros Ha Hb Hx. unfold exec_OR, exec_SRL, alu. split_and!.
  - step (R_step _ _ _ Ha). step (R_step _ _ _ Hb). by rewrite Z.lor_diag.
  - step (R_step _ _ _ Ha). by step (R_step _ _ _ Hb).
  - intros Hneg. rewrite Z.shiftr_neg, Z.shiftr_nonneg. pose proof (u32_range b) as [? _]. done.
Qed.

Definition or_example : Instruction := mkInstruction 0 OP_OR 1 2 3 4.
Lemma OR_SRL_deviate_witness :
  exec_OR or_example 8 add_state = (setR 3 5;; break_ 8) add_state ∧
  exec_SRL or_example 8 add_state = (setR 3 (Z.shiftr (-9) 4);; break_ 8) add_state ∧
  (-9 < 0 → Z.shiftr (-9) 4 < 0 ≤ Z.shiftr (u32 (-9)) 4).
Proof.
  apply (OR_SRL_deviate or_example 8 add_state 5 (-9)); [reflexivity|reflexivity|cbn; lia].
Defined.
