(* ===== verification/AddrSpace.v ===== *)
(** * Address spaces: userprog/addrspace.cc

    Loading a NOFF executable, the initial registers, and what a context switch
    saves and restores.  The page tables are those of Machine.v; the address spaces
    live in the field [spaces] of the machine, where pointers to them can be shared. *)

From Stdlib Require Import String Ascii.
From S2P Require Import Prelude Machine Paging UserMemory.

(** ** [itoa] *)

(** The characters of the literal in [itoa], as [char]s. *)
Definition chars (s : string) : list Z := (λ c, Z.of_nat (nat_of_ascii c)) <$> list_ascii_of_string s.
Definition digit_table : list Z :=
  chars "zyxwvutsrqponmlkjihgfedcba9876543210123456789abcdefghijklmnopqrstuvwxyz".

(** The [do ... while (value)] loop: the digits from the least significant one and
    the last [tmp_value]; 32 rounds are enough for an [int] in any base. *)
Fixpoint itoa_loop (fuel : nat) (value base : Z) : result (list Z * Z) :=
  match fuel with
  | O => Stop Undefined
  | S fuel =>
      let tmp_value := value in
      let value := Z.quot value base in
      c ← aget digit_table (35 + (tmp_value - value * base));
      if value =? 0 then Ok ([c], tmp_value)
      else r ← itoa_loop fuel value base; Ok (c :: r.1, r.2)
  end.

(** The loop that reverses the buffer between [ptr1] and [ptr]. *)
Fixpoint reverse_loop (fuel : nat) (l : list Z) (ptr1 ptr : Z) : result (list Z) :=
  match fuel with
  | O => Ok l
  | S fuel =>
      if ptr1 <? ptr then
        tmp_char ← aget l ptr;
        c ← aget l ptr1;
        l ← aset l ptr c;
        l ← aset l ptr1 tmp_char;
        reverse_loop fuel l (ptr1 + 1) (ptr - 1)
      else Ok l
  end.

(** [itoa]: the characters it leaves in [result], without the final 0. *)
Definition itoa (value base : Z) : result (list Z) :=
  if (base <? 2) || (36 <? base) then Ok []
  else
    r ← itoa_loop 32 value base;
    let l := r.1 ++ (if r.2 <? 0 then chars "-" else []) in
    reverse_loop (Datatypes.length l) l 0 (zlen l - 1).

(** ** NOFF files (noff.h) *)
Record Segment := mkSegment { virtualAddr : Z; inFileAddr : Z; seg_size : Z }.
Record NoffHeader := mkNoff {
  noffMagic : Z;
  code : Segment;
  initData : Segment;
  uninitData : Segment
}.
Definition NOFFMAGIC : Z := 12246957.
Definition sizeof_noff : Z := 40.
Definition UserStackSize : Z := 1024.

(** The header as it lies in memory. *)
Definition noff_of (b : list Z) : NoffHeader :=
  let seg o := mkSegment (int_at b o) (int_at b (o + 4)) (int_at b (o + 8)) in
  mkNoff (int_at b 0) (seg 4) (seg 16) (seg 28).

Definition SwapSegment (s : Segment) : Segment :=
  mkSegment (WordToHost (virtualAddr s)) (WordToHost (inFileAddr s)) (WordToHost (seg_size s)).
Definition SwapHeader (h : NoffHeader) : NoffHeader :=
  mkNoff (WordToHost (noffMagic h)) (SwapSegment (code h)) (SwapSegment (initData h))
    (SwapSegment (uninitData h)).

(** [executable->ReadAt(&buf[off], numBytes, position)] on the UNIX file of a stub
    file system: what the file has there, at most [numBytes], is copied. *)
Definition file_ReadAt (executable buf : list Z) (off numBytes position : Z) : result (list Z) :=
  ASSERT (0 <=? position);;
  bytes_to buf off (read_at executable position numBytes).

(** [AddrSpace::AddrSpace(OpenFile *executable)]; [garbage] and [mem] are the memory
    that [new TranslationEntry[numPages]], the local [noffH] and [new char[size]]
    find. *)
Definition AddrSpace_new (garbage : Z → list TranslationEntry) (mem : Z → list Z)
    (executable : list Z) : result AddrSpace :=
  b ← file_ReadAt executable (mem sizeof_noff) 0 sizeof_noff 0;
  let noffH := noff_of b in
  let noffH := if negb (noffMagic noffH =? NOFFMAGIC) && (WordToHost (noffMagic noffH) =? NOFFMAGIC)
               then SwapHeader noffH else noffH in
  ASSERT (noffMagic noffH =? NOFFMAGIC);;
  let size := u32 (seg_size (code noffH) + seg_size (initData noffH) + seg_size (uninitData noffH)
                   + UserStackSize) in
  let numPages := divRoundUp size PageSize in
  let size := u32 (numPages * PageSize) in
  let pageTable := (λ e, set_dirty (set_valid e false) false) <$> garbage numPages in
  let vSpace := mem size in
  vSpace ← (if 0 <? seg_size (code noffH)
            then file_ReadAt executable vSpace 0 (seg_size (code noffH)) (inFileAddr (code noffH))
            else Ok vSpace);
  vSpace ← (if 0 <? seg_size (initData noffH)
            then file_ReadAt executable vSpace (virtualAddr (initData noffH))
                   (seg_size (initData noffH)) (inFileAddr (initData noffH))
            else Ok vSpace);
  Ok (mkAS pageTable numPages vSpace).

(** [AddrSpace::CopyFrom]. *)
Definition CopyFrom (garbage : Z → list TranslationEntry) (mem : Z → list Z) (from : AddrSpace)
    : result AddrSpace :=
  let size := numPages from * PageSize in
  b ← bytes_at (vSpace from) 0 size;
  v ← bytes_to (mem size) 0 b;
  Ok (mkAS ((λ e, set_dirty (set_valid e false) false) <$> garbage (numPages from)) (numPages from) v).

(** ** Registers and context switches *)

(** [AddrSpace::InitRegisters]. *)
Definition InitRegisters (a : AddrSpace) : MM () :=
  for_in (seqZ 0 NumTotalRegs) (λ i, WriteRegister i 0);;
  WriteRegister PCReg 0;;
  WriteRegister NextPCReg 4;;
  WriteRegister StackReg (s32 (numPages a * PageSize - 16)).

(** [AddrSpace::SaveState]: the TLB goes back to the page table and is emptied. *)
Definition SaveState : MM () :=
  for_in (seqZ 0 TLBSize) (λ i,
    e ← tlb_get i;
    if valid e then pt_upd (virtualPage e) (λ _, e);; tlb_upd i (λ e, set_valid e false)
    else mret ()).

(** [AddrSpace::RestoreState] of the address space [sp]. *)
Definition RestoreState (sp : Z) : MM () :=
  a ← space_get sp; s ← getS; putS (set_pageTable s (Some sp) (numPages a)).

(** [currentThread->space = p], and the new thread of a context switch. *)
Definition set_current_space (p : option Z) : MM () :=
  s ← getS; l ← lift (aset (space_of s) (currentThread s) p); putS (set_threads s (currentThread s) l).
Definition set_currentThread (t : Z) : MM () := s ← getS; putS (set_threads s t (space_of s)).
(** A new object in the store of address spaces. *)
Definition alloc_space (a : AddrSpace) : MM Z :=
  s ← getS; putS (set_spaces s (spaces s ++ [a]));; mret (zlen (spaces s)).

(** The address-space part of [Scheduler::Run]: the old thread saves, the new one
    restores; the registers are saved and restored with the threads. *)
Definition switch_space (t : Z) : MM () :=
  SaveState;;
  set_currentThread t;;
  sp ← thread_space t;
  RestoreState sp.

(** [StartProcess] of progtest.cc, from the opened executable to the jump into
    user code. *)
Definition start_program (garbage : Z → list TranslationEntry) (mem : Z → list Z)
    (executable : list Z) : MM () :=
  space ← lift (AddrSpace_new garbage mem executable);
  sp ← alloc_space space;
  set_current_space (Some sp);;
  InitRegisters space;;
  RestoreState sp.

(** ** Loading *)
Lemma WriteRegister_step i v s :
  0 ≤ i < NumTotalRegs → zlen (registers s) = NumTotalRegs →
  WriteRegister i v s = Ok ((), set_registers s (zset (registers s) i v)).
Proof.
  intros Hi Hl. unfold WriteRegister. erewrite lift_step.
  2:{ apply ASSERT_true, andb_true_intro; split; [apply Z.leb_le|apply Z.ltb_lt]; lia. }
  apply set_reg_step. lia.
Qed.

Lemma clear_registers n : ∀ a s,
  zlen (registers s) = NumTotalRegs → 0 ≤ a → a + Z.of_nat n ≤ NumTotalRegs →
  ∃ r, for_in (seqZ a (Z.of_nat n)) (λ i, WriteRegister i 0) s = Ok ((), set_registers s r) ∧
    zlen r = NumTotalRegs ∧
    ∀ i, znth r i = if bool_decide (a ≤ i < a + Z.of_nat n) then Some 0 else znth (registers s) i.
Proof.
  induction n as [|n IH]; intros a s Hl Ha Hn.
  - exists (registers s). split; [by destruct s|]. split; [done|]. intros i.
    by rewrite bool_decide_false by lia.
  - rewrite seqZ_cons by lia. cbn [for_in].
    erewrite ST_step by (apply WriteRegister_step; [lia|done]). cbv beta iota.
    replace (Z.pred (Z.of_nat (S n))) with (Z.of_nat n) by lia.
    destruct (IH (Z.succ a) (set_registers s (zset (registers s) a 0))) as (r & E & Hr & Hi);
      [cbn [registers set_registers]; by rewrite zlen_zset|lia|lia|].
    rewrite E. exists r. split; [done|]. split; [done|]. intros i. rewrite Hi.
    cbn [registers set_registers]. rewrite znth_zset. repeat case_bool_decide; try done; lia.
Qed.

Lemma InitRegisters_step a s :
  zlen (registers s) = NumTotalRegs →
  ∃ r, InitRegisters a s = Ok ((), set_registers s r) ∧ regs_ok r ∧
    znth r PCReg = Some 0 ∧ znth r NextPCReg = Some 4 ∧
    znth r StackReg = Some (s32 (numPages a * PageSize - 16)).
Proof.
  intros Hl. destruct (clear_registers 40 0 s Hl) as (r & E & Hr & Hi); [lia|done|].
  unfold InitRegisters. change (Z.of_nat 40) with NumTotalRegs in *. step E.
  erewrite ST_step by (by apply WriteRegister_step). cbv beta iota.
  erewrite ST_step by (apply WriteRegister_step; [done|cbn [registers set_registers]; by rewrite zlen_zset]).
  cbv beta iota.
  rewrite WriteRegister_step by (done || (cbn [registers set_registers]; by rewrite !zlen_zset)).
  eexists. split; [reflexivity|]. cbn [registers set_registers].
  assert (Forall is_s32 r) as Hs.
  { apply Forall_lookup. intros j x Hx. assert (znth r (Z.of_nat j) = Some x) as Hz.
    { unfold znth. destruct (Z.ltb_spec (Z.of_nat j) 0); [lia|]. by rewrite Nat2Z.id. }
    pose proof (znth_Some_range _ _ _ Hz). rewrite Hi, bool_decide_true in Hz by lia.
    injection Hz as <-. unfold is_s32. lia. }
  split_and!.
  - split; [by rewrite !zlen_zset| | |].
    + repeat (apply Forall_zset; [|first [apply s32_range | unfold is_s32; lia]]). done.
    + rewrite !znth_zset_ne by done. by rewrite Hi.
    + exists 0. rewrite !znth_zset_ne by done. by rewrite Hi.
  - rewrite !znth_zset_ne by done. apply znth_zset_eq. by rewrite Hr.
  - rewrite znth_zset_ne by done. apply znth_zset_eq. by rewrite zlen_zset, Hr.
  - apply znth_zset_eq. by rewrite !zlen_zset, Hr.
Qed.

(** A machine on which nothing runs yet. *)
Record idle_machine (s : Machine) : Prop := {
  im_regs : zlen (registers s) = NumTotalRegs;
  im_mm : zlen (mainMemory s) = MemorySize;
  im_fr : zlen (PhysicalPageTable s) = NumPhysPages ∧
          Forall (λ f, F_valid f = false) (PhysicalPageTable s);
  im_tlb : zlen (tlb s) = TLBSize ∧ Forall (λ e, valid e = false) (tlb s);
  im_cur : 0 ≤ currentThread s < zlen (space_of s)
}.

(** The allocator returns arrays of the size asked for. *)
Definition allocates {A} (mem : Z → list A) : Prop := ∀ n, 0 ≤ n → zlen (mem n) = n.

(** A well-formed executable: its header is [h], and the segments of code and initialised
    data that are not empty lie in the file and in the address space, the data after the
    place of the code.  The loader puts the code at 0 and does not look at
    [code.virtualAddr], which can be anything. *)
Record executable_ok (exe : list Z) (h : NoffHeader) : Prop := {
  ex_len : sizeof_noff ≤ zlen exe;
  ex_header : noff_of (read_at exe 0 sizeof_noff) = h;
  ex_magic : noffMagic h = NOFFMAGIC;
  ex_sizes : 0 ≤ seg_size (code h) ∧ 0 ≤ seg_size (initData h) ∧ 0 ≤ seg_size (uninitData h);
  ex_code : 0 < seg_size (code h) →
    0 ≤ inFileAddr (code h) ∧ inFileAddr (code h) + seg_size (code h) ≤ zlen exe;
  ex_data : 0 < seg_size (initData h) →
    0 ≤ inFileAddr (initData h) ∧ inFileAddr (initData h) + seg_size (initData h) ≤ zlen exe ∧
    seg_size (code h) ≤ virtualAddr (initData h) ∧
    virtualAddr (initData h) + seg_size (initData h) ≤
      seg_size (code h) + seg_size (initData h) + seg_size (uninitData h) + UserStackSize;
  ex_small : seg_size (code h) + seg_size (initData h) + seg_size (uninitData h) < 2 ^ 30
}.

(** The image the loader builds: code at 0, data at its virtual address; nothing is copied
    for an empty segment. *)
Definition put_segment (exe buf : list Z) (off pos n : Z) : list Z :=
  if 0 <? n then write_at buf off (read_at exe pos n) else buf.
Definition image (mem : Z → list Z) (exe : list Z) (h : NoffHeader) (size : Z) : list Z :=
  put_segment exe (put_segment exe (mem size) 0 (inFileAddr (code h)) (seg_size (code h)))
    (virtualAddr (initData h)) (inFileAddr (initData h)) (seg_size (initData h)).

Definition space_pages (h : NoffHeader) : Z :=
  divRoundUp (seg_size (code h) + seg_size (initData h) + seg_size (uninitData h) + UserStackSize) PageSize.

Lemma file_ReadAt_step exe buf off n pos :
  0 ≤ pos → pos + n ≤ zlen exe → 0 ≤ n → 0 ≤ off → off + n ≤ zlen buf →
  file_ReadAt exe buf off n pos = Ok (write_at buf off (read_at exe pos n)).
Proof.
  intros. unfold file_ReadAt. rewrite ASSERT_true by (apply Z.leb_le; lia).
  cbn [mbind result_bind]. apply bytes_to_in; [lia|]. rewrite read_at_length; lia.
Qed.

Lemma load_segment_ok exe buf off n pos :
  (0 < n → 0 ≤ pos ∧ pos + n ≤ zlen exe ∧ 0 ≤ off ∧ off + n ≤ zlen buf) →
  (if 0 <? n then file_ReadAt exe buf off n pos else Ok buf) = Ok (put_segment exe buf off pos n) ∧
  zlen (put_segment exe buf off pos n) = zlen buf.
Proof.
  intros Hn. unfold put_segment. destruct (Z.ltb_spec 0 n); [|done]. destruct (Hn ltac:(done)) as (? & ? & ? & ?).
  rewrite file_ReadAt_step by lia. split; [done|]. rewrite write_at_length; rewrite ?read_at_length; lia.
Qed.

Lemma space_pages_bounds exe h :
  executable_ok exe h →
  seg_size (code h) + seg_size (initData h) + seg_size (uninitData h) + UserStackSize
    ≤ space_pages h * PageSize ≤ 2 ^ 31 ∧ 0 ≤ space_pages h.
Proof.
  intros [_ _ _ (?&?&?) _ _ ?]. unfold space_pages. rewrite divRoundUp_div by (unfold UserStackSize, PageSize; lia).
  unfold UserStackSize, PageSize in *. Z.to_euclidean_division_equations; lia.
Qed.

Lemma AddrSpace_new_ok garbage mem exe h :
  allocates mem → executable_ok exe h →
  AddrSpace_new garbage mem exe =
    Ok (mkAS ((λ e, set_dirty (set_valid e false) false) <$> garbage (space_pages h)) (space_pages h)
          (image mem exe h (space_pages h * PageSize))).
Proof.
  intros Hmem HX. pose proof (space_pages_bounds _ _ HX) as [[Hb1 Hb2] Hb3].
  destruct HX as [Hlen Hh Hm (H1 & H2 & H3) Hcode Hdata Hsm].
  unfold AddrSpace_new.
  assert (0 ≤ sizeof_noff) by done.
  rewrite file_ReadAt_step by (rewrite ?Hmem; lia). cbn [mbind result_bind].
  assert (write_at (mem sizeof_noff) 0 (read_at exe 0 sizeof_noff) = read_at exe 0 sizeof_noff) as ->.
  { pose proof (read_at_length exe 0 sizeof_noff ltac:(lia)) as Hr.
    unfold write_at. cbn [Z.to_nat take app]. rewrite drop_ge, app_nil_r; [done|].
    pose proof (Hmem sizeof_noff). unfold zlen in *. lia. }
  rewrite Hh, Hm, Z.eqb_refl. cbn [negb andb]. rewrite ASSERT_true by (by rewrite Hm).
  cbn [mbind result_bind].
  rewrite (u32_small (_ + UserStackSize)) by (unfold is_u32, UserStackSize in *; lia).
  fold (space_pages h).
  rewrite (u32_small (_ * PageSize)) by (unfold is_u32, UserStackSize, PageSize in *; lia).
  assert (zlen (mem (space_pages h * PageSize)) = space_pages h * PageSize) as Hz
    by (apply Hmem; unfold PageSize; lia).
  unfold UserStackSize in *.
  destruct (load_segment_ok exe (mem (space_pages h * PageSize)) 0 (seg_size (code h)) (inFileAddr (code h))) as [-> Hz1].
  { intros Hc. destruct (Hcode Hc). lia. }
  cbn [mbind result_bind]. unfold image.
  destruct (load_segment_ok exe (put_segment exe (mem (space_pages h * PageSize)) 0 (inFileAddr (code h)) (seg_size (code h)))
    (virtualAddr (initData h)) (seg_size (initData h)) (inFileAddr (initData h))) as [-> _]; [|done].
  intros Hd. destruct (Hdata Hd) as (? & ? & ? & ?). lia.
Qed.

(** The image has the size of the address space. *)
Lemma image_length mem exe h :
  allocates mem → executable_ok exe h →
  zlen (image mem exe h (space_pages h * PageSize)) = space_pages h * PageSize.
Proof.
  intros Hmem HX. pose proof (space_pages_bounds _ _ HX) as [[Hb1 Hb2] Hb3].
  destruct HX as [Hlen Hh Hm (H1 & H2 & H3) Hcode Hdata Hsm].
  assert (zlen (mem (space_pages h * PageSize)) = space_pages h * PageSize) as Hz
    by (apply Hmem; unfold PageSize; lia).
  unfold image, UserStackSize in *.
  destruct (load_segment_ok exe (mem (space_pages h * PageSize)) 0 (seg_size (code h)) (inFileAddr (code h))) as [_ Hz1].
  { intros Hc. destruct (Hcode Hc). lia. }
  destruct (load_segment_ok exe (put_segment exe (mem (space_pages h * PageSize)) 0 (inFileAddr (code h)) (seg_size (code h)))
    (virtualAddr (initData h)) (seg_size (initData h)) (inFileAddr (initData h))) as [_ ->]; [|lia].
  intros Hd. destruct (Hdata Hd) as (? & ? & ? & ?). lia.
Qed.

Lemma start_program_ok garbage mem exe h s :
  allocates garbage → allocates mem → executable_ok exe h → idle_machine s →
  ∃ s', start_program garbage mem exe s = Ok ((), s') ∧ regs_ok (registers s') ∧
    znth (registers s') PCReg = Some 0 ∧ znth (registers s') NextPCReg = Some 4 ∧
    znth (registers s') StackReg = Some (space_pages h * PageSize - 16) ∧
    ∃ sp a, loaded s' sp a ∧ numPages a = space_pages h ∧
      vSpace a = image mem exe h (space_pages h * PageSize).
Proof.
  intros Hg Hmem HX [I1 I2 I3 I4 I5]. pose proof (space_pages_bounds _ _ HX) as [[Hb1 Hb2] Hb3].
  unfold start_program. rewrite (lift_step _ _ _ _ (AddrSpace_new_ok garbage mem exe h Hmem HX)).
  set (a := mkAS _ _ _). unfold alloc_space, set_current_space.
  erewrite ST_step by reflexivity. cbv beta iota.
  erewrite ST_step.
  2:{ erewrite ST_step by reflexivity. cbn [space_of currentThread set_spaces].
      erewrite lift_step by (by apply aset_in). reflexivity. }
  cbv beta iota.
  match goal with |- context [(InitRegisters a ≫= _) ?s1] =>
    destruct (InitRegisters_step a s1 I1) as (r & E & Hok & Hpc & Hnpc & Hsp) end.
  step E. unfold RestoreState.
  assert (znth (spaces s ++ [a]) (zlen (spaces s)) = Some a) as Ha.
  { unfold znth, zlen. destruct (Z.ltb_spec (Z.of_nat (Datatypes.length (spaces s))) 0); [lia|].
    rewrite Nat2Z.id. by rewrite list_lookup_middle. }
  erewrite ST_step by (apply space_get_step; exact Ha). cbv beta.
  eexists. split; [reflexivity|]. cbn [registers set_pageTable set_registers]. split; [done|].
  split; [done|]. split; [done|]. split.
  { rewrite Hsp. cbn [numPages a]. f_equal. apply s32_small. unfold is_s32, UserStackSize in *.
    destruct HX as [_ _ _ (?&?&?) _ _ _]. lia. }
  exists (zlen (spaces s)), a. split; [|done].
  pose proof (Hg (space_pages h) Hb3). split; try done.
  - cbn. by apply znth_zset_eq.
  - split; [cbn; by rewrite zlen_fmap|]. apply Forall_fmap, Forall_true. done.
  - split; [|done]. cbn [vSpace numPages a]. by apply image_length.
Qed.

(** ** The properties *)

(** What a program that has just been loaded sees. *)
Lemma start_program_sees garbage mem exe h s :
  allocates garbage → allocates mem → executable_ok exe h → idle_machine s →
  ∃ s', start_program garbage mem exe s = Ok ((), s') ∧ user_running s' ∧
    znth (registers s') PCReg = Some 0 ∧ znth (registers s') NextPCReg = Some 4 ∧
    znth (registers s') StackReg = Some (zlen (user_memory s') - 16) ∧
    read_at (user_memory s') 0 (seg_size (code h)) =
      read_at exe (inFileAddr (code h)) (seg_size (code h)) ∧
    read_at (user_memory s') (virtualAddr (initData h)) (seg_size (initData h)) =
      read_at exe (inFileAddr (initData h)) (seg_size (initData h)) ∧
    ∀ i, seg_size (code h) ≤ i →
      ¬ (virtualAddr (initData h) ≤ i < virtualAddr (initData h) + seg_size (initData h)) →
      znth (user_memory s') i = znth (mem (zlen (user_memory s'))) i.
Proof.
  intros Hg Hmem HX HI. pose proof (space_pages_bounds _ _ HX) as [[Hb1 Hb2] Hb3].
  destruct (start_program_ok garbage mem exe h s Hg Hmem HX HI)
    as (s' & E & Hok & Hpc & Hnpc & Hsp & sp & a & HL & Hn & Hvs).
  exists s'. split; [done|]. split; [split; [done|]; exists sp, a; by apply loaded_running|].
  rewrite (loaded_memory _ _ _ HL).
  assert (zlen (vSpace a) = space_pages h * PageSize) as Hz by (destruct (ld_vs _ _ _ HL); congruence).
  rewrite Hz, Hvs. split; [done|]. split; [done|]. split; [done|].
  pose proof HX as [Hlen Hh Hm (H1 & H2 & H3) Hcode Hdata Hsm].
  assert (zlen (mem (space_pages h * PageSize)) = space_pages h * PageSize) as Hmz
    by (apply Hmem; unfold PageSize; lia).
  unfold image, put_segment, UserStackSize in *.
  assert (∀ l pos, read_at l pos 0 = []) as Hnil by done.
  destruct (Z.ltb_spec 0 (seg_size (initData h))) as [Hd0|Hd0].
  - destruct (Hdata Hd0) as (D1 & D2 & D3 & D4). set (d := read_at exe (inFileAddr (initData h)) _).
    assert (zlen d = seg_size (initData h)) as Hd by (apply read_at_length; lia).
    destruct (Z.ltb_spec 0 (seg_size (code h))) as [Hc0|Hc0].
    + destruct (Hcode Hc0) as [C1 C2]. set (c := read_at exe (inFileAddr (code h)) _).
      assert (zlen c = seg_size (code h)) as Hc by (apply read_at_length; lia).
      assert (zlen (write_at (mem (space_pages h * PageSize)) 0 c) = space_pages h * PageSize) as Hw
        by (rewrite write_at_length; lia).
      split_and!.
      * rewrite read_write_disjoint by lia. rewrite <-Hc. apply read_write_same; lia.
      * rewrite <-Hd. apply read_write_same; lia.
      * intros i Hi Hni. rewrite znth_write_at, bool_decide_false by lia.
        rewrite znth_write_at, bool_decide_false by lia. done.
    + replace (seg_size (code h)) with 0 in * by lia. split_and!; [done| |].
      * rewrite <-Hd. apply read_write_same; lia.
      * intros i Hi Hni. by rewrite znth_write_at, bool_decide_false by lia.
  - replace (seg_size (initData h)) with 0 in * by lia.
    destruct (Z.ltb_spec 0 (seg_size (code h))) as [Hc0|Hc0].
    + destruct (Hcode Hc0) as [C1 C2]. set (c := read_at exe (inFileAddr (code h)) _).
      assert (zlen c = seg_size (code h)) as Hc by (apply read_at_length; lia). split_and!; [|done|].
      * rewrite <-Hc. apply read_write_same; lia.
      * intros i Hi Hni. by rewrite znth_write_at, bool_decide_false by lia.
    + by replace (seg_size (code h)) with 0 in * by lia.
Qed.

(** C29: loading and starting a program: for a well-formed NOFF file, in which code or data
    may be empty, the loader returns, the machine is ready to run user code at 0 with the
    stack pointer 16 bytes below the end of the space, and the program sees its code at
    address 0, whatever [code.virtualAddr] says, and its initialised data at the virtual
    address of the header; every other byte, the uninitialised data included, is what the
    allocator left there and is not cleared. *)
Theorem start_program_loads garbage mem exe h s :
  allocates garbage → allocates mem → executable_ok exe h → idle_machine s →
  ∃ s', start_program garbage mem exe s = Ok ((), s') ∧ user_running s' ∧
    znth (registers s') PCReg = Some 0 ∧ znth (registers s') NextPCReg = Some 4 ∧
    znth (registers s') StackReg = Some (zlen (user_memory s') - 16) ∧
    read_at (user_memory s') 0 (seg_size (code h)) =
      read_at exe (inFileAddr (code h)) (seg_size (code h)) ∧
    read_at (user_memory s') (virtualAddr (initData h)) (seg_size (initData h)) =
      read_at exe (inFileAddr (initData h)) (seg_size (initData h)) ∧
    ∀ i, seg_size (code h) ≤ i →
      ¬ (virtualAddr (initData h) ≤ i < virtualAddr (initData h) + seg_size (initData h)) →
      znth (user_memory s') i = znth (mem (zlen (user_memory s'))) i.
Proof. apply start_program_sees. Qed.

Definition example_exe : list Z :=
  enc_ints [NOFFMAGIC; 0; 40; 8; 8; 48; 4; 12; 0; 0] ++ [1;2;3;4;5;6;7;8] ++ [9;10;11;12].
Definition example_header : NoffHeader :=
  mkNoff NOFFMAGIC (mkSegment 0 40 8) (mkSegment 8 48 4) (mkSegment 12 0 0).
Definition filler {A} (x : A) (n : Z) : list A := replicate (Z.to_nat n) x.
Lemma filler_allocates {A} (x : A) : allocates (filler x).
Proof. intros n Hn. by apply zlen_replicate. Qed.
Definition idle_example : Machine :=
  mkMachine (replicate 40 3) (replicate (Z.to_nat MemorySize) 0) (replicate 4 no_entry) None
    0 0 0 PhysicalPageTable_new 0 [None] [] 0 SystemMode.

Lemma idle_example_ok : idle_machine idle_example.
Proof.
  split; try (vm_compute; repeat split; (discriminate || reflexivity)).
  - split; [reflexivity|]. by apply Forall_replicate.
  - split; [reflexivity|]. by apply Forall_replicate.
Qed.

Lemma start_program_loads_witness :
  ∃ s', start_program (filler no_entry) (filler 7) example_exe idle_example = Ok ((), s') ∧
    user_running s' ∧
    znth (registers s') PCReg = Some 0 ∧ znth (registers s') NextPCReg = Some 4 ∧
    znth (registers s') StackReg = Some (zlen (user_memory s') - 16) ∧
    read_at (user_memory s') 0 8 = read_at example_exe 40 8 ∧
    read_at (user_memory s') 8 4 = read_at example_exe 48 4 ∧
    ∀ i, 8 ≤ i → ¬ (8 ≤ i < 8 + 4) →
      znth (user_memory s') i = znth (filler 7 (zlen (user_memory s'))) i.
Proof.
  apply (start_program_loads (filler no_entry) (filler 7) example_exe example_header idle_example).
  - apply filler_allocates.
  - apply filler_allocates.
  - split; vm_compute; repeat split; discriminate || reflexivity.
  - exact idle_example_ok.
Defined.

(** The value of a concrete run. *)
Lemma run_value {A} (m : MM A) s a :
  match m s with Ok (x, _) => Some x | Stop _ => None end = Some a → ∃ s', m s = Ok (a, s').
Proof. destruct (m s) as [[x s']|]; [|done]. intros [= ->]. by exists s'. Qed.

(** Accesses in sequence, for concrete runs. *)
Fixpoint touch_pages (l : list Z) : MM () :=
  match l with [] => mret () | v :: l' => ReadMem (v * PageSize) 4;; touch_pages l' end.

(** Two programs: thread 0 touches its page 0; thread 1 stores 9 in its own page 0
    and then works on its other pages. *)
Definition two_programs : MM (option Z * option Z) :=
  touch_pages [0];;
  switch_space 1;;
  WriteMem 0 4 9;;
  before ← ReadMem 0 4;
  touch_pages (seqZ 1 30);;
  touch_pages [0; 27; 28; 29; 30; 31];;
  after ← ReadMem 0 4;
  mret (before, after).

(** With two address spaces a page is lost.  When [AllocatePhysicalPage] evicts
    the page of another thread it also clears [pageTable[OldVpn].valid] in the page
    table of the running thread, whose own page of that number is resident: the
    value 9 stored at address 0 is read back first, and later the page is fetched
    again from the backing store and address 0 reads 0. *)
Theorem eviction_loses_page :
  ∃ s', two_programs (example_machine [example_space 40; example_space 40]) =
    Ok ((Some 9, Some 0), s').
Proof. apply run_value. vm_compute. reflexivity. Qed.

(** A parent stores 9 at address 0 and forks; the child starts from a copy made by
    [CopyFrom] and reads the same address. *)
Definition fork_and_read : MM (option Z * option Z) :=
  WriteMem 0 4 9;;
  parent ← ReadMem 0 4;
  a ← space_get 0;
  child ← lift (CopyFrom (filler no_entry) (filler 0) a);
  sp ← alloc_space child;
  SaveState;;
  set_currentThread 1;;
  set_current_space (Some sp);;
  RestoreState sp;;
  forked ← ReadMem 0 4;
  mret (parent, forked).

(** [CopyFrom] copies the backing store and not the resident pages: the child of a
    [Fork] does not see what the parent has stored in pages that are in memory. *)
Theorem CopyFrom_misses_resident :
  ∃ s', fork_and_read (example_machine [example_space 40; example_space 40]) =
    Ok ((Some 9, Some 0), s').
Proof. apply run_value. vm_compute. reflexivity. Qed.
