(* ===== verification/Exception.v ===== *)
(** * System calls: userprog/exception.cc

    The entry from user code into the kernel.  The handler is modelled over the
    machine and the rest of the kernel's state [OS]; what it calls outside the machine
    (the file system of the build, which maps to UNIX files, the terminal, and the
    thread operations) is the interface [Services].  [fuel] bounds the loops that a
    user program controls: the length of a string, the wait of Join. *)

From S2P Require Import Prelude Machine Paging UserMemory Mips MipsProps AddrSpace.

(** Codes of syscall.h. *)
Definition SC_Halt : Z := 0.
Definition SC_Exit : Z := 1.
Definition SC_Exec : Z := 2.
Definition SC_Join : Z := 3.
Definition SC_Create : Z := 4.
Definition SC_Open : Z := 5.
Definition SC_Read : Z := 6.
Definition SC_Write : Z := 7.
Definition SC_Close : Z := 8.
Definition SC_Fork : Z := 9.
Definition SC_Yield : Z := 10.
Definition SC_Remove : Z := 11.
Definition SC_CDir : Z := 12.
Definition SC_RDir : Z := 13.
Definition SC_Pwd : Z := 14.
Definition SC_Ls : Z := 15.
Definition SC_Cd : Z := 16.
Definition SC_Help : Z := 17.

(** The functions a forked thread starts in, and its argument. *)
Inductive Wrapper := ForkWrapperFn | ExecWrapperFn.
Record ForkInfo := mkForkInfo { caller : option Z; info_pc : Z }.

(** What the handler uses of the kernel.  A file is the [int] that the pointer to its
    [OpenFile] is cast to, 0 for [NULL]. *)
Class Services (OS : Type) := {
  fs_Create : list Z → Z → ST (Machine * OS) ();
  fs_Open : list Z → ST (Machine * OS) Z;
  fs_Remove : list Z → ST (Machine * OS) ();
  fs_executable : list Z → ST (Machine * OS) (option (list Z));
  file_Read : Z → Z → ST (Machine * OS) (Z * list Z);
  file_Write : Z → list Z → ST (Machine * OS) ();
  file_Close : Z → ST (Machine * OS) ();
  putchars : list Z → ST (Machine * OS) ();
  getchars : Z → ST (Machine * OS) (list Z);
  unix_command : Z → list Z → ST (Machine * OS) ();
  thread_Fork : Wrapper → ForkInfo → ST (Machine * OS) Z;
  thread_Yield : ST (Machine * OS) ();
  thread_Finish : ST (Machine * OS) ();
  thread_SaveUserState : ST (Machine * OS) ();
  thread_getTid : ST (Machine * OS) Z;
  tid_in_use : Z → ST (Machine * OS) bool;
  Halt : ST (Machine * OS) ()
}.

Section handler.
Context `{InterruptOps} {OS : Type} `{Services OS} (fuel : nat).
Abbreviation M := (ST (Machine * OS)).

(** [machine->ReadMem(addr, 1, &value)] with the result ignored: [value] keeps its
    old contents when the read fails. *)
Definition read_char (addr value : Z) : M Z :=
  o ← liftM (ReadMem addr 1); mret (default value o).

(** [do { ReadMem(address++, 1, &value); count++; } while (value != 0);] from
    [address] and [count]: the final [count] and [value]. *)
Fixpoint string_length (n : nat) (address value count : Z) : M (Z * Z) :=
  match n with
  | O => lift (Stop Undefined)
  | S n' =>
      value ← read_char address value;
      if value =? 0 then mret (count + 1, value)
      else string_length n' (s32 (address + 1)) value (count + 1)
  end.

(** [for (i = 0; i < count; i++) { ReadMem(address+i, 1, &value); name[i] = value; }] *)
Fixpoint read_chars (n : nat) (address value : Z) : M (list Z) :=
  match n with
  | O => mret []
  | S n' =>
      value ← read_char address value;
      l ← read_chars n' (s32 (address + 1)) value;
      mret (value :: l)
  end.

(** The copy of a user string into a buffer, with its final 0; [value] is the
    uninitialised variable. *)
Definition fetch_string (address value : Z) : M (list Z) :=
  '(count, value) ← string_length fuel address value 0;
  read_chars (Z.to_nat count) address value.

(** [machine->WriteMem(addr+i, 1, data[i])] for each [i]. *)
Fixpoint write_chars (data : list Z) (address : Z) : M () :=
  match data with
  | [] => mret ()
  | c :: data' => liftM (WriteMem address 1 c);; write_chars data' (s32 (address + 1))
  end.

Definition ReadR (num : Z) : M Z := liftM (ReadRegister num).
Definition WriteR (num v : Z) : M () := liftM (WriteRegister num v).
Definition Incr : M () := liftM IncrementPC.

(** *** The system calls *)
Definition sys_Exit : M () :=
  s ← liftM getS;
  liftM (for_in (seqZ 0 (pageTableSize s)) (λ i,
    p ← pt_get i;
    if valid p then
      pt_upd i (λ e, set_valid e false);;
      f ← frame_get (physicalPage p);
      if F_valid f then frame_upd (physicalPage p) (λ f, set_F_valid f false) else mret ()
    else mret ()));;
  Incr;;
  thread_Finish.
Definition sys_Create (value : Z) : M () :=
  address ← ReadR 4; fileName ← fetch_string address value; fs_Create fileName 128;; Incr.
Definition sys_Open (value : Z) : M () :=
  address ← ReadR 4; fileName ← fetch_string address value;
  openfile ← fs_Open fileName; WriteR 2 openfile;; Incr.
Definition sys_Close : M () := openfile ← ReadR 4; file_Close openfile;; Incr.
Definition sys_Write : M () :=
  addr ← ReadR 4; size ← ReadR 5; openfile ← ReadR 6;
  data ← read_chars (Z.to_nat size) addr 0;
  (if negb (openfile =? 1) then file_Write openfile data else putchars data);;
  Incr.
Definition sys_Read : M () :=
  addr ← ReadR 4; size ← ReadR 5; openfile ← ReadR 6;
  '(res, data) ← (if negb (openfile =? 0) then file_Read openfile size
                  else data ← getchars size; mret (size, data));
  write_chars data addr;;
  WriteR 2 res;; Incr.
Definition sys_Exec : M () :=
  address ← ReadR 4;
  s ← liftM getS; sp ← liftM (thread_space (currentThread s));
  tid ← thread_Fork ExecWrapperFn (mkForkInfo (Some sp) address);
  WriteR 2 tid;; Incr.
Definition sys_Fork : M () :=
  funcPc ← ReadR 4;
  s ← liftM getS; sp ← liftM (thread_space (currentThread s));
  tid ← thread_Fork ForkWrapperFn (mkForkInfo (Some sp) funcPc);
  WriteR 2 tid;; Incr.
Definition sys_Yield : M () := Incr;; thread_Yield.
Fixpoint join_loop (n : nat) (tid : Z) : M () :=
  used ← tid_in_use tid; self ← thread_getTid;
  if (used : bool) && negb (tid =? self) then
    match n with O => lift (Stop Blocked) | S n' => thread_Yield;; join_loop n' tid end
  else mret ().
Definition sys_Join : M () := tid ← ReadR 4; join_loop fuel tid;; Incr.
(** Remove, and the calls that hand a path to UNIX: RDir, CDir, Cd. *)
Definition sys_path (op : list Z → M ()) (value : Z) : M () :=
  address ← ReadR 4; fileName ← fetch_string address value; op fileName;; Incr.
(** Ls, Pwd and Help, which only print. *)
Definition sys_print (code : Z) : M () := unix_command code [];; Incr.

(** The [switch] on the code in register 2; [value] is the uninitialised [int value]
    of the case. *)
Definition Syscall (type value : Z) : M () :=
  if type =? SC_Halt then Halt
  else if type =? SC_Exit then sys_Exit
  else if type =? SC_Create then sys_Create value
  else if type =? SC_Open then sys_Open value
  else if type =? SC_Close then sys_Close
  else if type =? SC_Write then sys_Write
  else if type =? SC_Read then sys_Read
  else if type =? SC_Exec then sys_Exec
  else if type =? SC_Fork then sys_Fork
  else if type =? SC_Yield then sys_Yield
  else if type =? SC_Join then sys_Join
  else if type =? SC_RDir then sys_path (unix_command SC_RDir) value
  else if type =? SC_CDir then sys_path (unix_command SC_CDir) value
  else if type =? SC_Remove then sys_path fs_Remove value
  else if type =? SC_Ls then sys_print SC_Ls
  else if type =? SC_Pwd then sys_print SC_Pwd
  else if type =? SC_Cd then sys_path (unix_command SC_Cd) value
  else if type =? SC_Help then sys_print SC_Help
  else mret ().

(** [ExceptionHandler]. *)
Definition ExceptionHandler (value : Z) (which : ExceptionType) : M () :=
  match which with
  | SyscallException => type ← ReadR 2; Syscall type value
  | _ => liftM (ExceptionHandler_memory which)
  end.

(** [Machine::RaiseException] with the full handler, the kernel of the simulator. *)
Definition RaiseException_full (value : Z) (which : ExceptionType) (badVAddr : Z) : M () :=
  liftM (set_reg BadVAddrReg badVAddr;; DelayedLoad 0 0;; setStatus SystemMode;; OneTick);;
  ExceptionHandler value which;;
  liftM (setStatus UserMode).

(** *** The first code of forked threads, up to [machine->Run()] *)
Context (garbage : Z → list TranslationEntry) (mem : Z → list Z).

Definition ForkWrapper (info : ForkInfo) : M () :=
  match caller info with
  | None => lift (Stop Undefined)
  | Some from =>
      a ← liftM (space_get from);
      child ← lift (CopyFrom garbage mem a);
      sp ← liftM (alloc_space child);
      liftM (set_current_space (Some sp));;
      liftM (RestoreState sp);;
      WriteR PCReg (info_pc info);;
      WriteR NextPCReg (s32 (info_pc info + 4));;
      thread_SaveUserState
  end.

(** [false] is the early [return] when the file is not found. *)
Definition ExecWrapper (info : ForkInfo) (value : Z) : M bool :=
  liftM (set_current_space (caller info));;
  fileName ← fetch_string (info_pc info) value;
  o ← fs_executable fileName;
  match o with
  | None => mret false
  | Some executable =>
      space ← lift (AddrSpace_new garbage mem executable);
      sp ← liftM (alloc_space space);
      liftM (set_current_space (Some sp));;
      liftM (InitRegisters space);;
      liftM (RestoreState sp);;
      mret true
  end.
End handler.

(** ** The handler keeps the registers well formed *)

(** What the handler relies on in its services: they return with well-formed user
    registers (a call that switches threads restores them on the way back), and what
    they return for the user is an [int]. *)
Class ServiceLaws (OS : Type) `{Services OS} := {
  fs_Create_regs n k : spec (OS := OS) (regs_inv true) (fs_Create n k) (λ _, regs_inv true);
  fs_Open_regs n : spec (OS := OS) (regs_inv true) (fs_Open n) (λ f r, regs_inv true r ∧ is_s32 f);
  fs_Remove_regs n : spec (OS := OS) (regs_inv true) (fs_Remove n) (λ _, regs_inv true);
  file_Read_regs f k : spec (OS := OS) (regs_inv true) (file_Read f k) (λ x r, regs_inv true r ∧ is_s32 x.1);
  file_Write_regs f l : spec (OS := OS) (regs_inv true) (file_Write f l) (λ _, regs_inv true);
  file_Close_regs f : spec (OS := OS) (regs_inv true) (file_Close f) (λ _, regs_inv true);
  putchars_regs l : spec (OS := OS) (regs_inv true) (putchars l) (λ _, regs_inv true);
  getchars_regs k : spec (OS := OS) (regs_inv true) (getchars k) (λ _, regs_inv true);
  unix_command_regs c l : spec (OS := OS) (regs_inv true) (unix_command c l) (λ _, regs_inv true);
  thread_Fork_regs w i : spec (OS := OS) (regs_inv true) (thread_Fork w i) (λ t r, regs_inv true r ∧ is_s32 t);
  thread_Yield_regs : spec (OS := OS) (regs_inv true) thread_Yield (λ _, regs_inv true);
  thread_Finish_regs : spec (OS := OS) (regs_inv true) thread_Finish (λ _, regs_inv true);
  thread_getTid_regs : spec (OS := OS) (regs_inv true) thread_getTid (λ _, regs_inv true);
  tid_in_use_regs t : spec (OS := OS) (regs_inv true) (tid_in_use t) (λ _, regs_inv true);
  Halt_regs : spec (OS := OS) (regs_inv true) Halt (λ _, regs_inv true)
}.

Create HintDb traps.
#[export] Hint Resolve fs_Create_regs fs_Open_regs fs_Remove_regs file_Read_regs file_Write_regs
  file_Close_regs putchars_regs getchars_regs unix_command_regs thread_Fork_regs thread_Yield_regs
  thread_Finish_regs thread_getTid_regs tid_in_use_regs Halt_regs : traps.

Section syscall_registers.
Context `{InterruptOps, !InterruptLaws} {OS : Type} `{Services OS, !ServiceLaws OS}.
Abbreviation safe m := (spec (OS := OS) (regs_inv true) m (λ _, regs_inv true)).
Abbreviation gives_int m := (spec (OS := OS) (regs_inv true) m (λ v r, regs_inv true r ∧ is_s32 v)).

Lemma safe_ret {A} (x : A) : safe (mret x).
Proof. by apply spec_ret. Qed.
Lemma safe_stop {A} (e : stop) : safe (lift (Stop e : result A)).
Proof. intros s x s' HE. done. Qed.
Lemma safe_keeps {A} (m : MM A) : keeps m → safe (liftM m).
Proof.
  intros HK s x s' HE HP. unfold liftM in HE. destruct (m s.1) as [[y m']|] eqn:E; [|done].
  injection HE as <- <-. cbn. by rewrite (HK _ _ _ E).
Qed.
Lemma safe_bind {A B} (m : ST (Machine * OS) A) (f : A → ST (Machine * OS) B) :
  safe m → (∀ x, safe (f x)) → safe (m ≫= f).
Proof. intros Hm Hf. exact (spec_bind _ _ _ _ _ Hm Hf). Qed.
Lemma safe_bind_int {B} (m : ST (Machine * OS) Z) (f : Z → ST (Machine * OS) B) :
  gives_int m → (∀ v, is_s32 v → safe (f v)) → safe (m ≫= f).
Proof. intros Hm Hf. apply (spec_bind _ _ _ _ _ Hm). intros v. apply spec_pre. auto. Qed.

Lemma liftM_assert {A} b (m : MM A) (s s' : Machine * OS) x :
  liftM (lift (ASSERT b);; m) s = Ok (x, s') → liftM m s = Ok (x, s').
Proof. by destruct b. Qed.
Lemma safe_ReadR num : gives_int (ReadR num).
Proof. intros s x s' HE%liftM_assert. by apply (spec_R true num s x s'). Qed.
Lemma safe_WriteR num v : is_s32 v → num ≠ LoadReg → num ≠ 0 → safe (WriteR num v).
Proof.
  intros Hv Hl Hz s x s' HE%liftM_assert HP.
  destruct (spec_setR true num v Hv Hl _ _ _ HE HP) as [? ? _ ?]. split; [done..| |done].
  intros _. unfold liftM, set_reg in HE. erewrite ST_step in HE by reflexivity. unfold lift in HE.
  destruct (aset (registers s.1) num v) as [r|] eqn:Er; cbn in HE; [|done].
  injection HE as <- <-. apply aset_Ok in Er as [_ ->].
  change (znth (zset (registers s.1) num v) 0 = Some 0).
  rewrite znth_zset_ne by done. by apply (ri_zero _ _ HP).
Qed.
Lemma liftM_bind {A B} P (m : MM A) (f : A → MM B) (Q : B → list Z → Prop) :
  spec (OS := OS) P ((liftM m : ST (Machine * OS) A) ≫= λ x, (liftM (f x) : ST (Machine * OS) B)) Q →
  spec (OS := OS) P (liftM (m ≫= f)) Q.
Proof.
  intros Hm s x s' HE. apply (Hm s x s'). unfold liftM in *. unfold mbind, ST_bind in *. cbn.
  destruct (m s.1) as [[y m']|]; [|done]. cbn. by destruct (f y m') as [[]|].
Qed.
Lemma safe_Incr : safe Incr.
Proof.
  assert (gives_int (liftM (reg PCReg))) as Hpc by apply (spec_R true PCReg).
  assert (gives_int (liftM (reg NextPCReg))) as Hnpc by apply (spec_R true NextPCReg).
  apply liftM_bind, safe_bind_int; [done|]. intros pc Hv.
  apply liftM_bind, safe_bind; [by apply safe_WriteR|]. intros [].
  apply liftM_bind, safe_bind_int; [done|]. intros pc' Hv'.
  apply liftM_bind, safe_bind; [apply safe_WriteR; [apply s32_range|done..]|]. intros [].
  apply liftM_bind, safe_bind_int; [done|]. intros npc Hn.
  apply safe_WriteR; [apply s32_range|done..].
Qed.

Lemma safe_read_char va v : is_s32 va → safe (read_char va v).
Proof.
  intros Hva. eapply spec_bind; [apply (spec_read va 1 Hva)|]. intros o. apply spec_pre.
  intros _. apply safe_ret.
Qed.
Lemma safe_string_length n : ∀ va v count, is_s32 va → safe (string_length n va v count).
Proof.
  induction n as [|n IH]; intros va v count Hva; cbn [string_length]; [apply safe_stop|].
  apply safe_bind; [by apply safe_read_char|]. intros x. case_match; [apply safe_ret|].
  apply IH, s32_range.
Qed.
Lemma safe_read_chars n : ∀ va v, is_s32 va → safe (read_chars n va v).
Proof.
  induction n as [|n IH]; intros va v Hva; cbn [read_chars]; [apply safe_ret|].
  apply safe_bind; [by apply safe_read_char|]. intros x.
  apply safe_bind; [apply IH, s32_range|]. intros l. apply safe_ret.
Qed.
Lemma safe_fetch_string fuel va v : is_s32 va → safe (fetch_string fuel va v).
Proof.
  intros Hva. apply safe_bind; [by apply safe_string_length|]. intros [count w].
  by apply safe_read_chars.
Qed.
Lemma safe_write_chars l : ∀ va, is_s32 va → safe (write_chars l va).
Proof.
  induction l as [|c l IH]; intros va Hva; cbn [write_chars]; [apply safe_ret|].
  apply safe_bind; [by apply (spec_write va 1 c)|]. intros _. apply IH, s32_range.
Qed.
Lemma safe_join_loop n : ∀ t, safe (join_loop n t).
Proof.
  induction n as [|n IH]; intros t; cbn [join_loop];
    (apply safe_bind; [apply tid_in_use_regs|]; intros used);
    (apply safe_bind; [apply thread_getTid_regs|]; intros self); case_match;
    [apply safe_stop|apply safe_ret| |apply safe_ret].
  apply safe_bind; [apply thread_Yield_regs|]. intros []. apply IH.
Qed.
Lemma keeps_getS : keeps getS.
Proof. by intros m x m' [= _ <-]. Qed.
#[local] Hint Resolve safe_ret safe_stop safe_ReadR safe_Incr safe_fetch_string safe_read_chars
  safe_write_chars safe_join_loop safe_keeps s32_range : traps.
#[local] Hint Resolve keeps_getS keeps_thread_space : traps.
#[local] Hint Extern 1 (safe (WriteR 2 _)) => apply safe_WriteR; [|done|done] : traps.

(** Walks through the body of a system call. *)
Ltac safely :=
  repeat match goal with
  | |- spec _ ((if ?b then _ else _) ≫= _) _ => destruct b
  | |- spec _ (_ ≫= _) _ =>
      first [ apply safe_bind_int; [solve [auto with traps]|intros ? ?]
            | apply safe_bind; [solve [auto with traps]|intros ?] ]
  | |- spec _ (if ?b then _ else _) _ => destruct b
  | |- _ => solve [auto with traps]
  end.

Lemma safe_Exit : safe sys_Exit.
Proof.
  unfold sys_Exit. apply safe_bind; [apply safe_keeps, keeps_getS|]. intros m.
  apply safe_bind; [|intros []; safely]. apply safe_keeps, keeps_for_in. intros i. keeping.
Qed.
Lemma safe_Read : safe sys_Read.
Proof.
  unfold sys_Read. do 3 (apply safe_bind_int; [apply safe_ReadR|intros ? ?]).
  apply (spec_bind _ _ (λ x r, regs_inv true r ∧ is_s32 x.1)).
  - case_match; [apply file_Read_regs|]. eapply spec_bind; [apply getchars_regs|].
    intros l. by apply spec_ret.
  - intros [res data]. apply spec_pre. intros Hres. cbn in Hres. safely.
Qed.
Lemma safe_Syscall fuel type value : safe (Syscall fuel type value).
Proof.
  unfold Syscall. repeat case_match; try apply safe_Exit; try apply safe_Read;
    try apply safe_ret; try apply Halt_regs;
    unfold sys_Create, sys_Open, sys_Close, sys_Write, sys_Exec, sys_Fork, sys_Yield, sys_Join,
      sys_path, sys_print; safely.
Qed.

(** The entry of a trap, as in [trap_step]. *)
Lemma trap_entry va m :
  regs_ok (registers m) →
  ∃ t, (set_reg BadVAddrReg va;; DelayedLoad 0 0;; setStatus SystemMode;; OneTick) m =
    Ok ((), set_clock (set_registers m (delayed_load (zset (registers m) BadVAddrReg va) 0 0)) t SystemMode).
Proof.
  intros [Hl _ _ (n & Hn & Hnr)].
  erewrite ST_step by (apply set_reg_step; rewrite Hl; done). cbv beta iota.
  erewrite ST_step.
  2:{ apply DelayedLoad_step; cbn [registers set_registers]; [by rewrite zlen_zset|].
      exists n. by rewrite znth_zset_ne. }
  cbv beta iota. unfold setStatus. erewrite ST_step by reflexivity. cbv beta iota.
  match goal with |- ∃ t, OneTick ?m1 = _ => destruct (OneTick_frame m1) as [t Ht] end.
  by exists t.
Qed.

(** [RaiseException] with the handler of exception.cc keeps the law that the
    instruction interpreter relies on. *)
Lemma RaiseException_full_regs fuel value which va (s s' : Machine * OS) :
  is_s32 va → RaiseException_full fuel value which va s = Ok ((), s') →
  regs_ok (registers s.1) → regs_ok (registers s'.1).
Proof.
  intros Hva HE Hok. unfold RaiseException_full in HE.
  apply ST_bind_Ok in HE as ([] & s1 & E1 & HE). apply ST_bind_Ok in HE as ([] & s2 & E2 & HE).
  assert (registers s'.1 = registers s2.1) as -> by (by injection HE as <-).
  assert (regs_ok (registers s1.1)) as Hok1.
  { destruct (trap_entry va s.1 Hok) as [t Ht]. unfold liftM in E1. rewrite Ht in E1.
    injection E1 as <-. by apply trap_registers. }
  apply regs_inv_ok. apply regs_inv_ok in Hok1. revert E2 Hok1.
  assert (safe (ExceptionHandler fuel value which)) as HS; [|apply HS].
  assert (keeps (ExceptionHandler_memory which)) as HK.
  { unfold ExceptionHandler_memory, ReadRegister, reg. keeping. unfold LRU_TLB. keeping. }
  destruct which; try by apply safe_keeps.
  apply safe_bind_int; [apply safe_ReadR|]. intros type _. apply safe_Syscall.
Qed.
End syscall_registers.

(** The kernel of exception.cc as the kernel the interpreter traps into. *)
Definition full_traps `{InterruptOps} {OS : Type} `{Services OS} (fuel : nat) (value : Z) : TrapOps OS :=
  RaiseException_full fuel value.
Lemma full_laws `{InterruptOps, !InterruptLaws} {OS : Type} `{Services OS, !ServiceLaws OS} fuel value :
  TrapLaws OS (H := full_traps fuel value).
Proof. intros which va s s'. apply RaiseException_full_regs. Qed.

(** ** Transfers between the kernel and user memory *)
Section transfers.
Context `{InterruptOps, !InterruptLaws} {OS : Type} `{Services OS}.
Implicit Types (s : Machine * OS).

Lemma liftM_step {A} (m : MM A) s x m' : m s.1 = Ok (x, m') → liftM m s = Ok (x, (m', s.2)).
Proof. intros E. unfold liftM. by rewrite E. Qed.

(** A user program runs and the bytes of its memory are [mm]. *)
Definition user_sees s (mm : list Z) : Prop := user_running s.1 ∧ user_memory s.1 = mm.

Lemma user_memory_limit s mm : user_sees s mm → zlen mm ≤ 2 ^ 31.
Proof.
  intros [[_ (sp & a & HR)] <-]. rewrite (zlen_user_memory _ _ _ _ HR).
  apply (pg_size _ _ _ _ _ _ (rn_paged _ _ _ _ HR)).
Qed.

Lemma byte_access s mm va :
  user_sees s mm → 0 ≤ va < zlen mm → ∃ sp a, running None s.1 sp a ∧ access a va 1.
Proof.
  intros [[_ (sp & a & HR)] <-] Hva. exists sp, a. split; [done|].
  rewrite (zlen_user_memory _ _ _ _ HR) in Hva. split; [lia|lia|lia|done].
Qed.

Lemma read_char_ok s mm va v b :
  user_sees s mm → znth mm va = Some b →
  ∃ s', read_char va v s = Ok (s8 b, s') ∧ user_sees s' mm ∧ s'.2 = s.2.
Proof.
  intros HS Hb. pose proof (znth_Some_range _ _ _ Hb) as Hr.
  destruct (byte_access s mm va HS Hr) as (sp & a & HR & HA). destruct HS as [[Hok _] Hmm].
  destruct (ReadMem_ok s.1 sp a va 1 HR Hok HA) as (m' & E & Hrun & Hsame).
  unfold read_char. step (liftM_step _ _ _ _ E). eexists. split.
  - unfold mret, ST_ret. do 2 f_equal. cbn [default load_value Z.eqb Pos.eqb]. rewrite Hmm.
    assert (read_at mm va 1 = [b]) as ->; [|by cbn; rewrite Z.add_0_r].
    apply znth_ext; [change (zlen [b]) with 1; apply read_at_length; lia|]. intros i Hi. rewrite read_at_length in Hi by lia.
    assert (i = 0) as -> by lia. rewrite znth_read_at by lia. by rewrite Z.add_0_r.
  - split; [|done]. split; [done|]. cbn [fst]. by rewrite Hsame.
Qed.

Lemma next_address s mm va : user_sees s mm → 0 ≤ va → va + 1 < zlen mm → s32 (va + 1) = va + 1.
Proof. intros HS%user_memory_limit ? ?. apply s32_small. unfold is_s32. lia. Qed.

Lemma read_chars_ok mm n : ∀ s va v,
  user_sees s mm → 0 ≤ va → va + Z.of_nat n ≤ zlen mm →
  ∃ s', read_chars n va v s = Ok (s8 <$> read_at mm va (Z.of_nat n), s') ∧ user_sees s' mm ∧ s'.2 = s.2.
Proof.
  induction n as [|n IH]; intros s va v HS Hva Hn; cbn [read_chars].
  { exists s. by destruct s. }
  destruct (znth_range mm va) as [b Hb]; [lia|].
  destruct (read_char_ok s mm va v b HS Hb) as (s1 & E1 & HS1 & Hos1). step E1.
  assert (read_at mm va (Z.of_nat (S n)) = b :: read_at mm (va + 1) (Z.of_nat n)) as ->.
  { unfold read_at, znth in *. destruct (Z.ltb_spec va 0); [lia|]. rewrite !Nat2Z.id.
    replace (Z.to_nat (va + 1)) with (S (Z.to_nat va)) by lia.
    by rewrite (drop_S _ _ _ Hb). }
  destruct n as [|n'].
  - exists s1. split_and!; [|done|done]. cbn [read_chars]. by erewrite ST_step by reflexivity.
  - rewrite (next_address s mm va HS) by lia.
    destruct (IH s1 (va + 1) (s8 b) HS1) as (s2 & E2 & HS2 & Hos2); [lia|lia|].
    step E2. exists s2. split_and!; [done|done|congruence].
Qed.

(** The length loop stops at the first 0. *)
Lemma string_length_ok mm l : ∀ s fuel va v count,
  user_sees s mm → 0 ≤ va → va + zlen l < zlen mm →
  Forall (λ b, 0 < b < 256) l → read_at mm va (zlen l) = l → znth mm (va + zlen l) = Some 0 →
  (List.length l < fuel)%nat →
  ∃ s', string_length fuel va v count s = Ok ((count + zlen l + 1, 0), s') ∧
    user_sees s' mm ∧ s'.2 = s.2.
Proof.
  induction l as [|b l IH]; intros s fuel va v count HS Hva Hend HF Hl Hz Hfuel;
    (destruct fuel as [|fuel]; [cbn in Hfuel; lia|]); cbn [string_length].
  - change (zlen (@nil Z)) with 0 in *. rewrite Z.add_0_r in Hz.
    destruct (read_char_ok s mm va v 0 HS Hz) as (s1 & E1 & HS1 & Hos1). step E1.
    exists s1. split_and!; try done. change (s8 0) with 0. cbn [Z.eqb].
    unfold mret, ST_ret. do 3 f_equal. lia.
  - assert (zlen (b :: l) = 1 + zlen l) as Hcons by (unfold zlen; cbn [List.length]; lia).
    pose proof (zlen_nonneg l). apply Forall_cons_iff in HF as [Hb HF].
    assert (znth mm va = Some b) as Hvb.
    { rewrite <-(Z.add_0_r va), <-(znth_read_at mm va (zlen (b :: l)) 0) by lia. by rewrite Hl. }
    destruct (read_char_ok s mm va v b HS Hvb) as (s1 & E1 & HS1 & Hos1). step E1.
    destruct (Z.eqb_spec (s8 b) 0) as [E|E].
    { exfalso. unfold s8 in E. Z.to_euclidean_division_equations; lia. }
    rewrite (next_address s mm va HS) by lia.
    destruct (IH s1 fuel (va + 1) (s8 b) (count + 1) HS1) as (s2 & E2 & HS2 & Hos2);
      [lia|lia|done| |by rewrite <-Hz; f_equal; lia|cbn in Hfuel; lia|].
    + apply znth_ext; [apply read_at_length; lia|]. intros i Hi. rewrite read_at_length in Hi by lia.
      rewrite znth_read_at by lia.
      replace (va + 1 + i) with (va + (i + 1)) by lia.
      rewrite <-(znth_read_at mm va (zlen (b :: l))), Hl by lia. unfold znth.
      destruct (Z.ltb_spec (i + 1) 0), (Z.ltb_spec i 0); try lia.
      by replace (Z.to_nat (i + 1)) with (S (Z.to_nat i)) by lia.
    + exists s2. split_and!; [|done|congruence]. rewrite E2. do 3 f_equal. lia.
Qed.

Lemma write_chars_ok data : ∀ s mm va,
  user_sees s mm → 0 ≤ va → va + zlen data ≤ zlen mm →
  ∃ s', write_chars data va s = Ok ((), s') ∧
    user_sees s' (write_at mm va ((λ c, c mod 256) <$> data)) ∧ s'.2 = s.2.
Proof.
  induction data as [|c data IH]; intros s mm va HS Hva Hn; cbn [write_chars].
  { exists s. split; [by destruct s|]. split; [|done]. unfold write_at.
    rewrite fmap_nil, app_nil_l. cbn [List.length]. by rewrite Nat.add_0_r, take_drop. }
  assert (zlen (c :: data) = 1 + zlen data) as Hcons by (unfold zlen; cbn [List.length]; lia).
  pose proof (zlen_nonneg data).
  destruct (byte_access s mm va HS) as (sp & a & HR & HA); [lia|]. destruct HS as [[Hok Hex] Hmm].
  destruct (WriteMem_ok s.1 sp a va 1 c HR Hok HA) as (m' & E & Hrun & Hm').
  step (liftM_step _ _ _ _ E). rewrite Hmm in Hm'.
  change (le_split (Z.to_nat 1) c) with [c mod 256] in Hm'.
  assert (zlen [c mod 256] = 1) as Hone by done.
  assert (zlen (write_at mm va [c mod 256]) = zlen mm) as Hlen by (apply write_at_length; lia).
  destruct data as [|c2 data].
  { eexists. split; [reflexivity|]. split; [|done]. split; [done|]. cbn [fst]. by rewrite Hm'. }
  set (rest := c2 :: data) in *. assert (1 ≤ zlen rest) by (unfold zlen, rest; cbn [List.length]; lia).
  assert (s32 (va + 1) = va + 1) as ->.
  { apply (next_address s mm); [|lia..]. by split. }
  destruct (IH (m', s.2) (write_at mm va [c mod 256]) (va + 1)) as (s2 & E2 & HS2 & Hos2);
    [by split|lia|lia|].
  exists s2. split; [done|]. split; [|done]. destruct HS2 as [? Hs2]. split; [done|]. rewrite Hs2.
  rewrite fmap_cons. set (bs := (λ c, c mod 256) <$> rest).
  assert (zlen bs = zlen rest) as Hbs by (unfold bs; apply zlen_fmap).
  assert (zlen ((c mod 256) :: bs) = 1 + zlen bs) as Hcb by (unfold zlen; cbn [List.length]; lia).
  apply znth_ext; rewrite !write_at_length; rewrite ?write_at_length; try lia.
  intros i Hi. rewrite !znth_write_at; rewrite ?Hlen; try lia. rewrite Hone. repeat case_bool_decide; try lia; try done.
  - unfold znth. destruct (Z.ltb_spec (i - (va + 1)) 0), (Z.ltb_spec (i - va) 0); try lia.
    by replace (Z.to_nat (i - va)) with (S (Z.to_nat (i - (va + 1)))) by lia.
  - by replace (i - va) with 0 by lia.
Qed.
End transfers.

(** ** The properties *)

(** A kernel that records the strings it is given and does nothing else. *)
Definition log (x : list Z) : ST (Machine * list (list Z)) () := λ s, Ok ((), (s.1, x :: s.2)).
#[export] Instance log_services : Services (list (list Z)) := {|
  fs_Create n _ := log n; fs_Open n := log n;; mret 5; fs_Remove := log;
  fs_executable n := log n;; mret None; file_Read _ n := mret (0, replicate (Z.to_nat n) 0);
  file_Write _ := log; file_Close f := log [f]; putchars := log;
  getchars n := mret (replicate (Z.to_nat n) 65); unix_command _ := log;
  thread_Fork _ i := log [info_pc i];; mret 1; thread_Yield := mret (); thread_Finish := mret ();
  thread_SaveUserState := mret (); thread_getTid := mret 0; tid_in_use _ := mret false;
  Halt := mret () |}.
#[export] Instance log_laws : ServiceLaws (list (list Z)).
Proof.
  assert (∀ x, spec (OS := list (list Z)) (regs_inv true) (log x) (λ _, regs_inv true)) as HL
    by (by intros x s [] s' [= <-]).
  split; intros; try apply HL; try (by apply spec_ret);
    (eapply spec_bind; [apply HL|]; intros []; by apply spec_ret).
Qed.

(** Every instruction of a program that runs on the kernel of exception.cc, system
    calls and page faults included, leaves the registers well formed. *)
Theorem program_step_registers `{InterruptLaws} {OS : Type} `{ServiceLaws OS} fuel value
    (s s' : Machine * OS) :
  regs_ok (registers s.1) → OneInstruction (H0 := full_traps fuel value) s = Ok ((), s') →
  regs_ok (registers s'.1).
Proof. apply (OneInstruction_regs (H1 := full_traps fuel value) (H2 := full_laws fuel value)). Qed.

Definition example_user : Machine * list (list Z) := (example_machine [example_space 40], []).
Lemma example_sees : user_sees example_user (vSpace (example_space 40)).
Proof. split; [exact example_running|]. apply (loaded_memory _ _ _ example_loaded). Qed.

(** C30: A string argument of a system call is fetched exactly: when the user memory
    holds, from [address], non-zero bytes [l] and then a 0, the two loops of the
    handler return with these characters and the 0, and the user's memory and the
    kernel's state are unchanged; [length l + 1] rounds are enough. *)
Theorem fetch_string_correct `{InterruptLaws} {OS : Type} `{Services OS}
    (s : Machine * OS) fuel address value l :
  user_running s.1 → 0 ≤ address → address + zlen l < zlen (user_memory s.1) →
  Forall (λ b, 0 < b < 256) l → read_at (user_memory s.1) address (zlen l) = l →
  znth (user_memory s.1) (address + zlen l) = Some 0 → (length l < fuel)%nat →
  ∃ s', fetch_string fuel address value s = Ok (s8 <$> (l ++ [0]), s') ∧
    user_running s'.1 ∧ user_memory s'.1 = user_memory s.1 ∧ s'.2 = s.2.
Proof.
  set (mm := user_memory s.1). intros HR Ha Hend HF Hl Hz Hfuel.
  assert (user_sees s mm) as HS by (by split).
  destruct (string_length_ok mm l s fuel address value 0 HS Ha Hend HF Hl Hz Hfuel)
    as (s1 & E1 & HS1 & Hos1).
  pose proof (zlen_nonneg l). unfold fetch_string. step E1.
  destruct (read_chars_ok mm (Z.to_nat (0 + zlen l + 1)) s1 address 0 HS1 Ha) as (s2 & E2 & [HR2 Hm2] & Hos2);
    [lia|].
  exists s2. split_and!; [|done|done|congruence]. rewrite E2. do 3 f_equal.
  rewrite Z2Nat.id by lia. rewrite <-Hl at 2.
  apply znth_ext.
  { rewrite zlen_app, !read_at_length by lia. change (zlen [0]) with 1. lia. }
  intros i Hi. rewrite read_at_length in Hi by lia. rewrite znth_read_at by lia.
  destruct (decide (i = zlen l)) as [->|Hne].
  - rewrite Hz, Hl. unfold znth, zlen. destruct (Z.ltb_spec (Z.of_nat (length l)) 0); [lia|].
    rewrite Nat2Z.id. by rewrite list_lookup_middle.
  - rewrite <-(znth_read_at mm address (zlen l) i) by lia. rewrite Hl. unfold znth, zlen in *.
    destruct (Z.ltb_spec i 0); [lia|]. by rewrite lookup_app_l by lia.
Qed.

Lemma fetch_string_correct_witness :
  let s : Machine * list (list Z) :=
    (set_spaces (example_machine [example_space 40])
       [mkAS (AS_pageTable (example_space 40)) 40 (write_at (vSpace (example_space 40)) 640 [47; 97; 0])],
     []) in
  ∃ s', fetch_string 3 640 0 s = Ok (s8 <$> ([47; 97] ++ [0]), s') ∧
    user_running s'.1 ∧ user_memory s'.1 = user_memory s.1 ∧ s'.2 = s.2.
Proof.
  intros s.
  assert (loaded s.1 0 (mkAS (AS_pageTable (example_space 40)) 40
            (write_at (vSpace (example_space 40)) 640 [47; 97; 0]))) as HL.
  { split; try (vm_compute; done).
    - split; [reflexivity|]. by apply Forall_replicate.
    - split; [reflexivity|]. by apply Forall_replicate.
    - split; [reflexivity|]. by apply Forall_replicate. }
  apply (fetch_string_correct s 3 640 0 [47; 97]).
  - split; [exact (example_regs [example_space 40])|]. eexists _, _. apply (loaded_running _ _ _ HL).
  - lia.
  - rewrite (loaded_memory _ _ _ HL). vm_compute. reflexivity.
  - repeat constructor.
  - rewrite (loaded_memory _ _ _ HL). vm_compute. reflexivity.
  - rewrite (loaded_memory _ _ _ HL). vm_compute. reflexivity.
  - cbn. lia.
Defined.

(** What Read copies out, Write copies in: storing a buffer of characters into user
    memory with the loop of [SC_Read] and fetching as many from the same address with
    the loop of [SC_Write] returns the buffer, for any buffer that fits. *)
Theorem user_copy_roundtrip `{InterruptLaws} {OS : Type} `{Services OS}
    (s : Machine * OS) data address value :
  user_running s.1 → 0 ≤ address → address + zlen data ≤ zlen (user_memory s.1) →
  Forall (λ c, -128 ≤ c < 128) data →
  ∃ s', (write_chars data address;; read_chars (length data) address value) s = Ok (data, s') ∧
    user_running s'.1 ∧ s'.2 = s.2.
Proof.
  intros HR Ha Hfit HF. set (mm := user_memory s.1) in *.
  destruct (write_chars_ok data s mm address) as (s1 & E1 & HS1 & Hos1); [by split|done|done|].
  step E1. set (bs := (λ c, c mod 256) <$> data) in *.
  assert (zlen bs = zlen data) as Hbs by (unfold bs; apply zlen_fmap).
  destruct (read_chars_ok _ (length data) s1 address value HS1 Ha) as (s2 & E2 & [HR2 _] & Hos2).
  { rewrite write_at_length by lia. unfold zlen in *. lia. }
  exists s2. split_and!; [|done|congruence]. rewrite E2. do 2 f_equal.
  change (Z.of_nat (length data)) with (zlen data). rewrite <-Hbs, read_write_same by lia.
  unfold bs. rewrite <-list_fmap_compose. rewrite <-(list_fmap_id data) at 2.
  apply list_fmap_ext. intros i c Hc. pose proof (Forall_lookup_1 _ _ _ _ HF Hc) as Hr. cbn in *.
  unfold s8, id. Z.to_euclidean_division_equations; lia.
Qed.

Lemma user_copy_roundtrip_witness :
  ∃ s', (write_chars [1; -1; 127; 0] 126;; read_chars 4 126 0) example_user = Ok ([1; -1; 127; 0], s') ∧
    user_running s'.1 ∧ s'.2 = example_user.2.
Proof.
  apply (user_copy_roundtrip example_user [1; -1; 127; 0] 126 0).
  - exact example_running.
  - lia.
  - rewrite (proj2 example_sees). vm_compute. discriminate.
  - repeat constructor; discriminate.
Defined.

(** A system call with a code the handler does not know returns without advancing
    the program counter: nothing in the machine or the kernel changes, so that the
    program executes the same instruction for ever. *)
Theorem unknown_syscall_repeats {OS : Type} `{InterruptOps, Services OS} (s : Machine * OS) fuel value type :
  zlen (registers s.1) = NumTotalRegs → znth (registers s.1) 2 = Some type →
  ¬ (0 ≤ type ≤ 17) → ExceptionHandler fuel value SyscallException s = Ok ((), s).
Proof.
  intros Hl Hty Hout. unfold ExceptionHandler, ReadR.
  step (liftM_step _ _ _ _ (ReadRegister_step 2 s.1 type ltac:(done) Hty)). unfold Syscall.
  unfold SC_Halt, SC_Exit, SC_Exec, SC_Join, SC_Create, SC_Open, SC_Read, SC_Write, SC_Close, SC_Fork,
    SC_Yield, SC_Remove, SC_CDir, SC_RDir, SC_Pwd, SC_Ls, SC_Cd, SC_Help.
  repeat match goal with |- context [type =? ?n] => destruct (Z.eqb_spec type n); [lia|] end.
  by destruct s.
Qed.

Definition unknown_call : Machine * list (list Z) :=
  (set_registers (example_machine [example_space 40]) (zset (replicate 40 0) 2 99), []).
Lemma unknown_syscall_repeats_witness :
  ExceptionHandler 0 0 SyscallException unknown_call = Ok ((), unknown_call).
Proof. apply (unknown_syscall_repeats unknown_call 0 0 99); [reflexivity|reflexivity|lia]. Defined.
