(* ===== verification/Interleaving.v ===== *)
(** * Interleavings of threads and devices

    A system of threads that share a state and of devices that change it by interrupts.
    A thread is interrupted only where interrupts are enabled, that is inside the calls
    of the kernel; what a routine does between two such calls is one step.  A step of a
    thread depends on the place where it is ([L]) and on the shared state ([S]); it can
    be impossible for the time being ([Ok None]: the thread sleeps) or fail ([Stop]).

    Semaphores enter as their values: by Kernel.v, [P_loop] decrements a positive value
    in one step and sleeps otherwise, and [V_inc] increments it in one step.  Every
    behaviour of the kernel is thus one of the interleavings here, in which a sleeping
    thread may in addition be woken later than by the queue of the semaphore.

    [tally] counts the threads at some place, so that the invariants of protocols are
    linear equations between counters and tallies.  [verify] decides what holds in all
    reachable states of a system whose runs are finite, by computing them. *)

From S2P Require Import Prelude.

Section systems.
Context {S L E : Type}.
(** [tstep i l s] is the next step of thread [i] at the place [l]; [estep e s] is the
    event [e] of a device. *)
Context (tstep : nat → L → S → result (option (L * S))) (estep : E → S → result (option S)).

Record sys := mkSys { shared : S; locals : list L }.
Inductive label := Thread (i : nat) | Event (e : E).

Definition act (a : label) (s : sys) : result (option sys) :=
  match a with
  | Thread i =>
      match locals s !! i with
      | None => Ok None
      | Some l =>
          r ← tstep i l (shared s);
          Ok (match r with Some (l', s') => Some (mkSys s' (<[i := l']> (locals s))) | None => None end)
      end
  | Event e =>
      r ← estep e (shared s);
      Ok (match r with Some s' => Some (mkSys s' (locals s)) | None => None end)
  end.

Definition step (s s' : sys) : Prop := ∃ a, act a s = Ok (Some s').
Definition fails (s : sys) : Prop := ∃ a e, act a s = Stop e.

(** The steps [as'] in this order; a step that is not possible ends the run. *)
Fixpoint play (as' : list label) (s : sys) : result sys :=
  match as' with
  | [] => Ok s
  | a :: as' => r ← act a s; match r with Some s' => play as' s' | None => Stop Blocked end
  end.

Lemma play_reachable as' s s' : play as' s = Ok s' → rtc step s s'.
Proof.
  revert s. induction as' as [|a as' IH]; intros s H; cbn in H; [by injection H as ->|].
  inv_bind. destruct x as [s1|]; [|done]. eapply rtc_l; [by exists a|by apply IH].
Qed.

(** Steps in which only the events [P] happen. *)
Definition step_if (P : E → Prop) (s s' : sys) : Prop :=
  ∃ a, match a with Event e => P e | Thread _ => True end ∧ act a s = Ok (Some s').

Lemma play_reachable_if (P : E → Prop) as' s s' :
  Forall (λ a, match a with Event e => P e | Thread _ => True end) as' →
  play as' s = Ok s' → rtc (step_if P) s s'.
Proof.
  revert s. induction as' as [|a as' IH]; intros s HF H; cbn in H; [by injection H as ->|].
  inv_bind. destruct x as [s1|]; [|done]. apply Forall_cons_1 in HF as [Ha HF].
  eapply rtc_l; [by exists a|by apply IH].
Qed.

(** Rule induction: an invariant of the shared state and the places. *)
Lemma reachable_invariant_if (P : E → Prop) (I : S → list L → Prop) s0 s :
  I (shared s0) (locals s0) →
  (∀ i l s1 ls l' s2, I s1 ls → ls !! i = Some l → tstep i l s1 = Ok (Some (l', s2)) →
     I s2 (<[i := l']> ls)) →
  (∀ e s1 ls s2, P e → I s1 ls → estep e s1 = Ok (Some s2) → I s2 ls) →
  rtc (step_if P) s0 s → I (shared s) (locals s).
Proof.
  intros H0 Ht He Hr. induction Hr as [|s1 s2 s3 (a & HP & Ha) _ IH]; [done|]. apply IH. clear IH s3.
  destruct a as [i|e]; cbn in Ha.
  - destruct (locals s1 !! i) as [l|] eqn:Hl; [|done]. inv_bind.
    destruct x as [[l' s']|]; [|done]. simplify_eq/=. by eapply Ht.
  - inv_bind. destruct x as [s'|]; [|done]. simplify_eq/=. by eapply He.
Qed.
Lemma reachable_invariant (I : S → list L → Prop) s0 s :
  I (shared s0) (locals s0) →
  (∀ i l s1 ls l' s2, I s1 ls → ls !! i = Some l → tstep i l s1 = Ok (Some (l', s2)) →
     I s2 (<[i := l']> ls)) →
  (∀ e s1 ls s2, I s1 ls → estep e s1 = Ok (Some s2) → I s2 ls) →
  rtc step s0 s → I (shared s) (locals s).
Proof.
  intros H0 Ht He Hr. apply (reachable_invariant_if (λ _, True) I s0 s H0 Ht); [naive_solver|].
  eapply rtc_subrel; [|exact Hr]. intros ?? [a Ha]. exists a. by destruct a.
Qed.

(** No failure: no thread and no event that is allowed stops. *)
Lemma no_failure_if (P : E → Prop) s :
  (∀ i l e, locals s !! i = Some l → tstep i l (shared s) ≠ Stop e) →
  (∀ ev e, P ev → estep ev (shared s) ≠ Stop e) →
  ∀ a e, match a with Event e => P e | Thread _ => True end → act a s ≠ Stop e.
Proof.
  intros Ht He [i|ev] e HP; cbn.
  - destruct (locals s !! i) as [l|] eqn:Hl; [|done]. specialize (Ht i l).
    destruct (tstep i l (shared s)) as [|e0]; [done|]. by destruct (Ht e0 Hl).
  - specialize (He ev). destruct (estep ev (shared s)) as [|e0]; [done|]. by destruct (He e0 HP).
Qed.

(** ** Exploration of a finite system *)

Context `{!EqDecision S, !EqDecision L}.
#[export] Instance sys_eq_dec : EqDecision sys.
Proof. solve_decision. Defined.

Context (labels : list label).

(** The successors of a state by [labels]; [None] when a step fails. *)
Fixpoint successors (ls : list label) (s : sys) : option (list sys) :=
  match ls with
  | [] => Some []
  | a :: ls =>
      match act a s, successors ls s with
      | Ok (Some s'), Some l => Some (s' :: l)
      | Ok None, Some l => Some l
      | _, _ => None
      end
  end.

Fixpoint all_successors (l : list sys) : option (list sys) :=
  match l with
  | [] => Some []
  | s :: l =>
      match successors labels s, all_successors l with
      | Some l1, Some l2 => Some (l1 ++ l2)
      | _, _ => None
      end
  end.

(** All states that are reached after 0, 1, 2, ... steps from those of [layer], until
    there are none: no step fails and [ok] holds of each. *)
Fixpoint verify (ok : sys → bool) (n : nat) (layer : list sys) : bool :=
  match n, layer with
  | _, [] => true
  | O, _ => false
  | Datatypes.S n, _ =>
      match all_successors layer with
      | Some next => forallb ok layer && verify ok n (remove_dups next)
      | None => false
      end
  end.

Lemma successors_act ls s l a s' :
  successors ls s = Some l → a ∈ ls → act a s = Ok (Some s') → s' ∈ l.
Proof.
  revert l. induction ls as [|a' ls IH]; intros l Hl Ha Hs; [by apply not_elem_of_nil in Ha|].
  cbn in Hl. apply elem_of_cons in Ha as [->|Ha].
  - rewrite Hs in Hl. destruct (successors ls s); [|done]. simplify_eq. set_solver.
  - destruct (act a' s) as [[s1|]|]; [| |done]; destruct (successors ls s) as [l'|]; try done; simplify_eq.
    + apply elem_of_cons. right. by apply IH.
    + by apply IH.
Qed.
Lemma successors_ok ls s l a e : successors ls s = Some l → a ∈ ls → act a s ≠ Stop e.
Proof.
  revert l. induction ls as [|a' ls IH]; intros l Hl Ha Hs; [by apply not_elem_of_nil in Ha|].
  cbn in Hl. apply elem_of_cons in Ha as [->|Ha]; [by rewrite Hs in Hl|].
  destruct (act a' s) as [[s1|]|]; try done; destruct (successors ls s) as [l'|] eqn:Hls; try done;
    by eapply IH.
Qed.

Lemma all_successors_elem l next s :
  all_successors l = Some next → s ∈ l →
  ∃ l1, successors labels s = Some l1 ∧ ∀ s', s' ∈ l1 → s' ∈ next.
Proof.
  revert next. induction l as [|s1 l IH]; intros next Hn Hs; [by apply not_elem_of_nil in Hs|].
  cbn in Hn. destruct (successors labels s1) as [l1|] eqn:H1; [|done].
  destruct (all_successors l) as [l2|]; [|done]. injection Hn as <-.
  apply elem_of_cons in Hs as [->|Hs].
  - exists l1. set_solver.
  - destruct (IH l2 eq_refl Hs) as (l3 & ? & ?). exists l3. set_solver.
Qed.

(** [verify] is sound when [labels] names every step of a state that [ok] holds of. *)
Lemma verified ok n layer s0 s :
  verify ok n layer = true → s0 ∈ layer →
  (∀ a s1, ok s1 = true → a ∈ labels ∨ act a s1 = Ok None) →
  rtc step s0 s → ok s = true ∧ ¬ fails s.
Proof.
  intros Hv H0 Hlab Hr. revert n layer Hv H0.
  induction Hr as [s|s1 s2 s3 [a Ha] _ IH]; intros [|n] layer Hv H0;
    (destruct layer as [|x layer]; [by apply not_elem_of_nil in H0|]); [done| |done|];
    cbn [verify] in Hv; remember (x :: layer) as l;
    (destruct (all_successors l) as [next|] eqn:Hnext; [|done]);
    apply andb_true_iff in Hv as [Hok Hv]; rewrite forallb_forall in Hok.
  - specialize (Hok s (proj1 (list_elem_of_In _ _) H0)). split; [done|].
    intros (a & e & Ha). destruct (all_successors_elem _ _ _ Hnext H0) as (l1 & Hl1 & _).
    eapply successors_ok; [done| |done]. destruct (Hlab a s Hok); [done|congruence].
  - specialize (Hok s1 (proj1 (list_elem_of_In _ _) H0)).
    destruct (all_successors_elem _ _ _ Hnext H0) as (l1 & Hl1 & Hsub).
    eapply IH; [exact Hv|]. apply elem_of_remove_dups, Hsub. eapply successors_act; [done| |done].
    destruct (Hlab a s1 Hok); [done|congruence].
Qed.
End systems.

Arguments sys : clear implicits.
Arguments label : clear implicits.
Arguments mkSys {S L}.
Arguments Thread {E} i%_nat_scope.
Arguments Event {E}.

(** ** Tallies *)

(** The sum of the weights of the places. *)
Fixpoint tally {L} (f : L → Z) (ls : list L) : Z :=
  match ls with [] => 0 | l :: ls => f l + tally f ls end.

Section tally.
Context {L : Type} (f : L → Z).
Implicit Types (ls : list L).

Lemma tally_insert ls i l l' :
  ls !! i = Some l → tally f (<[i := l']> ls) = tally f ls - f l + f l'.
Proof.
  revert i. induction ls as [|x ls IH]; intros [|i] H; try done.
  - injection H as ->. cbn. lia.
  - specialize (IH i H). change (<[Datatypes.S i := l']> (x :: ls)) with (x :: <[i := l']> ls).
    cbn [tally]. lia.
Qed.
Lemma tally_nonneg ls : (∀ l, 0 ≤ f l) → 0 ≤ tally f ls.
Proof. intros Hf. induction ls as [|x ls IH]; cbn; [lia|]. specialize (Hf x). lia. Qed.
Lemma tally_lookup ls i l : (∀ l, 0 ≤ f l) → ls !! i = Some l → f l ≤ tally f ls.
Proof.
  intros Hf. revert i. induction ls as [|x ls IH]; intros [|i] H; try done; cbn.
  - injection H as ->. pose proof (tally_nonneg ls Hf). lia.
  - specialize (IH i H). specialize (Hf x). lia.
Qed.
Lemma tally_lookup2 ls i j l1 l2 :
  (∀ l, 0 ≤ f l) → i ≠ j → ls !! i = Some l1 → ls !! j = Some l2 → f l1 + f l2 ≤ tally f ls.
Proof.
  intros Hf. revert i j. induction ls as [|x ls IH]; intros [|i] [|j] Hij H1 H2; try done; cbn.
  - injection H1 as ->. pose proof (tally_lookup ls j l2 Hf H2). lia.
  - injection H2 as ->. pose proof (tally_lookup ls i l1 Hf H1). lia.
  - specialize (IH i j ltac:(lia) H1 H2). specialize (Hf x). lia.
Qed.
Lemma tally_zero ls : (∀ l, l ∈ ls → f l = 0) → tally f ls = 0.
Proof.
  intros H. induction ls as [|x ls IH]; cbn; [done|].
  rewrite IH, H; [done|set_solver|]. intros y Hy. apply H. set_solver.
Qed.
End tally.

(** The number of threads at a place that [p] holds of. *)
Definition weight (b : bool) : Z := if b then 1 else 0.
Lemma weight_nonneg {L} (p : L → bool) l : 0 ≤ weight (p l).
Proof. unfold weight. case_match; lia. Qed.
Abbreviation tally_of p := (tally (λ l, weight (p l))).
Lemma tally_some {L} (p : L → bool) ls :
  0 < tally_of p ls → ∃ i l, ls !! i = Some l ∧ p l = true.
Proof.
  induction ls as [|x ls IH]; cbn; [lia|]. destruct (p x) eqn:Hx.
  - intros _. by exists 0%nat, x.
  - cbn. intros Hp. destruct IH as (i & l & ? & ?); [lia|]. by exists (Datatypes.S i), l.
Qed.
Lemma tally_none {L} (p : L → bool) ls i l :
  ¬ 0 < tally_of p ls → ls !! i = Some l → p l = false.
Proof.
  intros Hn Hl. pose proof (tally_lookup (λ l, weight (p l)) _ _ _ (weight_nonneg p) Hl) as H.
  cbn in H. destruct (p l); cbn in H; [lia|done].
Qed.
(** Only thread [i] can be at a place of [p]. *)
Lemma tally_unique {L} (p : L → bool) (ls : list L) i l :
  (∀ j l', j ≠ i → ls !! j = Some l' → p l' = false) → ls !! i = Some l →
  tally_of p ls = weight (p l).
Proof.
  revert i. induction ls as [|x ls IH]; intros [|i] H Hl; try done; cbn [tally].
  - injection Hl as ->. rewrite (tally_zero _ ls); [lia|].
    intros y [j Hj]%list_elem_of_lookup. by rewrite (H (Datatypes.S j) y).
  - rewrite (IH i); [|intros j l' Hj; apply (H (Datatypes.S j)); lia|done].
    rewrite (H 0%nat x); [done|lia|done].
Qed.

(** A statement about every place after the step of thread [i]. *)
Lemma insert_forall {L} (P : nat → L → Prop) (ls : list L) i l' :
  (∀ j l, j ≠ i → ls !! j = Some l → P j l) → P i l' →
  ∀ j l, <[i := l']> ls !! j = Some l → P j l.
Proof.
  intros H Hi j l. destruct (decide (i = j)) as [<-|Hne].
  - intros Hl. destruct (decide (i < length ls)%nat).
    + rewrite list_lookup_insert_eq in Hl by done. by injection Hl as <-.
    + rewrite list_insert_ge in Hl by lia. apply lookup_lt_Some in Hl. lia.
  - rewrite list_lookup_insert_ne by done. apply H. done.
Qed.

(** ** Semaphores, locks and condition variables

    [P] on a semaphore with the value [v]; a lock is the thread that holds it;
    [Condition::Wait] releases the lock, puts the thread on the queue and acquires the
    lock again once the thread has been taken off the queue. *)
Definition sem_P (v : Z) : option Z := if v =? 0 then None else Some (v - 1).
Definition lock_acquire (i : nat) (lk : option nat) : option (option nat) :=
  match lk with None => Some (Some i) | Some _ => None end.
Definition lock_release (i : nat) (lk : option nat) : result (option nat) :=
  ASSERT (bool_decide (lk = Some i));; Ok None.

(** Continue with [f], or sleep. *)
Definition when_awake {A B} (o : option A) (f : A → B) : result (option B) :=
  Ok (match o with Some a => Some (f a) | None => None end).

Lemma sem_P_Some v v' : sem_P v = Some v' ↔ v ≠ 0 ∧ v' = v - 1.
Proof. unfold sem_P. destruct (Z.eqb_spec v 0); split; intros; simplify_eq; naive_solver. Qed.
Lemma when_awake_Ok {A B} (o : option A) (f : A → B) r :
  when_awake o f = Ok (Some r) ↔ ∃ a, o = Some a ∧ r = f a.
Proof. unfold when_awake. destruct o; split; intros; naive_solver. Qed.
Lemma lock_acquire_Some i lk lk' : lock_acquire i lk = Some lk' ↔ lk = None ∧ lk' = Some i.
Proof. destruct lk; cbn; naive_solver. Qed.
Lemma lock_release_Ok i lk lk' : lock_release i lk = Ok lk' ↔ lk = Some i ∧ lk' = None.
Proof. unfold lock_release, ASSERT. case_bool_decide; cbn; naive_solver. Qed.
