(* ===== verification/ThreadTest.v ===== *)
(** * Readers, writers and a barrier

    The synchronization programs of threads/threadtest.cc: readers and writers with
    semaphores ([reader], [writer]), with a lock and condition variables ([CReader],
    [CWriter]), and threads that meet at a [Barrier].  Each thread is at a place of its
    routine; a step goes from one call of the kernel to the next. *)

From S2P Require Import Prelude Interleaving.

(** ** With semaphores *)
Module SemRW.

(** The globals [mutex], [db] and [ReaderCnt]. *)
Record state := mkState { mutex : Z; db : Z; ReaderCnt : Z }.
Definition init : state := mkState 1 1 0.

(** Before which call a thread is. *)
Inductive place :=
| R_try      (* mutex.P() *)
| R_count    (* ReaderCnt++ *)
| R_db       (* db.P() *)
| R_open     (* mutex.V() *)
| R_reading  (* mutex.P() *)
| R_uncount  (* ReaderCnt-- *)
| R_dbV      (* db.V() *)
| R_close    (* mutex.V() *)
| W_try      (* db.P() *)
| W_writing. (* db.V() *)
#[export] Instance place_eq_dec : EqDecision place.
Proof. solve_decision. Defined.

Definition reader (l : place) (s : state) : result (option (place * state)) :=
  match l with
  | R_try => when_awake (sem_P (mutex s)) (λ v, (R_count, mkState v (db s) (ReaderCnt s)))
  | R_count =>
      Ok (Some (if ReaderCnt s + 1 =? 1 then R_db else R_open,
                mkState (mutex s) (db s) (ReaderCnt s + 1)))
  | R_db => when_awake (sem_P (db s)) (λ v, (R_open, mkState (mutex s) v (ReaderCnt s)))
  | R_open => Ok (Some (R_reading, mkState (mutex s + 1) (db s) (ReaderCnt s)))
  | R_reading => when_awake (sem_P (mutex s)) (λ v, (R_uncount, mkState v (db s) (ReaderCnt s)))
  | R_uncount =>
      Ok (Some (if ReaderCnt s - 1 =? 0 then R_dbV else R_close,
                mkState (mutex s) (db s) (ReaderCnt s - 1)))
  | R_dbV => Ok (Some (R_close, mkState (mutex s) (db s + 1) (ReaderCnt s)))
  | R_close => Ok (Some (R_try, mkState (mutex s + 1) (db s) (ReaderCnt s)))
  | _ => Ok None
  end.

Definition writer (l : place) (s : state) : result (option (place * state)) :=
  match l with
  | W_try => when_awake (sem_P (db s)) (λ v, (W_writing, mkState (mutex s) v (ReaderCnt s)))
  | W_writing => Ok (Some (W_try, mkState (mutex s) (db s + 1) (ReaderCnt s)))
  | _ => Ok None
  end.

Definition is_writer (l : place) : bool := match l with W_try | W_writing => true | _ => false end.
Definition thread (i : nat) (l : place) (s : state) : result (option (place * state)) :=
  if is_writer l then writer l s else reader l s.
Definition no_event (e : Empty_set) (s : state) : result (option state) := Ok None.

(** [ThreadTest5] with any number of readers and writers. *)
Definition ThreadTest5 (readers writers : nat) : sys state place :=
  mkSys init (replicate readers R_try ++ replicate writers W_try).

(** *** The invariant *)
Definition in_mutex (l : place) : bool :=
  match l with R_count | R_db | R_open | R_uncount | R_dbV | R_close => true | _ => false end.
Definition counted (l : place) : bool :=
  match l with R_db | R_open | R_reading | R_uncount => true | _ => false end.
Definition writing (l : place) : bool := match l with W_writing => true | _ => false end.
Definition at_db (l : place) : bool := match l with R_db => true | _ => false end.
Definition at_dbV (l : place) : bool := match l with R_dbV => true | _ => false end.

Record inv (s : state) (ls : list place) : Prop := {
  inv_mutex : mutex s + tally_of in_mutex ls = 1;
  inv_mutex_nonneg : 0 ≤ mutex s;
  inv_db_nonneg : 0 ≤ db s;
  inv_count : ReaderCnt s = tally_of counted ls;
  inv_db : db s + tally_of writing ls +
           (Z.min 1 (ReaderCnt s) - tally_of at_db ls + tally_of at_dbV ls) = 1;
  inv_first : 0 < tally_of at_db ls → ReaderCnt s = 1;
  inv_last : 0 < tally_of at_dbV ls → ReaderCnt s = 0
}.

(** Tallies are not negative, and [R_db] and [R_dbV] are places inside the mutex. *)
Lemma sem_tally_facts ls :
  0 ≤ tally_of in_mutex ls ∧ 0 ≤ tally_of counted ls ∧ 0 ≤ tally_of writing ls ∧
  0 ≤ tally_of at_db ls ∧ 0 ≤ tally_of at_dbV ls ∧
  tally_of at_db ls + tally_of at_dbV ls ≤ tally_of in_mutex ls.
Proof.
  repeat (split; [apply tally_nonneg; intros; apply weight_nonneg|]).
  induction ls as [|l ls IH]; cbn [tally]; [lia|].
  assert (weight (at_db l) + weight (at_dbV l) ≤ weight (in_mutex l)) by (by destruct l).
  lia.
Qed.

Lemma sem_inv_step i l s ls l' s' :
  inv s ls → ls !! i = Some l → thread i l s = Ok (Some (l', s')) → inv s' (<[i := l']> ls).
Proof.
  intros [H1 H2 H3 H4 H5 H6 H7] Hl Ht.
  pose proof (sem_tally_facts ls). pose proof (sem_tally_facts (<[i := l']> ls)).
  pose proof (sem_tally_facts (<[i := R_try]> ls)).
  destruct l; cbn in Ht; try (apply when_awake_Ok in Ht as (v & [Hv ->]%sem_P_Some & Hr));
    try injection Ht as ? ?; simplify_eq; repeat case_match; simplify_eq;
    split; cbn [mutex db ReaderCnt];
    rewrite !(tally_insert _ _ _ _ _ Hl) in *; unfold weight in *; cbn in *; lia.
Qed.

Lemma sem_start_inv r w : inv (shared (ThreadTest5 r w)) (locals (ThreadTest5 r w)).
Proof.
  assert (∀ p : place → bool, p R_try = false → p W_try = false →
    tally_of p (locals (ThreadTest5 r w)) = 0) as Hz.
  { intros p Hr Hw. apply tally_zero. cbn. intros l [Hl|Hl]%elem_of_app;
      apply elem_of_replicate in Hl as [-> _]; by rewrite ?Hr, ?Hw. }
  split; rewrite ?Hz by done; cbn; lia.
Qed.

Lemma sem_reachable_inv r w s :
  rtc (step thread no_event) (ThreadTest5 r w) s → inv (shared s) (locals s).
Proof.
  apply (reachable_invariant thread no_event inv); [apply sem_start_inv| |done].
  intros. by eapply sem_inv_step.
Qed.

(** Where a step is possible: always but before a [P] of a semaphore with the value 0. *)
Lemma thread_enabled i l s :
  match l with R_try | R_reading => mutex s ≠ 0 | R_db | W_try => db s ≠ 0 | _ => True end →
  ∃ r, thread i l s = Ok (Some r).
Proof.
  unfold thread. destruct l; cbn; unfold sem_P; intros H; try rewrite (proj2 (Z.eqb_neq _ _) H);
    eexists; done.
Qed.
Lemma enabled_step i l (s : sys state place) :
  locals s !! i = Some l →
  match l with R_try | R_reading => mutex (shared s) ≠ 0 | R_db | W_try => db (shared s) ≠ 0 | _ => True end →
  ∃ s', step thread no_event s s'.
Proof.
  intros Hl He. destruct (thread_enabled i l (shared s) He) as [[l' s'] Hr].
  eexists. exists (Thread i). cbn. rewrite Hl, Hr. done.
Qed.

Lemma sem_inv_progress (s : sys state place) :
  inv (shared s) (locals s) → locals s ≠ [] → ∃ s', step thread no_event s s'.
Proof.
  intros [H1 H2 H3 H4 H5 H6 H7] Hne. pose proof (sem_tally_facts (locals s)) as Hf.
  destruct (decide (0 < tally_of writing (locals s))) as [Hw|Hw].
  { apply tally_some in Hw as (i & l & Hl & Hp). destruct l; try done. by eapply enabled_step. }
  destruct (decide (0 < tally_of in_mutex (locals s))) as [Hm|Hm].
  - apply tally_some in Hm as (i & l & Hl & Hp).
    destruct (decide (l = R_db)) as [->|]; [|destruct l; try done; by eapply enabled_step].
    eapply enabled_step; [done|]. cbn.
    assert (1 ≤ tally_of at_db (locals s)).
    { apply (tally_lookup (λ l, weight (at_db l)) _ _ R_db (weight_nonneg _) Hl). }
    lia.
  - destruct (decide (0 < tally_of counted (locals s))) as [Hc|Hc].
    + apply tally_some in Hc as (i & l & Hl & Hp). pose proof (tally_none _ _ _ _ Hm Hl).
      eapply enabled_step; [exact Hl|]. destruct l; try done; lia.
    + assert (∃ l, locals s !! 0%nat = Some l) as [l Hl].
      { destruct (locals s) as [|l ls]; [done|by exists l]. }
      pose proof (tally_none _ _ _ _ Hm Hl). pose proof (tally_none _ _ _ _ Hw Hl).
      eapply enabled_step; [exact Hl|]. destruct l; try done; lia.
Qed.

(** C24: readers and writers with semaphores, any number of each: a writer that writes is
    alone, no reader reads and no other writer writes; and some thread can always go on. *)
Theorem sem_readers_writers_exclusive r w s :
  rtc (step thread no_event) (ThreadTest5 r w) s →
  (∀ i j, locals s !! i = Some W_writing → i ≠ j →
     locals s !! j ≠ Some R_reading ∧ locals s !! j ≠ Some W_writing) ∧
  (locals s ≠ [] → ∃ s', step thread no_event s s').
Proof.
  intros Hr. pose proof (sem_reachable_inv r w s Hr) as Hi. split; [|by apply sem_inv_progress].
  intros i j Hw Hij. destruct Hi as [H1 H2 H3 H4 H5 H6 H7].
  pose proof (sem_tally_facts (locals s)) as Hf.
  pose proof (tally_lookup (λ l, weight (writing l)) _ _ _ (weight_nonneg _) Hw) as Hlw. cbn in Hlw.
  split; intros Hj.
  - assert (tally_of at_db (locals s) + 1 ≤ tally_of counted (locals s)) as Hlr; [|lia].
    clear -Hj. revert j Hj. induction (locals s) as [|l ls IH]; intros [|j] Hj; try done; cbn.
    + injection Hj as ->. cbn.
      assert (tally_of at_db ls ≤ tally_of counted ls); [|lia].
      clear. induction ls as [|l ls IH]; cbn; [lia|]. destruct l; cbn; lia.
    + specialize (IH j Hj). destruct l; cbn; lia.
  - pose proof (tally_lookup2 (λ l, weight (writing l)) _ _ _ _ _ (weight_nonneg _) Hij Hw Hj) as H2w.
    cbn in H2w. lia.
Qed.

(** A reader and a writer that has just begun to write. *)
Lemma sem_readers_writers_exclusive_witness :
  let s := mkSys (mkState 1 0 0) [R_try; W_writing] in
  locals s !! 0%nat ≠ Some R_reading ∧ ∃ s', step thread no_event s s'.
Proof.
  cbv zeta.
  assert (rtc (step thread no_event) (ThreadTest5 1 1) (mkSys (mkState 1 0 0) [R_try; W_writing])) as Hr
    by (apply (play_reachable thread no_event [Thread 1]); reflexivity).
  destruct (sem_readers_writers_exclusive 1 1 _ Hr) as [H1 H2]. split; [|by apply H2].
  by apply (H1 1%nat 0%nat).
Defined.

End SemRW.

(** ** With a lock and condition variables *)
Module CondRW.

(** The globals; [CntLock] is the thread that holds the lock, [ReadCV] and [WriteCV] are
    the queues of the condition variables. *)
Record state := mkState {
  ActiveWriter : Z; ActiveReader : Z; WaitingWriter : Z; WaitingReader : Z;
  CntLock : option nat; ReadCV : list nat; WriteCV : list nat
}.
Definition init : state := mkState 0 0 0 0 None [] [].

Inductive place :=
| R_try        (* CntLock.Acquire() *)
| R_test       (* if (ActiveWriter > 0) *)
| R_wait       (* ReadCV.Wait: conditionLock->Release() *)
| R_queue      (* ReadCV.Wait: WaitingThreads->Append(currentThread) *)
| R_sleep      (* ReadCV.Wait: asleep, then conditionLock->Acquire() *)
| R_woken      (* WaitingReader-- *)
| R_unlock     (* CntLock.Release() *)
| R_reading    (* CntLock.Acquire() *)
| R_exit       (* ActiveReader-- *)
| R_broadcast  (* ReadCV.Broadcast(&CntLock) *)
| R_signal     (* WriteCV.Signal(&CntLock) *)
| R_done       (* CntLock.Release() *)
| W_try | W_test | W_wait | W_queue | W_sleep | W_woken
| W_unlock | W_writing | W_exit | W_broadcast | W_signal | W_done.
#[export] Instance place_eq_dec : EqDecision place.
Proof. solve_decision. Defined.

Definition set_lock (s : state) (lk : option nat) : state :=
  mkState (ActiveWriter s) (ActiveReader s) (WaitingWriter s) (WaitingReader s) lk (ReadCV s) (WriteCV s).
Definition set_queues (s : state) (r w : list nat) : state :=
  mkState (ActiveWriter s) (ActiveReader s) (WaitingWriter s) (WaitingReader s) (CntLock s) r w.
Definition set_counts (s : state) (aw ar ww wr : Z) : state :=
  mkState aw ar ww wr (CntLock s) (ReadCV s) (WriteCV s).

Definition acquire (i : nat) (l : place) (s : state) : result (option (place * state)) :=
  when_awake (lock_acquire i (CntLock s)) (λ lk, (l, set_lock s lk)).
Definition release (i : nat) (l : place) (s : state) : result (option (place * state)) :=
  lk ← lock_release i (CntLock s); Ok (Some (l, set_lock s lk)).
(** [Signal] and [Broadcast] do nothing unless the caller holds the lock; [Broadcast]
    wakes one thread after the other. *)
Definition signal (i : nat) (next : place) (s : state) : place * state :=
  (next, if decide (CntLock s = Some i) then set_queues s (ReadCV s) (tail (WriteCV s)) else s).
Definition broadcast (i : nat) (again next : place) (s : state) : place * state :=
  if decide (CntLock s = Some i) then
    match ReadCV s with [] => (next, s) | _ :: q => (again, set_queues s q (WriteCV s)) end
  else (next, s).

Definition CReader (i : nat) (l : place) (s : state) : result (option (place * state)) :=
  match l with
  | R_try => acquire i R_test s
  | R_test =>
      Ok (Some (
        if ActiveWriter s >? 0
        then (R_wait, set_counts s (ActiveWriter s) (ActiveReader s) (WaitingWriter s) (WaitingReader s + 1))
        else (R_unlock, set_counts s (ActiveWriter s) (ActiveReader s + 1) (WaitingWriter s) (WaitingReader s))))
  | R_wait => release i R_queue s
  | R_queue => Ok (Some (R_sleep, set_queues s (ReadCV s ++ [i]) (WriteCV s)))
  | R_sleep => if decide (i ∈ ReadCV s) then Ok None else acquire i R_woken s
  | R_woken =>
      Ok (Some (R_unlock, set_counts s (ActiveWriter s) (ActiveReader s + 1) (WaitingWriter s)
                            (WaitingReader s - 1)))
  | R_unlock => release i R_reading s
  | R_reading => acquire i R_exit s
  | R_exit =>
      Ok (Some (
        if WaitingReader s >? 0 then R_broadcast
        else if (ActiveReader s - 1 =? 0) && (WaitingWriter s >? 0) then R_signal else R_done,
        set_counts s (ActiveWriter s) (ActiveReader s - 1) (WaitingWriter s) (WaitingReader s)))
  | R_broadcast => Ok (Some (broadcast i R_broadcast R_done s))
  | R_signal => Ok (Some (signal i R_done s))
  | R_done => release i R_try s
  | _ => Ok None
  end.

(** The test of the loop of [CWriter]. *)
Definition writer_test (s : state) : place * state :=
  if (ActiveReader s >? 0) || (WaitingReader s >? 0)
  then (W_wait, set_counts s (ActiveWriter s) (ActiveReader s) (WaitingWriter s + 1) (WaitingReader s))
  else (W_unlock, set_counts s (ActiveWriter s + 1) (ActiveReader s) (WaitingWriter s) (WaitingReader s)).

Definition CWriter (i : nat) (l : place) (s : state) : result (option (place * state)) :=
  match l with
  | W_try => acquire i W_test s
  | W_test => Ok (Some (writer_test s))
  | W_wait => release i W_queue s
  | W_queue => Ok (Some (W_sleep, set_queues s (ReadCV s) (WriteCV s ++ [i])))
  | W_sleep => if decide (i ∈ WriteCV s) then Ok None else acquire i W_woken s
  | W_woken =>
      Ok (Some (writer_test (set_counts s (ActiveWriter s) (ActiveReader s) (WaitingWriter s - 1)
                               (WaitingReader s))))
  | W_unlock => release i W_writing s
  | W_writing => acquire i W_exit s
  | W_exit =>
      Ok (Some (
        if WaitingReader s >? 0 then W_broadcast
        else if (ActiveReader s =? 0) && (WaitingWriter s >? 0) then W_signal else W_done,
        set_counts s (ActiveWriter s - 1) (ActiveReader s) (WaitingWriter s) (WaitingReader s)))
  | W_broadcast => Ok (Some (broadcast i W_broadcast W_done s))
  | W_signal => Ok (Some (signal i W_done s))
  | W_done => release i W_try s
  | _ => Ok None
  end.

Definition is_writer (l : place) : bool :=
  match l with
  | W_try | W_test | W_wait | W_queue | W_sleep | W_woken
  | W_unlock | W_writing | W_exit | W_broadcast | W_signal | W_done => true
  | _ => false
  end.
Definition thread (i : nat) (l : place) (s : state) : result (option (place * state)) :=
  if is_writer l then CWriter i l s else CReader i l s.
Definition no_event (e : Empty_set) (s : state) : result (option state) := Ok None.

(** [ThreadTest6] with any number of readers and writers. *)
Definition ThreadTest6 (readers writers : nat) : sys state place :=
  mkSys init (replicate readers R_try ++ replicate writers W_try).

(** *** The invariant with one writer *)
Definition holds_lock (l : place) : bool :=
  match l with
  | R_test | R_wait | R_woken | R_unlock | R_exit | R_broadcast | R_signal | R_done
  | W_test | W_wait | W_woken | W_unlock | W_exit | W_broadcast | W_signal | W_done => true
  | _ => false
  end.
Definition active_reader (l : place) : bool :=
  match l with R_unlock | R_reading | R_exit => true | _ => false end.
Definition active_writer (l : place) : bool :=
  match l with W_unlock | W_writing | W_exit => true | _ => false end.
Definition waiting_reader (l : place) : bool :=
  match l with R_wait | R_queue | R_sleep | R_woken => true | _ => false end.

(** A reader that has been taken off the queue, or that is about to take others off. *)
Definition released (s : state) (i : nat) (l : place) : Prop :=
  match l with R_sleep => i ∉ ReadCV s | R_woken | R_broadcast => True | _ => False end.

Record inv (s : state) (ls : list place) : Prop := {
  inv_lock : ∀ i l, ls !! i = Some l → holds_lock l = true ↔ CntLock s = Some i;
  inv_ar : ActiveReader s = tally_of active_reader ls;
  inv_aw : ActiveWriter s = tally_of active_writer ls;
  inv_wr : WaitingReader s = tally_of waiting_reader ls;
  inv_one : tally_of is_writer ls ≤ 1;
  inv_excl : 0 < ActiveWriter s → ActiveReader s = 0;
  inv_released : ∀ i l, ls !! i = Some l → released s i l → ActiveWriter s = 0
}.

Lemma cond_lock_keep (ls : list place) lk lk' i l' :
  (∀ j l, ls !! j = Some l → holds_lock l = true ↔ lk = Some j) →
  (holds_lock l' = true ↔ lk' = Some i) → (∀ j, j ≠ i → lk' = Some j ↔ lk = Some j) →
  ∀ j l, <[i := l']> ls !! j = Some l → holds_lock l = true ↔ lk' = Some j.
Proof.
  intros H Hi Hj. apply (insert_forall (λ j l, holds_lock l = true ↔ lk' = Some j)); [|done].
  intros j l Hne Hl. rewrite Hj by done. by apply H.
Qed.
Lemma released_keep (P : nat → place → Prop) (Q : Prop) (ls : list place) i l' :
  (∀ j l, j ≠ i → ls !! j = Some l → P j l → Q) → (P i l' → Q) →
  ∀ j l, <[i := l']> ls !! j = Some l → P j l → Q.
Proof. intros H Hi. by apply (insert_forall (λ j l, P j l → Q)). Qed.

Lemma cond_tally_facts ls :
  0 ≤ tally_of active_reader ls ∧ 0 ≤ tally_of waiting_reader ls ∧
  0 ≤ tally_of active_writer ls ≤ tally_of is_writer ls.
Proof.
  repeat (split; [apply tally_nonneg; intros; apply weight_nonneg|]).
  induction ls as [|l ls IH]; cbn [tally]; [lia|].
  assert (weight (active_writer l) ≤ weight (is_writer l)) by (by destruct l). lia.
Qed.

(** The tallies before and after a step of thread [i]. *)
Ltac tallies i ls Hl :=
  pose proof (cond_tally_facts ls); pose proof (cond_tally_facts (<[i := R_try]> ls));
  rewrite !(tally_insert _ _ _ _ _ Hl) in *; unfold weight in *; cbn in *.

(** Case analysis of a step of a thread: the places before and after, and the lock. *)
Ltac cases Ht :=
  unfold acquire, release, broadcast, signal, writer_test in Ht;
  repeat (case_decide || case_match); inv_bind;
  try (apply when_awake_Ok in Ht as (? & [? ->]%lock_acquire_Some & ?));
  try match goal with H : lock_release _ _ = _ |- _ => apply lock_release_Ok in H as [? ->] end;
  simplify_eq/=.
(** The fields of the invariant that are equations between counters and tallies. *)
Ltac counters i ls Hl :=
  cbn [ActiveWriter ActiveReader WaitingReader CntLock set_lock set_counts set_queues];
  try (tallies i ls Hl; lia).

(** The lock and the readers that are awake: nothing changes for the other threads. *)
Ltac others i ls H1 H7 :=
  try (eapply (cond_lock_keep ls); [exact H1| |]; naive_solver);
  try (eapply (released_keep _ _ ls i); [intros j lj Hj Hlj Hr; apply (H7 j lj Hlj);
         destruct lj; cbn in *; set_solver|cbn; set_solver]).

Lemma inv_reader i l s ls l' s' :
  inv s ls → ls !! i = Some l → is_writer l = false → CReader i l s = Ok (Some (l', s')) →
  inv s' (<[i := l']> ls).
Proof.
  intros [H1 H2 H3 H4 H5 H6 H7] Hl Hw Ht. pose proof (H1 i l Hl) as Hli. pose proof (H7 i l Hl) as Hri.
  destruct l; try done; cbn in Ht, Hli, Hri; cases Ht; split; counters i ls Hl; others i ls H1 H7.
Qed.

(** Two threads do not hold the lock together. *)
Lemma holders_differ s (ls : list place) i j li lj :
  (∀ i l, ls !! i = Some l → holds_lock l = true ↔ CntLock s = Some i) →
  ls !! i = Some li → ls !! j = Some lj → holds_lock li = true → holds_lock lj = true → i = j.
Proof. intros H Hi Hj H1 H2. apply (H i) in H1; [|done]. apply (H j) in H2; [|done]. congruence. Qed.

Lemma inv_writer i l s ls l' s' :
  inv s ls → ls !! i = Some l → is_writer l = true → CWriter i l s = Ok (Some (l', s')) →
  inv s' (<[i := l']> ls).
Proof.
  intros [H1 H2 H3 H4 H5 H6 H7] Hl Hw Ht. pose proof (H1 i l Hl) as Hli.
  assert (∀ j lj, j ≠ i → ls !! j = Some lj → holds_lock l = true → WaitingReader s ≤ 0 →
            released s j lj → False) as Hnone.
  { intros j lj Hj Hlj Hh Hwr Hr.
    destruct lj; cbn in Hr; try done;
      try (pose proof (tally_lookup (λ l, weight (waiting_reader l)) _ _ _ (weight_nonneg _) Hlj) as Hle;
           cbn in Hle; lia).
    eapply Hj, eq_sym, (holders_differ s ls); eauto. }
  destruct l; try done; cbn in Ht, Hli; cases Ht; split; counters i ls Hl; others i ls H1 H7.
  all: eapply (released_keep _ _ ls i); [|done]; intros j lj Hj Hlj Hr; exfalso;
    apply (Hnone j lj); [done..|lia|by destruct lj].
Qed.

Lemma cond_start_inv r w : (w ≤ 1)%nat → inv (shared (ThreadTest6 r w)) (locals (ThreadTest6 r w)).
Proof.
  intros Hw.
  assert (∀ l, l ∈ locals (ThreadTest6 r w) → l = R_try ∨ l = W_try) as Hin.
  { cbn. intros l [Hl|Hl]%elem_of_app; apply elem_of_replicate in Hl as [-> _]; auto. }
  assert (∀ p : place → bool, p R_try = false → p W_try = false →
    tally_of p (locals (ThreadTest6 r w)) = 0) as Hz.
  { intros p Hr Hpw. apply tally_zero. intros l Hl. destruct (Hin l Hl) as [->| ->]; by rewrite ?Hr, ?Hpw. }
  split; rewrite ?Hz by done; cbn; try lia.
  - intros i l Hl%list_elem_of_lookup_2. destruct (Hin l Hl) as [->| ->]; cbn; naive_solver.
  - assert (∀ n, tally_of is_writer (replicate n R_try ++ replicate w W_try) =
                 tally_of is_writer (replicate w W_try)) as ->.
    { intros n. induction n as [|n IH]; [done|]. cbn. by rewrite IH. }
    destruct w as [|[|w]]; cbn; lia.
Qed.

Lemma cond_reachable_inv r w s : (w ≤ 1)%nat →
  rtc (step thread no_event) (ThreadTest6 r w) s → inv (shared s) (locals s).
Proof.
  intros Hw. apply (reachable_invariant thread no_event inv); [by apply cond_start_inv| |done].
  intros i l s1 ls l' s2 Hi Hl. unfold thread. destruct (is_writer l) eqn:Hwl; intros.
  - by eapply inv_writer.
  - by eapply inv_reader.
Qed.

Lemma thread_holder i l s e : thread i l s = Stop e → holds_lock l = true ∧ CntLock s ≠ Some i.
Proof.
  unfold thread, CReader, CWriter, acquire, release, lock_release, ASSERT. intros H.
  destruct l; cbn in H; repeat case_match; try done; case_bool_decide; try done.
Qed.

(** C39: Readers and writers with condition variables, any number of readers and one
    writer: the writer never writes while a reader reads, and no thread releases a lock
    it does not hold. *)
Theorem cond_one_writer_exclusive r s :
  rtc (step thread no_event) (ThreadTest6 r 1) s →
  ¬ fails thread no_event s ∧
  ∀ i j, locals s !! i = Some W_writing → locals s !! j ≠ Some R_reading.
Proof.
  intros Hr. destruct (cond_reachable_inv r 1 s ltac:(lia) Hr) as [H1 H2 H3 H4 H5 H6 H7]. split.
  - intros ([i|[]] & e & Ha). cbn in Ha. destruct (locals s !! i) as [l|] eqn:Hl; [|done].
    destruct (thread i l (shared s)) eqn:Ht; [done|]. apply thread_holder in Ht as [Hh Hn].
    by apply (H1 i l Hl) in Hh.
  - intros i j Hi Hj.
    pose proof (tally_lookup (λ l, weight (active_writer l)) _ _ _ (weight_nonneg _) Hi) as Hw.
    pose proof (tally_lookup (λ l, weight (active_reader l)) _ _ _ (weight_nonneg _) Hj) as Hrd.
    cbn in Hw, Hrd. lia.
Qed.

(** A reader, and the writer while it writes. *)
Lemma cond_one_writer_exclusive_witness :
  ∃ s, locals s = [R_try; W_writing] ∧ ¬ fails thread no_event s ∧
    ∀ j, locals s !! j ≠ Some R_reading.
Proof.
  eexists.
  match goal with |- context[fails _ _ ?s] =>
    assert (rtc (step thread no_event) (ThreadTest6 1 1) s) as Hr end.
  { eapply (play_reachable _ _ (Thread <$> [1; 1; 1]%nat)). vm_compute. reflexivity. }
  destruct (cond_one_writer_exclusive 1 _ Hr) as [H1 H2]. split; [reflexivity|]. split; [exact H1|].
  intros j. by apply (H2 1%nat).
Defined.


(** With two writers the program of [ThreadTest6] fails, since [CWriter] does not
    look at [ActiveWriter]: both can write at the same time, and then a reader woken
    when the first has finished reads while the second still writes. *)
Theorem cond_two_writers_race :
  (∃ s, rtc (step thread no_event) (ThreadTest6 0 2) s ∧
     locals s = [W_writing; W_writing] ∧ ActiveWriter (shared s) = 2) ∧
  (∃ s, rtc (step thread no_event) (ThreadTest6 1 2) s ∧ locals s = [R_reading; W_try; W_writing]).
Proof.
  split.
  - eexists. split; [eapply (play_reachable _ _ (Thread <$> [0; 0; 0; 1; 1; 1]%nat)); vm_compute; reflexivity|].
    by vm_compute.
  - eexists. split; [eapply (play_reachable _ _
      (Thread <$> [1; 1; 1; 2; 2; 2; 0; 0; 0; 0; 1; 1; 1; 1; 1; 0; 0; 0]%nat)); vm_compute; reflexivity|].
    by vm_compute.
Qed.
End CondRW.

(** ** The barrier

    [BarrierTest] of threadtest.cc over [Barrier::Wait] of synch.cc.  The threads have
    the same priority, so that [Condition::Wait] is not interrupted between the release
    of the lock and [Append]. *)
Module BarrierTest.
Section barrier.
Context (nTotal : Z).

Record state := mkState { nArrived : Z; lock : option nat; cv : list nat }.

Inductive place :=
| B_try        (* lock->Acquire() *)
| B_arrive     (* nArrived++ *)
| B_wait       (* cv->Wait(lock), up to Sleep *)
| B_sleep      (* cv->Wait(lock): asleep, then Acquire *)
| B_woken      (* while (nArrived < nTotal) *)
| B_broadcast  (* cv->Broadcast(lock) *)
| B_unlock     (* lock->Release() *)
| B_passed.
#[export] Instance place_eq_dec : EqDecision place.
Proof. solve_decision. Defined.

Definition after_test (n : Z) : place :=
  if n <? nTotal then B_wait else if n =? nTotal then B_broadcast else B_unlock.

Definition Barrier_Wait (i : nat) (l : place) (s : state) : result (option (place * state)) :=
  match l with
  | B_try => when_awake (lock_acquire i (lock s)) (λ lk, (B_arrive, mkState (nArrived s) lk (cv s)))
  | B_arrive =>
      Ok (Some (after_test (nArrived s + 1), mkState (nArrived s + 1) (lock s) (cv s)))
  | B_wait =>
      lk ← lock_release i (lock s);
      Ok (Some (B_sleep, mkState (nArrived s) lk (cv s ++ [i])))
  | B_sleep =>
      if decide (i ∈ cv s) then Ok None
      else when_awake (lock_acquire i (lock s)) (λ lk, (B_woken, mkState (nArrived s) lk (cv s)))
  | B_woken => Ok (Some (after_test (nArrived s), s))
  | B_broadcast =>
      Ok (Some (if decide (lock s = Some i) then
                  match cv s with
                  | [] => (B_unlock, s)
                  | _ :: q => (B_broadcast, mkState (nArrived s) (lock s) q)
                  end
                else (B_unlock, s)))
  | B_unlock =>
      lk ← lock_release i (lock s);
      Ok (Some (B_passed, mkState (nArrived s) lk (cv s)))
  | B_passed => Ok None
  end.
Definition no_event (e : Empty_set) (s : state) : result (option state) := Ok None.

Definition ThreadTest7 (n : nat) : sys state place := mkSys (mkState 0 None []) (replicate n B_try).

Definition holds_lock (l : place) : bool :=
  match l with B_arrive | B_wait | B_woken | B_broadcast | B_unlock => true | _ => false end.
Definition arrived (l : place) : bool := match l with B_try | B_arrive => false | _ => true end.
Definition at_broadcast (l : place) : bool := match l with B_broadcast => true | _ => false end.

(** What the place of a thread says about the number of arrivals. *)
Definition place_ok (s : state) (i : nat) (l : place) : Prop :=
  match l with
  | B_wait => nArrived s < nTotal
  | B_sleep => i ∈ cv s ∨ nTotal ≤ nArrived s
  | B_woken | B_broadcast | B_unlock | B_passed => nTotal ≤ nArrived s
  | _ => True
  end.

Record inv (s : state) (ls : list place) : Prop := {
  inv_lock : ∀ i l, ls !! i = Some l → holds_lock l = true ↔ lock s = Some i;
  inv_owner : ∀ i, lock s = Some i → ∃ l, ls !! i = Some l;
  inv_count : nArrived s = tally_of arrived ls;
  inv_place : ∀ i l, ls !! i = Some l → place_ok s i l;
  inv_last : nTotal ≤ nArrived s → cv s ≠ [] → 0 < tally_of at_broadcast ls
}.

(** Steps until all threads have passed. *)
Definition rank_of (l : place) : Z :=
  match l with
  | B_try => 8 | B_arrive => 7 | B_wait => 6 | B_sleep => 4 | B_woken => 3 | B_broadcast => 2
  | B_unlock => 1 | B_passed => 0
  end.
Definition rank (s : sys state place) : Z := tally rank_of (locals s) + zlen (cv (shared s)).

Lemma barrier_inv_step i l s ls l' s' :
  inv s ls → ls !! i = Some l → Barrier_Wait i l s = Ok (Some (l', s')) →
  inv s' (<[i := l']> ls) ∧ rank (mkSys s' (<[i := l']> ls)) < rank (mkSys s ls).
Proof.
  intros [H1 H2 H3 H4 H5] Hl Ht. pose proof (H1 i l Hl) as Hli. pose proof (H4 i l Hl) as Hpi.
  assert (∀ j lj, j ≠ i → ls !! j = Some lj → holds_lock l = true → holds_lock lj = false) as Hother.
  { intros j lj Hj Hlj Hh. apply (H1 i l Hl) in Hh. destruct (holds_lock lj) eqn:E; [|done].
    apply (H1 j lj Hlj) in E. congruence. }
  pose proof (tally_nonneg (λ l, weight (at_broadcast l)) (<[i := B_try]> ls) (weight_nonneg _)) as Hb.
  rewrite (tally_insert _ _ _ _ _ Hl) in Hb.
  destruct l; cbn in Ht, Hli, Hpi; unfold after_test in Ht; inv_bind; repeat (case_decide || case_match); inv_bind;
    try (apply when_awake_Ok in Ht as (? & [? ->]%lock_acquire_Some & ?));
    try match goal with H : lock_release _ _ = _ |- _ => apply lock_release_Ok in H as [? ->] end;
    simplify_eq/=.
  all: split; [split; cbn [nArrived lock cv]|unfold rank, zlen; cbn [locals shared cv];
    rewrite (tally_insert _ _ _ _ _ Hl); rewrite ?length_app; cbn; try lia].
  all: try (rewrite (tally_insert _ _ _ _ _ Hl); cbn; lia).
  all: try (apply (insert_forall (λ j l, holds_lock l = true ↔ _ = Some j));
            [intros j lj Hj Hlj; rewrite (H1 j lj Hlj)|]; naive_solver).
  all: try (apply (insert_forall (place_ok _));
            [intros j lj Hj Hlj; pose proof (H4 j lj Hlj); pose proof (Hother j lj Hj Hlj);
             destruct lj; cbn in *; try done; try lia; set_solver by lia|cbn; try lia; set_solver by lia]).
  all: try (intros j Hj; destruct (decide (i = j)) as [<-|];
     [eexists; apply list_lookup_insert_eq; by eapply lookup_lt_Some
     |rewrite list_lookup_insert_ne by done; eapply H2; congruence]).
  all: try (match goal with E : cv _ = _ :: _ |- _ => rewrite E end; cbn; lia).
  all: intros Hn Hc; try tauto; rewrite (tally_insert _ _ _ _ _ Hl); cbn;
    assert (0 < tally_of at_broadcast ls) by (apply H5; [lia|done]); lia.
Qed.

Lemma barrier_start_inv n : inv (shared (ThreadTest7 n)) (locals (ThreadTest7 n)).
Proof.
  split; cbn; try done.
  - intros i l [-> _]%lookup_replicate. done.
  - symmetry. apply tally_zero. intros l [-> _]%elem_of_replicate. done.
  - intros i l [-> _]%lookup_replicate. done.
Qed.
Lemma barrier_reachable_inv n s : rtc (step Barrier_Wait no_event) (ThreadTest7 n) s → inv (shared s) (locals s).
Proof.
  apply (reachable_invariant Barrier_Wait no_event inv); [apply barrier_start_inv| |done].
  intros. by eapply barrier_inv_step.
Qed.

Lemma inv_no_fail s : inv (shared s) (locals s) → ¬ fails Barrier_Wait no_event s.
Proof.
  intros [H1 _ _ _ _] ([i|[]] & e & Ha). cbn in Ha. destruct (locals s !! i) as [l|] eqn:Hl; [|done].
  pose proof (H1 i l Hl) as Hli.
  destruct l; cbn in Ha, Hli; unfold lock_release, ASSERT in Ha; repeat case_match; try done;
    case_bool_decide; cbn in *; try done; naive_solver.
Qed.

Lemma barrier_inv_progress (s : sys state place) :
  inv (shared s) (locals s) → nTotal ≤ zlen (locals s) →
  (∀ i l, locals s !! i = Some l → l = B_passed) ∨ ∃ s', step Barrier_Wait no_event s s'.
Proof.
  intros Hi HT. pose proof (inv_no_fail s Hi) as Hnf. destruct Hi as [H1 H2 H3 H4 H5].
  assert (∀ i l r, locals s !! i = Some l → Barrier_Wait i l (shared s) = Ok (Some r) →
            ∃ s', step Barrier_Wait no_event s s') as Hgo.
  { intros i l [l' s'] Hl Hr. eexists. exists (Thread i). cbn. rewrite Hl, Hr. done. }
  destruct (lock (shared s)) as [i|] eqn:Hlk.
  { right. destruct (H2 i eq_refl) as [l Hl]. pose proof (proj2 (H1 i l Hl) eq_refl) as Hh.
    destruct l; try done; eapply (Hgo i); try exact Hl; cbn; unfold lock_release;
      rewrite ?Hlk, ?ASSERT_true by (by apply bool_decide_true); done. }
  destruct (decide (B_try ∈ locals s)) as [He|He].
  { right. apply list_elem_of_lookup in He as [i Hl].
    eapply (Hgo i); [done|]. cbn. rewrite Hlk. done. }
  destruct (decide (0 < tally_of at_broadcast (locals s))) as [Hb|Hb].
  { apply tally_some in Hb as (i & l & Hl & Hp). exfalso. destruct l; try done.
    discriminate (proj1 (H1 i _ Hl) eq_refl). }
  assert (∀ i l, locals s !! i = Some l → l = B_sleep ∨ l = B_passed) as Hrest.
  { intros i l Hl. destruct l; try (by auto); exfalso; try discriminate (proj1 (H1 i _ Hl) eq_refl).
    by apply He, (list_elem_of_lookup_2 _ i). }
  assert (tally_of arrived (locals s) = zlen (locals s)) as Hall.
  { clear -Hrest. unfold zlen. induction (locals s) as [|l ls IH]; [done|]. cbn [tally length].
    rewrite IH by (intros i; apply (Hrest (Datatypes.S i))).
    destruct (Hrest 0%nat l eq_refl) as [->| ->]; cbn; lia. }
  assert (cv (shared s) = []) as Hcv.
  { destruct (decide (cv (shared s) = [])); [done|]. exfalso. apply Hb, H5; [lia|done]. }
  destruct (decide (B_sleep ∈ locals s)) as [Hs|Hs].
  - right. apply list_elem_of_lookup in Hs as [i Hl]. eapply (Hgo i); [done|]. cbn.
    rewrite Hcv, decide_False by set_solver. rewrite Hlk. done.
  - left. intros i l Hl. destruct (Hrest i l Hl) as [->|]; [|done].
    exfalso. by apply Hs, (list_elem_of_lookup_2 _ i).
Qed.

(** C25: the barrier: whatever the order of the threads, a thread has passed only when
    [nTotal] threads have arrived, no thread fails; with at least [nTotal] threads some
    thread can go on until all have passed, and every step lowers [rank], so that all
    of them do pass. *)
Theorem barrier_meets n s :
  rtc (step Barrier_Wait no_event) (ThreadTest7 n) s →
  (∀ i, locals s !! i = Some B_passed → nTotal ≤ tally_of arrived (locals s)) ∧
  ¬ fails Barrier_Wait no_event s ∧
  (nTotal ≤ Z.of_nat n →
     (∀ i l, locals s !! i = Some l → l = B_passed) ∨ ∃ s', step Barrier_Wait no_event s s') ∧
  (∀ s', step Barrier_Wait no_event s s' → 0 ≤ rank s' < rank s).
Proof.
  intros Hr. pose proof (barrier_reachable_inv n s Hr) as Hi. split; [|split; [by apply inv_no_fail|split]].
  - intros i Hl. destruct Hi as [_ _ <- H4 _]. apply (H4 i _ Hl).
  - intros Hn. apply barrier_inv_progress; [done|].
    assert (length (locals s) = n) as Hlen; [|unfold zlen; lia].
    apply (reachable_invariant Barrier_Wait no_event (λ _ ls, length ls = n) (ThreadTest7 n)); try done.
    + apply length_replicate.
    + intros. by rewrite length_insert.
  - intros s' [[i|[]] Ha]. cbn in Ha. destruct (locals s !! i) as [l|] eqn:Hl; [|done].
    inv_bind. destruct x as [[l' s1]|]; [|done]. simplify_eq. split.
    + assert (∀ l, 0 ≤ rank_of l) as Hrank by (by intros []).
      pose proof (tally_nonneg rank_of (<[i := l']> (locals s)) Hrank). unfold rank, zlen. cbn. lia.
    + by eapply (barrier_inv_step i l (shared s) (locals s)).
Qed.
End barrier.

(** Two threads at a barrier for two, both past it. *)
Lemma barrier_meets_witness :
  ∃ s, locals s = [B_passed; B_passed] ∧ 2 ≤ tally_of arrived (locals s) ∧ ¬ fails (Barrier_Wait 2) no_event s.
Proof.
  eexists.
  match goal with |- context[fails _ _ ?s] =>
    assert (rtc (step (Barrier_Wait 2) no_event) (ThreadTest7 2) s) as Hr end.
  { eapply (play_reachable _ _ (Thread <$> [0; 0; 0; 1; 1; 1; 1; 1; 0; 0; 0; 0]%nat)).
    vm_compute. reflexivity. }
  destruct (barrier_meets 2 2 _ Hr) as (H1 & H2 & _). split; [reflexivity|]. split; [|exact H2].
  by apply (H1 0%nat).
Defined.
End BarrierTest.
