(* ===== verification/Elevator.v ===== *)
(** * The bank of elevators

    machine/elevator.h, machine/elevator.cc: the state of the elevators, the operations
    of the threads that control them and of the riders, and the interrupt handler that
    moves them.  The interrupts the device has asked for are the times [due]; an
    interrupt that is due is delivered at some later moment, by [CheckIfDue] of the
    kernel.  The two functions the device calls back are recorded in [called].

    [bank_ok] is the invariant of the device under any order of calls, interrupts and
    passing time; [moving_elevator_arrives] shows that one moving elevator reaches its
    floor, one floor for every [DelayPerFloor] ticks.  With two moving elevators this
    fails: [second_elevator_hurries]. *)

From S2P Require Import Prelude NachosList.

Inductive Direction := Down | Up | Neither.
Inductive ElevatorEvent :=
  NoEvent | DoorsOpened | UpButtonPressed | DownButtonPressed | FloorButtonPressed | ElevatorArrived.
#[export] Instance Direction_eq_dec : EqDecision Direction.
Proof. solve_decision. Defined.
#[export] Instance ElevatorEvent_eq_dec : EqDecision ElevatorEvent.
Proof. solve_decision. Defined.

Definition MaxRiders : Z := 4.
Definition DelayPerFloor : Z := 100.

Record PendingElevatorEvent := mkEvent { event : ElevatorEvent; floor : Z; elevator : Z }.

(** [riders] is the list of the threads on board, with the keys of [List::Append]. *)
Record ElevatorInfo := mkInfo {
  display : Direction;
  doorsOpen : bool;
  inMotion : bool;
  lastFloor : Z;
  willArrive : Z;
  goingTo : Z;
  riders : list (Z * positive)
}.

Definition ElevatorInfo_new : ElevatorInfo := mkInfo Neither false false 0 0 0 [].

(** ** One elevator *)

Definition Info_OpenDoors (e : ElevatorInfo) : result (Z * ElevatorInfo) :=
  ASSERT (negb (doorsOpen e) && negb (inMotion e));;
  Ok (lastFloor e,
      mkInfo (display e) true (inMotion e) (lastFloor e) (willArrive e) (goingTo e) (riders e)).

Definition Info_CloseDoors (e : ElevatorInfo) : result ElevatorInfo :=
  ASSERT (doorsOpen e);;
  Ok (mkInfo (display e) false (inMotion e) (lastFloor e) (willArrive e) (goingTo e) (riders e)).

Definition Info_MoveTo (now goingToFloor : Z) (e : ElevatorInfo) : result (bool * ElevatorInfo) :=
  ASSERT (negb (doorsOpen e) && (inMotion e || negb (lastFloor e =? goingToFloor)));;
  if inMotion e then
    Ok (false, mkInfo (display e) (doorsOpen e) true (lastFloor e) (willArrive e) goingToFloor (riders e))
  else
    Ok (true, mkInfo (display e) (doorsOpen e) true (lastFloor e) (now + DelayPerFloor) goingToFloor
                (riders e)).

Definition set_riders (e : ElevatorInfo) (l : list (Z * positive)) : ElevatorInfo :=
  mkInfo (display e) (doorsOpen e) (inMotion e) (lastFloor e) (willArrive e) (goingTo e) l.

Definition Info_Enter (currentThread : positive) (onFloor : Z) (e : ElevatorInfo) :
    result (bool * ElevatorInfo) :=
  if negb (doorsOpen e) || negb (lastFloor e =? onFloor) then Ok (false, e)
  else
    ASSERT (negb (inMotion e));;
    ASSERT (zlen (riders e) <? MaxRiders);;
    Ok (true, set_riders e (riders e ++ [(0, currentThread)])).

(** [riders->Remove(currentThread)], by the specification of [List::Remove(item)]. *)
Definition riders_remove (t : positive) (l : list (Z * positive)) : result (list (Z * positive)) :=
  if decide (t ∈ l.*2) then Ok (remove_first t l)
  else Stop (if decide (l = []) then Undefined else AssertFailed).

Definition Info_Exit (currentThread : positive) (onFloor : Z) (e : ElevatorInfo) :
    result (bool * ElevatorInfo) :=
  if negb (doorsOpen e) || negb (lastFloor e =? onFloor) then Ok (false, e)
  else
    ASSERT (negb (inMotion e));;
    l ← riders_remove currentThread (riders e);
    Ok (true, set_riders e l).

Definition Info_ReachedNextFloor (now : Z) (e : ElevatorInfo) : bool * ElevatorInfo :=
  if inMotion e && (now >=? willArrive e) then
    (true, mkInfo (display e) (doorsOpen e) (inMotion e)
             (lastFloor e + (if goingTo e >? lastFloor e then 1 else -1))
             (willArrive e) (goingTo e) (riders e))
  else (false, e).

Definition Info_CheckArrived (e : ElevatorInfo) : bool * ElevatorInfo :=
  if inMotion e && (lastFloor e =? goingTo e) then
    (true, mkInfo (display e) (doorsOpen e) false (lastFloor e) (willArrive e) (goingTo e) (riders e))
  else (false, e).

(** ** The bank *)

(** The functions [handlerRiders] and [handlerControllers]. *)
Inductive callback := CallRiders | CallControllers.

(** [now] is [stats->totalTicks]. *)
Record ElevatorBank := mkBank {
  numElevators : Z;
  numFloors : Z;
  riderEvents : list PendingElevatorEvent;
  controllerEvents : list PendingElevatorEvent;
  elevators : list ElevatorInfo;
  now : Z;
  due : list Z;
  called : list callback
}.

Definition ElevatorBank_new (numElvtr numFlr t : Z) : ElevatorBank :=
  mkBank numElvtr numFlr [] [] (replicate (Z.to_nat numElvtr) ElevatorInfo_new) t [] [].

Definition set_elevators (b : ElevatorBank) (l : list ElevatorInfo) : ElevatorBank :=
  mkBank (numElevators b) (numFloors b) (riderEvents b) (controllerEvents b) l (now b) (due b) (called b).
Definition set_clock (b : ElevatorBank) (t : Z) (l : list Z) : ElevatorBank :=
  mkBank (numElevators b) (numFloors b) (riderEvents b) (controllerEvents b) (elevators b) t l (called b).
Definition set_events (b : ElevatorBank) (r c : list PendingElevatorEvent) : ElevatorBank :=
  mkBank (numElevators b) (numFloors b) r c (elevators b) (now b) (due b) (called b).
Definition call (b : ElevatorBank) (c : callback) : ElevatorBank :=
  mkBank (numElevators b) (numFloors b) (riderEvents b) (controllerEvents b) (elevators b) (now b)
    (due b) (called b ++ [c]).

(** [interrupt->Schedule(ElevatorDone, (int)this, fromNow, ElevatorInt)]: the pending
    interrupts are sorted by time, equal times in the order of the calls. *)
Fixpoint insert_due (t : Z) (l : list Z) : list Z :=
  match l with
  | [] => [t]
  | x :: l' => if t <? x then t :: l else x :: insert_due t l'
  end.
Definition Schedule_ElevatorDone (fromNow : Z) (b : ElevatorBank) : ElevatorBank :=
  set_clock b (now b) (insert_due (now b + fromNow) (due b)).

(** Which of the two lists of events. *)
Inductive listOfEvents := OfRiders | OfControllers.

Definition PostEvent (l : listOfEvents) (ev : ElevatorEvent) (fl el : Z) (inHandler : bool)
    (b : ElevatorBank) : ElevatorBank :=
  let e := mkEvent ev fl el in
  let b := match l with
           | OfRiders => set_events b (riderEvents b ++ [e]) (controllerEvents b)
           | OfControllers => set_events b (riderEvents b) (controllerEvents b ++ [e])
           end in
  if inHandler then b else Schedule_ElevatorDone 1 b.

(** [getNextEvent]; the event carries the floor and the elevator it sets. *)
Definition getNextEvent (l : listOfEvents) (b : ElevatorBank) : option PendingElevatorEvent * ElevatorBank :=
  match l, riderEvents b, controllerEvents b with
  | OfRiders, e :: r, _ => (Some e, set_events b r (controllerEvents b))
  | OfControllers, _, e :: c => (Some e, set_events b (riderEvents b) c)
  | _, _, _ => (None, b)
  end.

Definition is_elevator (b : ElevatorBank) (e : Z) : bool := (e >=? 0) && (e <? numElevators b).
Definition is_floor (b : ElevatorBank) (f : Z) : bool := (f >=? 0) && (f <? numFloors b).

(** [elevators[elevator]->...]: a method of one elevator. *)
Definition on_elevator {A} (i : Z) (f : ElevatorInfo → result (A * ElevatorInfo)) : ST ElevatorBank A :=
  λ b,
  e ← aget (elevators b) i;
  '(r, e') ← f e;
  l ← aset (elevators b) i e';
  Ok (r, set_elevators b l).

Definition OpenDoors (e : Z) : ST ElevatorBank () := λ b,
  ASSERT (is_elevator b e);;
  '(fl, b) ← on_elevator e Info_OpenDoors b;
  Ok ((), PostEvent OfRiders DoorsOpened fl e false b).

Definition CloseDoors (e : Z) : ST ElevatorBank () := λ b,
  ASSERT (is_elevator b e);;
  on_elevator e (λ i, i' ← Info_CloseDoors i; Ok ((), i')) b.

Definition MoveTo (goingToFloor e : Z) : ST ElevatorBank () := λ b,
  ASSERT (is_elevator b e);;
  ASSERT (is_floor b goingToFloor);;
  '(started, b) ← on_elevator e (Info_MoveTo (now b) goingToFloor) b;
  Ok ((), if (started : bool) then Schedule_ElevatorDone DelayPerFloor b else b).

Definition WhereIsElevator (e : Z) : ST ElevatorBank Z := λ b,
  ASSERT (is_elevator b e);;
  i ← aget (elevators b) e;
  Ok (lastFloor i, b).

Definition MarkDirection (e : Z) (dir : Direction) : ST ElevatorBank () := λ b,
  ASSERT (is_elevator b e);;
  on_elevator e (λ i, Ok ((), mkInfo dir (doorsOpen i) (inMotion i) (lastFloor i) (willArrive i)
                               (goingTo i) (riders i))) b.

Definition PressButton (onFloor : Z) (dir : Direction) : ST ElevatorBank () := λ b,
  ASSERT (is_floor b onFloor && bool_decide (dir ≠ Neither));;
  Ok ((), PostEvent OfControllers (if decide (dir = Up) then UpButtonPressed else DownButtonPressed)
            onFloor 0 false b).

Definition getDirection (e : Z) : ST ElevatorBank Direction := λ b,
  ASSERT (is_elevator b e);;
  i ← aget (elevators b) e;
  Ok (display i, b).

Definition EnterElevator (currentThread : positive) (onFloor e : Z) : ST ElevatorBank bool := λ b,
  ASSERT (is_floor b onFloor);;
  ASSERT (is_elevator b e);;
  on_elevator e (Info_Enter currentThread onFloor) b.

Definition PressFloor (goingToFloor e : Z) : ST ElevatorBank () := λ b,
  ASSERT (is_floor b goingToFloor);;
  ASSERT (is_elevator b e);;
  Ok ((), PostEvent OfControllers FloorButtonPressed goingToFloor e false b).

Definition ExitElevator (currentThread : positive) (onFloor e : Z) : ST ElevatorBank bool := λ b,
  ASSERT (is_floor b onFloor);;
  ASSERT (is_elevator b e);;
  on_elevator e (Info_Exit currentThread onFloor) b.

(** One round of the loop of [HandleInterrupt]; the flag is [intSched]. *)
Definition handle_one (i : Z) (s : ElevatorBank * bool) : result (ElevatorBank * bool) :=
  let '(b, intSched) := s in
  e ← aget (elevators b) i;
  let '(reached, e1) := Info_ReachedNextFloor (now b) e in
  if (reached : bool) then
    let '(arrived, e2) := Info_CheckArrived e1 in
    if (arrived : bool) then
      l ← aset (elevators b) i e2;
      Ok (PostEvent OfControllers ElevatorArrived (goingTo e2) i true (set_elevators b l), intSched)
    else if intSched then
      l ← aset (elevators b) i e2;
      Ok (set_elevators b l, intSched)
    else
      l ← aset (elevators b) i
            (mkInfo (display e2) (doorsOpen e2) (inMotion e2) (lastFloor e2)
               (willArrive e2 + DelayPerFloor) (goingTo e2) (riders e2));
      Ok (Schedule_ElevatorDone DelayPerFloor (set_elevators b l), true)
  else Ok (b, intSched).

Definition HandleInterrupt (b : ElevatorBank) : result ElevatorBank :=
  '(b, _) ← for_each handle_one (seqZ 0 (numElevators b)) (b, false);
  let b := if decide (riderEvents b = []) then b else call b CallRiders in
  let b := if decide (controllerEvents b = []) then b else call b CallControllers in
  Ok b.

(** ** The device in its surroundings

    The calls of threads; a call that fails an assertion ends the program and is no
    step.  Time passes between them, and an interrupt that is due is delivered. *)
Inductive op :=
| Op_OpenDoors (e : Z) | Op_CloseDoors (e : Z) | Op_MoveTo (f e : Z)
| Op_MarkDirection (e : Z) (d : Direction)
| Op_PressButton (f : Z) (d : Direction) | Op_PressFloor (f e : Z)
| Op_Enter (t : positive) (f e : Z) | Op_Exit (t : positive) (f e : Z)
| Op_getNextEvent (l : listOfEvents).

Definition ignore {A} (r : result (A * ElevatorBank)) : result ElevatorBank := '(_, b) ← r; Ok b.

Definition exec_op (o : op) (b : ElevatorBank) : result ElevatorBank :=
  match o with
  | Op_OpenDoors e => ignore (OpenDoors e b)
  | Op_CloseDoors e => ignore (CloseDoors e b)
  | Op_MoveTo f e => ignore (MoveTo f e b)
  | Op_MarkDirection e d => ignore (MarkDirection e d b)
  | Op_PressButton f d => ignore (PressButton f d b)
  | Op_PressFloor f e => ignore (PressFloor f e b)
  | Op_Enter t f e => ignore (EnterElevator t f e b)
  | Op_Exit t f e => ignore (ExitElevator t f e b)
  | Op_getNextEvent l => Ok (getNextEvent l b).2
  end.

Inductive estep : ElevatorBank → ElevatorBank → Prop :=
| step_call o b b' : exec_op o b = Ok b' → estep b b'
| step_time b t : now b ≤ t → estep b (set_clock b t (due b))
| step_interrupt b b' d l1 l2 :
    due b = l1 ++ d :: l2 → d ≤ now b →
    HandleInterrupt (set_clock b (now b) (l1 ++ l2)) = Ok b' → estep b b'.

(** The idle processor advances the clock to the first pending interrupt. *)
Definition deliver (b : ElevatorBank) : result ElevatorBank :=
  match due b with
  | [] => Stop Blocked
  | d :: l => HandleInterrupt (set_clock b (Z.max (now b) d) l)
  end.
Fixpoint deliver_n (n : nat) (b : ElevatorBank) : result ElevatorBank :=
  match n with O => Ok b | S n' => b' ← deliver_n n' b; deliver b' end.

(** ** The invariant *)

(** What holds of an elevator when the interrupts [l] are pending. *)
Record info_ok (floors : Z) (l : list Z) (e : ElevatorInfo) : Prop := {
  io_doors : doorsOpen e = true → inMotion e = false;
  io_floor : -1 ≤ lastFloor e < floors;
  io_below : lastFloor e = -1 → inMotion e = true;
  io_dest : 0 ≤ goingTo e < floors;
  io_riders : zlen (riders e) ≤ MaxRiders;
  io_timer : inMotion e = true → ∃ d, d ∈ l ∧ willArrive e ≤ d
}.
Record bank_ok (b : ElevatorBank) : Prop := {
  bo_length : zlen (elevators b) = numElevators b;
  bo_infos : ∀ i e, znth (elevators b) i = Some e → info_ok (numFloors b) (due b) e
}.

Lemma elem_insert_due t l d : d ∈ insert_due t l ↔ d = t ∨ d ∈ l.
Proof. induction l as [|x l IH]; cbn; [set_solver|]. case_match; set_solver. Qed.

Lemma info_ok_mono f l l' e : (∀ d, d ∈ l → d ∈ l') → info_ok f l e → info_ok f l' e.
Proof. intros Hl [? ? ? ? ? Ht]. split; auto. intros H. destruct (Ht H) as (d & ? & ?). eauto. Qed.

Lemma ElevatorBank_new_ok n f t : 0 ≤ n → 0 < f → bank_ok (ElevatorBank_new n f t).
Proof.
  intros Hn Hf. split; cbn; [by apply zlen_replicate|].
  intros i e Hi. pose proof (znth_Some_range _ _ _ Hi) as Hr. rewrite zlen_replicate in Hr by done.
  rewrite znth_replicate in Hi by done. injection Hi as <-. split; cbn; try lia; try done.
Qed.

(** Changing one elevator, the events or the pending interrupts. *)
Lemma set_elevators_ok b i e l :
  bank_ok b → info_ok (numFloors b) (due b) e → aset (elevators b) i e = Ok l →
  bank_ok (set_elevators b l).
Proof.
  intros [Hl Hi] He [Hr ->]%aset_Ok. split; cbn; [by rewrite zlen_zset|].
  intros j x. rewrite znth_zset. case_bool_decide; [by intros [= <-]|apply Hi].
Qed.
Lemma set_events_ok b r c : bank_ok b → bank_ok (set_events b r c).
Proof. by intros []. Qed.
Lemma schedule_ok d b : bank_ok b → bank_ok (Schedule_ElevatorDone d b).
Proof.
  intros [Hl Hi]. split; [done|]. intros i e He. eapply info_ok_mono; [|by eapply Hi].
  cbn. intros x Hx. rewrite elem_insert_due. by right.
Qed.
Lemma PostEvent_ok l ev f e h b : bank_ok b → bank_ok (PostEvent l ev f e h b).
Proof.
  intros Hb. unfold PostEvent. destruct l, h; try apply schedule_ok; by apply set_events_ok.
Qed.
Lemma on_elevator_ok {A} i (f : ElevatorInfo → result (A * ElevatorInfo)) b r b' :
  bank_ok b →
  (∀ e r e', f e = Ok (r, e') → info_ok (numFloors b) (due b) e → info_ok (numFloors b) (due b) e') →
  on_elevator i f b = Ok (r, b') → bank_ok b'.
Proof.
  intros Hb Hf H. unfold on_elevator in H. inv_bind. destruct x0 as [r' e']. inv_bind.
  eapply set_elevators_ok; [done| |done]. eapply Hf; [done|]. by apply (bo_infos _ Hb i), aget_Ok.
Qed.
#[export] Hint Resolve set_events_ok schedule_ok PostEvent_ok : nachos.

(** *** The calls *)

Ltac inv_pairs :=
  repeat match goal with
  | H : (let '(_, _) := ?p in _) = Ok _ |- _ => destruct p as [? ?] eqn:?; inv_bind
  | H : Ok _ = Ok _ |- _ => injection H as ?; subst
  end.

Lemma remove_first_length (t : positive) (l : list (Z * positive)) : zlen (remove_first t l) ≤ zlen l.
Proof. unfold zlen. induction l as [|[k x] l IH]; cbn; [lia|]. case_decide; cbn; lia. Qed.

Lemma set_riders_ok f l e rs : info_ok f l e → zlen rs ≤ MaxRiders → info_ok f l (set_riders e rs).
Proof. intros [] ?. by split. Qed.

Lemma Info_Enter_ok f l t fl e r e' :
  Info_Enter t fl e = Ok (r, e') → info_ok f l e → info_ok f l e'.
Proof.
  unfold Info_Enter. intros H Hi. case_match; inv_bind; inv_pairs; try done.
  apply set_riders_ok; [done|]. rewrite zlen_app. change (zlen [(0, t)]) with 1.
  rename select (_ <? _ = true) into Hlt. apply Z.ltb_lt in Hlt. lia.
Qed.
Lemma Info_Exit_ok f l t fl e r e' :
  Info_Exit t fl e = Ok (r, e') → info_ok f l e → info_ok f l e'.
Proof.
  unfold Info_Exit, riders_remove. intros H Hi. case_match; inv_bind; inv_pairs; try done.
  case_decide; [|done]. inv_pairs.
  apply set_riders_ok; [done|]. etrans; [apply remove_first_length|apply Hi].
Qed.
Lemma Info_OpenDoors_ok f l e r e' :
  Info_OpenDoors e = Ok (r, e') → info_ok f l e → info_ok f l e'.
Proof.
  unfold Info_OpenDoors. intros H []. inv_bind; try done. inv_pairs.
  rename select (_ && _ = true) into Hc. apply andb_true_iff in Hc as [_ Hm%negb_true_iff].
  by split.
Qed.
Lemma Info_CloseDoors_ok f l e e' : Info_CloseDoors e = Ok e' → info_ok f l e → info_ok f l e'.
Proof. unfold Info_CloseDoors. intros H []. inv_bind; by split. Qed.

(** A started elevator has its interrupt [DelayPerFloor] from now. *)
Lemma Info_MoveTo_ok f l t g e r e' :
  0 ≤ g < f → Info_MoveTo t g e = Ok (r, e') → info_ok f l e →
  info_ok f (if (r : bool) then insert_due (t + DelayPerFloor) l else l) e'.
Proof.
  unfold Info_MoveTo. intros Hg H [Hd Hf Hb Ho Hr Ht]. inv_bind; try done.
  rename select (_ && _ = true) into Hc. apply andb_true_iff in Hc as [Hop%negb_true_iff _].
  case_match; inv_pairs; split; cbn; try done; try (by rewrite Hop); try lia.
  intros _. exists (t + DelayPerFloor). split; [apply elem_insert_due; by left|lia].
Qed.

Lemma MoveTo_ok g e b r b' : bank_ok b → MoveTo g e b = Ok (r, b') → bank_ok b'.
Proof.
  intros Hb H. unfold MoveTo in H. inv_bind; try done. destruct x1 as [st b1]. inv_pairs.
  rename select (is_floor _ _ = true) into Hfl. unfold is_floor in Hfl.
  apply andb_true_iff in Hfl as [?%Z.geb_le ?%Z.ltb_lt].
  rename select (on_elevator _ _ _ = _) into Ho. unfold on_elevator in Ho. inv_bind.
  destruct x0 as [st' i']. inv_bind. rename select (aset _ _ _ = _) into Hs.
  apply aset_Ok in Hs as [Hr ->]. rename select (aget _ _ = _) into Hget. apply aget_Ok in Hget.
  destruct Hb as [Hl Hi].
  assert (Hi' := Info_MoveTo_ok (numFloors b) (due b) _ g _ _ _ ltac:(lia) ltac:(eassumption) (Hi _ _ Hget)).
  destruct st; (split; cbn; [by rewrite zlen_zset|]); intros j y; rewrite znth_zset;
    case_bool_decide; try (by intros [= <-]); intros Hy; [|by eapply Hi].
  eapply info_ok_mono; [|by eapply Hi]. cbn. intros d Hd. rewrite elem_insert_due. by right.
Qed.

Lemma exec_op_ok o b b' : bank_ok b → exec_op o b = Ok b' → bank_ok b'.
Proof.
  intros Hb. destruct o; cbn [exec_op]; unfold ignore;
    unfold OpenDoors, CloseDoors, MarkDirection, PressButton, PressFloor, EnterElevator, ExitElevator;
    intros H; inv_bind; inv_pairs; try discriminate; eauto 3 with nachos.
  - apply schedule_ok, set_events_ok. eapply on_elevator_ok; [exact Hb| |eassumption].
    intros; by eapply Info_OpenDoors_ok.
  - eapply on_elevator_ok; [exact Hb| |eassumption].
    cbn. intros ? ? ? Hc Hi. inv_bind. by eapply Info_CloseDoors_ok.
  - by eapply MoveTo_ok.
  - eapply on_elevator_ok; [exact Hb| |eassumption].
    cbn. intros ? ? ? Hc []. inv_bind. by split.
  - eapply on_elevator_ok; [exact Hb| |eassumption]. intros; by eapply Info_Enter_ok.
  - eapply on_elevator_ok; [exact Hb| |eassumption]. intros; by eapply Info_Exit_ok.
  - destruct l; cbn; repeat case_match; cbn; auto with nachos.
Qed.

(** *** The interrupt handler *)

(** Inside the loop: the elevators before [k] have been looked at; the others may still
    rely on the interrupt [d] that is being handled. *)
Record handling (b0 : ElevatorBank) (d k : Z) (s : ElevatorBank * bool) : Prop := {
  h_num : numElevators s.1 = numElevators b0;
  h_floors : numFloors s.1 = numFloors b0;
  h_now : now s.1 = now b0;
  h_length : zlen (elevators s.1) = numElevators b0;
  h_sched : s.2 = true → now b0 + DelayPerFloor ∈ due s.1;
  h_done : ∀ i e, i < k → znth (elevators s.1) i = Some e → info_ok (numFloors b0) (due s.1) e;
  h_todo : ∀ i e, k ≤ i → znth (elevators s.1) i = Some e → info_ok (numFloors b0) (d :: due s.1) e
}.

(** One floor further: doors, floors and riders stay right. *)
Lemma moved_ok f l l' e w (m : bool) (z : Z) :
  info_ok f l e → inMotion e = true → z = lastFloor e + (if goingTo e >? lastFloor e then 1 else -1) →
  m = negb (z =? goingTo e) → (m = true → ∃ d, d ∈ l' ∧ w ≤ d) →
  info_ok f l' (mkInfo (display e) (doorsOpen e) m z w (goingTo e) (riders e)).
Proof.
  intros [Hd Hf Hb Ho Hr Ht] Hm -> -> Hw. split; cbn; try done.
  - intros Hop. rewrite (Hd Hop) in Hm. done.
  - destruct (Z.gtb_spec (goingTo e) (lastFloor e)); lia.
  - intros Hz. rewrite Hz. destruct (Z.eqb_spec (-1) (goingTo e)); [lia|done].
Qed.

Lemma handling_keep b0 d k s e :
  handling b0 d k s → znth (elevators s.1) k = Some e → info_ok (numFloors b0) (due s.1) e →
  handling b0 d (k + 1) s.
Proof.
  intros [] He Hi. split; auto; intros i x Hik Hx.
  - destruct (decide (i = k)) as [->|]; [by simplify_eq|]. eapply (h_done0 i); [lia|done].
  - eapply (h_todo0 i); [lia|done].
Qed.
Lemma handling_set b0 d k b sch b' sch' e :
  handling b0 d k (b, sch) →
  numElevators b' = numElevators b → numFloors b' = numFloors b → now b' = now b →
  elevators b' = zset (elevators b) k e → (∀ x, x ∈ due b → x ∈ due b') →
  info_ok (numFloors b0) (due b') e → (sch' = true → now b0 + DelayPerFloor ∈ due b') →
  handling b0 d (k + 1) (b', sch').
Proof.
  intros [] Hn Hf Ht He Hdue Hi Hs. cbn in *.
  split; cbn; rewrite ?He, ?zlen_zset; try exact Hs; try congruence; intros i x Hik; rewrite znth_zset.
  - case_bool_decide; [by intros [= <-]|]. intros Hx. eapply info_ok_mono; [exact Hdue|].
    destruct (decide (i = k)) as [->|]; [|apply (h_done0 i); [lia|done]].
    apply znth_Some_range in Hx. tauto.
  - rewrite bool_decide_false by lia. intros Hx.
    eapply info_ok_mono; [|apply (h_todo0 i); [lia|done]]. set_solver.
Qed.

Lemma handle_one_ok b0 d k s :
  d ≤ now b0 → 0 ≤ k < numElevators b0 → handling b0 d k s →
  ∃ s', handle_one k s = Ok s' ∧ handling b0 d (k + 1) s'.
Proof.
  intros Hd Hk Hh. pose proof Hh as [Hn Hf Ht Hl Hs _ Htodo]. destruct s as [b sch]. cbn in *.
  destruct (znth_range (elevators b) k ltac:(lia)) as [e He].
  pose proof (Htodo k e ltac:(lia) He) as Hi.
  unfold handle_one, Info_ReachedNextFloor, Info_CheckArrived.
  rewrite (proj2 (aget_Ok _ _ _) He). cbn.
  destruct (inMotion e) eqn:Hm, (Z.geb_spec (now b) (willArrive e)) as [Hw|Hw]; cbn;
    try (eexists; split; [done|]; eapply handling_keep; [done|done|]; cbn).
  - destruct (_ =? goingTo e) eqn:Hz; [|destruct sch]; rewrite aset_in by lia; cbn;
      (eexists; split; [done|]); (eapply handling_set; [done..|reflexivity| | |]); cbn; auto;
      try (intros; apply elem_insert_due; by auto);
      try (eapply moved_ok; try done; [by rewrite Hz|]; intros _; exists (now b0 + DelayPerFloor)).
    + eapply moved_ok; try done; by rewrite Hz.
    + split; [auto|unfold DelayPerFloor; lia].
    + rewrite elem_insert_due. split; [by left; rewrite Ht|lia].
    + intros _. apply elem_insert_due. left. lia.
  - destruct Hi as [? ? ? ? ? Hti]. split; try done. intros _.
    destruct (Hti Hm) as (y & Hy & Hle). exists y. split; [|done].
    apply elem_of_cons in Hy as [->|]; [lia|done].
  - destruct Hi. split; try done. congruence.
  - destruct Hi. split; try done. congruence.
Qed.

(** Any bank the invariant holds of handles an interrupt, and keeps the invariant. *)
Lemma HandleInterrupt_ok b l1 d l2 :
  bank_ok b → due b = l1 ++ d :: l2 → d ≤ now b →
  ∃ b', HandleInterrupt (set_clock b (now b) (l1 ++ l2)) = Ok b' ∧ bank_ok b'.
Proof.
  intros [Hl Hi] Hdue Hd. set (b0 := set_clock b (now b) (l1 ++ l2)).
  destruct (for_each_seqZ handle_one (λ k s, handling b0 d k s) 0 (numElevators b0) (b0, false))
    as ([b1 sch] & Hloop & Hh).
  - cbn. rewrite <-Hl. apply zlen_nonneg.
  - split; cbn; try done.
    + intros i e Hneg He. apply znth_Some_range in He. lia.
    + intros i e _ He. eapply info_ok_mono; [|by eapply Hi]. rewrite Hdue. set_solver.
  - intros k s Hk Hs. apply handle_one_ok; [done|lia|done].
  - unfold HandleInterrupt. rewrite Hloop. cbn.
    assert (bank_ok b1) as Hb1.
    { destruct Hh as [Hn Hf _ Hl1 _ Hdone _]. cbn in *. split; [congruence|].
      intros i e He. rewrite Hf. pose proof (znth_Some_range _ _ _ He).
      apply (Hdone i); [lia|done]. }
    eexists. split; [done|]. repeat case_decide; try done; by destruct Hb1.
Qed.

(** C22: whatever calls, interrupts and delays a bank of elevators sees: an elevator with
    open doors stands still, at a floor of the building and with at most [MaxRiders]
    riders; it heads for a floor of the building, is at most one floor below the ground,
    and then moving; and a moving elevator always has an interrupt pending that is late
    enough to move it on.  The handler never fails.  Times are integers here: the claim is
    about runs shorter than the 2^31 ticks that the counter of the simulator can hold. *)
Theorem elevator_bank_safe n f t b :
  0 ≤ n → 0 < f → rtc estep (ElevatorBank_new n f t) b →
  bank_ok b ∧
  ∀ d l1 l2, due b = l1 ++ d :: l2 → d ≤ now b →
    ∃ b', HandleInterrupt (set_clock b (now b) (l1 ++ l2)) = Ok b' ∧ bank_ok b'.
Proof.
  intros Hn Hf Hr.
  assert (bank_ok b) as Hb.
  { pose proof (ElevatorBank_new_ok n f t Hn Hf) as H0. revert H0.
    induction Hr as [|b1 b2 b3 Hs _ IH]; [done|]. intros H1. apply IH. inversion Hs; subst.
    - by eapply exec_op_ok.
    - by destruct H1.
    - destruct (HandleInterrupt_ok b1 l1 d l2 H1) as (b' & Hb' & ?); [done|done|].
      congruence. }
  split; [done|]. intros. by eapply HandleInterrupt_ok.
Qed.

(** ** A moving elevator arrives *)

Lemma for_each_id {A S} (f : A → S → result S) l s :
  (∀ x, x ∈ l → f x s = Ok s) → for_each f l s = Ok s.
Proof.
  induction l as [|x l IH]; intros H; cbn; [done|]. rewrite H by set_solver. cbn.
  apply IH. intros y Hy. apply H. set_solver.
Qed.

Lemma handle_idle b sch i e :
  znth (elevators b) i = Some e → inMotion e = false → handle_one i (b, sch) = Ok (b, sch).
Proof.
  intros He Hm. unfold handle_one, Info_ReachedNextFloor. rewrite (proj2 (aget_Ok _ _ _) He). cbn.
  by rewrite Hm.
Qed.

(** The bank [b] in which only the elevator [i], in the state [e], may be moving. *)
Definition only_moving (b : ElevatorBank) (i : Z) (e : ElevatorInfo) : Prop :=
  zlen (elevators b) = numElevators b ∧ znth (elevators b) i = Some e ∧
  ∀ j x, j ≠ i → znth (elevators b) j = Some x → inMotion x = false.

Lemma loop_only_moving b i e b' sch :
  only_moving b i e → handle_one i (b, false) = Ok (b', sch) →
  (∃ e', elevators b' = zset (elevators b) i e') → numElevators b' = numElevators b →
  for_each handle_one (seqZ 0 (numElevators b)) (b, false) = Ok (b', sch).
Proof.
  intros (Hl & He & Hidle) Hone [e' He'] Hn.
  pose proof (znth_Some_range _ _ _ He) as Hr.
  assert (∀ b1 s1 j, j ≠ i → 0 ≤ j < zlen (elevators b) →
            (b1 = b ∨ b1 = b') → handle_one j (b1, s1) = Ok (b1, s1)) as Hskip.
  { intros b1 s1 j Hj Hjr Hb1. destruct (znth_range (elevators b) j Hjr) as [x Hx].
    eapply handle_idle; [|by eapply Hidle].
    destruct Hb1 as [->| ->]; [done|]. by rewrite He', znth_zset_ne. }
  replace (numElevators b) with (i + (1 + (numElevators b - i - 1))) by lia.
  rewrite !seqZ_app, for_each_app by lia. rewrite for_each_id.
  2:{ intros j Hj%elem_of_seqZ. apply Hskip; [lia|lia|by left]. }
  cbn [mbind result_bind]. rewrite for_each_app. change (seqZ (0 + i) 1) with [0 + i].
  replace (0 + i) with i by lia. cbn [for_each]. rewrite Hone. cbn [mbind result_bind].
  apply for_each_id. intros j Hj%elem_of_seqZ. apply Hskip; [lia|lia|by right].
Qed.

(** The elevator after [k] floors in the direction [s]. *)
Definition on_the_way (e : ElevatorInfo) (t g k s : Z) : ElevatorInfo :=
  mkInfo (display e) (doorsOpen e) true (lastFloor e + s * k) (t + DelayPerFloor * (k + 1)) g (riders e).

Record travelling (b : ElevatorBank) (i : Z) (e : ElevatorInfo) (t g k s : Z) (ev : list PendingElevatorEvent) : Prop := {
  tr_moving : only_moving b i (on_the_way e t g k s);
  tr_now : now b = t + DelayPerFloor * k;
  tr_due : due b = [t + DelayPerFloor * (k + 1)];
  tr_events : controllerEvents b = ev
}.

(** What [HandleInterrupt] does behind its loop concerns the callbacks only. *)
Lemma HandleInterrupt_loop b b1 sch :
  for_each handle_one (seqZ 0 (numElevators b)) (b, false) = Ok (b1, sch) →
  ∃ b', HandleInterrupt b = Ok b' ∧ elevators b' = elevators b1 ∧ now b' = now b1 ∧ due b' = due b1 ∧
    controllerEvents b' = controllerEvents b1 ∧ numElevators b' = numElevators b1.
Proof.
  intros H. unfold HandleInterrupt. rewrite H. cbn. eexists. split; [done|].
  by repeat case_decide.
Qed.

(** One interrupt on the way: a floor further and the next interrupt asked for. *)
Lemma travel_on b i e t g k s ev :
  0 ≤ k → (s = 1 ∨ s = -1) → g ≠ lastFloor e + s * (k + 1) → (g > lastFloor e + s * k ↔ s = 1) →
  travelling b i e t g k s ev → ∃ b', deliver b = Ok b' ∧ travelling b' i e t g (k + 1) s ev.
Proof.
  intros Hk Hs Hg Hdir [(Hl & He & Hidle) Hn Hd Hev]. unfold deliver. rewrite Hd.
  set (b0 := set_clock b _ _). pose proof (znth_Some_range _ _ _ He) as Hr.
  set (e1 := on_the_way e t g (k + 1) s).
  set (b1 := Schedule_ElevatorDone DelayPerFloor (set_elevators b0 (zset (elevators b0) i e1))).
  assert (handle_one i (b0, false) = Ok (b1, true)) as Hone.
  { unfold handle_one, Info_ReachedNextFloor, Info_CheckArrived. cbn.
    rewrite (proj2 (aget_Ok _ _ _) He). cbn.
    rewrite (proj2 (Z.geb_le _ _)) by (unfold DelayPerFloor in *; lia). cbn.
    assert (lastFloor e + s * k + (if g >? lastFloor e + s * k then 1 else -1) =
            lastFloor e + s * (k + 1)) as -> by (destruct (Z.gtb_spec g (lastFloor e + s * k)); lia).
    rewrite (proj2 (Z.eqb_neq _ _)) by lia. cbn. rewrite aset_in by done. cbn.
    unfold b1, e1, on_the_way. do 6 f_equal. lia. }
  destruct (HandleInterrupt_loop b0 b1 true) as (b' & -> & Hel & Hnow & Hdue & Hc & Hnum).
  { eapply (loop_only_moving b0 i); [done|done| |done]. eexists. done. }
  eexists. split; [done|]. split.
  - unfold only_moving. rewrite Hel, Hnum. cbn. rewrite zlen_zset, znth_zset_eq by done.
    split; [done|]. split; [done|]. intros j x Hj. rewrite znth_zset_ne by done. by apply Hidle.
  - rewrite Hnow. cbn. unfold DelayPerFloor in *. lia.
  - rewrite Hdue. cbn. f_equal. unfold DelayPerFloor in *. lia.
  - by rewrite Hc.
Qed.

(** The last interrupt: the elevator stops and the controllers hear of it. *)
Lemma travel_end b i e t g k s ev :
  0 ≤ k → (s = 1 ∨ s = -1) → g = lastFloor e + s * (k + 1) → travelling b i e t g k s ev →
  ∃ b', deliver b = Ok b' ∧ due b' = [] ∧ now b' = t + DelayPerFloor * (k + 1) ∧
    znth (elevators b') i =
      Some (mkInfo (display e) (doorsOpen e) false g (t + DelayPerFloor * (k + 1)) g (riders e)) ∧
    controllerEvents b' = ev ++ [mkEvent ElevatorArrived g i].
Proof.
  intros Hk Hs Hg [(Hl & He & Hidle) Hn Hd Hev]. unfold deliver. rewrite Hd.
  set (b0 := set_clock b _ _). pose proof (znth_Some_range _ _ _ He) as Hr.
  set (e1 := mkInfo (display e) (doorsOpen e) false g (t + DelayPerFloor * (k + 1)) g (riders e)).
  set (b1 := PostEvent OfControllers ElevatorArrived g i true
               (set_elevators b0 (zset (elevators b0) i e1))).
  assert (handle_one i (b0, false) = Ok (b1, false)) as Hone.
  { unfold handle_one, Info_ReachedNextFloor, Info_CheckArrived. cbn.
    rewrite (proj2 (aget_Ok _ _ _) He). cbn.
    rewrite (proj2 (Z.geb_le _ _)) by (unfold DelayPerFloor in *; lia). cbn.
    assert (lastFloor e + s * k + (if g >? lastFloor e + s * k then 1 else -1) = g)
      as -> by (destruct (Z.gtb_spec g (lastFloor e + s * k)); lia).
    rewrite Z.eqb_refl. cbn. by rewrite aset_in. }
  destruct (HandleInterrupt_loop b0 b1 false) as (b' & -> & Hel & Hnow & Hdue & Hc & Hnum).
  { eapply (loop_only_moving b0 i); [done|done| |done]. eexists. done. }
  eexists. split; [done|]. rewrite Hel, Hnow, Hdue, Hc. cbn.
  rewrite znth_zset_eq, Hev by done. unfold DelayPerFloor in *. repeat split; try done. lia.
Qed.

Lemma travel_n b i e t g s ev n :
  (s = 1 ∨ s = -1) → (∀ k, 0 ≤ k < n → g ≠ lastFloor e + s * (k + 1) ∧ (g > lastFloor e + s * k ↔ s = 1)) →
  travelling b i e t g 0 s ev → ∀ k, 0 ≤ k ≤ n →
  ∃ b', deliver_n (Z.to_nat k) b = Ok b' ∧ travelling b' i e t g k s ev.
Proof.
  intros Hs Hg Hb k Hk. remember (Z.to_nat k) as m eqn:Hm. revert k Hk Hm.
  induction m as [|m IH]; intros k Hk Hm.
  - replace k with 0 by lia. by exists b.
  - destruct (IH (k - 1)) as (b1 & Hd & Ht); [lia|lia|]. cbn. rewrite Hd. cbn.
    destruct (Hg (k - 1)) as [Hg1 Hg2]; [lia|].
    destruct (travel_on b1 i e t g (k - 1) s ev) as (b2 & ? & ?); [lia|done..|].
    exists b2. replace (k - 1 + 1) with k in * by lia. done.
Qed.

(** C26: when all elevators are at rest, no interrupt of the device is pending and the ticks
    until the arrival do not overflow an [int], an elevator sent to another floor passes one
    floor in every [DelayPerFloor] ticks, stops there after as many interrupts as there are
    floors between, and its arrival is announced to the controllers; its riders and its
    doors stay as they were.  With a second elevator moving it does not hold, see
    [second_elevator_hurries]. *)
Theorem moving_elevator_arrives b i e g :
  zlen (elevators b) = numElevators b → due b = [] →
  (∀ j x, znth (elevators b) j = Some x → inMotion x = false) →
  znth (elevators b) i = Some e → doorsOpen e = false → 0 ≤ g < numFloors b → g ≠ lastFloor e →
  let n := Z.abs (g - lastFloor e) in
  0 ≤ now b → now b + DelayPerFloor * n < 2 ^ 31 →
  ∃ b1, MoveTo g i b = Ok ((), b1) ∧
    (∀ k, 0 ≤ k < n → ∃ b2, deliver_n (Z.to_nat k) b1 = Ok b2 ∧
       now b2 = now b + DelayPerFloor * k ∧
       znth (elevators b2) i = Some (on_the_way e (now b) g k (Z.sgn (g - lastFloor e)))) ∧
    ∃ b3, deliver_n (Z.to_nat n) b1 = Ok b3 ∧ due b3 = [] ∧ now b3 = now b + DelayPerFloor * n ∧
      znth (elevators b3) i =
        Some (mkInfo (display e) false false g (now b + DelayPerFloor * n) g (riders e)) ∧
      controllerEvents b3 = controllerEvents b ++ [mkEvent ElevatorArrived g i].
Proof.
  intros Hl Hdue Hidle He Hop Hg Hne n _ _. set (s := Z.sgn (g - lastFloor e)).
  assert (s = 1 ∨ s = -1) as Hs by (unfold s; lia).
  pose proof (znth_Some_range _ _ _ He) as Hr.
  set (e1 := mkInfo (display e) (doorsOpen e) true (lastFloor e) (now b + DelayPerFloor) g (riders e)).
  set (b1 := Schedule_ElevatorDone DelayPerFloor (set_elevators b (zset (elevators b) i e1))).
  exists b1. split; [|].
  { unfold MoveTo, is_elevator, is_floor, on_elevator, Info_MoveTo.
    rewrite !ASSERT_true by (apply andb_true_iff; rewrite Z.geb_le, Z.ltb_lt; lia). cbn.
    rewrite (proj2 (aget_Ok _ _ _) He). cbn. rewrite (Hidle _ _ He), Hop. cbn.
    rewrite (proj2 (Z.eqb_neq _ _)) by lia. cbn. rewrite aset_in by done. cbn.
    unfold b1, e1. by rewrite Hop. }
  assert (travelling b1 i e (now b) g 0 s (controllerEvents b)) as Ht.
  { split; cbn; [|lia|rewrite Hdue; cbn; f_equal; lia|done].
    split; [|split]; cbn; rewrite ?zlen_zset, ?znth_zset_eq by done; [done| |].
    - unfold on_the_way, e1. do 2 f_equal; lia.
    - intros j x Hj. rewrite znth_zset_ne by done. apply Hidle. }
  assert (∀ k, 0 ≤ k < n → ∃ b2, deliver_n (Z.to_nat k) b1 = Ok b2 ∧
            travelling b2 i e (now b) g k s (controllerEvents b)) as Hway.
  { intros k Hk. apply (travel_n b1 i e (now b) g s (controllerEvents b) (n - 1)); [done| |done|lia].
    intros k' Hk'. unfold s, n in *. nia. }
  split.
  - intros k Hk. destruct (Hway k Hk) as (b2 & Hd & Htr). exists b2. split; [done|].
    destruct Htr as [(_ & ? & _) ? _ _]. done.
  - destruct (Hway (n - 1)) as (b2 & Hd & Htr); [unfold n; lia|].
    destruct (travel_end b2 i e (now b) g (n - 1) s (controllerEvents b)) as (b3 & Hb3 & Hd3 & Hn3 & He3 & Hc3);
      [unfold n; lia|done|unfold s, n; lia|done|].
    replace (n - 1 + 1) with n in * by lia. exists b3.
    replace (Z.to_nat n) with (S (Z.to_nat (n - 1))) by (unfold n; lia). cbn. rewrite Hd. cbn.
    by rewrite Hop in He3.
Qed.

(** ** Witnesses and faults *)

(** Three elevators and ten floors; the second is on its way to floor 3. *)
Definition example_bank : ElevatorBank := ElevatorBank_new 3 10 0.
Definition moving_bank : ElevatorBank :=
  match MoveTo 3 1 example_bank with Ok (_, b) => b | Stop _ => example_bank end.

Lemma elevator_bank_safe_witness : bank_ok moving_bank.
Proof.
  apply (elevator_bank_safe 3 10 0 moving_bank); [lia|lia|].
  apply rtc_once, (step_call (Op_MoveTo 3 1)). vm_compute. reflexivity.
Defined.

Lemma moving_elevator_arrives_witness :
  ∃ b1 b3, MoveTo 3 1 example_bank = Ok ((), b1) ∧ deliver_n 3 b1 = Ok b3 ∧ now b3 = 300 ∧
    controllerEvents b3 = [mkEvent ElevatorArrived 3 1].
Proof.
  destruct (moving_elevator_arrives example_bank 1 ElevatorInfo_new 3) as (b1 & H1 & _ & b3 & H3 & _ & Hn & _ & Hc);
    try reflexivity; try (cbn; lia).
  - intros j x Hj. pose proof (znth_Some_range _ _ _ Hj) as Hr.
    change (elevators example_bank) with (replicate (Z.to_nat 3) ElevatorInfo_new) in *.
    rewrite zlen_replicate in Hr by lia. rewrite znth_replicate in Hj by done. by injection Hj as <-.
  - exists b1, b3. auto.
Defined.

(** An elevator in motion that is sent back to the floor it left moves away from it:
    the ground floor takes it below the ground, where [WhereIsElevator] finds it. *)
Theorem elevator_below_ground :
  ∃ b1 b2 b3, MoveTo 3 0 example_bank = Ok ((), b1) ∧ MoveTo 0 0 b1 = Ok ((), b2) ∧
    deliver b2 = Ok b3 ∧ WhereIsElevator 0 b3 = Ok (-1, b3).
Proof. do 3 eexists. split_and!; vm_compute; reflexivity. Qed.

(** When two elevators move, [HandleInterrupt] sets the arrival time of the first
    only: the second, started at the same moment, passes two floors in [DelayPerFloor]
    ticks, and has arrived at floor 6 when the first is at floor 3. *)
Theorem second_elevator_hurries :
  ∃ b1 b2 b3, MoveTo 6 0 example_bank = Ok ((), b1) ∧ MoveTo 6 1 b1 = Ok ((), b2) ∧
    deliver_n 6 b2 = Ok b3 ∧ now b3 = 3 * DelayPerFloor ∧
    WhereIsElevator 0 b3 = Ok (3, b3) ∧ WhereIsElevator 1 b3 = Ok (6, b3) ∧
    controllerEvents b3 = [mkEvent ElevatorArrived 6 1].
Proof. do 3 eexists. split_and!; vm_compute; reflexivity. Qed.
