(* ===== verification/ElevatorTest.v ===== *)
(** * The self test of the elevators

    machine/elevatortest.cc: a rider and a controller, each a thread, that communicate
    through the device of Elevator.v only.  All interleavings of the two threads and of
    the interrupts are computed; the clock advances to an interrupt when it is
    delivered.  [ElevatorSelfTest] deletes the device when the rider has returned; whoever
    uses it afterwards, a thread or the handler of an interrupt, has undefined
    behaviour. *)

From S2P Require Import Prelude Interleaving Elevator.

#[export] Instance PendingElevatorEvent_eq_dec : EqDecision PendingElevatorEvent.
Proof. solve_decision. Defined.
#[export] Instance ElevatorInfo_eq_dec : EqDecision ElevatorInfo.
Proof. solve_decision. Defined.
#[export] Instance callback_eq_dec : EqDecision callback.
Proof. solve_decision. Defined.
#[export] Instance ElevatorBank_eq_dec : EqDecision ElevatorBank.
Proof. solve_decision. Defined.

(** Class [ElevatorInspector]: the device and the values of the two semaphores; [alive]
    until the object, and with it the device and the semaphores, has been deleted. *)
Record ElevatorInspector := mkInspector {
  bank : ElevatorBank;
  riderWakeup : Z;
  controllerWakeup : Z;
  alive : bool
}.
#[export] Instance ElevatorInspector_eq_dec : EqDecision ElevatorInspector.
Proof. solve_decision. Defined.

Definition ElevatorInspector_new : ElevatorInspector := mkInspector (ElevatorBank_new 1 2 0) 0 0 true.

(** Where the two threads are; [floor] and [elevator] are the variables the last event set. *)
Inductive place :=
| R_press | R_next1 | R_sleep1 | R_direction (fl el : Z) | R_enter (fl el : Z) | R_floor (el : Z)
| R_next2 | R_sleep2 | R_exit (fl el : Z) | R_delete | R_finished
| C_where | C_next1 | C_sleep1 | C_mark | C_open | C_next2 | C_sleep2 | C_close (fl : Z)
| C_move (fl : Z) | C_next3 | C_sleep3 | C_open2 (el : Z) | C_finished.
#[export] Instance place_eq_dec : EqDecision place.
Proof. solve_decision. Defined.

Definition on_bank {A} (m : ST ElevatorBank A) (k : A → result place) (s : ElevatorInspector) :
    result (option (place * ElevatorInspector)) :=
  if alive s then
    '(a, b) ← m (bank s);
    p ← k a;
    Ok (Some (p, mkInspector b (riderWakeup s) (controllerWakeup s) true))
  else Stop Undefined.

(** One round of [WaitForNextRiderEvent] and [WaitForNextControllerEvent]: the next
    event, or to sleep on the semaphore. *)
Definition next_event (l : listOfEvents) (asleep : place) (k : PendingElevatorEvent → result place)
    (s : ElevatorInspector) : result (option (place * ElevatorInspector)) :=
  on_bank (λ b, Ok (getNextEvent l b))
    (λ o, match o with Some e => k e | None => Ok asleep end) s.
Definition sleep_rider (next : place) (s : ElevatorInspector) :
    result (option (place * ElevatorInspector)) :=
  if alive s then when_awake (sem_P (riderWakeup s)) (λ v, (next, mkInspector (bank s) v (controllerWakeup s) true))
  else Stop Undefined.
Definition sleep_controller (next : place) (s : ElevatorInspector) :
    result (option (place * ElevatorInspector)) :=
  if alive s then when_awake (sem_P (controllerWakeup s)) (λ v, (next, mkInspector (bank s) (riderWakeup s) v true))
  else Stop Undefined.

(** [ASSERT(event == ev && floor == fl)]. *)
Definition expect (ev : ElevatorEvent) (fl : Z) (next : PendingElevatorEvent → place)
    (e : PendingElevatorEvent) : result place :=
  ASSERT (bool_decide (event e = ev) && (floor e =? fl));; Ok (next e).

Definition rider_thread : positive := 1.

Definition RiderTest (l : place) (s : ElevatorInspector) : result (option (place * ElevatorInspector)) :=
  match l with
  | R_press => on_bank (PressButton 0 Up) (λ _, Ok R_next1) s
  | R_next1 =>
      next_event OfRiders R_sleep1 (expect DoorsOpened 0 (λ e, R_direction (floor e) (elevator e))) s
  | R_sleep1 => sleep_rider R_next1 s
  | R_direction fl el =>
      on_bank (getDirection el) (λ d, ASSERT (bool_decide (d = Up));; Ok (R_enter fl el)) s
  | R_enter fl el =>
      on_bank (EnterElevator rider_thread fl el) (λ b, ASSERT b;; Ok (R_floor el)) s
  | R_floor el => on_bank (PressFloor 1 el) (λ _, Ok R_next2) s
  | R_next2 =>
      next_event OfRiders R_sleep2 (expect DoorsOpened 1 (λ e, R_exit (floor e) (elevator e))) s
  | R_sleep2 => sleep_rider R_next2 s
  | R_exit fl el =>
      on_bank (ExitElevator rider_thread fl el) (λ b, ASSERT b;; Ok R_delete) s
  | _ => Ok None
  end.

Definition ControllerTest (l : place) (s : ElevatorInspector) :
    result (option (place * ElevatorInspector)) :=
  match l with
  | C_where => on_bank (WhereIsElevator 0) (λ f, ASSERT (f =? 0);; Ok C_next1) s
  | C_next1 => next_event OfControllers C_sleep1 (expect UpButtonPressed 0 (λ _, C_mark)) s
  | C_sleep1 => sleep_controller C_next1 s
  | C_mark => on_bank (MarkDirection 0 Up) (λ _, Ok C_open) s
  | C_open => on_bank (OpenDoors 0) (λ _, Ok C_next2) s
  | C_next2 =>
      next_event OfControllers C_sleep2 (expect FloorButtonPressed 1 (λ e, C_close (floor e))) s
  | C_sleep2 => sleep_controller C_next2 s
  | C_close fl => on_bank (CloseDoors 0) (λ _, Ok (C_move fl)) s
  | C_move fl => on_bank (MoveTo fl 0) (λ _, Ok C_next3) s
  | C_next3 =>
      next_event OfControllers C_sleep3
        (λ e, p ← expect ElevatorArrived 1 (λ e, C_open2 (elevator e)) e;
              ASSERT (elevator e =? 0);; Ok p) s
  | C_sleep3 => sleep_controller C_next3 s
  | C_open2 el => on_bank (OpenDoors el) (λ _, Ok C_finished) s
  | _ => Ok None
  end.

Definition is_rider (l : place) : bool :=
  match l with
  | R_press | R_next1 | R_sleep1 | R_direction _ _ | R_enter _ _ | R_floor _ | R_next2 | R_sleep2
  | R_exit _ _ | R_delete | R_finished => true
  | _ => false
  end.
(** [delete inspector], at the end of [ElevatorSelfTest]. *)
Definition delete_inspector (s : ElevatorInspector) : result (option (place * ElevatorInspector)) :=
  if alive s
  then Ok (Some (R_finished, mkInspector (bank s) (riderWakeup s) (controllerWakeup s) false))
  else Stop Undefined.

Definition thread (i : nat) (l : place) (s : ElevatorInspector) :
    result (option (place * ElevatorInspector)) :=
  match l with
  | R_delete => delete_inspector s
  | _ => if is_rider l then RiderTest l s else ControllerTest l s
  end.

(** An interrupt is delivered; [riders] and [controllers] increment the semaphores. *)
Definition wakeups (c : callback) (l : list callback) : Z :=
  zlen (filter (λ x, x = c) l).
Definition interrupt (e : unit) (s : ElevatorInspector) : result (option ElevatorInspector) :=
  match due (bank s) with
  | [] => Ok None
  | _ =>
      if alive s then
        b ← deliver (bank s);
        Ok (Some (mkInspector
          (mkBank (numElevators b) (numFloors b) (riderEvents b) (controllerEvents b) (elevators b)
             (now b) (due b) [])
          (riderWakeup s + wakeups CallRiders (called b))
          (controllerWakeup s + wakeups CallControllers (called b)) true))
      else Stop Undefined
  end.

(** [ElevatorSelfTest]: the rider, who then deletes the inspector, and the controller. *)
Definition ElevatorSelfTest : sys ElevatorInspector place :=
  mkSys ElevatorInspector_new [R_press; C_where].

(** An interrupt of the deleted device is pending. *)
Definition dangling (s : ElevatorInspector) : Prop := alive s = false ∧ due (bank s) ≠ [].

(** The same interrupts, but for those of a deleted device, so that no step of the
    explored system fails. *)
Definition interrupt_alive (e : unit) (s : ElevatorInspector) : result (option ElevatorInspector) :=
  if alive s then interrupt e s else Ok None.

Lemma interrupt_alive_or s : interrupt_alive () s = interrupt () s ∨ dangling s ∧ interrupt () s = Stop Undefined.
Proof.
  unfold interrupt_alive, interrupt, dangling. destruct (alive s); [by left|].
  destruct (due (bank s)) ; [by left|by right].
Qed.
Lemma step_alive s s' : step thread interrupt s s' ↔ step thread interrupt_alive s s'.
Proof.
  assert (∀ a, act thread interrupt a s = Ok (Some s') ↔ act thread interrupt_alive a s = Ok (Some s')) as HA.
  { intros [i|[]]; [done|]. cbn. destruct (interrupt_alive_or (shared s)) as [->|[[Hd _] ->]]; [done|].
    unfold interrupt_alive. by rewrite Hd. }
  split; intros [a Ha]; exists a; by apply HA.
Qed.

Definition labels : list (label unit) := [Thread 0; Thread 1; Event ()].
Definition finished : list place := [R_finished; C_finished].

(** What is computed of every reachable state: there are two threads, the time is less
    than 200, and when there is no next state both are finished. *)
Definition state_ok (s : sys ElevatorInspector place) : bool :=
  bool_decide (length (locals s) = 2%nat) && (0 <=? now (bank (shared s))) && (now (bank (shared s)) <? 200) &&
  (bool_decide (locals s = finished) ||
   match successors thread interrupt_alive labels s with Some (_ :: _) => true | _ => false end).

Lemma self_test_verified : verify thread interrupt_alive labels state_ok 60 [ElevatorSelfTest] = true.
Proof. vm_compute. reflexivity. Qed.

Lemma stuck_successors s l :
  successors thread interrupt_alive l s ≠ None → (∀ a, a ∈ l → act thread interrupt_alive a s = Ok None) →
  successors thread interrupt_alive l s = Some [].
Proof.
  induction l as [|a l IH]; cbn; [done|]. intros Hn Ha. rewrite Ha in * by set_solver.
  destruct (successors thread interrupt_alive l s); [|done]. apply IH; [done|]. intros b Hb. apply Ha. set_solver.
Qed.

(** C27: the self test of the elevators, the deletion of the device at its end included:
    in every order of rider, controller and interrupts no assertion of the test or of the
    device fails, and nobody uses the device after its deletion but the handler of an
    interrupt that is then still pending, which is the only step that fails and always
    does; and neither thread is left waiting: when nothing can happen any more, both have
    finished.  The test takes less than 200 ticks. *)
Theorem elevator_self_test_outcomes s :
  rtc (step thread interrupt) ElevatorSelfTest s →
  (∀ a e, act thread interrupt a s = Stop e ↔ a = Event () ∧ dangling (shared s) ∧ e = Undefined) ∧
  (¬ (∃ s', step thread interrupt s s') → locals s = finished) ∧ 0 ≤ now (bank (shared s)) < 200.
Proof.
  intros Hr.
  destruct (verified thread interrupt_alive labels state_ok 60 [ElevatorSelfTest] ElevatorSelfTest s) as [Hok Hnf];
    [exact self_test_verified|set_solver| | |].
  { intros [[|[|i]]|[]] s1 Hs1; try (left; set_solver). right. cbn.
    unfold state_ok in Hs1. rewrite !andb_true_iff, bool_decide_eq_true in Hs1. destruct Hs1 as [[[Hl _] _] _].
    rewrite lookup_ge_None_2; [done|lia]. }
  { eapply rtc_subrel; [|exact Hr]. intros ?? ?%step_alive. done. }
  unfold state_ok in Hok. rewrite !andb_true_iff, Z.leb_le, Z.ltb_lt, orb_true_iff, bool_decide_eq_true in Hok.
  destruct Hok as [[[_ H1] H2] Hok]. split; [|split; [|done]].
  - intros [i|[]] e.
    + split; [|by intros [? _]]. intros Ha. destruct Hnf. by exists (Thread i), e.
    + cbn. destruct (interrupt_alive_or (shared s)) as [HE|[Hd HE]]; rewrite <-?HE.
      * split; [intros Ha; destruct Hnf; by exists (Event ()), e|]. intros (_ & [Hd Hp] & ->).
        revert HE. unfold interrupt_alive, interrupt. rewrite Hd. by destruct (due (bank (shared s))).
      * rewrite HE. cbn. split; [by intros [= <-]|by intros (_ & _ & ->)].
  - intros Hstuck. destruct Hok as [Hok|Hok]; [by apply bool_decide_eq_true in Hok|].
    destruct (successors thread interrupt_alive labels s) as [l|] eqn:Hl; [|done].
    rewrite stuck_successors in Hl; [by simplify_eq|congruence|].
    intros a _. destruct (act thread interrupt_alive a s) as [[s'|]|e] eqn:Ha; [|done|].
    + exfalso. apply Hstuck. exists s'. apply step_alive. by exists a.
    + exfalso. apply Hnf. by exists a, e.
Qed.

(** The rider can finish, and [ElevatorSelfTest] delete the device, while an
    interrupt of the device is still pending: its handler then runs on the deleted
    object. *)
Theorem elevator_self_test_dangles :
  ∃ s, rtc (step thread interrupt) ElevatorSelfTest s ∧ locals s = finished ∧ dangling (shared s).
Proof.
  eexists. split.
  - eapply (play_reachable _ _ ([Thread 0; Event (); Thread 1; Thread 1; Thread 1; Thread 1; Event ();
      Thread 0; Thread 0; Thread 0; Thread 0; Event (); Thread 1; Thread 1; Thread 1; Event ();
      Thread 1; Thread 1; Thread 0; Thread 0; Thread 0]%nat)). vm_compute. reflexivity.
  - vm_compute. done.
Qed.

(** A run to the end in which the last interrupt comes before the deletion. *)
Definition self_test_run : list (label unit) :=
  [Thread 0; Event (); Thread 1; Thread 1; Thread 1; Thread 1; Event (); Thread 0; Thread 0; Thread 0;
   Thread 0; Event (); Thread 1; Thread 1; Thread 1; Event (); Thread 1; Thread 1; Event (); Thread 0;
   Thread 0; Thread 0]%nat.
Definition self_test_end : sys ElevatorInspector place :=
  match play thread interrupt self_test_run ElevatorSelfTest with Ok s => s | Stop _ => ElevatorSelfTest end.

Lemma elevator_self_test_outcomes_witness :
  locals self_test_end = finished ∧ ¬ dangling (shared self_test_end) ∧
  ∀ a e, act thread interrupt a self_test_end ≠ Stop e.
Proof.
  assert (¬ dangling (shared self_test_end)) as Hd by (intros [_ Hp]; apply Hp; vm_compute; reflexivity).
  split; [vm_compute; reflexivity|]. split; [exact Hd|]. intros a e Ha. apply Hd.
  apply (elevator_self_test_outcomes self_test_end) in Ha as (_ & ? & _); [done|].
  apply (play_reachable _ _ self_test_run). vm_compute. reflexivity.
Defined.
