(* ===== verification/Console.v ===== *)
(** * The console

    machine/console.h, machine/console.cc: the terminal device [Console], the class
    [SynchConsole] that makes it synchronous for several threads, and the echo program
    [ConsoleTest] of userprog/progtest.cc.

    The keyboard is the events: an interrupt of the device that polls the file finds no
    character, one, or the end of the file; [typed] records the characters the device has
    taken.  The display
    is the list [shown].  [returned] records what [GetChar] has returned. *)

From S2P Require Import Prelude Interleaving.

(** A [char] is signed. *)
Definition s8 (c : Z) : Z := (c + 128) mod 256 - 128.
Definition EOF : Z := -1.

(** Class [Console]; [polls] and [writes] are the numbers of interrupts that have been
    scheduled for [ConsoleReadPoll] and [ConsoleWriteDone]. *)
Record Console := mkConsole {
  putBusy : bool;
  incoming : Z;
  polls : Z;
  writes : Z;
  numConsoleCharsRead : Z;
  numConsoleCharsWritten : Z;
  typed : list Z;
  shown : list Z;
  returned : list Z
}.

Definition Console_new : Console := mkConsole false EOF 1 0 0 0 [] [] [].

(** The keyboard file when it is polled: [PollFile] finds nothing to read, or a character,
    or the end of the file, which counts as readable. *)
Inductive keyboard := NoKey | Key (ch : Z) | EndOfFile.

(** [CheckCharAvail]; the result tells whether the handler [readHandler] is called.  At the
    end of the file the assertion of [Read] (machine/sysdep.cc) fails. *)
Definition CheckCharAvail (key : keyboard) (c : Console) : result (bool * Console) :=
  let c := mkConsole (putBusy c) (incoming c) (polls c + 1) (writes c) (numConsoleCharsRead c)
             (numConsoleCharsWritten c) (typed c) (shown c) (returned c) in
  match (if incoming c =? EOF then key else NoKey) with
  | NoKey => Ok (false, c)
  | Key ch =>
      Ok (true, mkConsole (putBusy c) (s8 ch) (polls c) (writes c) (numConsoleCharsRead c + 1)
                  (numConsoleCharsWritten c) (typed c ++ [s8 ch]) (shown c) (returned c))
  | EndOfFile => Stop AssertFailed
  end.

(** [WriteDone]; the handler [writeHandler] is always called. *)
Definition WriteDone (c : Console) : Console :=
  mkConsole false (incoming c) (polls c) (writes c) (numConsoleCharsRead c)
    (numConsoleCharsWritten c + 1) (typed c) (shown c) (returned c).

Definition GetChar (c : Console) : Z * Console :=
  (incoming c,
   mkConsole (putBusy c) EOF (polls c) (writes c) (numConsoleCharsRead c)
     (numConsoleCharsWritten c) (typed c) (shown c) (returned c ++ [incoming c])).

Definition PutChar (ch : Z) (c : Console) : result Console :=
  ASSERT (negb (putBusy c));;
  Ok (mkConsole true (incoming c) (polls c) (writes c + 1) (numConsoleCharsRead c)
        (numConsoleCharsWritten c) (typed c) (shown c ++ [ch]) (returned c)).

(** ** SynchConsole *)
Record SynchConsole := mkSynchConsole {
  console : Console;
  readAvail : Z;
  writeDone : Z;
  readLock : option nat;
  writeLock : option nat
}.
Definition SynchConsole_new : SynchConsole := mkSynchConsole Console_new 0 0 None None.

(** The interrupts: a poll of the keyboard, which schedules the next one, and the end of
    a write. *)
Inductive event := Poll (key : keyboard) | Written.

Definition interrupt (e : event) (s : SynchConsole) : result (option SynchConsole) :=
  match e with
  | Poll key =>
      let c := console s in
      let c := mkConsole (putBusy c) (incoming c) (polls c - 1) (writes c) (numConsoleCharsRead c)
                 (numConsoleCharsWritten c) (typed c) (shown c) (returned c) in
      '(called, c) ← CheckCharAvail key c;
      Ok (Some (mkSynchConsole c (if (called : bool) then readAvail s + 1 else readAvail s)
                  (writeDone s) (readLock s) (writeLock s)))
  | Written =>
      let c := console s in
      if writes c >? 0 then
        let c := mkConsole (putBusy c) (incoming c) (polls c) (writes c - 1) (numConsoleCharsRead c)
                   (numConsoleCharsWritten c) (typed c) (shown c) (returned c) in
        Ok (Some (mkSynchConsole (WriteDone c) (readAvail s) (writeDone s + 1) (readLock s) (writeLock s)))
      else Ok None
  end.

Inductive place :=
| Idle
| G_wait             (* getChar: readAvail->P() *)
| G_get              (* getChar: console->GetChar() *)
| G_unlock (ch : Z)  (* getChar: readLock->Release() *)
| P_put (ch : Z)     (* putChar: console->PutChar(ch) *)
| P_wait             (* putChar: writeDone->P() *)
| P_unlock.          (* putChar: writeLock->Release() *)

(** What a thread has to do, and the characters it has read. *)
Inductive request := Do_getChar | Do_putChar (ch : Z).
Record local := mkLocal { at_place : place; todo : list request; chars : list Z }.

Definition with_console (s : SynchConsole) (c : Console) : SynchConsole :=
  mkSynchConsole c (readAvail s) (writeDone s) (readLock s) (writeLock s).

Definition getChar (i : nat) (l : local) (s : SynchConsole) : result (option (local * SynchConsole)) :=
  match at_place l with
  | Idle =>
      when_awake (lock_acquire i (readLock s)) (λ lk,
        (mkLocal G_wait (tail (todo l)) (chars l),
         mkSynchConsole (console s) (readAvail s) (writeDone s) lk (writeLock s)))
  | G_wait =>
      when_awake (sem_P (readAvail s)) (λ v,
        (mkLocal G_get (todo l) (chars l),
         mkSynchConsole (console s) v (writeDone s) (readLock s) (writeLock s)))
  | G_get =>
      let '(ch, c) := GetChar (console s) in
      Ok (Some (mkLocal (G_unlock ch) (todo l) (chars l), with_console s c))
  | G_unlock ch =>
      lk ← lock_release i (readLock s);
      Ok (Some (mkLocal Idle (todo l) (chars l ++ [ch]),
                mkSynchConsole (console s) (readAvail s) (writeDone s) lk (writeLock s)))
  | _ => Ok None
  end.

Definition putChar (i : nat) (ch : Z) (l : local) (s : SynchConsole) :
    result (option (local * SynchConsole)) :=
  match at_place l with
  | Idle =>
      when_awake (lock_acquire i (writeLock s)) (λ lk,
        (mkLocal (P_put ch) (tail (todo l)) (chars l),
         mkSynchConsole (console s) (readAvail s) (writeDone s) (readLock s) lk))
  | P_put ch =>
      c ← PutChar ch (console s);
      Ok (Some (mkLocal P_wait (todo l) (chars l), with_console s c))
  | P_wait =>
      when_awake (sem_P (writeDone s)) (λ v,
        (mkLocal P_unlock (todo l) (chars l),
         mkSynchConsole (console s) (readAvail s) v (readLock s) (writeLock s)))
  | P_unlock =>
      lk ← lock_release i (writeLock s);
      Ok (Some (mkLocal Idle (todo l) (chars l),
                mkSynchConsole (console s) (readAvail s) (writeDone s) (readLock s) lk))
  | _ => Ok None
  end.

(** A thread goes on with the call it is in, or starts the next one. *)
Definition thread (i : nat) (l : local) (s : SynchConsole) : result (option (local * SynchConsole)) :=
  match at_place l with
  | G_wait | G_get | G_unlock _ => getChar i l s
  | P_put _ | P_wait | P_unlock => putChar i 0 l s
  | Idle =>
      match todo l with
      | Do_getChar :: _ => getChar i l s
      | Do_putChar ch :: _ => putChar i ch l s
      | [] => Ok None
      end
  end.

Definition start (programs : list (list request)) : sys SynchConsole local :=
  mkSys SynchConsole_new ((λ p, mkLocal Idle p []) <$> programs).

(** ** The invariant *)

(** [EOF] stands for "no character": a typed character must not look like it. *)
Definition not_eof (e : event) : Prop :=
  match e with Poll (Key ch) => s8 ch ≠ EOF | _ => True end.

Definition reading (l : local) : bool :=
  match at_place l with G_wait | G_get | G_unlock _ => true | _ => false end.
Definition getting (l : local) : bool := match at_place l with G_get => true | _ => false end.
Definition writing (l : local) : bool :=
  match at_place l with P_put _ | P_wait | P_unlock => true | _ => false end.
Definition waiting (l : local) : bool := match at_place l with P_wait => true | _ => false end.

(** The character in the buffer, if there is one. *)
Definition buffered (c : Console) : list Z := if incoming c =? EOF then [] else [incoming c].

(** The characters a thread has got from [GetChar]. *)
Definition held (l : local) : list Z :=
  chars l ++ match at_place l with G_unlock ch => [ch] | _ => [] end.

Record inv (s : SynchConsole) (ls : list local) : Prop := {
  inv_read_lock : ∀ i l, ls !! i = Some l → reading l = true ↔ readLock s = Some i;
  inv_write_lock : ∀ i l, ls !! i = Some l → writing l = true ↔ writeLock s = Some i;
  inv_busy : putBusy (console s) = (writes (console s) >? 0);
  inv_writes : 0 ≤ writes (console s) ∧ 0 ≤ writeDone s ∧
    writes (console s) + writeDone s = tally_of waiting ls;
  inv_avail : 0 ≤ readAvail s ∧
    readAvail s + tally_of getting ls = zlen (buffered (console s));
  inv_log : typed (console s) = returned (console s) ++ buffered (console s);
  inv_held : returned (console s) ≡ₚ concat (held <$> ls);
  inv_count : numConsoleCharsWritten (console s) + writes (console s) = zlen (shown (console s))
}.

(** A thread that holds a lock is alone in what the lock protects. *)
Lemma tally_alone (p q : local → bool) (ls : list local) lk i l :
  (∀ i l, ls !! i = Some l → q l = true ↔ lk = Some i) → (∀ l, p l = true → q l = true) →
  ls !! i = Some l → q l = true → tally_of p ls = weight (p l).
Proof.
  intros H Hpq Hl Hq. apply tally_unique with i; [|done]. intros j l' Hj Hl'.
  destruct (p l') eqn:E; [|done]. apply Hpq, (H j l' Hl') in E. apply (H i l Hl) in Hq. congruence.
Qed.
Lemma waiting_one (ls : list local) lk :
  (∀ i l, ls !! i = Some l → writing l = true ↔ lk = Some i) → tally_of waiting ls ≤ 1.
Proof.
  intros H. destruct (decide (0 < tally_of waiting ls)) as [Hp|]; [|lia].
  apply tally_some in Hp as (i & l & Hl & Hp).
  rewrite (tally_alone waiting writing ls lk i l); try done.
  - by rewrite Hp.
  - by intros [[] ? ?].
  - by destruct l as [[] ? ?].
Qed.
(** The holder of a lock after a step of thread [i]. *)
Lemma console_lock_keep (q : local → bool) (ls : list local) lk lk' i l' :
  (∀ j l, ls !! j = Some l → q l = true ↔ lk = Some j) → (q l' = true ↔ lk' = Some i) →
  (∀ j, j ≠ i → lk' = Some j ↔ lk = Some j) →
  ∀ j l, <[i := l']> ls !! j = Some l → q l = true ↔ lk' = Some j.
Proof.
  intros H Hi Hj. apply (insert_forall (λ j l, q l = true ↔ lk' = Some j)); [|done].
  intros j l Hne Hl. rewrite Hj by done. by apply H.
Qed.

Lemma held_insert (ls : list local) i l l' xs :
  ls !! i = Some l → held l' ≡ₚ held l ++ xs →
  concat (held <$> <[i := l']> ls) ≡ₚ concat (held <$> ls) ++ xs.
Proof.
  revert i. induction ls as [|x ls IH]; intros [|i] Hl Hh; try done.
  - injection Hl as ->. cbn. rewrite Hh, <-!(assoc_L (++)). f_equiv. apply Permutation_app_comm.
  - change (<[Datatypes.S i := l']> (x :: ls)) with (x :: <[i := l']> ls). cbn.
    rewrite (IH i Hl Hh). by rewrite (assoc_L (++)).
Qed.
Lemma held_same (ls : list local) i l l' :
  ls !! i = Some l → held l' = held l → concat (held <$> <[i := l']> ls) ≡ₚ concat (held <$> ls).
Proof. intros Hl Hh. rewrite (held_insert ls i l l' []); [by rewrite app_nil_r|done|by rewrite app_nil_r, Hh]. Qed.

Lemma inv_thread i l s ls l' s' :
  inv s ls → ls !! i = Some l → thread i l s = Ok (Some (l', s')) → inv s' (<[i := l']> ls).
Proof.
  intros [H1 H2 H3 H4 H5 H6 Hh H7] Hl Ht. pose proof (H1 i l Hl) as Hr. pose proof (H2 i l Hl) as Hw.
  assert (reading l = true → tally_of getting ls = weight (getting l)) as Hg.
  { apply (tally_alone getting reading ls (readLock s) i); [done| |done]. by intros [[] ? ?]. }
  assert (writing l = true → tally_of waiting ls = weight (waiting l)) as Hwt.
  { apply (tally_alone waiting writing ls (writeLock s) i); [done| |done]. by intros [[] ? ?]. }
  destruct l as [p t r]. unfold thread, getChar, putChar, GetChar, PutChar in Ht.
  destruct p; cbn in Ht, Hr, Hw, Hg, Hwt; repeat case_match; inv_bind;
    try (apply when_awake_Ok in Ht as (? & [? ->]%lock_acquire_Some & ?));
    try (apply when_awake_Ok in Ht as (? & [? ->]%sem_P_Some & ?));
    try match goal with H : lock_release _ _ = _ |- _ => apply lock_release_Ok in H as [? ->] end;
    simplify_eq/=; split; cbn [readLock writeLock console readAvail writeDone with_console];
    try (eapply console_lock_keep; [done|cbn..]; naive_solver);
    try (rewrite (held_same _ _ _ _ Hl) by (unfold held; cbn; by rewrite ?app_nil_r); exact Hh);
    rewrite ?(tally_insert _ _ _ _ _ Hl); cbn; try done; try lia.
  - specialize (Hg eq_refl). unfold buffered, zlen in *. case_match; cbn in *; lia.
  - specialize (Hg eq_refl). rewrite H6, app_nil_r. f_equal. unfold buffered, zlen in *.
    case_match; cbn in *; [lia|done].
  - rewrite (held_insert _ _ _ _ [incoming (console s)] Hl); [by rewrite Hh|].
    unfold held. cbn. by rewrite app_nil_r.
  - unfold buffered in *. cbn. lia.
  - rewrite zlen_app. unfold zlen at 2. cbn. lia.
Qed.

Lemma inv_event e s ls s' : not_eof e → inv s ls → interrupt e s = Ok (Some s') → inv s' ls.
Proof.
  intros He [H1 H2 H3 H4 H5 H6 Hh H7] Ht. unfold interrupt, CheckCharAvail in Ht.
  destruct e as [key|]; cbn in Ht, He.
  - destruct (Z.eqb_spec (incoming (console s)) EOF) as [Hi|Hi];
      [destruct key as [|ch|]|]; [| |done|]; injection Ht as <-; split; cbn; try done; try lia;
      unfold buffered, zlen in *; cbn.
    + rewrite Hi, Z.eqb_refl in H5. rewrite (proj2 (Z.eqb_neq _ _)) by done. cbn in *. lia.
    + rewrite H6, Hi, Z.eqb_refl, (proj2 (Z.eqb_neq _ _)) by done. by rewrite app_nil_r.
  - destruct (Z.gtb_spec (writes (console s)) 0); [|done]. injection Ht as <-.
    split; cbn; try done; try lia.
    pose proof (waiting_one ls _ H2).
    destruct (Z.gtb_spec (writes (console s) - 1) 0); [lia|done].
Qed.

Lemma console_start_inv programs : inv (shared (start programs)) (locals (start programs)).
Proof.
  assert (∀ i l, locals (start programs) !! i = Some l → ∃ p, l = mkLocal Idle p []) as Hs.
  { intros i l Hl. cbn in Hl. apply list_lookup_fmap_Some in Hl as (p & ? & ?). eauto. }
  assert (∀ q : local → bool, (∀ p, q (mkLocal Idle p []) = false) →
            tally_of q (locals (start programs)) = 0) as Hz.
  { intros q Hq. apply tally_zero. intros l [i Hl]%list_elem_of_lookup.
    destruct (Hs i l Hl) as [p ->]. by rewrite Hq. }
  split; rewrite ?Hz by done; try done.
  - intros i l Hl. destruct (Hs i l Hl) as [p ->]. cbn. naive_solver.
  - intros i l Hl. destruct (Hs i l Hl) as [p ->]. cbn. naive_solver.
  - cbn. clear. induction programs as [|p ps IH]; [done|]. cbn. by rewrite <-IH.
Qed.

Lemma console_reachable_inv programs s :
  rtc (step_if thread interrupt not_eof) (start programs) s → inv (shared s) (locals s).
Proof.
  apply (reachable_invariant_if thread interrupt not_eof inv); [apply console_start_inv| |].
  - intros. by eapply inv_thread.
  - intros. by eapply inv_event.
Qed.

(** Under the invariant no assertion fails: the display is free when [PutChar] is called. *)
Lemma inv_thread_ok i l s ls e : inv s ls → ls !! i = Some l → thread i l s ≠ Stop e.
Proof.
  intros [H1 H2 H3 H4 H5 H6 Hh H7] Hl. pose proof (H1 i l Hl) as Hr. pose proof (H2 i l Hl) as Hw.
  assert (writing l = true → tally_of waiting ls = weight (waiting l)) as Hwt.
  { apply (tally_alone waiting writing ls (writeLock s) i); [done| |done]. by intros [[] ? ?]. }
  destruct l as [p t r]. unfold thread, getChar, putChar, GetChar, PutChar, lock_release, ASSERT.
  destruct p; cbn in *; repeat case_match; try done; cbn; try case_bool_decide; try done;
    try (exfalso; tauto).
  specialize (Hwt eq_refl). rewrite H3 in *. destruct (Z.gtb_spec (writes (console s)) 0); [lia|done].
Qed.

(** C23: the synchronous console with any number of threads, calls and interrupts, when
    no character typed is the byte 0xFF, which looks like [EOF].  No assertion of the device
    or the locks fails, except that of [Read] when the keyboard is polled at the end of its
    file with an empty buffer, which always fails.  The characters come out of [getChar] in
    the order they were typed, none lost or doubled but for one that may wait in the
    buffer; each goes to one thread; and at most one character of the display is not yet
    acknowledged. *)
Theorem console_delivers programs s :
  rtc (step_if thread interrupt not_eof) (start programs) s →
  let c := console (shared s) in
  (∀ a e, match a with Event ev => not_eof ev | Thread _ => True end →
     act thread interrupt a s = Stop e ↔
     a = Event (Poll EndOfFile) ∧ incoming c = EOF ∧ e = AssertFailed) ∧
  typed c = returned c ++ buffered c ∧ zlen (buffered c) ≤ 1 ∧
  returned c ≡ₚ concat (held <$> locals s) ∧
  numConsoleCharsWritten c ≤ zlen (shown c) ≤ numConsoleCharsWritten c + 1.
Proof.
  intros Hr. pose proof (console_reachable_inv programs s Hr) as Hi. cbv zeta. split.
  - intros [i|ev] e Hev; cbn.
    + split; [|by intros [? _]]. intros HS. exfalso. destruct (locals s !! i) as [l|] eqn:Hl; [|done].
      destruct (thread i l (shared s)) as [r|e'] eqn:Ht; [done|]. by apply (inv_thread_ok i l _ _ e' Hi Hl).
    + destruct ev as [key|]; cbn; unfold CheckCharAvail; cbn [incoming].
      * destruct (Z.eqb_spec (incoming (console (shared s))) EOF) as [He|He]; [destruct key|];
          cbn; split; naive_solver.
      * split; [|by intros [? _]]. by case_match.
  - destruct Hi as [H1 H2 H3 H4 H5 H6 Hh H7].
    split; [done|]. split; [unfold buffered, zlen; case_match; cbn; lia|]. split; [done|].
    pose proof (waiting_one (locals s) _ H2). lia.
Qed.

(** Two threads: one reads two characters, one writes two. *)
Definition example : sys SynchConsole local :=
  start [[Do_getChar; Do_getChar]; [Do_putChar 65; Do_putChar 66]].
Definition example_end : sys SynchConsole local :=
  match play thread interrupt
          [Thread 0; Thread 1; Thread 1; Event (Poll (Key 97)); Thread 0; Event Written; Thread 0;
           Thread 1; Event (Poll (Key 98)); Thread 0] example with
  | Ok s => s | Stop _ => example
  end.

Lemma console_delivers_witness :
  typed (console (shared example_end)) = [97; 98] ∧
  typed (console (shared example_end)) =
    returned (console (shared example_end)) ++ buffered (console (shared example_end)).
Proof.
  split; [vm_compute; reflexivity|].
  apply (console_delivers [[Do_getChar; Do_getChar]; [Do_putChar 65; Do_putChar 66]] example_end).
  eapply (play_reachable_if thread interrupt not_eof
    [Thread 0; Thread 1; Thread 1; Event (Poll (Key 97)); Thread 0; Event Written; Thread 0;
     Thread 1; Event (Poll (Key 98)); Thread 0]).
  - repeat constructor; done.
  - vm_compute. reflexivity.
Defined.

(** A character 0xFF looks like [EOF], the mark of an empty buffer: the next
    character overwrites it, [readAvail] is incremented twice, and the two characters
    come out in the wrong order. *)
Theorem console_eof_overtaken :
  ∃ s, rtc (step thread interrupt) (start [[Do_getChar; Do_getChar]]) s ∧
    typed (console (shared s)) = [EOF; 97] ∧ returned (console (shared s)) = [97; EOF].
Proof.
  eexists. split.
  - eapply (play_reachable thread interrupt
      [Event (Poll (Key 255)); Event (Poll (Key 97)); Thread 0; Thread 0; Thread 0; Thread 0;
       Thread 0; Thread 0; Thread 0; Thread 0]). vm_compute. reflexivity.
  - vm_compute. done.
Qed.

(** ** The echo program

    [ConsoleTest] of progtest.cc uses the device and two semaphores, without the locks. *)
Definition char_q : Z := 113.

Inductive echo_place :=
| E_wait | E_get | E_put (ch : Z) | E_written (ch : Z) | E_returned.

Definition ConsoleTest (i : nat) (l : echo_place) (s : SynchConsole) :
    result (option (echo_place * SynchConsole)) :=
  match l with
  | E_wait =>
      when_awake (sem_P (readAvail s)) (λ v,
        (E_get, mkSynchConsole (console s) v (writeDone s) (readLock s) (writeLock s)))
  | E_get => let '(ch, c) := GetChar (console s) in Ok (Some (E_put ch, with_console s c))
  | E_put ch =>
      c ← PutChar ch (console s);
      Ok (Some (E_written ch, with_console s c))
  | E_written ch =>
      when_awake (sem_P (writeDone s)) (λ v,
        (if ch =? char_q then E_returned else E_wait,
         mkSynchConsole (console s) (readAvail s) v (readLock s) (writeLock s)))
  | E_returned => Ok None
  end.
Definition echo_start : sys SynchConsole echo_place := mkSys SynchConsole_new [E_wait].

(** The characters on their way from the keyboard to the display. *)
Definition under_way (c : Console) (l : echo_place) : list Z :=
  match l with E_put ch => [ch] | _ => [] end ++ buffered c.

Record echo_inv (s : SynchConsole) (ls : list echo_place) : Prop := {
  ei_place : ∃ l, ls = [l] ∧
    typed (console s) = shown (console s) ++ under_way (console s) l ∧
    (0 ≤ readAvail s ∧ readAvail s + (match l with E_get => 1 | _ => 0 end) = zlen (buffered (console s))) ∧
    (0 ≤ writes (console s) ∧ 0 ≤ writeDone s ∧
     writes (console s) + writeDone s = match l with E_written _ => 1 | _ => 0 end) ∧
    putBusy (console s) = (writes (console s) >? 0) ∧
    match l with
    | E_written ch => ∃ pre, shown (console s) = pre ++ [ch]
    | E_returned => ∃ pre, shown (console s) = pre ++ [char_q]
    | _ => True
    end
}.

Lemma echo_thread i l s ls l' s' :
  echo_inv s ls → ls !! i = Some l → ConsoleTest i l s = Ok (Some (l', s')) →
  echo_inv s' (<[i := l']> ls).
Proof.
  intros [(l0 & -> & H1 & H2 & H3 & H4 & H5)] Hl Ht.
  destruct i as [|i]; [|done]. injection Hl as ->. unfold under_way in H1.
  destruct l; cbn in Ht, H1, H2, H3, H5; unfold PutChar in Ht; inv_bind;
    try (apply when_awake_Ok in Ht as (? & [? ->]%sem_P_Some & ?)); simplify_eq/=;
    split; eexists; (split; [done|]); unfold under_way, buffered, zlen in *; cbn; try done.
  - split_and!; try done; lia.
  - destruct (incoming (console s) =? EOF); cbn in *; split_and!; try done; lia.
  - split_and!; try done; try lia.
    + by rewrite <-(assoc_L (++)).
    + by exists (shown (console s)).
  - destruct (Z.eqb_spec ch char_q) as [->|]; split_and!; try done; lia.
Qed.

Lemma echo_event e s ls s' : not_eof e → echo_inv s ls → interrupt e s = Ok (Some s') → echo_inv s' ls.
Proof.
  intros He [(l & -> & H1 & H2 & H3 & H4 & H5)] Ht. unfold interrupt, CheckCharAvail in Ht.
  unfold under_way, buffered, zlen in *. split. exists l. split; [done|].
  destruct e as [key|]; cbn in Ht, He.
  - destruct (Z.eqb_spec (incoming (console s)) EOF) as [Hi|Hi];
      [destruct key as [|ch|]|]; [| |done|]; injection Ht as <-; unfold under_way, buffered, zlen; cbn;
      rewrite ?Hi, ?Z.eqb_refl; rewrite ?(proj2 (Z.eqb_neq _ _)) by done; cbn in *; split_and!; try done; try lia.
    rewrite H1. by rewrite app_nil_r, (assoc_L (++)).
  - destruct (Z.gtb_spec (writes (console s)) 0); [|done]. injection Ht as <-.
    unfold under_way, buffered, zlen; cbn. split_and!; try done; try lia; destruct l; try lia.
    all: destruct (Z.gtb_spec (writes (console s) - 1) 0); try done; lia.
Qed.

(** The echo program: the display shows the characters in the order they were typed,
    and lacks at most the one the program holds and the one in the buffer; the device is
    never asked to write while it is busy; and when the program returns, the last
    character shown is q. *)
Theorem console_echoes s :
  rtc (step_if ConsoleTest interrupt not_eof) echo_start s →
  (∀ i l e, locals s !! i = Some l → ConsoleTest i l (shared s) ≠ Stop e) ∧
  ∃ l, locals s = [l] ∧
    typed (console (shared s)) = shown (console (shared s)) ++ under_way (console (shared s)) l ∧
    zlen (under_way (console (shared s)) l) ≤ 2 ∧
    (l = E_returned → ∃ pre, shown (console (shared s)) = pre ++ [char_q]).
Proof.
  intros Hr.
  assert (echo_inv (shared s) (locals s)) as [(l & Hl & H1 & H2 & H3 & H4 & H5)].
  { apply (reachable_invariant_if ConsoleTest interrupt not_eof echo_inv) with (s0 := echo_start).
    - split. exists E_wait. by cbn.
    - intros. by eapply echo_thread.
    - intros. by eapply echo_event.
    - done. }
  split.
  - intros [|i] l' e; rewrite Hl; [|done]. intros [= <-]. destruct l; cbn; try done.
    unfold PutChar. rewrite H4.
    destruct (Z.gtb_spec (writes (console (shared s))) 0); [lia|done].
  - exists l. split; [done|]. split; [done|]. split.
    + unfold under_way, buffered, zlen. repeat case_match; cbn; lia.
    + by intros ->.
Qed.

Definition echo_end : sys SynchConsole echo_place :=
  match play ConsoleTest interrupt
          [Event (Poll (Key 104)); Thread 0; Thread 0; Thread 0; Event Written; Event (Poll (Key 113));
           Thread 0; Thread 0; Thread 0; Thread 0; Event Written; Thread 0] echo_start with
  | Ok s => s | Stop _ => echo_start
  end.
Lemma console_echoes_witness :
  locals echo_end = [E_returned] ∧ shown (console (shared echo_end)) = [104; 113] ∧
  ∃ l, locals echo_end = [l] ∧
    typed (console (shared echo_end)) =
      shown (console (shared echo_end)) ++ under_way (console (shared echo_end)) l.
Proof.
  split; [vm_compute; reflexivity|]. split; [vm_compute; reflexivity|].
  destruct (console_echoes echo_end) as (_ & l & ? & ? & _).
  - eapply (play_reachable_if ConsoleTest interrupt not_eof
      [Event (Poll (Key 104)); Thread 0; Thread 0; Thread 0; Event Written; Event (Poll (Key 113));
       Thread 0; Thread 0; Thread 0; Thread 0; Event Written; Thread 0]).
    + repeat constructor; done.
    + vm_compute. reflexivity.
  - exists l. auto.
Defined.
