(* ===== verification/Network.v ===== *)
(** * The network device

    machine/network.h, machine/network.cc and the message formats of network/post.h:
    packets of [MaxWireSize] bytes with a [PacketHeader] in front, whose data begin with
    the [MailHeader] of the post office.

    [SendToSocket] and [ReadFromSocket] (machine/sysdep.cc) are datagrams of UNIX: a
    packet given to the socket of another machine arrives there whole, and packets
    arrive in the order they were sent.  [Random] is an argument, and so are the bytes
    of memory that is not initialised. *)

From Stdlib Require Import QArith.
From S2P Require Import Prelude.
#[local] Open Scope Z_scope.

Record PacketHeader := mkPacketHeader { p_to : Z; p_from : Z; p_length : Z }.
Record MailHeader := mkMailHeader { m_to : Z; m_from : Z; m_length : Z }.
#[export] Instance PacketHeader_eq_dec : EqDecision PacketHeader.
Proof. solve_decision. Defined.
#[export] Instance MailHeader_eq_dec : EqDecision MailHeader.
Proof. solve_decision. Defined.

Definition sizeof_PacketHeader : Z := 12.
Definition sizeof_MailHeader : Z := 12.
Definition MaxWireSize : Z := 64.
Definition MaxPacketSize : Z := MaxWireSize - sizeof_PacketHeader.
Definition MaxMailSize : Z := MaxPacketSize - sizeof_MailHeader.

(** The headers as bytes: two [int]s and an [unsigned]. *)
Definition uint_at (b : list Z) (off : Z) : Z := le_combine (read_at b off 4).
Definition enc_PacketHeader (h : PacketHeader) : list Z := enc_ints [p_to h; p_from h; p_length h].
Definition dec_PacketHeader (b : list Z) : PacketHeader :=
  mkPacketHeader (int_at b 0) (int_at b 4) (uint_at b 8).
Definition enc_MailHeader (h : MailHeader) : list Z := enc_ints [m_to h; m_from h; m_length h].
Definition dec_MailHeader (b : list Z) : MailHeader :=
  mkMailHeader (int_at b 0) (int_at b 4) (uint_at b 8).

(** [bcopy(src, dst + off, n)] into a buffer of [zlen dst] bytes; reading or writing
    outside a buffer is undefined. *)
Definition bcopy (src dst : list Z) (off n : Z) : result (list Z) :=
  if (0 <=? n) && (n <=? zlen src) && (0 <=? off) && (off + n <=? zlen dst)
  then Ok (write_at dst off (take (Z.to_nat n) src)) else Stop Undefined.

(** ** The device *)

(** Class [Network]; [sends] is the number of [NetworkSendDone] interrupts that have
    been scheduled. *)
Record Network := mkNetwork {
  ident : Z;
  chanceToWork : Q;
  sendBusy : bool;
  inHdr : PacketHeader;
  inbox : list Z;
  sends : Z;
  numPacketsSent : Z;
  numPacketsRecvd : Z
}.

(** The constructor; [inHdr] and [inbox] are not initialised but for the length. *)
Definition Network_new (addr : Z) (reliability : Q) (hdr : PacketHeader) (box : list Z) : Network :=
  mkNetwork addr
    (if negb (Qle_bool 0 reliability) then 0%Q else if negb (Qle_bool reliability 1) then 1%Q else reliability)
    false (mkPacketHeader (p_to hdr) (p_from hdr) 0) box 0 0 0.

(** [Random() % 100 >= chanceToWork * 100]. *)
Definition is_lost (c : Q) (rnd : Z) : bool := Qle_bool (c * 100) (inject_Z (Z.rem rnd 100)).

(** [Network::Send]: the packet for the socket of machine [hdr.to], unless it is lost;
    [buffer] are the bytes of the new buffer. *)
Definition Network_Send (rnd : Z) (buffer : list Z) (hdr : PacketHeader) (data : list Z) (n : Network) :
    result (option (list Z) * Network) :=
  ASSERT (negb (sendBusy n) && (p_length hdr >? 0) && (p_length hdr <=? MaxPacketSize) &&
          (p_from hdr =? ident n));;
  let n := mkNetwork (ident n) (chanceToWork n) (sendBusy n) (inHdr n) (inbox n) (sends n + 1)
             (numPacketsSent n) (numPacketsRecvd n) in
  if is_lost (chanceToWork n) rnd then Ok (None, n)
  else
    b ← bcopy (enc_PacketHeader hdr) buffer 0 sizeof_PacketHeader;
    b ← bcopy data b sizeof_PacketHeader (p_length hdr);
    Ok (Some b, n).

Definition SendDone (n : Network) : Network :=
  mkNetwork (ident n) (chanceToWork n) false (inHdr n) (inbox n) (sends n) (numPacketsSent n + 1)
    (numPacketsRecvd n).

(** [CheckPktAvail]: [arrived] is the first packet in the socket; [true] when it has been
    read and [readHandler] is called. *)
Definition CheckPktAvail (arrived : option (list Z)) (n : Network) : result (bool * Network) :=
  if negb (p_length (inHdr n) =? 0) then Ok (false, n)
  else
    match arrived with
    | None => Ok (false, n)
    | Some buffer =>
        let h := dec_PacketHeader buffer in
        ASSERT ((p_to h =? ident n) && (p_length h <=? MaxPacketSize));;
        box ← bcopy (drop (Z.to_nat sizeof_PacketHeader) buffer) (inbox n) 0 (p_length h);
        Ok (true, mkNetwork (ident n) (chanceToWork n) (sendBusy n) h box (sends n) (numPacketsSent n)
                    (numPacketsRecvd n + 1))
    end.

(** [Network::Receive] into the buffer [data]. *)
Definition Network_Receive (data : list Z) (n : Network) : result (PacketHeader * list Z * Network) :=
  let hdr := inHdr n in
  let n' := mkNetwork (ident n) (chanceToWork n) (sendBusy n)
              (mkPacketHeader (p_to hdr) (p_from hdr) 0) (inbox n) (sends n) (numPacketsSent n)
              (numPacketsRecvd n) in
  if p_length hdr =? 0 then Ok (hdr, data, n')
  else d ← bcopy (inbox n) data 0 (p_length hdr); Ok (hdr, d, n').

(** ** Formats *)

Lemma int_at_app_l b1 b2 off : 0 ≤ off → off + 4 ≤ zlen b1 → int_at (b1 ++ b2) off = int_at b1 off.
Proof. intros. unfold int_at. by rewrite read_at_app_l by lia. Qed.
Lemma uint_at_app_l b1 b2 off : 0 ≤ off → off + 4 ≤ zlen b1 → uint_at (b1 ++ b2) off = uint_at b1 off.
Proof. intros. unfold uint_at. by rewrite read_at_app_l by lia. Qed.
Lemma uint_at_enc l i x : znth l i = Some x → is_u32 x → uint_at (enc_ints l) (4 * i) = x.
Proof.
  intros Hi Hx. unfold uint_at. rewrite (read_enc_ints _ _ _ Hi), le_combine_split.
  change (8 * Z.of_nat 4) with 32. by apply u32_small.
Qed.

Definition PacketHeader_ok (h : PacketHeader) : Prop := is_s32 (p_to h) ∧ is_s32 (p_from h) ∧ is_u32 (p_length h).
Definition MailHeader_ok (h : MailHeader) : Prop := is_s32 (m_to h) ∧ is_s32 (m_from h) ∧ is_u32 (m_length h).

Lemma zlen_enc_PacketHeader h : zlen (enc_PacketHeader h) = sizeof_PacketHeader.
Proof. unfold enc_PacketHeader. by rewrite zlen_enc_ints. Qed.
Lemma zlen_enc_MailHeader h : zlen (enc_MailHeader h) = sizeof_MailHeader.
Proof. unfold enc_MailHeader. by rewrite zlen_enc_ints. Qed.

Lemma dec_enc_PacketHeader h rest :
  PacketHeader_ok h → dec_PacketHeader (enc_PacketHeader h ++ rest) = h.
Proof.
  intros (H1 & H2 & H3). unfold dec_PacketHeader. destruct h as [t f n]. cbn [p_to p_from p_length] in *.
  rewrite !int_at_app_l, uint_at_app_l by (rewrite ?zlen_enc_PacketHeader; unfold sizeof_PacketHeader; lia).
  unfold enc_PacketHeader. f_equal.
  - by apply (int_at_enc _ 0).
  - by apply (int_at_enc _ 1).
  - by apply (uint_at_enc _ 2).
Qed.
Lemma dec_enc_MailHeader h rest :
  MailHeader_ok h → dec_MailHeader (enc_MailHeader h ++ rest) = h.
Proof.
  intros (H1 & H2 & H3). unfold dec_MailHeader. destruct h as [t f n]. cbn [m_to m_from m_length] in *.
  rewrite !int_at_app_l, uint_at_app_l by (rewrite ?zlen_enc_MailHeader; unfold sizeof_MailHeader; lia).
  unfold enc_MailHeader. f_equal.
  - by apply (int_at_enc _ 0).
  - by apply (int_at_enc _ 1).
  - by apply (uint_at_enc _ 2).
Qed.

Lemma bcopy_Ok src dst off n :
  0 ≤ n ≤ zlen src → 0 ≤ off → off + n ≤ zlen dst →
  bcopy src dst off n = Ok (write_at dst off (take (Z.to_nat n) src)).
Proof.
  intros. unfold bcopy. rewrite !(proj2 (Z.leb_le _ _)) by lia. done.
Qed.

(** A message as the post offices exchange it, and its packet on the wire. *)
Record message := mkMessage { pkt : PacketHeader; mail : MailHeader; payload : list Z }.
#[export] Instance message_eq_dec : EqDecision message.
Proof. solve_decision. Defined.

Definition message_ok (m : message) : Prop :=
  PacketHeader_ok (pkt m) ∧ MailHeader_ok (mail m) ∧
  m_length (mail m) = zlen (payload m) ∧ m_length (mail m) ≤ MaxMailSize ∧
  p_length (pkt m) = sizeof_MailHeader + m_length (mail m).
Definition mail_bytes (m : message) : list Z := enc_MailHeader (mail m) ++ payload m.
(** The packet [b] carries [m]; what follows the data is arbitrary. *)
Definition carries (b : list Z) (m : message) : Prop :=
  message_ok m ∧ zlen b = MaxWireSize ∧ ∃ rest, b = enc_PacketHeader (pkt m) ++ mail_bytes m ++ rest.

Lemma zlen_mail_bytes m : message_ok m → zlen (mail_bytes m) = p_length (pkt m).
Proof. intros (_ & _ & H1 & _ & H2). unfold mail_bytes. rewrite zlen_app, zlen_enc_MailHeader. lia. Qed.

Lemma take_zlen (l1 l2 : list Z) n : zlen l1 = n → take (Z.to_nat n) (l1 ++ l2) = l1.
Proof. unfold zlen. intros <-. rewrite Nat2Z.id. apply take_app_length. Qed.
Lemma drop_zlen (l1 l2 : list Z) n : zlen l1 = n → drop (Z.to_nat n) (l1 ++ l2) = l2.
Proof. unfold zlen. intros <-. rewrite Nat2Z.id. apply drop_app_length. Qed.
Lemma write_at_0 (dst x : list Z) : ∃ rest, write_at dst 0 x = x ++ rest.
Proof. unfold write_at. change (Z.to_nat 0) with 0%nat. cbn. eauto. Qed.
Lemma write_at_end (x r y : list Z) n :
  zlen x = n → ∃ rest, write_at (x ++ r) n y = x ++ y ++ rest.
Proof. intros Hx. unfold write_at. rewrite (take_zlen x r n Hx). eauto. Qed.

(** A [Send] that is not lost puts the message into the packet. *)
Lemma Network_Send_carries rnd buffer data m n rest :
  message_ok m → sendBusy n = false → p_from (pkt m) = ident n → zlen buffer = MaxWireSize →
  data = mail_bytes m ++ rest → is_lost (chanceToWork n) rnd = false →
  ∃ b, Network_Send rnd buffer (pkt m) data n =
    Ok (Some b, mkNetwork (ident n) (chanceToWork n) (sendBusy n) (inHdr n) (inbox n) (sends n + 1)
                  (numPacketsSent n) (numPacketsRecvd n)) ∧ carries b m.
Proof.
  intros Hm Hb Hf Hl -> Hlost. pose proof (zlen_mail_bytes m Hm) as Hlen.
  pose proof Hm as (Hp & _ & H3 & H4 & H5). pose proof (zlen_nonneg (payload m)).
  unfold MaxWireSize, MaxMailSize, MaxPacketSize, MaxWireSize, sizeof_PacketHeader, sizeof_MailHeader in *.
  unfold Network_Send. rewrite ASSERT_true.
  2:{ rewrite Hb, !andb_true_iff, Z.gtb_lt, Z.leb_le, Z.eqb_eq. cbn.
      unfold MaxPacketSize, MaxWireSize, sizeof_PacketHeader. lia. }
  cbn [mbind result_bind chanceToWork]. rewrite Hlost.
  rewrite bcopy_Ok by (rewrite ?zlen_enc_PacketHeader; unfold sizeof_PacketHeader; lia).
  cbn [mbind result_bind].
  replace (take (Z.to_nat sizeof_PacketHeader) (enc_PacketHeader (pkt m))) with (enc_PacketHeader (pkt m))
    by (symmetry; apply take_ge; pose proof (zlen_enc_PacketHeader (pkt m)); unfold zlen in *; lia).
  assert (zlen (write_at buffer 0 (enc_PacketHeader (pkt m))) = 64) as Hwl.
  { rewrite write_at_length; rewrite ?zlen_enc_PacketHeader; unfold sizeof_PacketHeader; lia. }
  destruct (write_at_0 buffer (enc_PacketHeader (pkt m))) as [r1 Hr1]. rewrite Hr1 in *.
  rewrite bcopy_Ok by (rewrite ?zlen_app, ?Hwl; pose proof (zlen_nonneg rest);
    rewrite ?zlen_app in *; unfold sizeof_PacketHeader; lia).
  cbn [mbind result_bind]. rewrite (take_zlen (mail_bytes m) rest _ Hlen).
  eexists. split; [reflexivity|]. split; [done|]. split.
  - rewrite write_at_length; rewrite ?Hwl; unfold sizeof_PacketHeader, MaxWireSize; lia.
  - destruct (write_at_end (enc_PacketHeader (pkt m)) r1 (mail_bytes m) sizeof_PacketHeader) as [r2 Hr2].
    { apply zlen_enc_PacketHeader. }
    exists r2. by rewrite Hr2.
Qed.

Lemma Network_Send_lost rnd buffer data m n :
  message_ok m → sendBusy n = false → p_from (pkt m) = ident n →
  is_lost (chanceToWork n) rnd = true →
  Network_Send rnd buffer (pkt m) data n =
    Ok (None, mkNetwork (ident n) (chanceToWork n) (sendBusy n) (inHdr n) (inbox n) (sends n + 1)
                (numPacketsSent n) (numPacketsRecvd n)).
Proof.
  intros (_ & _ & H3 & H4 & H5) Hb Hf Hlost. pose proof (zlen_nonneg (payload m)).
  unfold Network_Send. rewrite ASSERT_true; [cbn; by rewrite Hlost|].
  rewrite Hb, !andb_true_iff, Z.gtb_lt, Z.leb_le, Z.eqb_eq. cbn.
  unfold MaxMailSize, sizeof_MailHeader in *. lia.
Qed.

(** The buffer of the device holds a message. *)
Definition buffer_holds (n : Network) (m : message) : Prop :=
  message_ok m ∧ inHdr n = pkt m ∧ ∃ rest, inbox n = mail_bytes m ++ rest.

Lemma CheckPktAvail_reads b m n :
  carries b m → p_length (inHdr n) = 0 → p_to (pkt m) = ident n → zlen (inbox n) = MaxPacketSize →
  ∃ n', CheckPktAvail (Some b) n = Ok (true, n') ∧ buffer_holds n' m ∧ zlen (inbox n') = MaxPacketSize ∧
    ident n' = ident n ∧ chanceToWork n' = chanceToWork n ∧ sendBusy n' = sendBusy n ∧ sends n' = sends n.
Proof.
  intros (Hm & Hl & rest & ->) H0 Hto Hbox. pose proof (zlen_mail_bytes m Hm) as Hlen.
  pose proof Hm as (Hp & _ & H3 & H4 & H5). pose proof (zlen_nonneg (payload m)).
  unfold CheckPktAvail. rewrite H0. cbn [negb Z.eqb]. rewrite dec_enc_PacketHeader by done.
  rewrite !zlen_app, zlen_enc_PacketHeader, Hlen in Hl.
  unfold MaxWireSize, MaxMailSize, MaxPacketSize, MaxWireSize, sizeof_PacketHeader, sizeof_MailHeader in *.
  rewrite ASSERT_true.
  2:{ rewrite andb_true_iff, Z.eqb_eq, Z.leb_le. unfold MaxPacketSize, MaxWireSize, sizeof_PacketHeader. lia. }
  cbn [mbind result_bind].
  rewrite (drop_zlen (enc_PacketHeader (pkt m))) by apply zlen_enc_PacketHeader.
  pose proof (zlen_nonneg rest).
  rewrite bcopy_Ok by (rewrite ?zlen_app; lia). cbn [mbind result_bind].
  rewrite (take_zlen (mail_bytes m) rest _ Hlen).
  eexists. split; [reflexivity|]. cbn [inHdr inbox ident chanceToWork sendBusy sends].
  split; [|split_and!; try done].
  - split; [done|]. split; [done|]. destruct (write_at_0 (inbox n) (mail_bytes m)) as [r Hr]. by exists r.
  - rewrite write_at_length; lia.
Qed.

Lemma Network_Receive_holds data m n :
  buffer_holds n m → zlen data = MaxPacketSize → zlen (inbox n) = MaxPacketSize →
  ∃ rest, Network_Receive data n =
    Ok (pkt m, mail_bytes m ++ rest,
        mkNetwork (ident n) (chanceToWork n) (sendBusy n)
          (mkPacketHeader (p_to (pkt m)) (p_from (pkt m)) 0) (inbox n) (sends n) (numPacketsSent n)
          (numPacketsRecvd n)) ∧ zlen (mail_bytes m ++ rest) = MaxPacketSize.
Proof.
  intros (Hm & Hh & rest & Hb) Hd Hbox. pose proof (zlen_mail_bytes m Hm) as Hlen.
  pose proof Hm as (Hp & _ & H3 & H4 & H5). pose proof (zlen_nonneg (payload m)).
  rewrite Hb, zlen_app in Hbox. pose proof (zlen_nonneg rest).
  unfold MaxMailSize, sizeof_MailHeader in *.
  unfold Network_Receive. rewrite Hh, Hb. rewrite (proj2 (Z.eqb_neq _ _)) by lia.
  rewrite bcopy_Ok by (rewrite ?zlen_app; lia). cbn [mbind result_bind].
  rewrite (take_zlen (mail_bytes m) rest _ Hlen).
  assert (zlen (write_at data 0 (mail_bytes m)) = MaxPacketSize) as Hw by (rewrite write_at_length; lia).
  destruct (write_at_0 data (mail_bytes m)) as [r Hr]. rewrite Hr in *.
  exists r. split; [|done]. done.
Qed.

Lemma reliable_never_loses addr r hdr box rnd :
  0 ≤ rnd → (1 <= r)%Q → is_lost (chanceToWork (Network_new addr r hdr box)) rnd = false.
Proof.
  intros Hr H1. cbn. unfold is_lost. rewrite Z.rem_mod_nonneg by lia.
  pose proof (Z.mod_pos_bound rnd 100 ltac:(lia)) as Hm.
  assert (inject_Z (rnd mod 100) < 100)%Q as Hhi by (change 100%Q with (inject_Z 100); rewrite <-Zlt_Qlt; lia).
  rewrite (proj2 (Qle_bool_iff 0 r)) by (eapply Qle_trans; [|exact H1]; done). cbn.
  destruct (Qle_bool r 1) eqn:E; cbn; apply not_true_iff_false; rewrite Qle_bool_iff; apply Qlt_not_le; [|done].
  apply Qle_bool_iff in E. assert (r == 1)%Q as -> by (by apply Qle_antisym). done.
Qed.

(** The reliability of the network, clamped to 0 .. 1, is the probability of delivery:
    with 1 or more no packet is lost, with 0 or less every packet, and in between the
    packets whose random number modulo 100 is not below it in per cent. *)
Theorem reliability_is_delivery addr r hdr box rnd :
  0 ≤ rnd →
  let c := chanceToWork (Network_new addr r hdr box) in
  (1 <= r → is_lost c rnd = false)%Q ∧ (r <= 0 → is_lost c rnd = true)%Q ∧
  (0 <= r → r <= 1 → is_lost c rnd = true ↔ r * 100 <= inject_Z (rnd mod 100))%Q.
Proof.
  intros Hr. split; [intros; by apply reliable_never_loses|]. cbn. unfold is_lost.
  rewrite Z.rem_mod_nonneg by lia. pose proof (Z.mod_pos_bound rnd 100 ltac:(lia)) as Hm.
  assert (0 <= inject_Z (rnd mod 100))%Q as Hlo by (change 0%Q with (inject_Z 0); rewrite <-Zle_Qle; lia).
  split.
  - intros H0. destruct (Qle_bool 0 r) eqn:E; cbn.
    + apply Qle_bool_iff in E. assert (r == 0)%Q as Hz by (by apply Qle_antisym).
      rewrite (proj2 (Qle_bool_iff r 1)) by (by rewrite Hz). cbn. apply Qle_bool_iff. rewrite Hz. by ring_simplify.
    + by apply Qle_bool_iff.
  - intros H0 H1. rewrite (proj2 (Qle_bool_iff 0 r)), (proj2 (Qle_bool_iff r 1)) by done. cbn.
    by rewrite Qle_bool_iff.
Qed.

Lemma reliability_is_delivery_witness :
  is_lost (chanceToWork (Network_new 0 (1 # 2) (mkPacketHeader 0 0 0) [])) 149 = false ∧
  is_lost (chanceToWork (Network_new 0 (1 # 2) (mkPacketHeader 0 0 0) [])) 150 = true ∧
  is_lost (chanceToWork (Network_new 0 7 (mkPacketHeader 0 0 0) [])) 199 = false.
Proof.
  split; [vm_compute; reflexivity|]. split.
  - apply (reliability_is_delivery 0 (1 # 2) (mkPacketHeader 0 0 0) [] 150); [lia|done..].
  - apply (reliability_is_delivery 0 7 (mkPacketHeader 0 0 0) [] 199); [lia|done].
Defined.
