(* ===== verification/PostOffice.v ===== *)
(** * The post office

    network/post.h, network/post.cc: mailboxes, the postal worker and [Send] and
    [Receive], on a set of machines that are connected by the network of Network.v.
    Thread [m] is the postal worker of machine [m]; the other threads are clients that
    send and receive.  A mailbox is a [SynchList]: [Append] and [Remove] on it are one
    step each, since they hold its lock, and [Remove] waits while the list is empty.

    Each machine records, for the messages that are addressed to it, in their order:
    those given to [Network::Send] ([asked]), those among them that were not lost
    ([sent]), those put into a mailbox ([delivered]), and those a client has got
    ([taken]). *)

From Stdlib Require Import QArith.
From S2P Require Import Prelude Interleaving Network.
#[local] Open Scope Z_scope.

(** Class [Mail]. *)
Record Mail := mkMail { pktHdr : PacketHeader; mailHdr : MailHeader; data : list Z }.

(** [Mail::Mail]; [garbage] are the bytes of the new object's [data]. *)
Definition Mail_new (garbage : list Z) (pktH : PacketHeader) (mailH : MailHeader) (msgData : list Z) :
    result Mail :=
  ASSERT (m_length mailH <=? MaxMailSize);;
  d ← bcopy msgData garbage 0 (m_length mailH);
  Ok (mkMail pktH mailH d).

(** Class [PostOffice]; a [MailBox] is the list of its messages. *)
Record PostOffice := mkPostOffice {
  network : Network;
  netAddr : Z;
  boxes : list (list Mail);
  numBoxes : Z;
  messageAvailable : Z;
  messageSent : Z;
  sendLock : option nat
}.

Record machine := mkMachine {
  office : PostOffice;
  socket : list (list Z);
  asked : list message;
  sent : list message;
  delivered : list message;
  taken : list (Z * message)
}.
(** [calls] counts the calls of [Random]. *)
Record world := mkWorld { machines : list machine; calls : Z }.

(** What a client asks for. *)
Inductive request :=
| Do_Send (pk : PacketHeader) (ml : MailHeader) (d : list Z)
| Do_Receive (box : Z) (d : list Z).

Inductive place :=
| W_wait                                                  (* messageAvailable->P() *)
| W_receive                                               (* network->Receive(buffer) *)
| W_put (pk : PacketHeader) (ml : MailHeader) (d : list Z)  (* boxes[mailHdr.to].Put(...) *)
| C_idle
| S_send (pk : PacketHeader) (b : list Z)                 (* network->Send(pktHdr, buffer) *)
| S_wait                                                  (* messageSent->P() *)
| S_unlock.                                               (* sendLock->Release() *)

(** A thread on machine [on]; [buffer] is the buffer of the postal worker, [got] what
    [Receive] has stored for a client. *)
Record local := mkLocal {
  on : Z;
  at_place : place;
  buffer : list Z;
  todo : list request;
  got : list (PacketHeader * MailHeader * list Z)
}.

Definition set_office (M : machine) (po : PostOffice) : machine :=
  mkMachine po (socket M) (asked M) (sent M) (delivered M) (taken M).
Definition set_network (po : PostOffice) (n : Network) : PostOffice :=
  mkPostOffice n (netAddr po) (boxes po) (numBoxes po) (messageAvailable po) (messageSent po) (sendLock po).
Definition set_boxes (po : PostOffice) (b : list (list Mail)) : PostOffice :=
  mkPostOffice (network po) (netAddr po) b (numBoxes po) (messageAvailable po) (messageSent po) (sendLock po).
Definition set_sems (po : PostOffice) (avail sentv : Z) : PostOffice :=
  mkPostOffice (network po) (netAddr po) (boxes po) (numBoxes po) avail sentv (sendLock po).
Definition set_sendLock (po : PostOffice) (lk : option nat) : PostOffice :=
  mkPostOffice (network po) (netAddr po) (boxes po) (numBoxes po) (messageAvailable po) (messageSent po) lk.
Definition move (l : local) (p : place) : local := mkLocal (on l) p (buffer l) (todo l) (got l).

(** The message in the mail. *)
Definition mail_message (x : Mail) : message :=
  mkMessage (pktHdr x) (mailHdr x) (read_at (data x) 0 (m_length (mailHdr x))).

Section post.
(** The random numbers, and the contents of fresh memory. *)
Context (rnd : Z → Z) (garbage : list Z).

(** Update machine [m]; [Ok None] when the thread sleeps. *)
Definition on_machine (m : Z) (s : world) (f : machine → result (option (local * machine))) :
    result (option (local * world)) :=
  M ← aget (machines s) m;
  r ← f M;
  match r with
  | None => Ok None
  | Some (l', M') => l ← aset (machines s) m M'; Ok (Some (l', mkWorld l (calls s)))
  end.

(** [MailBox::Put], [messages->Append]; also the new message. *)
Definition MailBox_Put (pk : PacketHeader) (ml : MailHeader) (d : list Z) (messages : list Mail) :
    result (Mail * list Mail) :=
  mail ← Mail_new (take (Z.to_nat MaxMailSize) garbage) pk ml d;
  Ok (mail, messages ++ [mail]).

(** [MailBox::Get] into the buffer [d]; [None] while there is no message. *)
Definition MailBox_Get (d : list Z) (messages : list Mail) : result (option (Mail * list Z * list Mail)) :=
  match messages with
  | [] => Ok None
  | mail :: rest => b ← bcopy (data mail) d 0 (m_length (mailHdr mail)); Ok (Some (mail, b, rest))
  end.

(** The body of the loop of [PostalDelivery]. *)
Definition PostalDelivery (l : local) (s : world) : result (option (local * world)) :=
  on_machine (on l) s (λ M,
    let po := office M in
    match at_place l with
    | W_wait =>
        when_awake (sem_P (messageAvailable po)) (λ v,
          (move l W_receive, set_office M (set_sems po v (messageSent po))))
    | W_receive =>
        '(hdr, b, n) ← Network_Receive (buffer l) (network po);
        let ml := dec_MailHeader b in
        ASSERT ((0 <=? m_to ml) && (m_to ml <? numBoxes po));;
        ASSERT (m_length ml <=? MaxMailSize);;
        Ok (Some (mkLocal (on l) (W_put hdr ml (drop (Z.to_nat sizeof_MailHeader) b)) b (todo l) (got l),
                  set_office M (set_network po n)))
    | W_put hdr ml d =>
        box ← aget (boxes po) (m_to ml);
        '(x, box) ← MailBox_Put hdr ml d box;
        bs ← aset (boxes po) (m_to ml) box;
        Ok (Some (move l W_wait,
                  mkMachine (set_boxes po bs) (socket M) (asked M) (sent M)
                    (delivered M ++ [mail_message x]) (taken M)))
    | _ => Ok None
    end).

(** [PostOffice::Send] up to [sendLock->Acquire()]. *)
Definition Send (i : nat) (pk : PacketHeader) (ml : MailHeader) (d : list Z) (l : local) (s : world) :
    result (option (local * world)) :=
  on_machine (on l) s (λ M,
    let po := office M in
    ASSERT (m_length ml <=? MaxMailSize);;
    ASSERT ((0 <=? m_to ml) && (m_to ml <? numBoxes po));;
    let pk := mkPacketHeader (p_to pk) (netAddr po) (u32 (m_length ml + sizeof_MailHeader)) in
    b ← bcopy (enc_MailHeader ml) (take (Z.to_nat MaxPacketSize) garbage) 0 sizeof_MailHeader;
    b ← bcopy d b sizeof_MailHeader (m_length ml);
    when_awake (lock_acquire i (sendLock po)) (λ lk,
      (mkLocal (on l) (S_send pk b) (buffer l) (tail (todo l)) (got l),
       set_office M (set_sendLock po lk)))).

(** The message in the packet a client is about to send. *)
Definition packet_message (pk : PacketHeader) (b : list Z) : message :=
  let ml := dec_MailHeader b in mkMessage pk ml (read_at b sizeof_MailHeader (m_length ml)).

(** [network->Send(pktHdr, buffer)]; the packet goes to the socket of the other machine,
    and [SendToSocket] aborts when there is none. *)
Definition Send_network (pk : PacketHeader) (b : list Z) (l : local) (s : world) :
    result (option (local * world)) :=
  M ← aget (machines s) (on l);
  '(p, n) ← Network_Send (rnd (calls s)) (take (Z.to_nat MaxWireSize) garbage) pk b (network (office M));
  ms ← aset (machines s) (on l) (set_office M (set_network (office M) n));
  match znth ms (p_to pk) with
  | None =>
      match p with
      | None => Ok (Some (move l S_wait, mkWorld ms (calls s + 1)))
      | Some _ => Stop AssertFailed
      end
  | Some D =>
      let msg := packet_message pk b in
      let D' := match p with
                | None => mkMachine (office D) (socket D) (asked D ++ [msg]) (sent D) (delivered D) (taken D)
                | Some packet =>
                    mkMachine (office D) (socket D ++ [packet]) (asked D ++ [msg]) (sent D ++ [msg])
                      (delivered D) (taken D)
                end in
      ms ← aset ms (p_to pk) D';
      Ok (Some (move l S_wait, mkWorld ms (calls s + 1)))
  end.

(** The rest of [Send]. *)
Definition Send_end (i : nat) (l : local) (s : world) : result (option (local * world)) :=
  on_machine (on l) s (λ M,
    let po := office M in
    match at_place l with
    | S_wait =>
        when_awake (sem_P (messageSent po)) (λ v,
          (move l S_unlock, set_office M (set_sems po (messageAvailable po) v)))
    | S_unlock =>
        lk ← lock_release i (sendLock po);
        Ok (Some (move l C_idle, set_office M (set_sendLock po lk)))
    | _ => Ok None
    end).

(** [PostOffice::Receive]; [d] is the buffer of the caller. *)
Definition Receive (box : Z) (d : list Z) (l : local) (s : world) : result (option (local * world)) :=
  on_machine (on l) s (λ M,
    let po := office M in
    ASSERT ((box >=? 0) && (box <? numBoxes po));;
    ms ← aget (boxes po) box;
    r ← MailBox_Get d ms;
    match r with
    | None => Ok None
    | Some (x, b, rest) =>
        ASSERT (m_length (mailHdr x) <=? MaxMailSize);;
        bs ← aset (boxes po) box rest;
        Ok (Some (mkLocal (on l) C_idle (buffer l) (tail (todo l)) (got l ++ [(pktHdr x, mailHdr x, b)]),
                  mkMachine (set_boxes po bs) (socket M) (asked M) (sent M) (delivered M)
                    (taken M ++ [(box, mail_message x)])))
    end).

Definition thread (i : nat) (l : local) (s : world) : result (option (local * world)) :=
  match at_place l with
  | W_wait | W_receive | W_put _ _ _ => PostalDelivery l s
  | S_send pk b => Send_network pk b l s
  | S_wait | S_unlock => Send_end i l s
  | C_idle =>
      match todo l with
      | Do_Send pk ml d :: _ => Send i pk ml d l s
      | Do_Receive box d :: _ => Receive box d l s
      | [] => Ok None
      end
  end.

(** The interrupts of the network of machine [m]: a poll of the socket, with
    [IncomingPacket] when a packet was read, and the end of a send, with [PacketSent]. *)
Inductive event := Poll (m : Z) | Sent (m : Z).

Definition interrupt (e : event) (s : world) : result (option world) :=
  match e with
  | Poll m =>
      M ← aget (machines s) m;
      let po := office M in
      '(called, n) ← CheckPktAvail (head (socket M)) (network po);
      let po' := set_network po n in
      let M' :=
        if (called : bool) then
          mkMachine (set_sems po' (messageAvailable po + 1) (messageSent po)) (tail (socket M)) (asked M)
            (sent M) (delivered M) (taken M)
        else set_office M po' in
      ms ← aset (machines s) m M';
      Ok (Some (mkWorld ms (calls s)))
  | Sent m =>
      M ← aget (machines s) m;
      let po := office M in
      let n := network po in
      if sends n >? 0 then
        let n := mkNetwork (ident n) (chanceToWork n) (sendBusy n) (inHdr n) (inbox n) (sends n - 1)
                   (numPacketsSent n) (numPacketsRecvd n) in
        let po := set_sems (set_network po (SendDone n)) (messageAvailable po) (messageSent po + 1) in
        ms ← aset (machines s) m (set_office M po);
        Ok (Some (mkWorld ms (calls s)))
      else Ok None
  end.
End post.

(** [PostOffice::PostOffice] on machine [addr], before anything has arrived; the buffer
    of the network holds [garbage]. *)
Definition PostOffice_new (garbage : list Z) (addr : Z) (reliability : Q) (nBoxes : Z) : PostOffice :=
  mkPostOffice
    (Network_new addr reliability (mkPacketHeader 0 0 0) (take (Z.to_nat MaxPacketSize) garbage))
    addr (replicate (Z.to_nat nBoxes) []) nBoxes 0 0 None.

(** [n] machines with [nb] mailboxes each; the clients with the machine they run on. *)
Definition start (garbage : list Z) (n nb : Z) (reliability : Q) (clients : list (Z * list request)) :
    sys world local :=
  mkSys
    (mkWorld ((λ m, mkMachine (PostOffice_new garbage m reliability nb) [] [] [] [] []) <$> seqZ 0 n) 0)
    (((λ m, mkLocal m W_wait (take (Z.to_nat MaxPacketSize) garbage) [] []) <$> seqZ 0 n) ++
     ((λ '(m, reqs), mkLocal m C_idle [] reqs []) <$> clients)).

(** ** The invariant *)
Section invariant.
Context (rnd : Z → Z) (garbage : list Z) (n nb : Z) (reliability : Q).
Context (Hgarbage : zlen garbage = MaxWireSize) (Hn : 0 ≤ n < 2 ^ 31) (Hnb : 0 ≤ nb < 2 ^ 31).
Context (Hrnd : ∀ k, 0 ≤ rnd k).

Abbreviation thr := (thread rnd garbage).

(** What a client may ask for: an existing machine and mailbox, and no more data than it
    has and a message can carry. *)
Definition request_ok (r : request) : Prop :=
  match r with
  | Do_Send pk ml d =>
      0 ≤ p_to pk < n ∧ 0 ≤ m_to ml < nb ∧ is_s32 (m_from ml) ∧
      0 ≤ m_length ml ≤ MaxMailSize ∧ m_length ml ≤ zlen d
  | Do_Receive box d => 0 ≤ box < nb ∧ MaxMailSize ≤ zlen d
  end.

(** A message for a mailbox of machine [m]. *)
Definition addressed (m : Z) (x : message) : Prop :=
  message_ok x ∧ p_to (pkt x) = m ∧ 0 ≤ m_to (mail x) < nb.

(** What a thread holds at its place. *)
Definition place_ok (l : local) : Prop :=
  match at_place l with
  | S_send pk b =>
      ∃ x rest, pk = pkt x ∧ b = mail_bytes x ++ rest ∧ 0 ≤ p_to (pkt x) < n ∧
        addressed (p_to (pkt x)) x ∧ p_from (pkt x) = on l
  | W_wait | W_receive | W_put _ _ _ => zlen (buffer l) = MaxPacketSize
  | _ => True
  end.
Definition worker_holds (p : place) (q : list message) : Prop :=
  match p with
  | W_put pk ml d => ∃ x rest, q = [x] ∧ pk = pkt x ∧ ml = mail x ∧ d = payload x ++ rest
  | _ => q = []
  end.
Definition net_holds (net : Network) (q : list message) : Prop :=
  if p_length (inHdr net) =? 0 then q = [] else ∃ x, q = [x] ∧ buffer_holds net x.
Definition receiving (p : place) : bool := match p with W_receive => true | _ => false end.

(** Machine [m] whose worker is at the place [p]: the messages sent to it are those
    delivered, then what the worker holds, the device holds, and the socket holds. *)
Record machine_ok (m : Z) (p : place) (M : machine) : Prop := {
  mo_ident : ident (network (office M)) = m;
  mo_addr : netAddr (office M) = m;
  mo_busy : sendBusy (network (office M)) = false;
  mo_chance : chanceToWork (network (office M)) = chanceToWork (Network_new m reliability (mkPacketHeader 0 0 0) []);
  mo_inbox : zlen (inbox (network (office M))) = MaxPacketSize;
  mo_boxes : zlen (boxes (office M)) = nb ∧ numBoxes (office M) = nb;
  mo_avail : 0 ≤ messageAvailable (office M) ∧
    messageAvailable (office M) + weight (receiving p) =
      if p_length (inHdr (network (office M))) =? 0 then 0 else 1;
  mo_queue : ∃ q1 q2 q3,
    sent M = delivered M ++ q1 ++ q2 ++ q3 ∧ Forall (addressed m) (q1 ++ q2 ++ q3) ∧
    worker_holds p q1 ∧ net_holds (network (office M)) q2 ∧ Forall2 carries (socket M) q3;
  mo_mail : ∀ k b x, znth (boxes (office M)) k = Some b → x ∈ b →
    zlen (data x) = MaxMailSize ∧ 0 ≤ m_length (mailHdr x) ≤ MaxMailSize;
  mo_taken : ∀ k b, znth (boxes (office M)) k = Some b →
    filter (λ x, m_to (mail x) = k) (delivered M) =
    (filter (λ t, t.1 = k) (taken M)).*2 ++ (mail_message <$> b);
  mo_asked : (sublist (sent M) (asked M) ∧ ((1 <= reliability)%Q → sent M = asked M)) ∧
    Forall (λ t, 0 ≤ t.1 < nb) (taken M)
}.

Definition is_worker (p : place) : bool :=
  match p with W_wait | W_receive | W_put _ _ _ => true | _ => false end.
Definition holds_sendLock (p : place) : bool :=
  match p with S_send _ _ | S_wait | S_unlock => true | _ => false end.
(** Threads 0 .. n - 1 are the workers of the machines 0 .. n - 1. *)
Definition role_ok (i : nat) (l : local) : Prop :=
  if is_worker (at_place l) then on l = Z.of_nat i else n ≤ Z.of_nat i.
Definition local_ok (l : local) : Prop := 0 ≤ on l < n ∧ place_ok l ∧ Forall request_ok (todo l).
Definition lock_ok (s : world) (i : nat) (l : local) : Prop :=
  ∀ M, znth (machines s) (on l) = Some M → holds_sendLock (at_place l) = true →
    sendLock (office M) = Some i.

Record inv (s : world) (ls : list local) : Prop := {
  inv_machines : zlen (machines s) = n;
  inv_locals : ∀ i l, ls !! i = Some l → local_ok l;
  inv_worker : ∀ m M, znth (machines s) m = Some M →
    ∃ l, ls !! Z.to_nat m = Some l ∧ on l = m ∧ machine_ok m (at_place l) M;
  inv_role : ∀ i l, ls !! i = Some l → role_ok i l;
  inv_lock : ∀ i l, ls !! i = Some l → lock_ok s i l
}.

(** A change of machine [m] that respects its queue. *)
Lemma inv_machine s ls m M M' c :
  inv s ls → znth (machines s) m = Some M → (∀ p, machine_ok m p M → machine_ok m p M') →
  sendLock (office M') = sendLock (office M) → inv (mkWorld (zset (machines s) m M') c) ls.
Proof.
  intros [H1 H2 H3 H4 H5] HM HM' Hlk. pose proof (znth_Some_range _ _ _ HM) as Hr.
  split; cbn; try done.
  - by rewrite zlen_zset.
  - intros k K. rewrite znth_zset. case_bool_decide as Hk.
    + intros [= <-]. destruct Hk as [-> _]. destruct (H3 _ _ HM) as (l & ? & ? & ?). eauto 6.
    + apply H3.
  - intros j l Hl K. cbn. rewrite znth_zset. case_bool_decide as Hk.
    + intros [= <-]. destruct Hk as [Hk _]. rewrite Hlk. apply (H5 j l Hl M). by rewrite Hk.
    + by apply H5.
Qed.

(** The locks after a step of thread [i] on its machine. *)
Lemma lock_update s (ls : list local) i l l' M M' c :
  (∀ i l, ls !! i = Some l → lock_ok s i l) → znth (machines s) (on l) = Some M → on l' = on l →
  (holds_sendLock (at_place l') = true → sendLock (office M') = Some i) →
  (∀ j, j ≠ i → sendLock (office M) = Some j → sendLock (office M') = Some j) →
  ∀ j lj, <[i := l']> ls !! j = Some lj → lock_ok (mkWorld (zset (machines s) (on l) M') c) j lj.
Proof.
  intros H5 HM Hon Hi Hj. pose proof (znth_Some_range _ _ _ HM) as Hr.
  apply (insert_forall (lock_ok (mkWorld (zset (machines s) (on l) M') c))).
  - intros j lj Hne Hlj K. cbn. rewrite znth_zset. case_bool_decide as Hk; [|by apply H5].
    intros [= <-] Hh. destruct Hk as [Hk _]. apply Hj; [done|]. apply (H5 j lj Hlj M); [by rewrite Hk|done].
  - intros K. cbn. rewrite Hon, znth_zset_eq by done. by intros [= <-].
Qed.

(** A step of a client on its own machine. *)
Lemma inv_client i l l' s ls M M' c :
  inv s ls → ls !! i = Some l → znth (machines s) (on l) = Some M → n ≤ Z.of_nat i →
  on l' = on l → place_ok l' → Forall request_ok (todo l') → is_worker (at_place l') = false →
  (∀ p, machine_ok (on l) p M → machine_ok (on l) p M') →
  (holds_sendLock (at_place l') = true → sendLock (office M') = Some i) →
  (∀ j, j ≠ i → sendLock (office M) = Some j → sendLock (office M') = Some j) →
  inv (mkWorld (zset (machines s) (on l) M') c) (<[i := l']> ls).
Proof.
  intros [H1 H2 H3 H4 H5] Hl HM Hi Hon Hp Ht Hc HM' Hlk Hlk'.
  pose proof (znth_Some_range _ _ _ HM) as Hr. pose proof (H2 i l Hl) as (Hrange & _).
  split; cbn.
  - by rewrite zlen_zset.
  - apply (insert_forall (λ _, local_ok)); [eauto|]. unfold local_ok. by rewrite Hon.
  - intros k K HK. rewrite list_lookup_insert_ne.
    2:{ apply znth_Some_range in HK. rewrite zlen_zset, H1 in HK. lia. }
    revert HK. rewrite znth_zset. case_bool_decide as Hk; [|apply H3].
    intros [= <-]. destruct Hk as [-> _]. destruct (H3 _ _ HM) as (w & ? & ? & ?). eauto 6.
  - apply (insert_forall role_ok); [eauto|]. unfold role_ok. by rewrite Hc.
  - by eapply lock_update.
Qed.

(** A step of the worker of a machine. *)
Lemma inv_postal i l l' s ls M M' c :
  inv s ls → ls !! i = Some l → znth (machines s) (on l) = Some M → on l = Z.of_nat i →
  on l' = on l → place_ok l' → todo l' = todo l → is_worker (at_place l') = true →
  (machine_ok (on l) (at_place l) M → machine_ok (on l) (at_place l') M') →
  sendLock (office M') = sendLock (office M) →
  inv (mkWorld (zset (machines s) (on l) M') c) (<[i := l']> ls).
Proof.
  intros [H1 H2 H3 H4 H5] Hl HM Hi Hon Hp Ht Hc HM' Hlk.
  pose proof (znth_Some_range _ _ _ HM) as Hr. pose proof (H2 i l Hl) as (Hrange & _ & Htl).
  split; cbn.
  - by rewrite zlen_zset.
  - apply (insert_forall (λ _, local_ok)); [eauto|]. unfold local_ok. by rewrite Hon, Ht.
  - intros k K. rewrite znth_zset. case_bool_decide as Hk.
    + intros [= <-]. destruct Hk as [-> _]. exists l'. rewrite Hi, Nat2Z.id.
      rewrite list_lookup_insert_eq by (by eapply lookup_lt_Some). rewrite <-Hi. split_and!; [done..|].
      apply HM'. destruct (H3 _ _ HM) as (w & Hw & _ & Hmo). rewrite Hi, Nat2Z.id in Hw. by simplify_eq.
    + intros HK. rewrite list_lookup_insert_ne; [by apply H3|].
      apply znth_Some_range in HK. intros E. apply Hk. lia.
  - apply (insert_forall role_ok); [eauto|]. unfold role_ok. rewrite Hc. congruence.
  - eapply lock_update; [done|done|done| |intros; congruence].
    intros Hh. by destruct (at_place l').
Qed.

(** *** The postal worker *)

Definition outcome (i : nat) (ls : list local) (r : result (option (local * world))) : Prop :=
  r = Ok None ∨ ∃ l' s', r = Ok (Some (l', s')) ∧ inv s' (<[i := l']> ls).

Lemma on_machine_ok i l s ls M f :
  znth (machines s) (on l) = Some M →
  (f M = Ok None ∨ ∃ l' M', f M = Ok (Some (l', M')) ∧
     inv (mkWorld (zset (machines s) (on l) M') (calls s)) (<[i := l']> ls)) →
  outcome i ls (on_machine (on l) s f).
Proof.
  intros HM H. pose proof (znth_Some_range _ _ _ HM) as Hr. unfold on_machine, outcome.
  rewrite (proj2 (aget_Ok _ _ _) HM). cbn. destruct H as [->|(l' & M' & -> & Hi)]; cbn; [by left|].
  rewrite aset_in by done. right. eauto.
Qed.

Lemma machine_wait m M v :
  machine_ok m W_wait M → sem_P (messageAvailable (office M)) = Some v →
  machine_ok m W_receive (set_office M (set_sems (office M) v (messageSent (office M)))).
Proof. intros [] [? ->]%sem_P_Some. split; try done. cbn in *. lia. Qed.

(** What the worker finds in the device, and the state behind [Network::Receive]. *)
Lemma machine_receive m M b :
  machine_ok m W_receive M → zlen b = MaxPacketSize →
  ∃ x rest net, Network_Receive b (network (office M)) = Ok (pkt x, mail_bytes x ++ rest, net) ∧
    addressed m x ∧ zlen (mail_bytes x ++ rest) = MaxPacketSize ∧
    ∀ d, machine_ok m (W_put (pkt x) (mail x) (payload x ++ d))
           (set_office M (set_network (office M) net)).
Proof.
  intros [Ho Hh Hb Hc Hi Hbx Ha Hq Hm Ht Hs] Hl. destruct Hq as (q1 & q2 & q3 & Hsent & HF & H1 & H2 & H3).
  cbn in Ha, H1. subst q1. unfold net_holds in H2.
  destruct (Z.eqb_spec (p_length (inHdr (network (office M)))) 0) as [E|E]; [lia|].
  destruct H2 as (x & -> & Hx). destruct (Network_Receive_holds b x _ Hx Hl Hi) as (rest & Hrec & Hlr).
  assert (addressed m x) as Hadd by (by apply Forall_cons_1 in HF as []).
  eexists x, rest, _. split; [exact Hrec|]. split; [done|]. split; [done|].
  intros d. split; cbn; try done; try lia.
  exists [x], [], q3. split_and!; try done. by exists x, d.
Qed.

Lemma Mail_new_ok x d :
  message_ok x →
  ∃ y, Mail_new (take (Z.to_nat MaxMailSize) garbage) (pkt x) (mail x) (payload x ++ d) = Ok y ∧
    mail_message y = x ∧ zlen (data y) = MaxMailSize ∧ mailHdr y = mail x.
Proof.
  intros (_ & _ & Hlen & Hmax & _).
  pose proof (zlen_nonneg (payload x)) as Hpos. pose proof (zlen_nonneg d) as Hposd.
  assert (zlen (take (Z.to_nat MaxMailSize) garbage) = MaxMailSize) as Hg.
  { unfold zlen, MaxWireSize, MaxMailSize, MaxPacketSize, MaxWireSize, sizeof_PacketHeader, sizeof_MailHeader in *.
    rewrite length_take. lia. }
  unfold Mail_new. rewrite ASSERT_true by (apply Z.leb_le; lia). cbn [mbind result_bind].
  rewrite bcopy_Ok by (rewrite ?zlen_app, ?Hg; lia). cbn [mbind result_bind].
  rewrite take_zlen by done. eexists. split; [reflexivity|].
  unfold mail_message. cbn [pktHdr mailHdr data]. split_and!; [|by rewrite write_at_length; lia|done].
  rewrite Hlen, read_write_same by lia. by destruct x.
Qed.

(** The worker puts the message into its mailbox. *)
Lemma machine_put m M x d :
  machine_ok m (W_put (pkt x) (mail x) (payload x ++ d)) M → addressed m x →
  ∃ y box, Mail_new (take (Z.to_nat MaxMailSize) garbage) (pkt x) (mail x) (payload x ++ d) = Ok y ∧
    mail_message y = x ∧ znth (boxes (office M)) (m_to (mail x)) = Some box ∧
    machine_ok m W_wait
      (mkMachine (set_boxes (office M) (zset (boxes (office M)) (m_to (mail x)) (box ++ [y])))
         (socket M) (asked M) (sent M) (delivered M ++ [x]) (taken M)).
Proof.
  intros [Ho Hh Hb Hc Hi Hbx Ha Hq Hm Ht Hs] Hadd.
  destruct Hq as (q1 & q2 & q3 & Hsent & HF & (x' & r' & -> & Hpk & Hml & Hpl) & H2 & H3).
  pose proof Hadd as (Hok & _ & Hto). destruct (Mail_new_ok x d Hok) as (y & Hy & Hmsg & Hdy & Hhy).
  assert (x' = x) as ->.
  { pose proof Hok as (_ & _ & Hlen & _). destruct x, x'; cbn in *. subst. f_equal.
    apply Forall_cons_1 in HF as [((_ & _ & Hlen' & _) & _) _]. cbn in Hlen'.
    apply app_inj_1 in Hpl as [Hpl _]; [congruence|unfold zlen in *; lia]. }
  destruct (znth_range (boxes (office M)) (m_to (mail x))) as [box Hbox]; [lia|].
  exists y, box. split_and!; try done.
  split; cbn [office network netAddr boxes numBoxes messageAvailable socket asked sent delivered taken
    set_boxes]; try done.
  - by rewrite zlen_zset.
  - cbn in Ha. exists [], q2, q3. cbn. split_and!; try done.
    + rewrite Hsent. by rewrite <-!(assoc_L (++)).
    + by apply Forall_cons_1 in HF as [].
  - intros k b z. rewrite znth_zset. case_bool_decide; [|eauto].
    intros [= <-] [Hz|Hz]%elem_of_app; [by eapply Hm|]. apply list_elem_of_singleton in Hz as ->.
    destruct Hok as (_ & _ & ? & ? & _). pose proof (zlen_nonneg (payload x)). rewrite Hhy. lia.
  - intros k b. rewrite znth_zset. case_bool_decide as Hk; intros Hkb.
    + destruct Hk as [-> _]. injection Hkb as <-. rewrite list.filter_app, fmap_app, (Ht _ _ Hbox), <-(assoc_L (++)).
      do 2 f_equal. rewrite filter_cons_True, filter_nil by done. cbn. by rewrite Hmsg.
    + rewrite list.filter_app, filter_cons_False, filter_nil, app_nil_r; [by apply Ht|].
      intros E. apply Hk. split; [done|]. lia.
Qed.

(** The worker never fails. *)
Lemma PostalDelivery_ok i l s ls :
  inv s ls → ls !! i = Some l → is_worker (at_place l) = true →
  outcome i ls (PostalDelivery garbage l s).
Proof.
  intros Hinv Hl Hw. pose proof Hinv as [H1 H2 H3 H4 H5].
  destruct (H2 i l Hl) as (Hon & Hp & Htd). pose proof (H4 i l Hl) as Hrole. unfold role_ok in Hrole.
  rewrite Hw in Hrole.
  destruct (znth_range (machines s) (on l)) as [M HM]; [lia|].
  assert (machine_ok (on l) (at_place l) M) as Hmo.
  { destruct (H3 _ _ HM) as (w & Hw' & _ & Hmo). rewrite Hrole, Nat2Z.id in Hw'. by simplify_eq. }
  apply (on_machine_ok i l s ls M); [done|].
  unfold place_ok in Hp. destruct (at_place l) as [| |pk ml d| | | |] eqn:Hpl; try done; cbv zeta.
  - destruct (sem_P (messageAvailable (office M))) as [v|] eqn:Hv; [|by left]. right.
    eexists _, _. split; [reflexivity|]. eapply inv_postal; try done.
    rewrite Hpl. cbn. intros. by apply machine_wait.
  - destruct (machine_receive _ _ (buffer l) Hmo Hp) as (x & rest & net & Hrec & Hadd & Hlen & Hnext).
    right. rewrite Hrec. cbn [mbind result_bind]. pose proof Hadd as (Hok & Hto & Hbox).
    destruct Hok as (Hpk & Hml & Hpay & Hmax & _). destruct Hmo as [_ _ _ _ _ [_ Hnum] _ _ _ _ _].
    unfold mail_bytes. rewrite <-(assoc_L (++)), dec_enc_MailHeader by done.
    rewrite (ASSERT_true (_ && _)) by (rewrite andb_true_iff, Z.leb_le, Z.ltb_lt; lia).
    rewrite (ASSERT_true (_ <=? _)) by (by apply Z.leb_le). cbn [mbind result_bind].
    rewrite drop_zlen by apply zlen_enc_MailHeader.
    eexists _, _. split; [reflexivity|]. eapply inv_postal; try done.
    unfold place_ok. cbn. unfold mail_bytes in Hlen. by rewrite <-(assoc_L (++)) in Hlen.
  - pose proof Hmo as [_ _ _ _ _ _ _ (q1 & q2 & q3 & _ & HF & (x & r & -> & -> & -> & ->) & _) _ _ _].
    apply Forall_cons_1 in HF as [Hadd _].
    destruct (machine_put _ _ _ _ Hmo Hadd) as (y & box & Hy & Hmsg & Hbox & Hnext).
    right. rewrite (proj2 (aget_Ok _ _ _) Hbox). unfold MailBox_Put. cbn [mbind result_bind].
    rewrite Hy. cbn [mbind result_bind].
    rewrite aset_in by (by eapply znth_Some_range). cbn [mbind result_bind]. rewrite Hmsg.
    eexists _, _. split; [reflexivity|]. by eapply inv_postal.
Qed.

(** *** The clients *)

(** What [PostOffice::Send] hands to the network is the message asked for. *)
Lemma Send_buffer pk ml d m :
  request_ok (Do_Send pk ml d) → 0 ≤ m < n →
  ∃ x b1 rest, bcopy (enc_MailHeader ml) (take (Z.to_nat MaxPacketSize) garbage) 0 sizeof_MailHeader = Ok b1 ∧
    bcopy d b1 sizeof_MailHeader (m_length ml) = Ok (mail_bytes x ++ rest) ∧
    pkt x = mkPacketHeader (p_to pk) m (u32 (m_length ml + sizeof_MailHeader)) ∧
    mail x = ml ∧ payload x = take (Z.to_nat (m_length ml)) d ∧ addressed (p_to pk) x.
Proof.
  intros (Hto & Hmt & Hmf & Hlen & Hd) Hm.
  set (x := mkMessage (mkPacketHeader (p_to pk) m (u32 (m_length ml + sizeof_MailHeader))) ml
              (take (Z.to_nat (m_length ml)) d)).
  assert (zlen (payload x) = m_length ml) as Hpay.
  { cbn. unfold zlen in *. rewrite length_take. lia. }
  unfold MaxMailSize, MaxPacketSize, MaxWireSize, sizeof_PacketHeader, sizeof_MailHeader in *.
  assert (u32 (m_length ml + 12) = m_length ml + 12) as Hu by (apply u32_small; unfold is_u32; lia).
  assert (zlen (take (Z.to_nat (64 - 12)) garbage) = 52) as Hg.
  { unfold zlen, MaxWireSize in *. rewrite length_take. lia. }
  rewrite (bcopy_Ok (enc_MailHeader ml)) by (rewrite ?zlen_enc_MailHeader; unfold sizeof_MailHeader; lia).
  replace (take (Z.to_nat 12) (enc_MailHeader ml)) with (enc_MailHeader ml)
    by (symmetry; apply take_ge; pose proof (zlen_enc_MailHeader ml); unfold zlen, sizeof_MailHeader in *; lia).
  assert (zlen (write_at (take (Z.to_nat (64 - 12)) garbage) 0 (enc_MailHeader ml)) = 52) as Hw.
  { rewrite write_at_length; rewrite ?zlen_enc_MailHeader; unfold sizeof_MailHeader; lia. }
  destruct (write_at_0 (take (Z.to_nat (64 - 12)) garbage) (enc_MailHeader ml)) as [r1 Hr1]. rewrite Hr1 in *.
  destruct (write_at_end (enc_MailHeader ml) r1 (payload x) 12) as [r2 Hr2]; [apply zlen_enc_MailHeader|].
  eexists x, _, r2. split; [reflexivity|].
  rewrite bcopy_Ok by lia. change (take (Z.to_nat (m_length ml)) d) with (payload x).
  rewrite Hr2. unfold mail_bytes. change (mail x) with ml. rewrite <-(assoc_L (++)).
  split_and!; try done. split; [|done].
  unfold message_ok, PacketHeader_ok, MailHeader_ok, MaxMailSize, MaxPacketSize, MaxWireSize,
    sizeof_PacketHeader, sizeof_MailHeader, is_s32, is_u32 in *. change (mail x) with ml.
  cbn [pkt p_to p_from p_length x]. rewrite Hu. lia.
Qed.

Lemma client_range i l : role_ok i l → is_worker (at_place l) = false → n ≤ Z.of_nat i.
Proof. unfold role_ok. intros H Hw. by rewrite Hw in H. Qed.

Lemma machine_same m p M po :
  machine_ok m p M → network po = network (office M) → netAddr po = netAddr (office M) →
  boxes po = boxes (office M) → numBoxes po = numBoxes (office M) →
  messageAvailable po = messageAvailable (office M) → machine_ok m p (set_office M po).
Proof. intros [] H1 H2 H3 H4 H5. split; cbn; rewrite ?H1, ?H2, ?H3, ?H4, ?H5; done. Qed.

Lemma Send_ok i l s ls pk ml d reqs :
  inv s ls → ls !! i = Some l → at_place l = C_idle → todo l = Do_Send pk ml d :: reqs →
  outcome i ls (Send garbage i pk ml d l s).
Proof.
  intros Hinv Hl Hpl Htd. pose proof Hinv as [H1 H2 H3 H4 H5].
  destruct (H2 i l Hl) as (Hon & _ & Hreq). rewrite Htd in Hreq. apply Forall_cons_1 in Hreq as [Hr Hreqs].
  destruct (znth_range (machines s) (on l)) as [M HM]; [lia|].
  destruct (H3 _ _ HM) as (w & _ & _ & Hmo).
  apply (on_machine_ok i l s ls M); [done|]. cbv zeta.
  destruct (Send_buffer pk ml d (on l) Hr Hon) as (x & b1 & rest & Hb1 & Hb2 & Hpk & Hml & Hpay & Hadd).
  pose proof Hr as (Hto & Hmt & _ & Hlen & _).
  rewrite (mo_addr _ _ _ Hmo), (proj2 (mo_boxes _ _ _ Hmo)).
  rewrite (ASSERT_true (_ <=? _)) by (apply Z.leb_le; lia).
  rewrite (ASSERT_true (_ && _)) by (rewrite andb_true_iff, Z.leb_le, Z.ltb_lt; lia).
  cbn [mbind result_bind]. rewrite Hb1. cbn [mbind result_bind]. rewrite Hb2. cbn [mbind result_bind].
  destruct (lock_acquire i (sendLock (office M))) as [lk|] eqn:Hlk; [|by left].
  apply lock_acquire_Some in Hlk as [Hnone ->]. right. eexists _, _. split; [reflexivity|].
  eapply inv_client; try done.
  - eapply client_range; [by apply H4|by rewrite Hpl].
  - unfold place_ok. cbn [at_place on]. exists x, rest. rewrite Hpk. cbn. split_and!; try done; lia.
  - cbn. by rewrite Htd.
  - intros p Hp. by apply machine_same.
  - intros j _ Hj. congruence.
Qed.

Lemma Receive_ok i l s ls box d reqs :
  inv s ls → ls !! i = Some l → at_place l = C_idle → todo l = Do_Receive box d :: reqs →
  outcome i ls (Receive box d l s).
Proof.
  intros Hinv Hl Hpl Htd. pose proof Hinv as [H1 H2 H3 H4 H5].
  destruct (H2 i l Hl) as (Hon & _ & Hreq). rewrite Htd in Hreq. apply Forall_cons_1 in Hreq as [[Hb Hd] Hreqs].
  destruct (znth_range (machines s) (on l)) as [M HM]; [lia|].
  destruct (H3 _ _ HM) as (w & _ & _ & Hmo).
  apply (on_machine_ok i l s ls M); [done|]. cbv zeta.
  rewrite (proj2 (mo_boxes _ _ _ Hmo)).
  rewrite (ASSERT_true (_ && _)) by (rewrite andb_true_iff, Z.geb_le, Z.ltb_lt; lia). cbn [mbind result_bind].
  destruct (znth_range (boxes (office M)) box) as [ms Hms].
  { rewrite (proj1 (mo_boxes _ _ _ Hmo)). lia. }
  rewrite (proj2 (aget_Ok _ _ _) Hms). unfold MailBox_Get. cbn [mbind result_bind].
  destruct ms as [|x rest]; [by left|]. right.
  destruct (mo_mail _ _ _ Hmo _ _ x Hms) as [Hdx Hlx]; [set_solver|].
  rewrite bcopy_Ok by lia. cbn [mbind result_bind]. rewrite (ASSERT_true (_ <=? _)) by (apply Z.leb_le; lia). cbn [mbind result_bind].
  rewrite aset_in by (by eapply znth_Some_range). cbn [mbind result_bind].
  eexists _, _. split; [reflexivity|]. eapply inv_client; try done.
  - eapply client_range; [by apply H4|by rewrite Hpl].
  - cbn. by rewrite Htd.
  - intros p [Ho Hh Hbu Hc Hi Hbx Ha Hq Hm Ht Hs]. split; cbn; try done.
    + by rewrite zlen_zset.
    + intros k b y. rewrite znth_zset. case_bool_decide; [|eauto].
      intros [= <-] Hy. eapply Hm; [exact Hms|]. set_solver.
    + intros k b. rewrite list.filter_app, fmap_app. rewrite znth_zset.
      case_bool_decide as Hk; intros Hkb.
      * destruct Hk as [-> _]. injection Hkb as <-. rewrite (Ht _ _ Hms).
        rewrite (filter_cons_True _ (box, mail_message x)), filter_nil by done. cbn. by rewrite <-(assoc_L (++)).
      * rewrite (filter_cons_False _ (box, mail_message x)), filter_nil; [cbn; rewrite app_nil_r; by apply Ht|].
        cbn. intros <-. apply Hk. split; [done|]. rewrite (proj1 Hbx). lia.
    + split; [apply Hs|]. apply Forall_app. split; [apply Hs|]. by constructor.
Qed.

Lemma Send_end_ok i l s ls :
  inv s ls → ls !! i = Some l → at_place l = S_wait ∨ at_place l = S_unlock →
  outcome i ls (Send_end i l s).
Proof.
  intros Hinv Hl Hpl. pose proof Hinv as [H1 H2 H3 H4 H5].
  destruct (H2 i l Hl) as (Hon & _ & Hreq).
  destruct (znth_range (machines s) (on l)) as [M HM]; [lia|].
  assert (sendLock (office M) = Some i) as Hlk.
  { apply (H5 i l Hl M HM). by destruct Hpl as [->| ->]. }
  assert (n ≤ Z.of_nat i) as Hi.
  { eapply client_range; [by apply H4|]. by destruct Hpl as [->| ->]. }
  apply (on_machine_ok i l s ls M); [done|]. cbv zeta. destruct Hpl as [Hpl|Hpl]; rewrite Hpl.
  - destruct (sem_P (messageSent (office M))) as [v|]; [|by left]. right.
    eexists _, _. split; [reflexivity|]. eapply inv_client; try done.
    intros p Hp. by apply machine_same.
  - unfold lock_release. rewrite ASSERT_true by (by apply bool_decide_true). right.
    eexists _, _. split; [reflexivity|]. eapply inv_client; try done.
    + intros p Hp. by apply machine_same.
    + intros j Hj. congruence.
Qed.

Lemma packet_message_ok x rest :
  message_ok x → packet_message (pkt x) (mail_bytes x ++ rest) = x.
Proof.
  intros (_ & Hml & Hlen & _). unfold packet_message, mail_bytes. rewrite <-(assoc_L (++)).
  rewrite dec_enc_MailHeader, Hlen by done.
  rewrite read_at_app_r by (rewrite zlen_enc_MailHeader; lia).
  rewrite zlen_enc_MailHeader, Z.sub_diag, read_at_app_l, read_at_all by (try done; pose proof (zlen_nonneg (payload x)); lia).
  by destruct x.
Qed.

(** A packet on its way, and a packet that is lost. *)
Lemma machine_arrive m p M packet x :
  machine_ok m p M → carries packet x → addressed m x →
  machine_ok m p (mkMachine (office M) (socket M ++ [packet]) (asked M ++ [x]) (sent M ++ [x])
                    (delivered M) (taken M)).
Proof.
  intros [Ho Hh Hbu Hc Hi Hbx Ha Hq Hm Ht [[Hs1 Hs2] Hk]] Hx Hadd. split; cbn; try done.
  - destruct Hq as (q1 & q2 & q3 & Hsent & HF & H1 & H2 & H3). exists q1, q2, (q3 ++ [x]). split_and!; try done.
    + rewrite Hsent. by rewrite <-!(assoc_L (++)).
    + rewrite !(assoc_L (++)), <-(assoc_L (++) q1). apply Forall_app. split; [done|]. by constructor.
    + apply Forall2_app; [done|]. by constructor.
  - split; [|done]. split; [by apply sublist_app|]. intros Hr. by rewrite Hs2.
Qed.
Lemma machine_lost m p M x :
  machine_ok m p M → ¬ (1 <= reliability)%Q →
  machine_ok m p (mkMachine (office M) (socket M) (asked M ++ [x]) (sent M) (delivered M) (taken M)).
Proof.
  intros [Ho Hh Hbu Hc Hi Hbx Ha Hq Hm Ht [[Hs1 Hs2] Hk]] Hr. split; cbn; try done.
  do 2 (split; [|done]). by apply sublist_inserts_r.
Qed.
Definition with_sends (net : Network) (k : Z) : Network :=
  mkNetwork (ident net) (chanceToWork net) (sendBusy net) (inHdr net) (inbox net) k (numPacketsSent net)
    (numPacketsRecvd net).
Lemma machine_sends m p M k :
  machine_ok m p M →
  machine_ok m p (set_office M (set_network (office M) (with_sends (network (office M)) k))).
Proof. intros []. by split. Qed.

(** The network takes the message, and loses it only when it is not reliable. *)
Lemma network_takes m p M x rest c :
  machine_ok m p M → message_ok x → p_from (pkt x) = m →
  ∃ o, Network_Send (rnd c) (take (Z.to_nat MaxWireSize) garbage) (pkt x) (mail_bytes x ++ rest)
         (network (office M)) =
         Ok (o, with_sends (network (office M)) (sends (network (office M)) + 1)) ∧
       match o with Some packet => carries packet x | None => ¬ (1 <= reliability)%Q end.
Proof.
  intros [Ho _ Hb Hc _ _ _ _ _ _ _] Hok Hfrom. rewrite <-Ho in Hfrom.
  assert (zlen (take (Z.to_nat MaxWireSize) garbage) = MaxWireSize) as Hg.
  { unfold zlen, MaxWireSize in *. rewrite length_take. lia. }
  destruct (is_lost (chanceToWork (network (office M))) (rnd c)) eqn:Hlost.
  - exists None. rewrite Network_Send_lost by done.
    split; [done|]. intros Hr. rewrite Hc, reliable_never_loses in Hlost; done.
  - destruct (Network_Send_carries (rnd c) (take (Z.to_nat MaxWireSize) garbage)
      (mail_bytes x ++ rest) x (network (office M)) rest) as (packet & Hs & Hcar); try done.
    by exists (Some packet).
Qed.

Lemma Send_network_ok i l s ls pk b :
  inv s ls → ls !! i = Some l → at_place l = S_send pk b → outcome i ls (Send_network rnd garbage pk b l s).
Proof.
  intros Hinv Hl Hpl. pose proof Hinv as [H1 H2 H3 H4 H5].
  destruct (H2 i l Hl) as (Hon & Hp & Hreq). unfold place_ok in Hp. rewrite Hpl in Hp.
  destruct Hp as (x & rest & -> & -> & Hto & Hadd & Hfrom). pose proof Hadd as (Hok & _ & Hbox).
  destruct (znth_range (machines s) (on l)) as [M HM]; [lia|].
  destruct (H3 _ _ HM) as (w & _ & _ & Hmo).
  destruct (network_takes _ _ M x rest (calls s) Hmo Hok Hfrom) as (o & Hsend & Ho).
  set (M1 := set_office M (set_network (office M) (with_sends (network (office M)) (sends (network (office M)) + 1)))) in *.
  set (s1 := mkWorld (zset (machines s) (on l) M1) (calls s + 1)).
  assert (inv s1 ls) as Hinv1 by (eapply inv_machine; [done|done|intros; by apply machine_sends|done]).
  unfold Send_network, outcome. rewrite (proj2 (aget_Ok _ _ _) HM). cbn [mbind result_bind].
  rewrite Hsend. cbn [mbind result_bind]. rewrite aset_in by lia. cbn [mbind result_bind].
  change (set_office M _) with M1.
  destruct (znth_range (machines s1) (p_to (pkt x))) as [D HD]; [destruct Hinv1; lia|].
  change (machines s1) with (zset (machines s) (on l) M1) in HD. rewrite HD.
  rewrite packet_message_ok by done. set (D' := match o with None => _ | Some _ => _ end).
  rewrite aset_in by (rewrite zlen_zset; lia). right. eexists _, _. split; [reflexivity|].
  assert (inv (mkWorld (zset (machines s1) (p_to (pkt x)) D') (calls s + 1)) ls) as Hinv2.
  { eapply inv_machine; [exact Hinv1|exact HD| |by destruct o].
    intros p HpD. destruct o as [packet|]; [by apply machine_arrive|by apply machine_lost]. }
  set (s2 := mkWorld _ _) in Hinv2.
  destruct (znth_range (machines s2) (on l)) as [M2 HM2]; [destruct Hinv2; lia|].
  assert (inv (mkWorld (zset (machines s2) (on l) M2) (calls s2)) (<[i := move l S_wait]> ls)) as Hinv3.
  { eapply inv_client; try done.
    - eapply client_range; [by apply H4|by rewrite Hpl].
    - intros _. apply (inv_lock _ _ Hinv2 i l Hl M2 HM2). by rewrite Hpl. }
  by rewrite zset_same in Hinv3.
Qed.

Lemma thread_ok i l s ls : inv s ls → ls !! i = Some l → outcome i ls (thr i l s).
Proof.
  intros Hinv Hl. unfold thread. destruct (at_place l) eqn:Hpl.
  - apply PostalDelivery_ok; [done|done|by rewrite Hpl].
  - apply PostalDelivery_ok; [done|done|by rewrite Hpl].
  - apply PostalDelivery_ok; [done|done|by rewrite Hpl].
  - destruct (todo l) as [|[]] eqn:Ht; [by left|by eapply Send_ok|by eapply Receive_ok].
  - by eapply Send_network_ok.
  - apply Send_end_ok; auto.
  - apply Send_end_ok; auto.
Qed.

(** *** The interrupts *)
Definition known (e : event) : Prop := match e with Poll m | Sent m => 0 ≤ m < n end.

Lemma machine_poll m p M :
  machine_ok m p M →
  ∃ called net, CheckPktAvail (head (socket M)) (network (office M)) = Ok (called, net) ∧
    machine_ok m p
      (if (called : bool) then
         mkMachine (set_sems (set_network (office M) net) (messageAvailable (office M) + 1) (messageSent (office M)))
           (tail (socket M)) (asked M) (sent M) (delivered M) (taken M)
       else set_office M (set_network (office M) net)).
Proof.
  intros Hmo. pose proof Hmo as [Ho Hh Hbu Hc Hi Hbx Ha Hq Hm Ht Hs].
  assert (machine_ok m p (set_office M (set_network (office M) (network (office M))))) as Hsame.
  { by apply machine_same. }
  destruct (Z.eqb_spec (p_length (inHdr (network (office M)))) 0) as [E|E].
  2:{ exists false, (network (office M)). unfold CheckPktAvail. by rewrite (proj2 (Z.eqb_neq _ _) E). }
  destruct Hq as (q1 & q2 & q3 & Hsent & HF & H1 & H2 & H3).
  destruct (socket M) as [|b sock]; cbn [head tail].
  { exists false, (network (office M)). unfold CheckPktAvail. by rewrite E. }
  apply Forall2_cons_inv_l in H3 as (x & q3' & Hb & H3 & ->).
  unfold net_holds in H2. rewrite E in H2. cbn in H2. subst q2. cbn in Hsent, HF.
  assert (addressed m x) as (Hok & Hto & Hbox).
  { apply Forall_app in HF as [_ HF]. by apply Forall_cons_1 in HF as []. }
  destruct (CheckPktAvail_reads b x (network (office M))) as
    (net & Hread & Hholds & Hlen & Hid & Hch & Hbsy & _); [done|done|congruence|done|].
  exists true, net. split; [done|]. pose proof Hholds as (_ & Hhdr & _).
  pose proof Hok as (_ & _ & Hpay & _ & Hplen). pose proof (zlen_nonneg (payload x)).
  assert (p_length (inHdr net) =? 0 = false) as Hne.
  { apply Z.eqb_neq. rewrite Hhdr. unfold sizeof_MailHeader in Hplen. lia. }
  split; cbn [office network netAddr boxes numBoxes messageAvailable socket asked sent delivered taken
    set_sems set_network]; try congruence; try done.
  - rewrite Hne. cbn in Ha. lia.
  - exists q1, [x], q3'. split_and!; try done. unfold net_holds. rewrite Hne. eauto.
Qed.

Lemma interrupt_ok e s ls :
  inv s ls → known e → interrupt e s = Ok None ∨ ∃ s', interrupt e s = Ok (Some s') ∧ inv s' ls.
Proof.
  intros Hinv He. pose proof Hinv as [H1 _ H3 _ _]. destruct e as [m|m]; cbn in He;
    (destruct (znth_range (machines s) m) as [M HM]; [lia|]);
    unfold interrupt; rewrite (proj2 (aget_Ok _ _ _) HM); cbn [mbind result_bind].
  - destruct (H3 _ _ HM) as (w & _ & _ & Hmo). right.
    destruct (machine_poll _ _ _ Hmo) as (called & net & Hc & _). rewrite Hc. cbn [mbind result_bind].
    rewrite aset_in by lia. cbn [mbind result_bind]. eexists. split; [reflexivity|].
    eapply inv_machine; [done|done| |by destruct called].
    intros p Hp. destruct (machine_poll _ _ _ Hp) as (c' & n' & Hc' & Hp'). rewrite Hc in Hc'.
    by injection Hc' as <- <-.
  - destruct (_ >? 0); [|by left]. right. rewrite aset_in by lia. cbn [mbind result_bind].
    eexists. split; [reflexivity|]. eapply inv_machine; [done|done| |done].
    intros p []. by split.
Qed.

(** *** Reachable states *)
Definition clients_ok (clients : list (Z * list request)) : Prop :=
  Forall (λ c, 0 ≤ c.1 < n ∧ Forall request_ok c.2) clients.

Lemma machine_start m :
  machine_ok m W_wait (mkMachine (PostOffice_new garbage m reliability nb) [] [] [] [] []).
Proof.
  split; try done.
  - cbn. unfold zlen, MaxPacketSize, MaxWireSize, sizeof_PacketHeader in *. rewrite length_take. lia.
  - split; [|done]. apply zlen_replicate. lia.
  - by exists [], [], [].
  - intros k b x Hb Hx. pose proof (znth_Some_range _ _ _ Hb) as Hr. cbn in Hb, Hr.
    rewrite zlen_replicate in Hr by lia. rewrite znth_replicate in Hb by lia. set_solver.
  - intros k b Hb. pose proof (znth_Some_range _ _ _ Hb) as Hr. cbn in Hb, Hr.
    rewrite zlen_replicate in Hr by lia. rewrite znth_replicate in Hb by lia. by injection Hb as <-.
Qed.

Abbreviation go clients := (start garbage n nb reliability clients).
Lemma start_local clients i l :
  clients_ok clients → locals (go clients) !! i = Some l →
  (Z.of_nat i < n ∧ l = mkLocal (Z.of_nat i) W_wait (take (Z.to_nat MaxPacketSize) garbage) [] []) ∨
  (n ≤ Z.of_nat i ∧ at_place l = C_idle ∧ 0 ≤ on l < n ∧ Forall request_ok (todo l) ∧ got l = []).
Proof.
  intros Hc. cbn. intros [Hl|[Hge Hl]]%lookup_app_Some.
  - left. rewrite list_lookup_fmap in Hl. destruct (seqZ 0 n !! i) as [k|] eqn:Hk; [|done].
    apply lookup_seqZ in Hk as [-> ?]. by injection Hl as <-.
  - right. rewrite length_fmap, length_seqZ in *. split; [lia|].
    rewrite list_lookup_fmap in Hl. destruct (clients !! _) as [[m reqs]|] eqn:Hk; [|done].
    injection Hl as <-. cbn. by apply (Forall_lookup_1 _ _ _ _ Hc) in Hk as [? ?].
Qed.

Lemma post_start_inv clients : clients_ok clients → inv (shared (go clients)) (locals (go clients)).
Proof.
  intros Hc. pose proof (start_local clients) as HL. split.
  - cbn. unfold zlen. rewrite length_fmap, length_seqZ. lia.
  - intros i l Hl. destruct (HL i l Hc Hl) as [[Hi ->]|(Hi & Hp & Hon & Ht & _)].
    + split_and!; [cbn; lia..| |constructor]. unfold place_ok. cbn [at_place buffer].
      unfold zlen, MaxPacketSize, MaxWireSize, sizeof_PacketHeader in *. rewrite length_take. lia.
    + split_and!; [lia..| |done]. unfold place_ok. by rewrite Hp.
  - intros m M HM. pose proof (znth_Some_range _ _ _ HM) as Hr. cbn in HM, Hr.
    unfold zlen in Hr. rewrite length_fmap, length_seqZ in Hr.
    rewrite znth_fmap, znth_seqZ in HM by lia. injection HM as <-.
    rewrite Z.add_0_l.
    exists (mkLocal m W_wait (take (Z.to_nat MaxPacketSize) garbage) [] []).
    split; [|split; [done|apply machine_start]]. cbn.
    rewrite lookup_app_l by (rewrite length_fmap, length_seqZ; lia).
    rewrite list_lookup_fmap, lookup_seqZ_lt by lia. cbn. do 2 f_equal. lia.
  - intros i l Hl. unfold role_ok. by destruct (HL i l Hc Hl) as [[Hi ->]|(Hi & -> & _)].
  - intros i l Hl M _. by destruct (HL i l Hc Hl) as [[Hi ->]|(Hi & -> & _)].
Qed.

Lemma post_reachable_inv clients s :
  clients_ok clients → rtc (step_if thr interrupt known) (go clients) s → inv (shared s) (locals s).
Proof.
  intros Hc. apply reachable_invariant_if; [by apply post_start_inv| |].
  - intros i l s1 ls l' s2 Hi Hl Ht. destruct (thread_ok i l s1 ls Hi Hl) as [?|(? & ? & ? & ?)]; congruence.
  - intros e s1 ls s2 He Hi Ht. destruct (interrupt_ok e s1 ls Hi He) as [?|(? & ? & ?)]; congruence.
Qed.

(** *** What the clients have got *)

(** The message in what [Receive] has stored for a client. *)
Definition got_message (g : PacketHeader * MailHeader * list Z) : message :=
  mkMessage g.1.1 g.1.2 (read_at g.2 0 (m_length g.1.2)).
Definition got_inv (s : world) (ls : list local) : Prop :=
  ∀ i l M g, ls !! i = Some l → znth (machines s) (on l) = Some M → g ∈ got l →
    got_message g ∈ (taken M).*2.

(** No step forgets what has been taken. *)
Definition taken_grows (s s' : world) : Prop :=
  ∀ m M', znth (machines s') m = Some M' → ∃ M, znth (machines s) m = Some M ∧ (taken M).*2 ⊆ (taken M').*2.
Lemma taken_grows_zset s m M M' c :
  znth (machines s) m = Some M → (taken M).*2 ⊆ (taken M').*2 →
  taken_grows s (mkWorld (zset (machines s) m M') c).
Proof.
  intros HM Hsub k K. cbn. rewrite znth_zset. case_bool_decide as Hk; [|by exists K].
  intros [= <-]. destruct Hk as [-> _]. eauto.
Qed.

Lemma on_machine_inv (l : local) s f l' s' :
  on_machine (on l) s f = Ok (Some (l', s')) →
  ∃ M M', znth (machines s) (on l) = Some M ∧ f M = Ok (Some (l', M')) ∧
    s' = mkWorld (zset (machines s) (on l) M') (calls s).
Proof.
  unfold on_machine. intros H. inv_bind. destruct x0 as [[l1 M']|]; [|done]. inv_bind.
  apply aget_Ok in H0. apply aset_Ok in H2 as [_ ->]. naive_solver.
Qed.

(** A step keeps what the thread has got, or adds a message it takes. *)
Definition keeps_got (l : local) (s : world) (l' : local) (s' : world) : Prop :=
  on l' = on l ∧ taken_grows s s' ∧
  ∀ g, g ∈ got l' → g ∈ got l ∨ ∀ M', znth (machines s') (on l) = Some M' → got_message g ∈ (taken M').*2.

Lemma keeps_zset l s l' M M' c :
  znth (machines s) (on l) = Some M → on l' = on l → got l' = got l → taken M' = taken M →
  keeps_got l s l' (mkWorld (zset (machines s) (on l) M') c).
Proof.
  intros HM Hon Hg Ht. split; [done|]. split; [eapply taken_grows_zset; [done|by rewrite Ht]|].
  rewrite Hg. auto.
Qed.

Lemma bcopy_read src d len b : bcopy src d 0 len = Ok b → read_at b 0 len = read_at src 0 len.
Proof.
  unfold bcopy. case_match eqn:Hb; [|done]. intros [= <-].
  rewrite !andb_true_iff, !Z.leb_le in Hb. unfold read_at at 2. cbn. rewrite drop_0.
  assert (zlen (take (Z.to_nat len) src) = len) as Hlen by (unfold zlen in *; rewrite length_take; lia).
  rewrite <-Hlen at 2. rewrite read_write_same; [done|lia|lia].
Qed.

Lemma Receive_keeps box d l s l' s' :
  Receive box d l s = Ok (Some (l', s')) → keeps_got l s l' s'.
Proof.
  intros (M & M' & HM & H & ->)%on_machine_inv. pose proof (znth_Some_range _ _ _ HM) as Hr. cbv zeta in H. inv_bind.
  destruct x1 as [[[x b] rest]|]; [|done]. destruct x0 as [|x' rest']; [done|]. cbn in H2.
  inv_bind. simplify_eq. split; [done|]. split.
  { eapply taken_grows_zset; [done|]. cbn. rewrite fmap_app. set_solver. }
  intros g [Hg|Hg]%elem_of_app; [by left|]. right. cbn. rewrite znth_zset_eq by done. intros ? [= <-].
  apply list_elem_of_singleton in Hg as ->. cbn. rewrite fmap_app. apply elem_of_app. right.
  apply list_elem_of_singleton. unfold got_message, mail_message. cbn. f_equal.
  by eapply bcopy_read.
Qed.

Lemma Send_network_keeps pk b l s l' s' :
  Send_network rnd garbage pk b l s = Ok (Some (l', s')) → keeps_got l s l' s'.
Proof.
  unfold Send_network. intros H. inv_bind. destruct x0 as [p net]. inv_bind.
  apply aget_Ok in H0. apply aset_Ok in H2 as [Hr ->].
  assert (∀ c, keeps_got l s (move l S_wait)
    (mkWorld (zset (machines s) (on l) (set_office x (set_network (office x) net))) c)) as HM1
    by (intros; by eapply keeps_zset).
  destruct (znth _ (p_to pk)) as [D|] eqn:HD.
  - inv_bind. apply aset_Ok in H2 as [_ ->]. simplify_eq. split; [done|]. split; [|by left].
    intros k K. cbn. rewrite znth_zset. case_bool_decide as Hk.
    + destruct Hk as [-> _]. intros [= <-]. destruct (HM1 0) as (_ & Hgrow & _).
      destruct (Hgrow _ _ HD) as (M & ? & ?). exists M. by destruct p.
    + apply (HM1 0).
  - destruct p; [done|]. simplify_eq. apply HM1.
Qed.

Lemma thread_keeps i l s l' s' : thr i l s = Ok (Some (l', s')) → keeps_got l s l' s'.
Proof.
  unfold thread. destruct (at_place l) eqn:Hp; [..|destruct (todo l) as [|[]]; [done| |]| | |];
    first [apply Receive_keeps | apply Send_network_keeps | idtac];
    intros (M & M' & HM & H & ->)%on_machine_inv; cbv zeta in H; rewrite ?Hp in H.
  - apply when_awake_Ok in H as (v & _ & [= -> ->]). by eapply keeps_zset.
  - inv_bind. destruct x as [[hdr b] net]. inv_bind. simplify_eq. by eapply keeps_zset.
  - inv_bind. destruct x0 as [y b]. inv_bind. simplify_eq. by eapply keeps_zset.
  - inv_bind. apply when_awake_Ok in H as (v & _ & [= -> ->]). by eapply keeps_zset.
  - apply when_awake_Ok in H as (v & _ & [= -> ->]). by eapply keeps_zset.
  - inv_bind. simplify_eq. by eapply keeps_zset.
Qed.
Lemma interrupt_keeps e s s' : interrupt e s = Ok (Some s') → taken_grows s s'.
Proof.
  destruct e as [m|m]; cbn; intros H; inv_bind; apply aget_Ok in H0.
  - destruct x0 as [[] net]; inv_bind; apply aset_Ok in H2 as [_ ->]; simplify_eq;
      by eapply taken_grows_zset.
  - destruct (_ >? 0); [|done]. inv_bind. apply aset_Ok in H1 as [_ ->]. simplify_eq.
    by eapply taken_grows_zset.
Qed.

Lemma reachable_got clients s :
  clients_ok clients → rtc (step_if thr interrupt known) (go clients) s → got_inv (shared s) (locals s).
Proof.
  intros Hc. apply reachable_invariant_if.
  - intros i l M g Hl _ Hg. destruct (start_local clients i l Hc Hl) as [[_ ->]|(_ & _ & _ & _ & E)];
      [|rewrite E in Hg]; by apply not_elem_of_nil in Hg.
  - intros i l s1 ls l' s2 Hi Hl (Hon & Hgrow & Hnew)%thread_keeps.
    assert (∀ j lj M' g, ls !! j = Some lj → znth (machines s2) (on lj) = Some M' → g ∈ got lj →
      got_message g ∈ (taken M').*2) as Hold.
    { intros j lj M' g Hj HM' Hg. destruct (Hgrow _ _ HM') as (M & HM & Hsub). eapply Hsub, Hi; eauto. }
    unfold got_inv.
    enough (∀ j lj, <[i := l']> ls !! j = Some lj → ∀ M g, znth (machines s2) (on lj) = Some M →
      g ∈ got lj → got_message g ∈ (taken M).*2) by eauto.
    apply (insert_forall (λ _ lj, ∀ M g, _ → _ → _)); [eauto|].
    rewrite Hon. intros M' g HM' Hg. destruct (Hnew g Hg) as [Hg'|Hg']; eauto.
  - intros e s1 ls s2 _ Hi Hgrow%interrupt_keeps j lj M' g Hj HM' Hg.
    destruct (Hgrow _ _ HM') as (M & HM & Hsub). eapply Hsub, Hi; eauto.
Qed.
End invariant.

(** The messages for mailbox [k] that clients have taken. *)
Definition taken_from (k : Z) (M : machine) : list message := (filter (λ t, t.1 = k) (taken M)).*2.

(** What clients have taken had been delivered. *)
Lemma taken_delivered nb reliability m p M x :
  machine_ok nb reliability m p M → x ∈ (taken M).*2 → x ∈ delivered M.
Proof.
  intros Hmo ([k y] & -> & Hk)%list_elem_of_fmap.
  destruct Hmo as [_ _ _ _ _ [Hb _] _ _ _ Ht [_ HF]].
  destruct (znth_range (boxes (office M)) k) as [b Hkb].
  { rewrite Hb. apply (proj1 (list.Forall_forall _ _) HF _ Hk). }
  enough (y ∈ filter (λ x, m_to (mail x) = k) (delivered M)) by (by apply list_elem_of_filter in H as []).
  rewrite (Ht _ _ Hkb). apply elem_of_app. left. apply list_elem_of_fmap. exists (k, y).
  split; [done|]. by apply list_elem_of_filter.
Qed.

(** C21: the post offices of [n] machines with any clients that ask for existing machines
    and mailboxes, in any interleaving of threads and interrupts: no assertion fails and
    no buffer overflows; on each machine the messages that were not lost are a subsequence of
    those sent to it, all of them when the reliability is 1; they are delivered in that order,
    those on the way being in the hands of the postal worker, in the device or in the socket;
    each mailbox hands out its messages in the order they were delivered, none lost or
    doubled; and what a client gets is a message that was sent to its machine. *)
Theorem post_office_delivers rnd garbage n nb reliability clients s :
  zlen garbage = MaxWireSize → 0 ≤ n < 2 ^ 31 → 0 ≤ nb < 2 ^ 31 → (∀ k, 0 ≤ rnd k) →
  clients_ok n nb clients →
  rtc (step_if (thread rnd garbage) interrupt (known n)) (start garbage n nb reliability clients) s →
  (∀ a e, match a with Event ev => known n ev | Thread _ => True end →
     act (thread rnd garbage) interrupt a s ≠ Stop e) ∧
  ∀ m M, znth (machines (shared s)) m = Some M →
    sublist (sent M) (asked M) ∧ ((1 <= reliability)%Q → sent M = asked M) ∧
    (∃ way, sent M = delivered M ++ way ∧ (length way ≤ 2 + length (socket M))%nat) ∧
    (∀ k b, znth (boxes (office M)) k = Some b →
       filter (λ x, m_to (mail x) = k) (delivered M) = taken_from k M ++ (mail_message <$> b)) ∧
    (∀ i l g, locals s !! i = Some l → on l = m → g ∈ got l → got_message g ∈ asked M).
Proof.
  intros Hg Hn Hnb Hrnd Hc Hr.
  pose proof (post_reachable_inv rnd garbage n nb reliability Hg Hn Hnb Hrnd clients s Hc Hr) as Hinv.
  pose proof (reachable_got rnd garbage n nb reliability Hg Hn Hnb Hrnd clients s Hc Hr) as Hgot. split.
  - apply no_failure_if.
    + intros i l e Hl. destruct (thread_ok rnd garbage n nb reliability Hg Hn Hnb Hrnd i l _ _ Hinv Hl)
        as [->|(? & ? & -> & _)]; done.
    + intros ev e Hev. by destruct (interrupt_ok n nb reliability ev _ _ Hinv Hev) as [->|(? & -> & _)].
  - intros m M HM. destruct (inv_worker _ _ _ _ _ Hinv _ _ HM) as (w & _ & _ & Hmo).
    pose proof Hmo as [_ _ _ _ _ _ _ (q1 & q2 & q3 & Hsent & _ & H1 & H2 & H3) _ Ht [[Hs1 Hs2] _]].
    split_and!; [done|done| |done|].
    + exists (q1 ++ q2 ++ q3). split; [done|]. apply Forall2_length in H3.
      unfold worker_holds, net_holds in *. rewrite !length_app, <-H3.
      assert (length q1 ≤ 1)%nat by (destruct (at_place w); naive_solver).
      assert (length q2 ≤ 1)%nat by (destruct (_ =? _); naive_solver). lia.
    + intros i l g Hl <- Hin. eapply sublist_subseteq; [exact Hs1|]. rewrite Hsent. apply elem_of_app. left.
      eapply taken_delivered; [done|]. by eapply Hgot.
Qed.

(** A client of machine 0 sends "Hi" to mailbox 3 of machine 1, where a client waits. *)
Definition example : sys world local :=
  start (replicate 64 0) 2 10 1%Q
    [(0, [Do_Send (mkPacketHeader 1 0 0) (mkMailHeader 3 0 2) [72; 105]]);
     (1, [Do_Receive 3 (replicate 40 0)])].
Definition example_steps : list (label event) :=
  [Thread 2; Thread 2; Event (Sent 0); Thread 2; Thread 2; Event (Poll 0); Event (Poll 1);
   Thread 1; Thread 1; Thread 1; Thread 3].
Definition example_end : sys world local :=
  match play (thread Z.abs (replicate 64 0)) interrupt example_steps example with
  | Ok s => s | Stop _ => example
  end.
Lemma post_office_delivers_witness :
  ∃ M, znth (machines (shared example_end)) 1 = Some M ∧ length (taken_from 3 M) = 1%nat ∧ sent M = asked M ∧
    filter (λ x, m_to (mail x) = 3) (delivered M) = taken_from 3 M ++ [].
Proof.
  destruct (post_office_delivers Z.abs (replicate 64 0) 2 10 1%Q
    [(0, [Do_Send (mkPacketHeader 1 0 0) (mkMailHeader 3 0 2) [72; 105]]);
     (1, [Do_Receive 3 (replicate 40 0)])] example_end) as [_ H]; [done|lia|lia|lia| | |].
  - repeat constructor; vm_compute; congruence.
  - apply (play_reachable_if _ _ _ example_steps); [repeat constructor; lia|vm_compute; reflexivity].
  - destruct (znth (machines (shared example_end)) 1) as [M|] eqn:HM; [|vm_compute in HM; discriminate].
    destruct (H 1 M HM) as (_ & H1 & _ & H2 & _). exists M. split; [done|].
    vm_compute in HM. injection HM as <-. split; [done|]. split; [by apply H1|]. by apply (H2 3 []).
Defined.
