(* ===== verification/Coff2Noff.v ===== *)
(** * From COFF to NOFF: bin/coff2noff.c

    The converter that makes the executables of user programs, and its composition
    with the loader of AddrSpace.v.  The input is the contents of a UNIX file; the
    output is a file that is written piecewise with [lseek] and [write].  [exit(1)]
    after a message, which removes the output, is [Exit] with the message.  The host
    is little-endian, so [WordToHost] and [ShortToHost] change nothing. *)

From Stdlib Require Import String Ascii.
From S2P Require Import Prelude Machine Paging UserMemory AddrSpace.
#[local] Open Scope Z_scope.

(** ** Outcomes *)
Inductive message :=
| Usage | Cannot_open | Too_short | Unable_to_write | Not_MIPSEL | Not_OMAGIC
| Both_data_and_rdata | Both_bss_and_sbss | Unknown_segment.
Inductive outcome (A : Type) := Done (a : A) | Exit (m : message).
Arguments Done {A} a.
Arguments Exit {A} m.
#[export] Instance outcome_ret : MRet outcome := @Done.
#[export] Instance outcome_bind : MBind outcome := λ A B f x,
  match x with Done a => f a | Exit m => Exit m end.

(** ** Files *)

(** [read], with the check of [Read]: the bytes and the new position.  A negative count
    is an error of [read]. *)
Definition Read (fd : list Z) (pos nBytes : Z) : outcome (list Z * Z) :=
  let b := read_at fd pos nBytes in
  if (if nBytes <? 0 then -1 else zlen b) =? nBytes then Done (b, pos + zlen b) else Exit Too_short.

(** The output file; [writable] tells whether [open] has succeeded. *)
Record ofile := mkFile { contents : list Z; position : Z; writable : bool }.

(** The bytes of a file after [write] at [pos]; a gap is filled with zeros. *)
Definition file_write (f : list Z) (pos : Z) (buf : list Z) : list Z :=
  write_at (f ++ replicate (Z.to_nat (pos - zlen f)) 0) pos buf.

(** [write], with the check of [Write]; [buf] has [nBytes] bytes. *)
Definition Write (fd : ofile) (buf : list Z) (nBytes : Z) : outcome ofile :=
  if (if (nBytes <? 0) || negb (writable fd) then -1 else nBytes) =? nBytes then
    Done (if nBytes <? 0 then fd
          else mkFile (file_write (contents fd) (position fd) buf) (position fd + zlen buf) (writable fd))
  else Exit Unable_to_write.

(** [lseek(fd, off, 0)]; the position of a negative offset does not exist. *)
Definition lseek (pos off : Z) : Z := if off <? 0 then pos else off.

(** ** The COFF format (coff.h) *)
Definition ushort_at (b : list Z) (off : Z) : Z := le_combine (read_at b off 2).
Definition short_at (b : list Z) (off : Z) : Z := (ushort_at b off + 2 ^ 15) mod 2 ^ 16 - 2 ^ 15.
Definition MIPSELMAGIC : Z := 354.
Definition OMAGIC : Z := 263.
Definition sizeof_filehdr : Z := 20.
Definition sizeof_aouthdr : Z := 56.
Definition sizeof_scnhdr : Z := 40.

(** The fields of [struct scnhdr] that are used. *)
Record scnhdr := mkScnhdr { s_name : list Z; s_paddr : Z; s_size : Z; s_scnptr : Z }.
Definition scnhdr_of (b : list Z) : scnhdr :=
  mkScnhdr (read_at b 0 8) (WordToHost (int_at b 8)) (WordToHost (int_at b 16)) (WordToHost (int_at b 20)).

(** [!strcmp(s_name, lit)] for a literal of less than 8 characters. *)
Definition is_named (s : scnhdr) (lit : string) : bool :=
  bool_decide (take (S (String.length lit)) (s_name s) = chars lit ++ [0]).

(** ** The conversion *)

(** What the loop changes: the header, the end of the segments, the position in the
    input and the output. *)
Record conv := mkConv { noffH : NoffHeader; inNoffFile : Z; in_pos : Z; fdOut : ofile }.

(** [lseek], [Read] and [Write] of a section. *)
Definition copy_section (fdIn : list Z) (s : scnhdr) (c : conv) (h : NoffHeader) : outcome conv :=
  '(buffer, pos) ← Read fdIn (lseek (in_pos c) (s_scnptr s)) (s_size s);
  f ← Write (fdOut c) buffer (s_size s);
  Done (mkConv h (s32 (inNoffFile c + s_size s)) pos f).

(** The body of the loop over the sections. *)
Definition section_step (fdIn : list Z) (s : scnhdr) (c : conv) : outcome conv :=
  let h := noffH c in
  let seg := mkSegment (s_paddr s) (inNoffFile c) (s_size s) in
  if s_size s =? 0 then Done c
  else if is_named s ".text" then
    copy_section fdIn s c (mkNoff (noffMagic h) seg (initData h) (uninitData h))
  else if is_named s ".data" || is_named s ".rdata" then
    if negb (seg_size (initData h) =? 0) then Exit Both_data_and_rdata
    else copy_section fdIn s c (mkNoff (noffMagic h) (code h) seg (uninitData h))
  else if is_named s ".bss" || is_named s ".sbss" then
    let u := uninitData h in
    let set u := Done (mkConv (mkNoff (noffMagic h) (code h) (initData h) u) (inNoffFile c) (in_pos c) (fdOut c)) in
    if negb (seg_size u =? 0) then
      if s_paddr s =? s32 (virtualAddr u + seg_size u) then Exit Both_bss_and_sbss
      else set (mkSegment (virtualAddr u) (inFileAddr u) (s32 (seg_size u + s_size s)))
    else set (mkSegment (s_paddr s) (inFileAddr u) (s_size s))
  else Exit Unknown_segment.

Fixpoint sections_loop (fdIn : list Z) (l : list scnhdr) (c : conv) : outcome conv :=
  match l with
  | [] => Done c
  | s :: l => c ← section_step fdIn s c; sections_loop fdIn l c
  end.

(** The header as it is written. *)
Definition segment_ints (s : Segment) : list Z := [virtualAddr s; inFileAddr s; seg_size s].
Definition noff_ints (h : NoffHeader) : list Z :=
  noffMagic h :: segment_ints (code h) ++ segment_ints (initData h) ++ segment_ints (uninitData h).
Definition noff_bytes (h : NoffHeader) : list Z := enc_ints (noff_ints h).

(** The header before the loop; the other fields of the local variable [noffH] are not
    initialised. *)
Definition noff_init (h : NoffHeader) : NoffHeader :=
  let clear s := mkSegment (virtualAddr s) (inFileAddr s) 0 in
  mkNoff NOFFMAGIC (clear (code h)) (clear (initData h)) (clear (uninitData h)).

(** [main]: [fdIn] is the input if it can be opened, [canWrite] tells whether the output
    can be (the source tests [fdIn] again instead); the result is the output file. *)
Definition coff2noff (garbage : NoffHeader) (argc : Z) (fdIn : option (list Z)) (canWrite : bool) :
    outcome (list Z) :=
  if argc <? 2 then Exit Usage
  else
    match fdIn with
    | None => Exit Cannot_open
    | Some fdIn =>
        '(fileh, pos) ← Read fdIn 0 sizeof_filehdr;
        if negb (ShortToHost (ushort_at fileh 0) =? MIPSELMAGIC) then Exit Not_MIPSEL
        else
          '(systemh, pos) ← Read fdIn pos sizeof_aouthdr;
          if negb (ShortToHost (short_at systemh 0) =? OMAGIC) then Exit Not_OMAGIC
          else
            let numsections := ShortToHost (ushort_at fileh 2) in
            '(b, pos) ← Read fdIn pos (numsections * sizeof_scnhdr);
            let sections := (λ i, scnhdr_of (drop (Z.to_nat (i * sizeof_scnhdr)) b)) <$> seqZ 0 numsections in
            c ← sections_loop fdIn sections
                  (mkConv (noff_init garbage) sizeof_noff pos (mkFile [] sizeof_noff canWrite));
            f ← Write (mkFile (contents (fdOut c)) 0 (writable (fdOut c))) (noff_bytes (noffH c)) sizeof_noff;
            Done (contents f)
    end.

(** ** What the converter writes *)

Lemma file_write_end f pos buf :
  zlen f ≤ pos → file_write f pos buf = f ++ replicate (Z.to_nat (pos - zlen f)) 0 ++ buf.
Proof.
  intros H. unfold file_write, write_at. pose proof (zlen_nonneg f).
  assert (length (f ++ replicate (Z.to_nat (pos - zlen f)) 0) = Z.to_nat pos) as Hl.
  { rewrite length_app, length_replicate. unfold zlen in *. lia. }
  rewrite take_ge by lia. rewrite drop_ge, app_nil_r by lia. by rewrite <-(assoc_L (++)).
Qed.
Lemma zlen_file_write f pos buf :
  zlen f ≤ pos → zlen (file_write f pos buf) = pos + zlen buf.
Proof.
  intros H. rewrite file_write_end by done. pose proof (zlen_nonneg f).
  rewrite !zlen_app, zlen_replicate by lia. lia.
Qed.
Lemma read_file_write_old f pos buf a n :
  zlen f ≤ pos → 0 ≤ a → 0 ≤ n → a + n ≤ zlen f → read_at (file_write f pos buf) a n = read_at f a n.
Proof. intros. rewrite file_write_end by done. by rewrite read_at_app_l. Qed.
Lemma read_file_write_new f pos buf :
  zlen f ≤ pos → read_at (file_write f pos buf) pos (zlen buf) = buf.
Proof.
  intros H. rewrite file_write_end by done. pose proof (zlen_nonneg f).
  rewrite (assoc_L (++)), read_at_app_r by (rewrite zlen_app, zlen_replicate; lia).
  rewrite zlen_app, zlen_replicate by lia. replace (pos - _) with 0 by lia. by apply read_at_all.
Qed.
Lemma file_write_start f buf : file_write f 0 buf = buf ++ drop (length buf) f.
Proof.
  unfold file_write, write_at. pose proof (zlen_nonneg f).
  replace (Z.to_nat (0 - zlen f)) with 0%nat by lia. cbn [replicate Z.to_nat take app Nat.add].
  by rewrite app_nil_r.
Qed.
Lemma read_file_write_start f buf a n :
  zlen buf ≤ a → read_at (file_write f 0 buf) a n = read_at f a n.
Proof.
  intros H. rewrite file_write_start, read_at_app_r by done. unfold read_at. rewrite drop_drop.
  do 2 f_equal. pose proof (zlen_nonneg buf). unfold zlen in *. lia.
Qed.

Lemma Read_Ok fd pos n :
  0 ≤ pos → 0 ≤ n → pos + n ≤ zlen fd → Read fd pos n = Done (read_at fd pos n, pos + n).
Proof.
  intros. unfold Read. rewrite (proj2 (Z.ltb_ge n 0)) by lia.
  by rewrite read_at_length, Z.eqb_refl by lia.
Qed.
Lemma Write_Ok f pos buf n :
  0 ≤ n → zlen buf = n →
  Write (mkFile f pos true) buf n = Done (mkFile (file_write f pos buf) (pos + n) true).
Proof.
  intros H <-. unfold Write. cbn. rewrite (proj2 (Z.ltb_ge (zlen buf) 0)) by lia.
  by rewrite Z.eqb_refl.
Qed.

(** *** The sections *)
Inductive kind := Empty | Text | Data | Bss | Unknown.
#[export] Instance kind_eq_dec : EqDecision kind.
Proof. solve_decision. Defined.
Definition kind_of (s : scnhdr) : kind :=
  if s_size s =? 0 then Empty
  else if is_named s ".text" then Text
  else if is_named s ".data" || is_named s ".rdata" then Data
  else if is_named s ".bss" || is_named s ".sbss" then Bss
  else Unknown.
Abbreviation of_kind K l := (filter (λ s, kind_of s = K) l).

(** The bytes that are copied. *)
Definition copied (s : scnhdr) : Z := match kind_of s with Text | Data => s_size s | _ => 0 end.
Fixpoint total (l : list scnhdr) : Z := match l with [] => 0 | s :: l => copied s + total l end.
Lemma total_app l1 l2 : total (l1 ++ l2) = total l1 + total l2.
Proof. induction l1 as [|s l1 IH]; cbn; lia. Qed.

(** A section that can be copied from the file. *)
Definition section_ok (fdIn : list Z) (s : scnhdr) : Prop :=
  0 ≤ s_size s < 2 ^ 31 ∧ is_s32 (s_paddr s) ∧ kind_of s ≠ Unknown ∧
  (kind_of s = Text ∨ kind_of s = Data → 0 ≤ s_scnptr s ∧ s_scnptr s + s_size s ≤ zlen fdIn).
Lemma total_nonneg fdIn l : Forall (section_ok fdIn) l → 0 ≤ total l.
Proof.
  induction 1 as [|s l (H & _ & _) _ IH]; cbn; [lia|]. unfold copied. case_match; lia.
Qed.

(** The segment [g] of the header holds the section of [l], if there is one. *)
Definition holds_section (fdIn out : list Z) (l : list scnhdr) (g : Segment) : Prop :=
  match l with
  | [] => seg_size g = 0
  | [s] =>
      virtualAddr g = s_paddr s ∧ seg_size g = s_size s ∧ sizeof_noff ≤ inFileAddr g ∧
      inFileAddr g + s_size s ≤ zlen out ∧ read_at out (inFileAddr g) (s_size s) = read_at fdIn (s_scnptr s) (s_size s)
  | _ => False
  end.
Definition holds_bss (l : list scnhdr) (g : Segment) : Prop :=
  match l with
  | [] => seg_size g = 0
  | [s] => virtualAddr g = s_paddr s ∧ seg_size g = s_size s
  | _ => False
  end.

Definition segment_s32 (g : Segment) : Prop := Forall is_s32 (segment_ints g).
Lemma segment_s32_intro a b c : is_s32 a → is_s32 b → is_s32 c → segment_s32 (mkSegment a b c).
Proof. intros Ha Hb Hc. do 3 (constructor; [done|]). constructor. Qed.

(** After the sections [pre]. *)
Record converted (fdIn : list Z) (pre : list scnhdr) (c : conv) : Prop := {
  cv_magic : noffMagic (noffH c) = NOFFMAGIC;
  cv_end : inNoffFile c = sizeof_noff + total pre;
  cv_file : ∃ f, fdOut c = mkFile f (inNoffFile c) true ∧ zlen f ≤ inNoffFile c;
  cv_pos : 0 ≤ in_pos c;
  cv_ints : segment_s32 (code (noffH c)) ∧ segment_s32 (initData (noffH c)) ∧ segment_s32 (uninitData (noffH c));
  cv_code : holds_section fdIn (contents (fdOut c)) (of_kind Text pre) (code (noffH c));
  cv_data : holds_section fdIn (contents (fdOut c)) (of_kind Data pre) (initData (noffH c));
  cv_bss : holds_bss (of_kind Bss pre) (uninitData (noffH c))
}.

Lemma holds_write fdIn f pos buf l g :
  zlen f ≤ pos → 0 ≤ pos → Forall (λ s, 0 ≤ s_size s) l → holds_section fdIn f l g →
  holds_section fdIn (file_write f pos buf) l g.
Proof.
  intros Hf Hp Hl. destruct l as [|s [|]]; [done| |done]. cbn. apply Forall_cons_1 in Hl as [Hs _].
  intros (H1 & H2 & H3 & H4 & H5). pose proof (zlen_nonneg buf). unfold sizeof_noff in *.
  rewrite zlen_file_write, read_file_write_old by lia. split_and!; try done; lia.
Qed.

Lemma copy_section_ok fdIn s c pre h :
  converted fdIn pre c → section_ok fdIn s → kind_of s = Text ∨ kind_of s = Data →
  0 ≤ total pre → sizeof_noff + total pre + s_size s < 2 ^ 31 →
  ∃ pos f, copy_section fdIn s c h = Done (mkConv h (inNoffFile c + s_size s) pos (mkFile f (inNoffFile c + s_size s) true)) ∧
    0 ≤ pos ∧ zlen f = inNoffFile c + s_size s ∧
    read_at f (inNoffFile c) (s_size s) = read_at fdIn (s_scnptr s) (s_size s) ∧
    ∀ l g, Forall (λ s, 0 ≤ s_size s) l → holds_section fdIn (contents (fdOut c)) l g → holds_section fdIn f l g.
Proof.
  intros [_ Hend (f & Hf & Hlen) Hpos _ _ _ _] (Hs & _ & _ & Hin) Hk Ht Hsmall. destruct (Hin Hk) as [Hp Hl].
  unfold sizeof_noff in *. unfold copy_section, lseek. rewrite (proj2 (Z.ltb_ge (s_scnptr s) 0)) by lia.
  rewrite Read_Ok by lia. cbn [mbind outcome_bind]. rewrite Hf.
  rewrite Write_Ok by (try rewrite read_at_length; lia). cbn [mbind outcome_bind].
  rewrite s32_small by (unfold is_s32; lia).
  assert (zlen (read_at fdIn (s_scnptr s) (s_size s)) = s_size s) as Hr by (apply read_at_length; lia).
  eexists _, _. split; [reflexivity|]. rewrite zlen_file_write, Hr by done. split_and!; [lia|done| |].
  - rewrite <-Hr at 2. by apply read_file_write_new.
  - intros l g HF Hg. cbn in Hg. apply holds_write; [done|lia|done|done].
Qed.

Lemma of_kind_snoc K pre s :
  of_kind K (pre ++ [s]) = of_kind K pre ++ (if decide (kind_of s = K) then [s] else []).
Proof. by rewrite list.filter_app. Qed.

Lemma of_kind_sizes fdIn K pre : Forall (section_ok fdIn) pre → Forall (λ s, 0 ≤ s_size s) (of_kind K pre).
Proof.
  intros H. apply list.Forall_forall. intros s [_ Hs]%list_elem_of_filter.
  apply (proj1 (list.Forall_forall _ _) H) in Hs as [? _]. lia.
Qed.
Lemma first_of_kind K pre s :
  kind_of s = K → (length (of_kind K (pre ++ [s])) ≤ 1)%nat → of_kind K pre = [].
Proof.
  intros Hk. rewrite of_kind_snoc, decide_True by done. rewrite length_app. cbn.
  destruct (of_kind K pre); [done|]. cbn. lia.
Qed.
Lemma no_more_of_kind K pre s : kind_of s ≠ K → of_kind K (pre ++ [s]) = of_kind K pre.
Proof. intros Hk. by rewrite of_kind_snoc, decide_False, app_nil_r. Qed.

Lemma step_kind fdIn s c :
  section_step fdIn s c =
    let h := noffH c in
    let seg := mkSegment (s_paddr s) (inNoffFile c) (s_size s) in
    let u := uninitData h in
    let set u := Done (mkConv (mkNoff (noffMagic h) (code h) (initData h) u) (inNoffFile c) (in_pos c) (fdOut c)) in
    match kind_of s with
    | Empty => Done c
    | Text => copy_section fdIn s c (mkNoff (noffMagic h) seg (initData h) (uninitData h))
    | Data =>
        if negb (seg_size (initData h) =? 0) then Exit Both_data_and_rdata
        else copy_section fdIn s c (mkNoff (noffMagic h) (code h) seg (uninitData h))
    | Bss =>
        if negb (seg_size u =? 0) then
          if s_paddr s =? s32 (virtualAddr u + seg_size u) then Exit Both_bss_and_sbss
          else set (mkSegment (virtualAddr u) (inFileAddr u) (s32 (seg_size u + s_size s)))
        else set (mkSegment (s_paddr s) (inFileAddr u) (s_size s))
    | Unknown => Exit Unknown_segment
    end.
Proof. unfold section_step, kind_of. repeat case_match; done. Qed.

(** At most one section of each kind. *)
Definition single (l : list scnhdr) : Prop :=
  ∀ K, K = Text ∨ K = Data ∨ K = Bss → (length (of_kind K l) ≤ 1)%nat.

Lemma section_step_ok fdIn s c pre :
  converted fdIn pre c → Forall (section_ok fdIn) (pre ++ [s]) → single (pre ++ [s]) →
  sizeof_noff + total (pre ++ [s]) < 2 ^ 31 →
  ∃ c', section_step fdIn s c = Done c' ∧ converted fdIn (pre ++ [s]) c'.
Proof.
  intros Hc HF Hsingle Hsmall. apply Forall_app in HF as [HF Hs]. apply Forall_cons_1 in Hs as [Hs _].
  pose proof (total_nonneg _ _ HF) as Ht. pose proof (of_kind_sizes fdIn) as Hsz.
  pose proof Hc as [Hm He (f & Hf & Hlen) Hp (Hi1 & Hi2 & Hi3) Hcode Hdata Hbss].
  pose proof Hs as (Hsize & Haddr & Hknown & _).
  assert (is_s32 (s_size s)) as Hsize32 by (unfold is_s32; lia).
  rewrite total_app in Hsmall. cbn [total] in Hsmall. rewrite step_kind. cbv zeta.
  destruct (kind_of s) eqn:Hk.
  - exists c. split; [done|].
    split; rewrite ?total_app, ?no_more_of_kind by congruence; try done; [|eauto].
    cbn. unfold copied. rewrite Hk. lia.
  - unfold copied in Hsmall. rewrite Hk in Hsmall.
    destruct (copy_section_ok fdIn s c pre (mkNoff (noffMagic (noffH c))
      (mkSegment (s_paddr s) (inNoffFile c) (s_size s)) (initData (noffH c)) (uninitData (noffH c))))
      as (pos & f' & Hcopy & Hpos & Hl & Hread & Hkeep); [done|done|auto|done|lia|].
    eexists. split; [exact Hcopy|].
    split; cbn [noffH inNoffFile in_pos fdOut noffMagic code initData uninitData contents]; try done.
    + rewrite total_app. cbn. unfold copied. rewrite Hk. lia.
    + exists f'. split; [done|lia].
    + split; [apply segment_s32_intro; [done|unfold is_s32, sizeof_noff in *; lia|done]|done].
    + rewrite of_kind_snoc, decide_True, (first_of_kind Text pre s) by auto. cbn.
      split_and!; try done; unfold sizeof_noff in *; lia.
    + rewrite no_more_of_kind by congruence. eauto.
    + by rewrite no_more_of_kind by congruence.
  - unfold copied in Hsmall. rewrite Hk in Hsmall.
    assert (of_kind Data pre = []) as Hnone by (apply (first_of_kind Data pre s); auto).
    rewrite Hnone in Hdata. cbn in Hdata. rewrite Hdata. cbn [negb Z.eqb].
    destruct (copy_section_ok fdIn s c pre (mkNoff (noffMagic (noffH c)) (code (noffH c))
      (mkSegment (s_paddr s) (inNoffFile c) (s_size s)) (uninitData (noffH c))))
      as (pos & f' & Hcopy & Hpos & Hl & Hread & Hkeep); [done|done|auto|done|lia|].
    eexists. split; [exact Hcopy|].
    split; cbn [noffH inNoffFile in_pos fdOut noffMagic code initData uninitData contents]; try done.
    + rewrite total_app. cbn. unfold copied. rewrite Hk. lia.
    + exists f'. split; [done|lia].
    + split_and!; [done|apply segment_s32_intro; [done|unfold is_s32, sizeof_noff in *; lia|done]|done].
    + rewrite no_more_of_kind by congruence. eauto.
    + rewrite of_kind_snoc, decide_True, Hnone by done. cbn.
      split_and!; try done; unfold sizeof_noff in *; lia.
    + by rewrite no_more_of_kind by congruence.
  - assert (of_kind Bss pre = []) as Hnone by (apply (first_of_kind Bss pre s); auto).
    rewrite Hnone in Hbss. cbn in Hbss. rewrite Hbss. cbn [negb Z.eqb]. eexists. split; [reflexivity|].
    split; cbn [noffH inNoffFile in_pos fdOut noffMagic code initData uninitData contents]; try done.
    + rewrite total_app. cbn. unfold copied. rewrite Hk. lia.
    + eauto.
    + split_and!; [done|done|]. apply segment_s32_intro; [done| |done].
      by do 2 apply Forall_cons_1 in Hi3 as [? Hi3].
    + by rewrite no_more_of_kind by congruence.
    + by rewrite no_more_of_kind by congruence.
    + by rewrite of_kind_snoc, decide_True, Hnone by done.
  - done.
Qed.

Lemma sections_loop_ok fdIn post pre c :
  converted fdIn pre c → Forall (section_ok fdIn) (pre ++ post) → single (pre ++ post) →
  sizeof_noff + total (pre ++ post) < 2 ^ 31 →
  ∃ c', sections_loop fdIn post c = Done c' ∧ converted fdIn (pre ++ post) c'.
Proof.
  revert pre c. induction post as [|s post IH]; intros pre c Hc HF Hs Ht.
  - exists c. by rewrite app_nil_r.
  - rewrite cons_middle, (assoc_L (++)) in HF, Hs, Ht |- *. pose proof HF as [HF1 HF2]%Forall_app.
    destruct (section_step_ok fdIn s c pre Hc HF1) as (c1 & E & Hc1).
    + intros K HK. specialize (Hs K HK). rewrite list.filter_app, length_app in Hs. lia.
    + rewrite total_app in Ht. pose proof (total_nonneg _ _ HF2). lia.
    + cbn [sections_loop]. rewrite E. by apply IH.
Qed.

(** ** Whole files *)

(** The section headers of a file. *)
Definition numsections_of (fdIn : list Z) : Z := ushort_at (read_at fdIn 0 sizeof_filehdr) 2.
Definition sections_of (fdIn : list Z) : list scnhdr :=
  let n := numsections_of fdIn in
  let b := read_at fdIn (sizeof_filehdr + sizeof_aouthdr) (n * sizeof_scnhdr) in
  (λ i, scnhdr_of (drop (Z.to_nat (i * sizeof_scnhdr)) b)) <$> seqZ 0 n.

(** A COFF file the converter accepts. *)
Record coff_ok (fdIn : list Z) : Prop := {
  co_magic : ushort_at (read_at fdIn 0 sizeof_filehdr) 0 = MIPSELMAGIC;
  co_omagic : short_at (read_at fdIn sizeof_filehdr sizeof_aouthdr) 0 = OMAGIC;
  co_count : 0 ≤ numsections_of fdIn;
  co_length : sizeof_filehdr + sizeof_aouthdr + numsections_of fdIn * sizeof_scnhdr ≤ zlen fdIn;
  co_sections : Forall (section_ok fdIn) (sections_of fdIn);
  co_single : single (sections_of fdIn);
  co_small : sizeof_noff + total (sections_of fdIn) < 2 ^ 31
}.

(** The fields of the local variable before it is initialised. *)
Definition garbage_ok (h : NoffHeader) : Prop :=
  segment_s32 (code h) ∧ segment_s32 (initData h) ∧ segment_s32 (uninitData h).

Lemma converted_start fdIn garbage pos :
  garbage_ok garbage → 0 ≤ pos →
  converted fdIn [] (mkConv (noff_init garbage) sizeof_noff pos (mkFile [] sizeof_noff true)).
Proof.
  intros (H1 & H2 & H3) Hp. split; try done; cbn.
  - exists []. by split.
  - assert (∀ g, segment_s32 g → segment_s32 (mkSegment (virtualAddr g) (inFileAddr g) 0)) as H.
    { intros g Hg. apply Forall_cons_1 in Hg as [? Hg]. apply Forall_cons_1 in Hg as [? _].
      by apply segment_s32_intro. }
    auto.
Qed.

Lemma coff2noff_run garbage argc fdIn :
  2 ≤ argc → coff_ok fdIn → garbage_ok garbage →
  ∃ c, coff2noff garbage argc (Some fdIn) true =
         Done (file_write (contents (fdOut c)) 0 (noff_bytes (noffH c))) ∧
       converted fdIn (sections_of fdIn) c.
Proof.
  intros Hargc [H1 H2 H3 H4 H5 H6 H7] Hg. unfold coff2noff. rewrite (proj2 (Z.ltb_ge argc 2)) by lia.
  unfold sizeof_filehdr, sizeof_aouthdr, sizeof_scnhdr in *.
  rewrite Read_Ok by lia. cbn [mbind outcome_bind]. unfold ShortToHost. rewrite H1. cbn [negb Z.eqb].
  rewrite Read_Ok by lia. cbn [mbind outcome_bind]. change (0 + 20) with 20. rewrite H2. cbn [negb Z.eqb].
  fold (numsections_of fdIn) in *. change (ushort_at _ 2) with (numsections_of fdIn).
  rewrite Read_Ok by lia. cbn [mbind outcome_bind].
  destruct (sections_loop_ok fdIn (sections_of fdIn) [] (mkConv (noff_init garbage) sizeof_noff
    (20 + 56 + numsections_of fdIn * 40) (mkFile [] sizeof_noff true))) as (c & Hc & Hconv);
    [by apply converted_start; [|lia]|done..|].
  exists c. split; [|done]. rewrite !Z.eqb_refl. cbn [negb].
  change ((λ i, scnhdr_of _) <$> _) with (sections_of fdIn). rewrite Hc. cbn [mbind outcome_bind].
  destruct Hconv as [_ _ (f & -> & _) _ _ _ _ _]. cbn [contents writable].
  rewrite Write_Ok; [done|done|]. unfold noff_bytes. rewrite zlen_enc_ints. done.
Qed.

Lemma noff_of_bytes h rest :
  Forall is_s32 (noff_ints h) → noff_of (read_at (noff_bytes h ++ rest) 0 sizeof_noff) = h.
Proof.
  intros HF. rewrite read_at_app_l, read_at_all by (unfold noff_bytes; rewrite ?zlen_enc_ints; done).
  assert (∀ i o x, o = 4 * i → znth (noff_ints h) i = Some x → int_at (noff_bytes h) o = x) as H.
  { intros i o x -> Hi. apply int_at_enc; [done|]. by apply (Forall_znth _ _ _ _ HF Hi). }
  unfold noff_of. destruct h as [m [c1 c2 c3] [d1 d2 d3] [u1 u2 u3]].
  change (4 + 4) with 8. change (4 + 8) with 12. change (16 + 4) with 20. change (16 + 8) with 24.
  change (28 + 4) with 32. change (28 + 8) with 36.
  by rewrite (H 0 0 m), (H 1 4 c1), (H 2 8 c2), (H 3 12 c3), (H 4 16 d1), (H 5 20 d2), (H 6 24 d3),
    (H 7 28 u1), (H 8 32 u2), (H 9 36 u3).
Qed.

(** A program in a COFF file: code [t], initialised data [d] and perhaps uninitialised
    data, which fit into the address space of the loader. *)
Definition bss_size (u : list scnhdr) : Z := foldr Z.add 0 (s_size <$> u).
Record coff_program (fdIn : list Z) (t d : scnhdr) (u : list scnhdr) : Prop := {
  cp_text : of_kind Text (sections_of fdIn) = [t];
  cp_data : of_kind Data (sections_of fdIn) = [d];
  cp_bss : of_kind Bss (sections_of fdIn) = u;
  cp_space : s_size t ≤ s_paddr d ∧ s_paddr d ≤ s_size t + bss_size u + UserStackSize;
  cp_small : s_size t + s_size d + bss_size u < 2 ^ 30
}.

(** The output is an executable for the loader, whose segments are the sections. *)
Lemma coff2noff_executable garbage argc fdIn t d u :
  2 ≤ argc → coff_ok fdIn → garbage_ok garbage → coff_program fdIn t d u →
  ∃ exe h, coff2noff garbage argc (Some fdIn) true = Done exe ∧ executable_ok exe h ∧
    seg_size (code h) = s_size t ∧ seg_size (initData h) = s_size d ∧ seg_size (uninitData h) = bss_size u ∧
    virtualAddr (initData h) = s_paddr d ∧
    read_at exe (inFileAddr (code h)) (s_size t) = read_at fdIn (s_scnptr t) (s_size t) ∧
    read_at exe (inFileAddr (initData h)) (s_size d) = read_at fdIn (s_scnptr d) (s_size d).
Proof.
  intros Hargc Hcoff Hg [Ht Hd Hu [Hs1 Hs2] Hsmall].
  destruct (coff2noff_run garbage argc fdIn Hargc Hcoff Hg) as (c & Hrun & [Hm He (f & Hf & Hlen) _ Hi Hc Hdt Hb]).
  rewrite Ht in Hc. rewrite Hd in Hdt. rewrite Hu in Hb. rewrite Hf in Hc, Hdt, Hrun.
  cbn [holds_section contents] in Hc, Hdt, Hrun.
  destruct Hc as (Hc1 & Hc2 & Hc3 & Hc4 & Hc5). destruct Hdt as (Hd1 & Hd2 & Hd3 & Hd4 & Hd5).
  assert (∀ K s, of_kind K (sections_of fdIn) = [s] → K ≠ Empty → 0 < s_size s) as Hpos.
  { intros K s Hs HK. assert (s ∈ of_kind K (sections_of fdIn)) as Hin by (rewrite Hs; set_solver).
    apply list_elem_of_filter in Hin as [Hk Hin].
    apply (proj1 (list.Forall_forall _ _) (co_sections _ Hcoff)) in Hin as (? & _).
    unfold kind_of in Hk. destruct (Z.eqb_spec (s_size s) 0); [congruence|lia]. }
  pose proof (Hpos _ _ Ht ltac:(done)). pose proof (Hpos _ _ Hd ltac:(done)).
  assert (seg_size (uninitData (noffH c)) = bss_size u ∧ 0 ≤ bss_size u) as [Hbs Hbp].
  { destruct u as [|b [|]]; [done| |done]. destruct Hb as [_ ->]. cbn.
    pose proof (Hpos _ _ Hu ltac:(done)). lia. }
  assert (zlen (noff_bytes (noffH c)) = sizeof_noff) as Hhl by (unfold noff_bytes; by rewrite zlen_enc_ints).
  assert (zlen (file_write f 0 (noff_bytes (noffH c))) = zlen f) as Hfl.
  { rewrite file_write_start. unfold zlen, sizeof_noff in *. rewrite length_app, length_drop. lia. }
  eexists _, (noffH c). split; [exact Hrun|]. unfold sizeof_noff in *.
  rewrite !read_file_write_start by lia. split_and!; try done.
  split; rewrite ?Hfl; unfold sizeof_noff; try lia.
  - rewrite file_write_start. apply noff_of_bytes. destruct Hi as (? & ? & ?). unfold noff_ints.
    constructor; [by rewrite Hm|]. by repeat apply Forall_app_2.
Qed.


(** ** Examples *)
Definition scnhdr_bytes (name : string) (paddr size scnptr : Z) : list Z :=
  take 8 (chars name ++ replicate 8 0) ++ enc_ints [paddr; paddr; size; scnptr; 0; 0; 0; 0].
Definition coff_bytes (headers : list (list Z)) (data : list Z) : list Z :=
  le_split 2 MIPSELMAGIC ++ le_split 2 (zlen headers) ++ replicate 16 0 ++
  le_split 2 OMAGIC ++ replicate 54 0 ++ concat headers ++ data.

(** Data before code, an empty section, and uninitialised data. *)
Definition example_coff : list Z :=
  coff_bytes [scnhdr_bytes ".data" 8 4 244; scnhdr_bytes ".rdata" 0 0 0; scnhdr_bytes ".text" 0 8 236;
              scnhdr_bytes ".bss" 12 16 0] [1; 2; 3; 4; 5; 6; 7; 8; 9; 10; 11; 12].
Definition example_garbage : NoffHeader := mkNoff 7 (mkSegment 7 7 7) (mkSegment 7 7 7) (mkSegment 7 7 7).

Definition example_sections : list scnhdr :=
  scnhdr_of <$> [scnhdr_bytes ".data" 8 4 244; scnhdr_bytes ".rdata" 0 0 0; scnhdr_bytes ".text" 0 8 236;
                 scnhdr_bytes ".bss" 12 16 0].
Lemma example_coff_ok : coff_ok example_coff.
Proof.
  assert (sections_of example_coff = example_sections) as HS by (vm_compute; reflexivity).
  assert (total example_sections = 12) as HT by (vm_compute; reflexivity).
  assert (zlen example_coff = 248) as HL by (vm_compute; reflexivity).
  split; rewrite ?HS.
  - vm_compute; reflexivity.
  - vm_compute; reflexivity.
  - vm_compute; discriminate.
  - vm_compute; discriminate.
  - repeat constructor; unfold is_s32; rewrite ?HL; try (vm_compute; (reflexivity || discriminate));
      intros _; vm_compute; discriminate.
  - intros K [->|[->| ->]]; apply Nat.leb_le; vm_compute; reflexivity.
  - rewrite HT. done.
Qed.


(** The test whether uninitialised data in two sections is contiguous is inverted:
    contiguous sections are refused, and sections with a gap are merged into a segment
    that does not reach the end of the second. *)
Theorem bss_test_inverted :
  coff2noff example_garbage 3
    (Some (coff_bytes [scnhdr_bytes ".bss" 0 16 0; scnhdr_bytes ".sbss" 16 4 0] [])) true = Exit Both_bss_and_sbss ∧
  match coff2noff example_garbage 3
    (Some (coff_bytes [scnhdr_bytes ".bss" 0 16 0; scnhdr_bytes ".sbss" 1000 4 0] [])) true with
  | Done exe => uninitData (noff_of exe) = mkSegment 0 7 20
  | Exit _ => False
  end.
Proof. split; vm_compute; reflexivity. Qed.
