(* ===== verification/Execute.v ===== *)
(** * The MIPS interpreter of bin/: bin/execute.c, bin/system.c, bin/instr.h, bin/int.h

    A second simulator of the same processor, which runs an object file under UNIX:
    [runprogram], one round of its loop and each case of its [switch], and the system
    calls.  Memory is the array [mem] of [MEMSIZE] bytes at the address [memoffset];
    what [&(mem-memoffset)[addr]] finds outside of it is undefined.  [int]s wrap at 32
    bits; a shift by more than 31 and a division by zero are undefined.  Tracing
    ([TRACE], [Traptrace]) is off.  ExecuteProps.v compares it with the simulator of
    Mips.v. *)

From S2P Require Import Prelude Machine Mips.
#[local] Open Scope Z_scope.

(** ** Instruction formats (instr.h); [instr] is an [int] *)
Definition i_rd (i : Z) : Z := Z.land (Z.shiftr i 11) 31.
Definition i_rt (i : Z) : Z := Z.land (Z.shiftr i 16) 31.
Definition i_rs (i : Z) : Z := Z.land (Z.shiftr i 21) 31.
Definition i_shamt (i : Z) : Z := Z.land (Z.shiftr i 6) 31.
Definition i_immed (i : Z) : Z :=
  if nonzero (Z.land i 32768) then Z.lor i (-32768) else Z.land i 32767.

(** ** The state *)
Definition MEMSIZE : Z := 16777216.
Definition memoffset : Z := 268435456.

(** [Reg], [HI], [LO], the local variables [pc] and [npc] of [runprogram], and [mem]. *)
Record cpu := mkCpu { Reg : list Z; HI : Z; LO : Z; pc : Z; npc : Z; mem : list Z }.

Definition set_Reg (c : cpu) (l : list Z) : cpu := mkCpu l (HI c) (LO c) (pc c) (npc c) (mem c).
Definition set_HILO (c : cpu) (hi lo : Z) : cpu := mkCpu (Reg c) hi lo (pc c) (npc c) (mem c).
Definition set_npc (c : cpu) (a : Z) : cpu := mkCpu (Reg c) (HI c) (LO c) (pc c) a (mem c).
Definition set_pcs (c : cpu) (a b : Z) : cpu := mkCpu (Reg c) (HI c) (LO c) a b (mem c).
Definition set_mem (c : cpu) (m : list Z) : cpu := mkCpu (Reg c) (HI c) (LO c) (pc c) (npc c) m.

(** The memory accesses of int.h: [n] bytes at [addr], as a number. *)
Definition bytes_of (c : cpu) (addr n : Z) : result Z :=
  let a := addr - memoffset in
  if (0 <=? a) && (a + n <=? zlen (mem c)) then Ok (le_combine (read_at (mem c) a n)) else Stop Undefined.
Definition sext (w x : Z) : Z := (x + 2 ^ (w - 1)) mod 2 ^ w - 2 ^ (w - 1).
Definition fetch (c : cpu) (addr : Z) : result Z := x ← bytes_of c addr 4; Ok (s32 x).
Definition sfetch (c : cpu) (addr : Z) : result Z := x ← bytes_of c addr 2; Ok (sext 16 x).
Definition usfetch (c : cpu) (addr : Z) : result Z := bytes_of c addr 2.
Definition cfetch (c : cpu) (addr : Z) : result Z := x ← bytes_of c addr 1; Ok (sext 8 x).
Definition ucfetch (c : cpu) (addr : Z) : result Z := bytes_of c addr 1.
Definition store_bytes (c : cpu) (addr n i : Z) : result cpu :=
  let a := addr - memoffset in
  if (0 <=? a) && (a + n <=? zlen (mem c))
  then Ok (set_mem c (write_at (mem c) a (le_split (Z.to_nat n) i))) else Stop Undefined.

(** How a case of the [switch] ends: [Some] for [break], [None] for [exit]. *)
Definition break_with (c : cpu) : result (option cpu) := Ok (Some c).
Definition unimplemented : result (option cpu) := Ok None.
Definition assign (c : cpu) (r v : Z) : result (option cpu) := l ← aset (Reg c) r v; break_with (set_Reg c l).
Definition shl (x n : Z) : result Z := if (0 <=? n) && (n <? 32) then Ok (s32 (Z.shiftl x n)) else Stop Undefined.
Definition shr (x n : Z) : result Z := if (0 <=? n) && (n <? 32) then Ok (Z.shiftr x n) else Stop Undefined.

(** ** System calls (system.c)

    [unix] stands for the calls of UNIX: the number, the three arguments and the memory
    give the value returned and the new memory. *)
Section interpreter.
Context (unix : Z → Z → Z → Z → list Z → Z * list Z).

Definition system_trap (c : cpu) : result (option cpu) :=
  syscallno ← aget (Reg c) 2;
  o0 ← aget (Reg c) 4;
  o1 ← aget (Reg c) 5;
  o2 ← aget (Reg c) 6;
  let call o1 := let '(r, m) := unix syscallno o0 o1 o2 (mem c) in assign (set_mem c m) 1 r in
  match syscallno with
  | 1 => Ok None
  | 3 | 4 | 5 | 19 | 62 | 64 => call o1
  | 6 => assign c 1 0
  | 17 => assign c 1 (s32 ((Z.quot o0 8192 + 1) * 8192))
  | 54 =>
      let size := Z.land (Z.shiftr o1 16) 127 in
      let ioctl_group := sext 8 (Z.land (Z.shiftr o1 8) 255) in
      let o1 := if (ioctl_group =? 116) && (size =? 8)
                then Z.lor (Z.land o1 (Z.lnot (Z.shiftl 127 16))) (Z.shiftl 6 16) else o1 in
      r ← call o1;
      match r with Some c => assign c 1 0 | None => Ok None end
  | _ => Ok None
  end.

(** ** The cases of [I_SPECIAL] *)

(** The product of two words: the high word is computed without the carries. *)
Definition mult_hi (t1 t2 : Z) : Z :=
  let t1l := Z.land t1 65535 in
  let t1h := Z.land (Z.shiftr t1 16) 65535 in
  let t2l := Z.land t2 65535 in
  let t2h := Z.land (Z.shiftr t2 16) 65535 in
  s32 (s32 (t1h * t2h) + Z.shiftr (s32 (t1h * t2l)) 16 + Z.shiftr (s32 (t2h * t1l)) 16).

Definition exec_mult (t1 t2 : Z) (c : cpu) : cpu :=
  let neg := xorb (t1 <? 0) (t2 <? 0) in
  let t1 := if t1 <? 0 then s32 (- t1) else t1 in
  let t2 := if t2 <? 0 then s32 (- t2) else t2 in
  let lo := s32 (t1 * t2) in
  let hi := mult_hi t1 t2 in
  if neg then
    let hi := Z.lnot hi in
    let lo := s32 (Z.lnot lo + 1) in
    set_HILO c (if lo =? 0 then s32 (hi + 1) else hi) lo
  else set_HILO c hi lo.

Definition exec_special (instr xpc : Z) (c : cpu) : result (option cpu) :=
  s ← aget (Reg c) (i_rs instr);
  t ← aget (Reg c) (i_rt instr);
  let d := i_rd instr in
  match Z.land instr 63 with
  | 0 => x ← shl t (i_shamt instr); assign c d x
  | 2 => x ← shr (u32 t) (i_shamt instr); assign c d (s32 x)
  | 3 => x ← shr t (i_shamt instr); assign c d x
  | 4 => x ← shl t s; assign c d x
  | 6 => x ← shr (u32 t) s; assign c d (s32 x)
  | 7 => x ← shr t s; assign c d x
  | 8 => break_with (set_npc c s)
  | 9 => assign (set_npc c s) d (s32 (xpc + 8))
  | 12 | 13 => system_trap c
  | 16 => assign c d (HI c)
  | 17 => break_with (set_HILO c s (LO c))
  | 18 => assign c d (LO c)
  | 19 => break_with (set_HILO c (HI c) s)
  | 24 => break_with (exec_mult s t c)
  | 25 => break_with (set_HILO c (mult_hi s t) (s32 (s * t)))
  | 26 =>
      if (t =? 0) || ((s =? - 2 ^ 31) && (t =? -1)) then Stop Undefined
      else break_with (set_HILO c (Z.rem s t) (Z.quot s t))
  | 27 =>
      if u32 t =? 0 then Stop Undefined
      else break_with (set_HILO c (s32 (u32 s mod u32 t)) (s32 (u32 s / u32 t)))
  | 32 | 33 => assign c d (s32 (s + t))
  | 34 | 35 => assign c d (s32 (s - t))
  | 36 => assign c d (Z.land s t)
  | 37 => assign c d (Z.lor s t)
  | 38 => assign c d (Z.lxor s t)
  | 39 => assign c d (Z.lnot (Z.lor s t))
  | 42 => assign c d (b2z (s <? t))
  | 43 => assign c d (b2z (u32 s <? u32 t))
  | _ => unimplemented
  end.

(** ** The other cases *)
Definition branch_to (instr xpc : Z) (taken : bool) (c : cpu) : cpu :=
  if taken then set_npc c (s32 (xpc + 4 + s32 (Z.shiftl (i_immed instr) 2))) else c.
Definition jump_to (instr xpc : Z) (c : cpu) : cpu :=
  set_npc c (s32 (Z.lor (Z.land (u32 xpc) 4026531840) (Z.shiftl (Z.land instr 67108863) 2))).
Definition link_31 (xpc : Z) (c : cpu) : result cpu :=
  l ← aset (Reg c) 31 (s32 (xpc + 8)); Ok (set_Reg c l).

Definition exec_bcond (instr xpc : Z) (c : cpu) : result (option cpu) :=
  let go (neg : bool) c :=
    s ← aget (Reg c) (i_rs instr);
    break_with (branch_to instr xpc (if neg then s <? 0 else s >=? 0) c) in
  match i_rt instr with
  | 0 => go true c
  | 1 => go false c
  | 16 => c ← link_31 xpc c; go true c
  | 17 => c ← link_31 xpc c; go false c
  | _ => unimplemented
  end.

Definition exec_other (instr xpc : Z) (c : cpu) : result (option cpu) :=
  s ← aget (Reg c) (i_rs instr);
  t ← aget (Reg c) (i_rt instr);
  let im := i_immed instr in
  let i := s32 (s + im) in
  let put v := assign c (i_rt instr) v in
  match Z.land (Z.shiftr instr 26) 63 with
  | 2 => break_with (jump_to instr xpc c)
  | 3 => c ← link_31 xpc c; break_with (jump_to instr xpc c)
  | 4 => break_with (branch_to instr xpc (s =? t) c)
  | 5 => break_with (branch_to instr xpc (negb (s =? t)) c)
  | 6 => break_with (branch_to instr xpc (s <=? 0) c)
  | 7 => break_with (branch_to instr xpc (s >? 0) c)
  | 8 | 9 => put i
  | 10 => put (b2z (s <? im))
  | 11 => put (b2z (u32 s <? u32 im))
  | 12 => put (Z.land s im)
  | 13 => put (Z.lor s im)
  | 14 => put (Z.lxor s im)
  | 15 => put (s32 (Z.shiftl instr 16))
  | 32 => x ← cfetch c i; put x
  | 33 => x ← sfetch c i; put x
  | 34 =>
      (* -1 >> n is -1: nothing is masked *)
      let r := Z.land t (Z.shiftr (-1) (8 * Z.land (- i) 3)) in
      x ← fetch c (Z.land i (Z.lnot 3));
      put (Z.lor r (s32 (Z.shiftl x (8 * Z.land i 3))))
  | 35 => x ← fetch c i; put x
  | 36 => x ← ucfetch c i; put x
  | 37 => x ← usfetch c i; put x
  | 38 =>
      let r := Z.land t (s32 (Z.shiftl (-1) (8 * Z.land i 3))) in
      let r := if Z.land i 3 =? 0 then 0 else r in
      x ← fetch c (Z.land i (Z.lnot 3));
      put (Z.lor r (Z.shiftr x (8 * Z.land (- i) 3)))
  | 40 => c ← store_bytes c i 1 t; break_with c
  | 41 => c ← store_bytes c i 2 t; break_with c
  | 43 => c ← store_bytes c i 4 t; break_with c
  | _ => unimplemented
  end.

(** One round of the loop of [runprogram] up to the tracing: [None] when the program
    ends. *)
Definition execute_instr (instr xpc : Z) (c : cpu) : result (option cpu) :=
  if instr =? 0 then break_with c
  else
    match Z.land (Z.shiftr instr 26) 63 with
    | 0 => exec_special instr xpc c
    | 1 => exec_bcond instr xpc c
    | _ => exec_other instr xpc c
    end.
Definition round (c : cpu) : result (option cpu) :=
  let xpc := pc c in
  let c := set_pcs c (npc c) (s32 (npc c + 4)) in
  instr ← fetch c xpc;
  l ← aset (Reg c) 0 0;
  execute_instr instr xpc (set_Reg c l).

(** [n] rounds of the loop, or fewer when the program ends before. *)
Fixpoint rounds (n : nat) (c : cpu) : result (option cpu) :=
  match n with
  | O => break_with c
  | S n => r ← round c; match r with Some c => rounds n c | None => Ok None end
  end.

(** The start of [runprogram]: the stack pointer and the arguments; [argv] are the
    strings without their final 0. *)
Fixpoint push_args (argv : list (list Z)) (aci ai : Z) (c : cpu) : result cpu :=
  match argv with
  | [] => Ok c
  | a :: argv =>
      let o := ai - memoffset in
      if (0 <=? o) && (o + zlen a + 1 <=? zlen (mem c)) then
        c ← store_bytes (set_mem c (write_at (mem c) o (a ++ [0]))) aci 4 ai;
        push_args argv (s32 (aci + 4)) (s32 (ai + zlen a + 1)) c
      else Stop Undefined
  end.
Definition runprogram_start (startpc : Z) (argv : list (list Z)) (c : cpu) : result cpu :=
  let i := MEMSIZE - 1024 + memoffset in
  l ← aset (Reg c) 29 i;
  c ← store_bytes (set_pcs (set_Reg c l) startpc (s32 (startpc + 4))) i 4 (zlen argv);
  push_args argv (i + 4) (i + 4 + 32) c.
End interpreter.

(** ** [ilog2] *)
Definition ilog2_mask (mask k : Z) (s : Z * Z) : Z * Z :=
  let '(i, l) := s in
  let j := Z.land i mask in
  if negb (j =? 0) then (j, l + k) else (i, l).
Definition ilog2 (i : Z) : Z :=
  if i =? 0 then 0
  else
    (ilog2_mask 2863311530 1 (ilog2_mask 3435973836 2 (ilog2_mask 4042322160 4
      (ilog2_mask 4278255360 8 (ilog2_mask 4294901760 16 (u32 i, 1)))))).2.
