(* ===== verification/ExecuteProps.v ===== *)
(** * The two MIPS simulators agree

    The interpreter of bin/execute.c (Execute.v) against the simulator of the kernel
    (Mips.v): for every instruction and operand that [agreeing] accepts, one round of
    the first and [OneInstruction] of the second lead from related states to related
    states.  What [agreeing] leaves out is where one of them deviates from the other;
    the last section has an example of each. *)

From S2P Require Import Prelude Machine Paging UserMemory Mips MipsProps Execute.
#[local] Open Scope Z_scope.

(** ** Fields of an instruction word, as [int] and as [unsigned int] *)
Lemma field_u32 w k m :
  0 ≤ k → 0 ≤ m → k + m ≤ 32 →
  Z.land (Z.shiftr (u32 w) k) (Z.ones m) = Z.land (Z.shiftr w k) (Z.ones m).
Proof.
  intros. apply Z.bits_inj'. intros j Hj. rewrite !Z.land_spec, Z.testbit_ones_nonneg by lia.
  destruct (Z.ltb_spec j m); [|by rewrite !andb_false_r].
  rewrite !Z.shiftr_spec, testbit_u32 by lia. by rewrite (proj2 (Z.ltb_lt (j + k) 32)) by lia.
Qed.
Lemma low_u32 w m : 0 ≤ m ≤ 32 → Z.land (u32 w) (Z.ones m) = Z.land w (Z.ones m).
Proof. intros. pose proof (field_u32 w 0 m) as H1. rewrite !Z.shiftr_0_r in H1. apply H1; lia. Qed.

Lemma lor_disjoint x y : Z.land x y = 0 → Z.lor x y = x + y.
Proof. intros H1. by rewrite Z.add_nocarry_lxor, Z.lxor_lor. Qed.

(** The sign-extended immediate operand. *)
Lemma immed_extra w :
  i_immed w =
    let extra := Z.land (u32 w) 65535 in
    if nonzero (Z.land extra 32768) then s32 (Z.lor extra 4294901760) else extra.
Proof.
  cbv zeta. change 65535 with (Z.ones 16). rewrite low_u32 by lia. unfold i_immed.
  change 32768 with (2 ^ 15). rewrite !nonzero_land_bit by lia.
  rewrite Z.land_spec, Z.testbit_ones_nonneg by lia. cbn [Z.ltb Z.compare Pos.compare Pos.compare_cont].
  rewrite andb_true_r. rewrite !Z.land_ones by lia.
  assert (w mod 2 ^ 16 = w mod 2 ^ 15 + (if Z.testbit w 15 then 2 ^ 15 else 0)) as Hs.
  { rewrite Z.testbit_eqb by lia. change (2 ^ 16) with 65536. change (2 ^ 15) with 32768.
    destruct (Z.eqb_spec ((w / 32768) mod 2) 1); Z.to_euclidean_division_equations; lia. }
  destruct (Z.testbit w 15).
  - change (-32768) with (Z.lnot (Z.ones 15)).
    rewrite <-(Z.lnot_involutive (Z.lor w _)), Z.lnot_lor, Z.lnot_involutive, Z.land_ones by lia.
    rewrite lor_disjoint.
    2:{ change 4294901760 with (Z.shiftl 65535 16). apply Z.bits_inj'. intros j Hj.
        rewrite Z.land_spec, Z.bits_0. destruct (Z.ltb_spec j 16).
        - by rewrite (Z.shiftl_spec_low _ _ j), andb_false_r by lia.
        - by rewrite Z.mod_pow2_bits_high by lia. }
    rewrite Hs. unfold s32, Z.lnot. change (2 ^ 15) with 32768. change (2 ^ 31) with 2147483648.
    change (2 ^ 32) with 4294967296. Z.to_euclidean_division_equations; lia.
  - change 32767 with (Z.ones 15). rewrite Z.land_ones by lia. lia.
Qed.

Lemma immed_low w : Z.land (i_immed w) (Z.ones 16) = Z.land w (Z.ones 16).
Proof.
  unfold i_immed. change 32768 with (2 ^ 15). rewrite nonzero_land_bit by lia.
  apply Z.bits_inj'. intros j Hj. rewrite !Z.land_spec, Z.testbit_ones_nonneg by lia.
  destruct (Z.ltb_spec j 16); [|by rewrite !andb_false_r]. f_equal.
  destruct (Z.testbit w 15) eqn:E.
  - change (-32768) with (Z.lnot (Z.ones 15)). rewrite Z.lor_spec, Z.lnot_spec, Z.testbit_ones_nonneg by lia.
    destruct (Z.ltb_spec j 15); [by rewrite orb_false_r|]. replace j with 15 by lia. by rewrite E.
  - change 32767 with (Z.ones 15). rewrite Z.land_spec, Z.testbit_ones_nonneg by lia.
    destruct (Z.ltb_spec j 15); [by rewrite andb_true_r|]. replace j with 15 by lia. by rewrite E.
Qed.
Lemma immed_mask w : 0 ≤ i_immed w → Z.land (i_immed w) 65535 = i_immed w.
Proof.
  unfold i_immed. destruct (nonzero _).
  - rewrite Z.lor_nonneg. lia.
  - intros _. change 65535 with (Z.ones 16). change 32767 with (Z.ones 15).
    rewrite <-Z.land_assoc. f_equal.
Qed.

Lemma s32_shiftl_low w n :
  0 ≤ n ≤ 32 → s32 (Z.shiftl w n) = s32 (Z.shiftl (Z.land w (Z.ones (32 - n))) n).
Proof.
  intros Hn. rewrite <-(s32_u32 (Z.shiftl w n)), <-(s32_u32 (Z.shiftl (Z.land _ _) n)). f_equal.
  apply Z.bits_inj'. intros j Hj. rewrite !testbit_u32 by lia. destruct (Z.ltb_spec j 32); [|done]. cbn.
  rewrite !Z.shiftl_spec by lia. destruct (Z.ltb_spec (j - n) 0); [by rewrite !Z.testbit_neg_r by lia|].
  rewrite Z.land_spec, Z.testbit_ones_nonneg, (proj2 (Z.ltb_lt _ _)) by lia. by rewrite andb_true_r.
Qed.

(** ** Where the simulators agree *)
Definition fits (x : Z) : bool := (- 2 ^ 31 <=? x) && (x <? 2 ^ 31).
Definition shift_count (x : Z) : bool := (0 <=? x) && (x <? 32).

(** The word [w] with the operands [a], [b] in [rs], [rt], at the address [xpc], when the
    next instruction is at [next]. *)
Definition agreeing_special (w a b xpc next : Z) : bool :=
  match Z.land w 63 with
  | 0 | 3 | 8 | 16 | 17 | 18 | 19 | 33 | 35 | 36 | 38 | 39 | 42 | 43 => true
  | 2 => 0 <=? b                                             (* SRL: not negative *)
  | 4 | 7 => shift_count a
  | 6 => shift_count a && (0 <=? b)
  | 9 => (next =? s32 (xpc + 4)) && negb (i_rs w =? i_rd w)  (* JALR *)
  | 26 => negb ((b =? 0) || ((a =? - 2 ^ 31) && (b =? -1)))
  | 27 => negb (u32 b =? 0)
  | 32 => fits (a + b)
  | 34 => fits (a - b)
  | 37 => Z.lor a b =? a                                     (* OR: rt adds nothing *)
  | _ => false
  end.
Definition agreeing_other (w a xpc next : Z) : bool :=
  match Z.land (Z.shiftr w 26) 63 with
  | 1 => (next =? s32 (xpc + 4)) &&
         match i_rt w with 0 | 1 | 16 | 17 => true | _ => false end
  | 2 | 3 => (next =? s32 (xpc + 4)) &&
             (Z.land (u32 xpc) 4026531840 =? Z.land (u32 (s32 (next + 4))) 4026531840)
  | 4 | 5 | 6 | 7 => next =? s32 (xpc + 4)
  | 8 => fits (a + i_immed w)
  | 9 | 10 | 11 | 15 => true
  | 12 | 13 | 14 => 0 <=? i_immed w                          (* ANDI, ORI, XORI *)
  | _ => false
  end.
Definition agreeing (w a b xpc next : Z) : bool :=
  match Z.land (Z.shiftr w 26) 63 with
  | 0 => agreeing_special w a b xpc next
  | _ => agreeing_other w a xpc next
  end.

(** The registers of the interpreter are those of the machine; [Reg[0]] is cleared only
    at the beginning of the next round. *)
Record matches (c : cpu) (r : list Z) : Prop := {
  mt_length : zlen (Reg c) = 32;
  mt_regs : ∀ i, 1 ≤ i < 32 → znth (Reg c) i = znth r i;
  mt_HI : znth r HiReg = Some (HI c);
  mt_LO : znth r LoReg = Some (LO c)
}.

Lemma matches_assign c r d v :
  0 ≤ d < 32 → zlen r = NumTotalRegs → matches c r →
  matches (set_Reg c (zset (Reg c) d v)) (zset r d v).
Proof.
  intros Hd Hl [H1 H2 H3 H4]. unfold NumTotalRegs, HiReg, LoReg in *.
  split; cbn [Reg HI LO set_Reg]; unfold HiReg, LoReg.
  - by rewrite zlen_zset.
  - intros i Hi. rewrite !znth_zset, H1, Hl. repeat case_bool_decide; try done; try lia. by apply H2.
  - by rewrite znth_zset_ne by lia.
  - by rewrite znth_zset_ne by lia.
Qed.
Lemma matches_HILO c r hi lo :
  zlen r = NumTotalRegs → matches c r →
  matches (set_HILO c hi lo) (zset (zset r LoReg lo) HiReg hi).
Proof.
  intros Hl [H1 H2 H3 H4]. unfold NumTotalRegs, HiReg, LoReg in *.
  split; cbn [Reg HI LO set_HILO]; unfold HiReg, LoReg; try done.
  - intros i Hi. rewrite !znth_zset_ne by lia. by apply H2.
  - apply znth_zset_eq. rewrite zlen_zset. lia.
  - rewrite znth_zset_ne by lia. apply znth_zset_eq. lia.
Qed.

(** The field [extra] of an instruction in the formats of the [int] [w]. *)
Definition extra_field (f : Format) (w : Z) : Z :=
  match f with IFMT => i_immed w | JFMT => Z.land w 67108863 | RFMT => i_shamt w end.

Section agree.
Context `{IO : InterruptOps, !InterruptLaws} {OS : Type} `{TO : TrapOps OS, !TrapLaws OS}.
Context (unix : Z → Z → Z → Z → list Z → Z * list Z).
(** The interpreter inside a round at [xpc], and the machine before the instruction. *)
Context (c : cpu) (s : Machine * OS) (xpc : Z) (i : Instruction).
Context (Hm : matches c (registers s.1)) (HR0 : znth (Reg c) 0 = Some 0).
Context (Hr : regs_inv true (registers s.1)) (Hi : decoded i).
Context (Hpc : znth (registers s.1) NextPCReg = Some (pc c)) (Hnpc : npc c = s32 (pc c + 4)).

Abbreviation rg := (registers s.1).

(** Both do the same to the registers; nothing else changes. *)
Definition agrees (e : result (option cpu)) (x : ST (Machine * OS) outcome) : Prop :=
  ∃ c' r', e = Ok (Some c') ∧ x s = Ok (Some (npc c', 0, 0), put_regs s r') ∧
    matches c' r' ∧ pc c' = pc c ∧ mem c' = mem c ∧ ∀ j, 34 ≤ j → znth r' j = znth rg j.

Lemma both k : 0 ≤ k < 32 → ∃ v, znth (Reg c) k = Some v ∧ znth rg k = Some v ∧ is_s32 v.
Proof.
  intros Hk. destruct Hm as [H1 H2 _ _]. destruct (znth_range (Reg c) k) as [v Hv]; [lia|].
  assert (znth rg k = Some v) as Hv'.
  { destruct (decide (k = 0)) as [->|]; [|by rewrite <-H2 by lia].
    rewrite (ri_zero _ _ Hr) by done. congruence. }
  exists v. split_and!; [done|done|]. by apply (Forall_znth _ _ _ _ (ri_s32 _ _ Hr) Hv').
Qed.

Lemma agrees_assign d v :
  0 ≤ d < 32 → agrees (assign c d v) (setR d v;; break_ (npc c)).
Proof.
  intros Hd. pose proof (mt_length _ _ Hm) as Hl. pose proof (ri_len _ _ Hr) as Hlr.
  unfold assign. rewrite aset_in by lia. eexists _, _. split; [reflexivity|]. split.
  { erewrite ST_step by (apply setR_step; rewrite Hlr; unfold NumTotalRegs; lia). reflexivity. }
  split; [by apply matches_assign|]. split_and!; try done.
  intros j Hj. by rewrite znth_zset_ne by lia.
Qed.
Lemma agrees_HILO hi lo :
  agrees (break_with (set_HILO c hi lo)) (setR LoReg lo;; setR HiReg hi;; break_ (npc c)).
Proof.
  pose proof (ri_len _ _ Hr) as Hlr. unfold NumTotalRegs in *.
  exists (set_HILO c hi lo), (zset (zset rg LoReg lo) HiReg hi). split; [reflexivity|]. split.
  { erewrite ST_step by (apply setR_step; rewrite Hlr; done).
    erewrite ST_step by (apply setR_step; unfold put_regs; cbn [fst registers set_registers];
      rewrite zlen_zset, Hlr; done). reflexivity. }
  split; [by apply matches_HILO|]. split_and!; try done.
  intros j Hj. unfold HiReg, LoReg. by rewrite !znth_zset_ne by lia.
Qed.
Lemma agrees_HI hi : agrees (break_with (set_HILO c hi (LO c))) (setR HiReg hi;; break_ (npc c)).
Proof.
  pose proof (ri_len _ _ Hr) as Hlr. pose proof Hm as [H1 H2 H3 H4]. unfold NumTotalRegs, HiReg, LoReg in *.
  eexists _, (zset rg 32 hi). split; [reflexivity|]. split.
  { erewrite ST_step by (apply setR_step; rewrite Hlr; lia). reflexivity. }
  split_and!; try done; [|intros j Hj; by rewrite znth_zset_ne by lia].
  split; cbn [Reg HI LO set_HILO]; unfold HiReg, LoReg; try done.
  - intros k Hk. rewrite znth_zset_ne by lia. by apply H2.
  - apply znth_zset_eq. lia.
  - by rewrite znth_zset_ne by lia.
Qed.
Lemma agrees_LO lo : agrees (break_with (set_HILO c (HI c) lo)) (setR LoReg lo;; break_ (npc c)).
Proof.
  pose proof (ri_len _ _ Hr) as Hlr. pose proof Hm as [H1 H2 H3 H4]. unfold NumTotalRegs, HiReg, LoReg in *.
  eexists _, (zset rg 33 lo). split; [reflexivity|]. split.
  { erewrite ST_step by (apply setR_step; rewrite Hlr; lia). reflexivity. }
  split_and!; try done; [|intros j Hj; by rewrite znth_zset_ne by lia].
  split; cbn [Reg HI LO set_HILO]; unfold HiReg, LoReg; try done.
  - intros k Hk. rewrite znth_zset_ne by lia. by apply H2.
  - by rewrite znth_zset_ne by lia.
  - apply znth_zset_eq. lia.
Qed.
Lemma agrees_npc a : agrees (break_with (set_npc c a)) (break_ a).
Proof.
  eexists _, rg. split; [reflexivity|]. split; [by destruct s as [[] ?]|]. split; [|done].
  by destruct Hm.
Qed.
Lemma agrees_keep : agrees (break_with c) (break_ (npc c)).
Proof. eexists _, rg. split; [reflexivity|]. split; [by destruct s as [[] ?]|]. by split. Qed.

Lemma agrees_R e k v (f : Z → ST (Machine * OS) outcome) :
  znth rg k = Some v → agrees e (f v) → agrees e (R k ≫= f).
Proof.
  intros Hk (c' & r' & He & Hf & Hrest). exists c', r'. split; [done|]. split; [|done].
  by erewrite ST_step by (by apply R_step).
Qed.

Lemma agrees_assoc {A B} e (m : ST (Machine * OS) A) (f : A → ST (Machine * OS) B) g :
  agrees e (m ≫= λ x, f x ≫= g) → agrees e ((m ≫= f) ≫= g).
Proof.
  intros (c' & r' & He & Hf & Hrest). exists c', r'. split; [done|]. split; [|done]. rewrite <-Hf.
  unfold mbind, ST_bind. by destruct (m s) as [[]|].
Qed.

(** *** The cases of [I_SPECIAL] *)
Context (w a b : Z) (Hrs : rs i = i_rs w) (Hrt : rt i = i_rt w) (Hrd : rd i = i_rd w).
Context (Ha : znth rg (rs i) = Some a) (Hb : znth rg (rt i) = Some b).

Lemma alu_agrees f v : f a b = v → agrees (assign c (i_rd w) v) (alu i (npc c) f).
Proof.
  intros <-. unfold alu. eapply agrees_R; [exact Ha|]. eapply agrees_R; [exact Hb|].
  rewrite Hrd. apply agrees_assign. rewrite <-Hrd. apply Hi.
Qed.
Lemma alui_agrees f v : f a (extra i) = v → agrees (assign c (i_rt w) v) (alui i (npc c) f).
Proof.
  intros <-. unfold alui. eapply agrees_R; [exact Ha|].
  rewrite Hrt. apply agrees_assign. rewrite <-Hrt. apply Hi.
Qed.
Lemma shl_Ok x n : shift_count n = true → shl x n = Ok (s32 (Z.shiftl x n)).
Proof. unfold shl, shift_count. by intros ->. Qed.
Lemma shr_Ok x n : shift_count n = true → shr x n = Ok (Z.shiftr x n).
Proof. unfold shr, shift_count. by intros ->. Qed.
Lemma shift_count_mask n : shift_count n = true → Z.land n 31 = n.
Proof.
  unfold shift_count. rewrite andb_true_iff, Z.leb_le, Z.ltb_lt. intros.
  change 31 with (Z.ones 5). rewrite Z.land_ones by lia. apply Z.mod_small. lia.
Qed.
Lemma srl_agrees n : 0 ≤ b → is_s32 b → 0 ≤ n → s32 (Z.shiftr (u32 b) n) = Z.shiftr b n.
Proof.
  intros Hb0 Hb32 Hn. rewrite u32_small by (unfold is_u32, is_s32 in *; lia).
  apply s32_small. by apply is_s32_shr.
Qed.
Lemma fits_spec x : fits x = true ↔ is_s32 x.
Proof. unfold fits, is_s32. rewrite andb_true_iff, Z.leb_le, Z.ltb_lt. lia. Qed.
Lemma operands : is_s32 a ∧ is_s32 b ∧ is_s32 (extra i).
Proof.
  split_and!; [by apply (Forall_znth _ _ _ _ (ri_s32 _ _ Hr) Ha)|
    by apply (Forall_znth _ _ _ _ (ri_s32 _ _ Hr) Hb)|apply Hi].
Qed.
Lemma register_range k : rs i = k ∨ rt i = k ∨ rd i = k → 0 ≤ k < 32.
Proof. intros Hk. destruct Hi. naive_solver. Qed.

(** Addition and subtraction that do not overflow. *)
Lemma add_agrees : fits (a + b) = true → agrees (assign c (i_rd w) (s32 (a + b))) (exec_ADD i (npc c)).
Proof.
  intros Hf. apply fits_spec in Hf. destruct operands as (Ha32 & Hb32 & _). unfold exec_ADD.
  eapply agrees_R; [exact Ha|]. eapply agrees_R; [exact Hb|]. cbv zeta.
  rewrite !sign_lxor by (done || apply s32_range).
  rewrite (proj1 (add_overflow a b Ha32 Hb32)), bool_decide_true by done. cbn [negb].
  rewrite Hrd. apply agrees_assign, register_range. auto.
Qed.
Lemma sub_agrees : fits (a - b) = true → agrees (assign c (i_rd w) (s32 (a - b))) (exec_SUB i (npc c)).
Proof.
  intros Hf. apply fits_spec in Hf. destruct operands as (Ha32 & Hb32 & _). unfold exec_SUB.
  eapply agrees_R; [exact Ha|]. eapply agrees_R; [exact Hb|]. cbv zeta.
  rewrite !sign_lxor by (done || apply s32_range).
  rewrite (sub_overflow a b Ha32 Hb32), bool_decide_true by done. cbn [negb].
  rewrite Hrd. apply agrees_assign, register_range. auto.
Qed.
Lemma addi_agrees :
  fits (a + extra i) = true → agrees (assign c (i_rt w) (s32 (a + extra i))) (exec_ADDI i (npc c)).
Proof.
  intros Hf. apply fits_spec in Hf. destruct operands as (Ha32 & _ & Hx32). unfold exec_ADDI.
  eapply agrees_R; [exact Ha|]. cbv zeta.
  rewrite !sign_lxor by (done || apply s32_range).
  rewrite (proj2 (add_overflow a (extra i) Ha32 Hx32)), bool_decide_true by done. cbn [negb].
  rewrite Hrt. apply agrees_assign, register_range. auto.
Qed.

(** Division by a number that is not 0. *)
Lemma div_agrees :
  (b =? 0) || ((a =? - 2 ^ 31) && (b =? -1)) = false →
  agrees (break_with (set_HILO c (Z.rem a b) (Z.quot a b))) (exec_DIV i (npc c)).
Proof.
  intros [Hb0 Hmin]%orb_false_iff. unfold exec_DIV. eapply agrees_R; [exact Hb|]. rewrite Hb0.
  apply agrees_assoc. eapply agrees_R; [exact Ha|]. rewrite Hmin. apply agrees_assoc, agrees_HILO.
Qed.
Lemma divu_agrees :
  (u32 b =? 0) = false →
  agrees (break_with (set_HILO c (s32 (u32 a mod u32 b)) (s32 (u32 a / u32 b)))) (exec_DIVU i (npc c)).
Proof.
  intros Hb0. unfold exec_DIVU. eapply agrees_R; [exact Ha|]. eapply agrees_R; [exact Hb|]. rewrite Hb0.
  apply agrees_assoc, agrees_HILO.
Qed.

(** *** Jumps and branches *)
Lemma s32_add_l x y : s32 (s32 x + y) = s32 (x + y).
Proof.
  unfold s32. f_equal. replace (x + y + 2 ^ 31) with ((x + 2 ^ 31) + y) by lia.
  replace ((x + 2 ^ 31) mod 2 ^ 32 - 2 ^ 31 + y + 2 ^ 31) with ((x + 2 ^ 31) mod 2 ^ 32 + y) by lia.
  by rewrite Zplus_mod_idemp_l.
Qed.

(** A jump that first stores the return address, in register [d]. *)
Definition linked (d : Z) : cpu := set_Reg c (zset (Reg c) d (s32 (xpc + 8))).
Definition linked_regs (d : Z) : list Z := zset rg d (s32 (xpc + 8)).
Lemma agrees_linked d p (x : ST (Machine * OS) outcome) :
  0 ≤ d < 32 → pc c = s32 (xpc + 4) →
  x (put_regs s (linked_regs d)) = Ok (Some (p, 0, 0), put_regs s (linked_regs d)) →
  agrees (break_with (set_npc (linked d) p)) (link d;; x).
Proof.
  intros Hd Hx Hf. eexists _, (linked_regs d). split; [reflexivity|]. split.
  { erewrite ST_step; [exact Hf|]. unfold link. erewrite ST_step by (by apply R_step).
    rewrite setR_step by (rewrite (ri_len _ _ Hr); unfold NumTotalRegs; lia).
    rewrite Hx, s32_add_l. by replace (xpc + 4 + 4) with (xpc + 8) by lia. }
  split_and!; try done.
  - assert (matches (linked d) (linked_regs d)) as []; [|by split].
    apply matches_assign; [done|by destruct Hr|done].
  - intros j Hj. unfold linked_regs. by rewrite znth_zset_ne by lia.
Qed.
Lemma jalr_agrees :
  pc c = s32 (xpc + 4) → i_rs w ≠ i_rd w →
  agrees (assign (set_npc c a) (i_rd w) (s32 (xpc + 8))) (exec_JALR i (npc c)).
Proof.
  intros Hx Hne. assert (0 ≤ i_rd w < 32) as Hd by (apply register_range; auto).
  unfold assign. rewrite aset_in by (cbn; rewrite (mt_length _ _ Hm); lia).
  unfold exec_JALR, exec_JR. rewrite Hrd. apply (agrees_linked (i_rd w) a); [done|done|].
  erewrite ST_step; [reflexivity|]. apply R_step. unfold put_regs, linked_regs. cbn [fst registers set_registers].
  rewrite znth_zset_ne by congruence. done.
Qed.

(** The jumps to a constant address stay in the region of 256 MB. *)
Lemma target_agrees :
  extra i = Z.land w 67108863 →
  Z.land (u32 xpc) 4026531840 = Z.land (u32 (npc c)) 4026531840 →
  s32 (Z.lor (Z.land (u32 (npc c)) 4026531840) (u32 (IndexToAddr (extra i)))) = npc (jump_to w xpc c).
Proof.
  intros Hx Hreg. unfold jump_to. cbn [npc set_npc]. rewrite Hx, Hreg. do 2 f_equal. unfold IndexToAddr.
  rewrite u32_s32. apply u32_small. change 67108863 with (Z.ones 26).
  pose proof (mask_range w 26 ltac:(lia)). unfold is_u32. rewrite Z.shiftl_mul_pow2 by lia. lia.
Qed.
Lemma j_agrees :
  extra i = Z.land w 67108863 →
  Z.land (u32 xpc) 4026531840 = Z.land (u32 (npc c)) 4026531840 →
  agrees (break_with (jump_to w xpc c)) (exec_J i (npc c)).
Proof. intros Hx Hreg. unfold exec_J. rewrite (target_agrees Hx Hreg). apply agrees_npc. Qed.
Lemma jal_agrees :
  pc c = s32 (xpc + 4) → extra i = Z.land w 67108863 →
  Z.land (u32 xpc) 4026531840 = Z.land (u32 (npc c)) 4026531840 →
  agrees (break_with (jump_to w xpc (linked 31))) (exec_JAL i (npc c)).
Proof.
  intros Hp Hx Hreg. unfold exec_JAL, exec_J. rewrite (target_agrees Hx Hreg).
  by apply (agrees_linked 31 (npc (jump_to w xpc c))).
Qed.

Lemma branch_step taken (s0 : Machine * OS) :
  znth (registers s0.1) NextPCReg = Some (pc c) → pc c = s32 (xpc + 4) → extra i = i_immed w →
  branch i (npc c) taken s0 = Ok (Some (npc (branch_to w xpc taken c), 0, 0), s0).
Proof.
  intros H1 Hx He. unfold branch, branch_to. destruct taken; [|done].
  erewrite ST_step by (by apply R_step). cbn [npc set_npc]. rewrite Hx, s32_add_l, He. done.
Qed.
Lemma branch_agrees taken :
  pc c = s32 (xpc + 4) → extra i = i_immed w →
  agrees (break_with (branch_to w xpc taken c)) (branch i (npc c) taken).
Proof.
  intros Hx He. assert (branch_to w xpc taken c = set_npc c (npc (branch_to w xpc taken c))) as ->.
  { destruct c, taken; done. }
  destruct (agrees_npc (npc (branch_to w xpc taken c))) as (c' & r' & H1 & H2 & H3).
  exists c', r'. split; [done|]. split; [|done]. rewrite branch_step by done. exact H2.
Qed.
Lemma branch_link_agrees (f : Z → bool) (g : Z → bool) :
  pc c = s32 (xpc + 4) → extra i = i_immed w → (∀ x, is_s32 x → f x = g x) →
  agrees (s0 ← aget (Reg (linked 31)) (i_rs w); break_with (branch_to w xpc (f s0) (linked 31)))
    (link R31;; x ← R (rs i); branch i (npc c) (g x)).
Proof.
  intros Hx He Hfg. assert (0 ≤ i_rs w < 32) as Hrange by (apply register_range; auto).
  assert (∃ v, znth (Reg (linked 31)) (i_rs w) = Some v ∧ znth (linked_regs 31) (i_rs w) = Some v ∧ is_s32 v)
    as (v & Hv1 & Hv2 & Hv).
  { pose proof (mt_length _ _ Hm) as Hl. unfold linked, linked_regs. cbn [Reg set_Reg].
    rewrite !znth_zset, Hl, (ri_len _ _ Hr). unfold NumTotalRegs. repeat case_bool_decide; try lia.
    - exists (s32 (xpc + 8)). split_and!; try done. apply s32_range.
    - destruct (both (i_rs w) Hrange) as (v & ? & ? & ?). eauto. }
  rewrite (proj2 (aget_Ok _ _ _) Hv1). cbn [mbind result_bind].
  assert (branch_to w xpc (f v) (linked 31) = set_npc (linked 31) (npc (branch_to w xpc (f v) c))) as ->.
  { unfold branch_to. by destruct (f v). }
  change R31 with 31. apply agrees_linked; [lia|done|]. rewrite Hrs.
  erewrite ST_step by (apply R_step; exact Hv2). rewrite <-Hfg by done. apply branch_step; [|done|done].
  unfold put_regs, linked_regs, NextPCReg. cbn [fst registers set_registers]. by rewrite znth_zset_ne.
Qed.

(** *** The three levels of the [switch] *)
Ltac op_is H := cbn in H; injection H as H; unfold execute; rewrite <-H.
Lemma special_agrees :
  extra i = i_shamt w → znth specialTable (Z.land w 63) = Some (opCode i) →
  agreeing_special w a b xpc (pc c) = true → agrees (exec_special unix w xpc c) (execute i (npc c)).
Proof.
  intros Hx Hop Hag. destruct operands as (Ha32 & Hb32 & _).
  assert (shift_count (i_shamt w) = true) as Hsh.
  { unfold shift_count, i_shamt. change 31 with (Z.ones 5). pose proof (mask_range (Z.shiftr w 6) 5 ltac:(lia)).
    rewrite andb_true_iff, Z.leb_le, Z.ltb_lt. lia. }
  assert (∀ n, shift_count n = true → 0 ≤ n) as Hpos.
  { unfold shift_count. intros n. rewrite andb_true_iff, Z.leb_le. lia. }
  destruct (both (i_rs w)) as (a' & Ha1 & Ha2 & _); [apply register_range; auto|].
  destruct (both (i_rt w)) as (b' & Hb1 & Hb2 & _); [apply register_range; auto|].
  assert (a' = a ∧ b' = b) as [-> ->] by (rewrite Hrs in Ha; rewrite Hrt in Hb; split; congruence).
  unfold exec_special. rewrite (proj2 (aget_Ok _ _ _) Ha1). cbn [mbind result_bind].
  rewrite (proj2 (aget_Ok _ _ _) Hb1). cbn [mbind result_bind]. unfold agreeing_special in Hag.
  repeat (case_match; try discriminate Hag); op_is Hop.
  all: rewrite ?shl_Ok, ?shr_Ok by (done || (by apply andb_true_iff in Hag as [? _])); cbn [mbind result_bind].
  all: first
    [ apply alu_agrees; cbv beta; first [done | by rewrite Hx | by rewrite shift_count_mask]
    | by apply divu_agrees | by apply div_agrees
    | by apply add_agrees | by apply sub_agrees
    | unfold exec_move; eapply agrees_R; [exact Ha|]; first [apply agrees_HI | apply agrees_LO]
    | unfold exec_JR; eapply agrees_R; [exact Ha|]; apply agrees_npc
    | unfold exec_move; rewrite Hrd; eapply agrees_R; [apply Hm|]; apply agrees_assign, register_range; auto
    | idtac ].
  - apply alu_agrees. apply Z.eqb_eq in Hag. by rewrite Z.lor_diag.
  - apply andb_true_iff in Hag as [Hn%Z.eqb_eq Hne%negb_true_iff]. apply jalr_agrees; [done|].
    by apply Z.eqb_neq.
  - apply andb_true_iff in Hag as [Hc Hb0%Z.leb_le]. apply alu_agrees.
    by rewrite shift_count_mask, srl_agrees by auto.
  - apply alu_agrees. apply Z.leb_le in Hag. rewrite Hx. by rewrite srl_agrees by auto.
Qed.

Lemma bcond_agrees op :
  extra i = i_immed w → pc c = s32 (xpc + 4) → opCode i = op →
  i_rt w = 0 ∧ op = OP_BLTZ ∨ i_rt w = 1 ∧ op = OP_BGEZ ∨
    i_rt w = 16 ∧ op = OP_BLTZAL ∨ i_rt w = 17 ∧ op = OP_BGEZAL →
  agrees (exec_bcond w xpc c) (execute i (npc c)).
Proof.
  intros Hx Hn Hop Hcase. destruct operands as (Ha32 & _ & _).
  destruct (both (i_rs w)) as (a' & Ha1 & Ha2 & _); [apply register_range; auto|].
  assert (a' = a) as -> by (rewrite Hrs in Ha; congruence).
  assert (∀ x, is_s32 x → (x <? 0) = sign x) as H1 by (intros; symmetry; by apply sign_spec).
  assert (∀ x, is_s32 x → (x >=? 0) = negb (sign x)) as H2.
  { intros x Hx'. rewrite sign_spec by done. by rewrite Z.geb_leb, Z.leb_antisym. }
  assert (link_31 xpc c = Ok (linked 31)) as Hl.
  { unfold link_31. rewrite aset_in; [done|]. rewrite (mt_length _ _ Hm). lia. }
  unfold exec_bcond, execute. rewrite Hop.
  destruct Hcase as [[-> ->]|[[-> ->]|[[-> ->]|[-> ->]]]]; rewrite ?Hl; cbn [mbind result_bind].
  - rewrite (proj2 (aget_Ok _ _ _) Ha1). cbn [mbind result_bind]. rewrite H1 by done.
    unfold exec_BLTZ. eapply agrees_R; [exact Ha|]. by apply branch_agrees.
  - rewrite (proj2 (aget_Ok _ _ _) Ha1). cbn [mbind result_bind]. rewrite H2 by done.
    unfold exec_BGEZ. eapply agrees_R; [exact Ha|]. by apply branch_agrees.
  - unfold exec_BLTZAL, exec_BLTZ. by apply (branch_link_agrees (λ x, x <? 0) sign).
  - unfold exec_BGEZAL, exec_BGEZ. by apply (branch_link_agrees (λ x, x >=? 0) (λ x, negb (sign x))).
Qed.

Lemma lui_agrees :
  extra i = i_immed w → agrees (assign c (i_rt w) (s32 (Z.shiftl w 16))) (exec_LUI i (npc c)).
Proof.
  intros Hx. unfold exec_LUI. rewrite Hx, Hrt, (s32_shiftl_low (i_immed w)), (s32_shiftl_low w) by lia.
  change (32 - 16) with 16. rewrite immed_low. apply agrees_assign, register_range. auto.
Qed.

Lemma other_agrees fmt :
  extra i = extra_field fmt w →
  znth opTable (Z.land (Z.shiftr w 26) 63) = Some (opCode i, fmt) → opCode i ≠ BCOND →
  agreeing_other w a xpc (pc c) = true → agrees (exec_other w xpc c) (execute i (npc c)).
Proof.
  intros Hx Hop Hne Hag.
  destruct (both (i_rs w)) as (a' & Ha1 & Ha2 & _); [apply register_range; auto|].
  destruct (both (i_rt w)) as (b' & Hb1 & Hb2 & _); [apply register_range; auto|].
  assert (a' = a ∧ b' = b) as [-> ->] by (rewrite Hrs in Ha; rewrite Hrt in Hb; split; congruence).
  assert (link_31 xpc c = Ok (linked 31)) as Hl.
  { unfold link_31. rewrite aset_in; [done|]. rewrite (mt_length _ _ Hm). lia. }
  unfold exec_other. rewrite (proj2 (aget_Ok _ _ _) Ha1). cbn [mbind result_bind].
  rewrite (proj2 (aget_Ok _ _ _) Hb1). cbn [mbind result_bind]. rewrite Hl. cbn [mbind result_bind].
  unfold agreeing_other in Hag.
  repeat (case_match; try discriminate Hag); cbn in Hop; injection Hop as Hop <-; unfold execute; rewrite <-Hop.
  all: try (exfalso; congruence); cbn [extra_field] in Hx; rewrite <-?Hx.
  all: try (apply Z.leb_le in Hag; pose proof (immed_mask w Hag) as Hmask; rewrite <-Hx in Hmask).
  all: first
    [ by apply lui_agrees
    | apply alui_agrees; cbv beta; first [done | by rewrite Hmask]
    | by apply addi_agrees; rewrite Hx
    | apply andb_true_iff in Hag as [Hn%Z.eqb_eq Hreg%Z.eqb_eq]; rewrite <-Hnpc in Hreg;
      first [by apply jal_agrees | by apply j_agrees]
    | apply Z.eqb_eq in Hag; unfold exec_BEQ, exec_BNE, exec_BLEZ, exec_BGTZ; rewrite ?Z.gtb_ltb;
      repeat (eapply agrees_R; [eassumption|]); by apply branch_agrees ].
Qed.
End agree.

(** ** Decoding *)
Lemma bcond_field v : Z.land v 2031616 = Z.shiftl (Z.land (Z.shiftr v 16) 31) 16.
Proof.
  rewrite Z.shiftl_land. change 2031616 with (Z.shiftl 31 16). apply Z.bits_inj'. intros j Hj.
  rewrite !Z.land_spec. destruct (Z.ltb_spec j 16).
  - by rewrite (Z.shiftl_spec_low 31), !andb_false_r by lia.
  - f_equal. rewrite Z.shiftl_spec, Z.shiftr_spec by lia. f_equal. lia.
Qed.

Lemma opTable_rest k op f :
  2 ≤ k → znth opTable k = Some (op, f) → op ≠ SPECIAL ∧ op ≠ BCOND ∧ f ≠ RFMT.
Proof.
  intros Hk Hz. assert (Forall (λ e, e.1 ≠ SPECIAL ∧ e.1 ≠ BCOND ∧ e.2 ≠ RFMT) (drop 2 opTable)) as HF.
  { cbn. repeat (constructor; [done|]). constructor. }
  assert (drop 2 opTable !! Z.to_nat (k - 2) = Some (op, f)) as Hd.
  { rewrite lookup_drop. unfold znth in Hz. destruct (Z.ltb_spec k 0); [lia|]. rewrite <-Hz. f_equal. lia. }
  by apply (Forall_lookup_1 _ _ _ _ HF) in Hd.
Qed.

(** The fields of the decoded instruction are those the interpreter takes from the word. *)
Lemma Decode_fields w :
  ∃ i, Decode (u32 w) = Ok i ∧ decoded i ∧ rs i = i_rs w ∧ rt i = i_rt w ∧ rd i = i_rd w ∧
    match Z.land (Z.shiftr w 26) 63 with
    | 0 => znth specialTable (Z.land w 63) = Some (opCode i) ∧ extra i = i_shamt w
    | 1 => extra i = i_immed w ∧
        opCode i = (if i_rt w =? 0 then OP_BLTZ else if i_rt w =? 1 then OP_BGEZ
                    else if i_rt w =? 16 then OP_BLTZAL else if i_rt w =? 17 then OP_BGEZAL else OP_UNIMP)
    | k => ∃ f, znth opTable k = Some (opCode i, f) ∧ extra i = extra_field f w ∧ opCode i ≠ BCOND
    end.
Proof.
  destruct (Decode_ok (u32 w)) as (i & HD & _ & Hdec). exists i. split; [done|]. split; [done|].
  assert (∀ k m, 0 ≤ k → 0 ≤ m → k + m ≤ 32 →
    Z.land (Z.shiftr (u32 w) k) (Z.ones m) = Z.land (Z.shiftr w k) (Z.ones m)) as Hf by (intros; by apply field_u32).
  unfold Decode in HD. rewrite bcond_field, <-immed_extra in HD. change 63 with (Z.ones 6) in HD.
  change 31 with (Z.ones 5) in HD. change 67108863 with (Z.ones 26) in HD.
  rewrite !Hf, !low_u32 in HD by lia. change (Z.ones 5) with 31 in HD. change (Z.ones 6) with 63 in HD.
  fold (i_rs w) (i_rt w) (i_rd w) (i_shamt w) in HD. clear Hf.
  assert (∀ y, (Z.shiftl (i_rt w) 16 =? 65536 * y) = (i_rt w =? y)) as Hbc.
  { intros y. rewrite Z.shiftl_mul_pow2 by lia. change (2 ^ 16) with 65536.
    destruct (Z.eqb_spec (i_rt w) y), (Z.eqb_spec (i_rt w * 65536) (65536 * y)); lia. }
  pose proof (mask_range (Z.shiftr w 26) 6 ltac:(lia)) as Hk. change (Z.ones 6) with 63 in Hk.
  set (k := Z.land (Z.shiftr w 26) 63) in *. inv_bind. apply aget_Ok in H. destruct x as [op f].
  destruct (decide (k = 0)) as [E|E0]; [|destruct (decide (k = 1)) as [E|E1]].
  - rewrite E in *. cbn in H. injection H as <- <-. cbn [fst snd] in H0. apply aget_Ok in H0.
    by split_and!.
  - rewrite E in *. cbn in H. injection H as <- <-. cbn [fst snd] in H0. injection H0 as <-.
    cbn [rs rt rd extra opCode snd]. split_and!; try done.
    change (_ =? 0) with (Z.shiftl (i_rt w) 16 =? 65536 * 0) at 1. change 65536 with (65536 * 1) at 2.
    change 1048576 with (65536 * 16). change 1114112 with (65536 * 17). by rewrite !Hbc.
  - destruct (opTable_rest k op f) as (H1 & H2 & H3); [lia|done|]. cbn [fst snd] in H0.
    assert (x0 = op) as -> by (destruct op; try done; by injection H0 as <-).
    cbn [rs rt rd extra opCode snd]. split; [reflexivity|]. split; [reflexivity|]. split; [reflexivity|].
    assert (∃ g, znth opTable k = Some (op, g) ∧
      match f with IFMT => i_immed w | JFMT => Z.land w (Z.ones 26) | RFMT => i_shamt w end = extra_field g w ∧
      op ≠ BCOND) as Hg by (exists f; by destruct f).
    clearbody k. clear -Hg Hk E0 E1. destruct k as [|[p|p|]|]; [lia|exact Hg|exact Hg|lia|lia].
Qed.

(** ** One step of both simulators *)

(** Between two instructions: the same registers and the same program counters, and no
    load on its way (the interpreter has no load delay). *)
Record related (c : cpu) (r : list Z) : Prop := {
  rl_matches : matches c r;
  rl_ok : regs_ok r;
  rl_pc : znth r PCReg = Some (pc c);
  rl_npc : znth r NextPCReg = Some (npc c);
  rl_load : znth r LoadReg = Some 0
}.

(** The interpreter after the first lines of a round. *)
Definition fetched (c : cpu) : cpu :=
  set_Reg (set_pcs c (npc c) (s32 (npc c + 4))) (zset (Reg c) 0 0).

Lemma fetched_matches c r : regs_ok r → matches c r → matches (fetched c) r ∧ znth (Reg (fetched c)) 0 = Some 0.
Proof.
  intros Hr [H1 H2 H3 H4]. cbn [Reg fetched set_Reg]. split; [|apply znth_zset_eq; lia].
  split; cbn [Reg HI LO fetched set_Reg set_pcs]; try done.
  - by rewrite zlen_zset.
  - intros i Hi. rewrite znth_zset_ne by lia. by apply H2.
Qed.

Lemma agreeing_bcond w a xpc next :
  Z.land (Z.shiftr w 26) 63 = 1 → agreeing_other w a xpc next = true →
  next = s32 (xpc + 4) ∧ (i_rt w = 0 ∨ i_rt w = 1 ∨ i_rt w = 16 ∨ i_rt w = 17).
Proof.
  unfold agreeing_other. intros -> [Hn%Z.eqb_eq Hop]%andb_true_iff. split; [done|].
  repeat (case_match; try discriminate Hop); auto.
Qed.

Lemma round_step unix c w :
  zlen (Reg c) = 32 → fetch c (pc c) = Ok w → round unix c = execute_instr unix w (pc c) (fetched c).
Proof.
  intros Hl Hw. unfold round. change (fetch (set_pcs _ _ _) (pc c)) with (fetch c (pc c)).
  rewrite Hw. cbn [mbind result_bind]. by rewrite aset_in by (cbn; lia).
Qed.

(** That the word 0 is skipped makes no difference. *)
Lemma execute_instr_cases unix w xpc c :
  znth (Reg c) 0 = Some 0 → zlen (Reg c) = 32 →
  execute_instr unix w xpc c =
    match Z.land (Z.shiftr w 26) 63 with
    | 0 => exec_special unix w xpc c
    | 1 => exec_bcond w xpc c
    | _ => exec_other w xpc c
    end.
Proof.
  intros H0 Hl. unfold execute_instr. destruct (Z.eqb_spec w 0) as [->|]; [|done]. cbn. unfold exec_special.
  change (i_rs 0) with 0. change (i_rt 0) with 0. rewrite !(proj2 (aget_Ok _ _ _) H0).
  change (break_with c = assign c 0 0). unfold assign. rewrite aset_in by lia. cbn [mbind result_bind].
  rewrite zset_same by done. by destruct c.
Qed.

Section step.
Context `{IO : InterruptOps, !InterruptLaws} {OS : Type} `{TO : TrapOps OS, !TrapLaws OS}.
Context (unix : Z → Z → Z → Z → list Z → Z * list Z).

Lemma execute_agrees c (s : Machine * OS) w a b :
  related c (registers s.1) →
  znth (registers s.1) (i_rs w) = Some a → znth (registers s.1) (i_rt w) = Some b →
  agreeing w a b (pc c) (npc c) = true →
  ∃ i, Decode (u32 w) = Ok i ∧ decoded i ∧
    agrees (fetched c) s (execute_instr unix w (pc c) (fetched c)) (execute i (s32 (npc c + 4))).
Proof.
  intros [Hm Hok Hpc Hnpc _] Ha Hb Hag. destruct (fetched_matches c _ Hok Hm) as [Hf H0].
  apply regs_inv_ok in Hok.
  destruct (Decode_fields w) as (i & HD & Hdec & Hrs & Hrt & Hrd & Hrest). exists i.
  split; [done|]. split; [done|]. change (s32 (npc c + 4)) with (npc (fetched c)).
  rewrite <-Hrs in Ha. rewrite <-Hrt in Hb. unfold agreeing in Hag.
  rewrite (execute_instr_cases unix w (pc c) (fetched c) H0 (mt_length _ _ Hf)).
  destruct (Z.land (Z.shiftr w 26) 63) eqn:Ek.
  - destruct Hrest as [Hop Hx]. by apply (special_agrees unix (fetched c) s (pc c) i Hf H0 Hok Hdec Hnpc w a b).
  - destruct p; try (destruct Hrest as (f & Hop & Hx & Hne);
      rewrite <-Ek in Hop; by apply (other_agrees unix (fetched c) s (pc c) i Hf H0 Hok Hdec Hnpc eq_refl w a b Hrs Hrt Ha Hb f)).
    destruct Hrest as [Hx Hop]. destruct (agreeing_bcond _ _ _ _ Ek Hag) as [Hn Hrt'].
    apply (bcond_agrees unix (fetched c) s (pc c) i Hf H0 Hok Hdec Hnpc eq_refl w a b Hrs Ha Hb _ Hx Hn eq_refl).
    rewrite Hop. destruct Hrt' as [->|[->|[->| ->]]]; cbn; auto.
  - exfalso. pose proof (mask_range (Z.shiftr w 26) 6 ltac:(lia)) as Hk. change (Z.ones 6) with 63 in Hk. lia.
Qed.

(** The end of the instruction: the registers move on, the program counters too. *)
Lemma advance_related c r :
  regs_inv false r → is_s32 (npc c) → matches c r → znth r NextPCReg = Some (pc c) →
  znth r LoadReg = Some 0 → related c (advance r (npc c) 0 0).
Proof.
  intros Hr Hn [H1 H2 H3 H4] Hpc Hload. pose proof Hr as [Hl _ _ _]. unfold NumTotalRegs in Hl.
  assert (zlen (delayed_load r 0 0) = 40) as Hd by (unfold delayed_load; by rewrite !zlen_zset).
  assert (∀ j, 0 ≤ j < 34 → znth (advance r (npc c) 0 0) j = znth (delayed_load r 0 0) j) as Hlow.
  { intros j Hj. unfold advance, PrevPCReg, PCReg, NextPCReg. by rewrite !znth_zset_ne by lia. }
  assert (znth (delayed_load r 0 0) NextPCReg = Some (pc c)) as Hpc' by (by rewrite delayed_load_high).
  split.
  - split; [done| | |]; unfold HiReg, LoReg in *.
    + intros j Hj. rewrite Hlow, delayed_load_lookup, Hload by (done || lia). cbn.
      rewrite !decide_False by lia. by apply H2.
    + rewrite Hlow, delayed_load_high by (done || lia). done.
    + rewrite Hlow, delayed_load_high by (done || lia). done.
  - apply advance_ok; [done|done|unfold is_s32; lia|lia].
  - unfold advance. rewrite Hpc'. cbn [default]. rewrite znth_zset_ne by done. apply znth_zset_eq. by rewrite zlen_zset, Hd.
  - unfold advance. apply znth_zset_eq. by rewrite !zlen_zset, Hd.
  - unfold advance. rewrite !znth_zset_ne by done. unfold delayed_load.
    rewrite !(znth_zset_ne _ _ LoadReg) by done. apply znth_zset_eq. by rewrite zlen_zset, Hl.
Qed.

Lemma step_agrees c (s s1 : Machine * OS) w a b :
  related c (registers s.1) → fetch c (pc c) = Ok w →
  read_mem (pc c) 4 s = Ok (Some w, s1) → registers s1.1 = registers s.1 →
  znth (registers s.1) (i_rs w) = Some a → znth (registers s.1) (i_rt w) = Some b →
  agreeing w a b (pc c) (npc c) = true →
  ∃ c' s', round unix c = Ok (Some c') ∧ OneInstruction s = Ok ((), s') ∧
    related c' (registers s'.1) ∧ mem c' = mem c ∧ mainMemory s'.1 = mainMemory s1.1 ∧ s'.2 = s1.2.
Proof.
  intros Hrel Hw Hread Hregs Ha Hb Hag. rewrite <-Hregs in Ha, Hb.
  assert (related c (registers s1.1)) as Hrel1 by (by rewrite Hregs).
  destruct (execute_agrees c s1 w a b Hrel1 Ha Hb Hag) as (i & HD & Hdec & c' & r' & He & Hx & Hm & Hp & Hmem & Hj).
  pose proof Hrel1 as [Hm1 Hok Hpc Hnpc Hload].
  pose proof (spec_execute i (s32 (npc c + 4)) Hdec (s32_range _) _ _ _ Hx (proj2 (regs_inv_ok _) Hok))
    as (Hinv & Hn & _). unfold put_regs in Hinv. cbn [fst registers set_registers] in Hinv.
  destruct (finish_step (put_regs s1 r') (npc c') 0 0 Hinv) as [t Ht].
  eexists c', _. split; [by rewrite (round_step _ _ w) by (done || apply Hm1)|]. split.
  { unfold OneInstruction. erewrite ST_step by (apply R_step; apply Hrel). erewrite ST_step by exact Hread.
    cbv beta iota. erewrite ST_step by (unfold lift; by rewrite HD). erewrite ST_step by (by apply R_step).
    erewrite ST_step by exact Hx. exact Ht. }
  cbn [fst snd registers set_clock set_registers put_regs mainMemory].
  split; [|by rewrite Hmem]. apply advance_related; try done.
  - rewrite Hj, Hnpc by done. by rewrite Hp.
  - by rewrite Hj.
Qed.
End step.

(** C28: The interpreter of bin/ is equivalent to the simulator of the kernel on the
    instructions that compute, branch or jump: from related states, when both fetch the
    same word, one round of [runprogram] and one [OneInstruction] both succeed and end
    in related states, with all registers, [HI], [LO] and both program counters the
    same and memory unchanged.  [agreeing] says for which words and operands: not for
    OR and the logical right shifts of negative values, which the kernel's simulator
    computes wrongly; not for MULT, MULTU and ANDI, ORI, XORI with a negative
    immediate, where the interpreter deviates; not in a branch delay slot, where the
    two compute different targets and return addresses. *)
Theorem simulators_agree `{InterruptOps, !InterruptLaws} {OS : Type} `{TrapOps OS, !TrapLaws OS}
    (unix : Z → Z → Z → Z → list Z → Z * list Z) c (s s1 : Machine * OS) w a b :
  related c (registers s.1) → fetch c (pc c) = Ok w →
  read_mem (pc c) 4 s = Ok (Some w, s1) → registers s1.1 = registers s.1 →
  znth (registers s.1) (i_rs w) = Some a → znth (registers s.1) (i_rt w) = Some b →
  agreeing w a b (pc c) (npc c) = true →
  ∃ c' s', round unix c = Ok (Some c') ∧ OneInstruction s = Ok ((), s') ∧
    related c' (registers s'.1) ∧ mem c' = mem c ∧ mainMemory s'.1 = mainMemory s1.1 ∧ s'.2 = s1.2.
Proof. apply step_agrees. Qed.

(** [addu $3, $1, $2] at the first address of the interpreter's memory, which the TLB
    of the machine maps to the frame 0. *)
Definition addu_word : Z := 2234401.
Definition addu_regs : list Z :=
  zset (zset (0 :: 5 :: -9 :: replicate 37 0) PCReg memoffset) NextPCReg (memoffset + 4).
Definition addu_cpu : cpu := mkCpu (take 32 addu_regs) 0 0 memoffset (memoffset + 4) (le_split 4 addu_word).
Definition addu_machine : Machine * () :=
  (set_tlb (set_mainMemory (set_registers (example_machine [example_space 40]) addu_regs)
      (write_at (replicate (Z.to_nat MemorySize) 0) 0 (le_split 4 addu_word)))
     (mkTE (memoffset / PageSize) 0 true false false false 0 0 :: replicate 3 no_entry), ()).
Lemma addu_related : related addu_cpu (registers addu_machine.1).
Proof.
  split; try reflexivity; split; try reflexivity.
  - intros i Hi. cbn [addu_cpu Reg registers set_registers addu_machine fst set_tlb set_mainMemory].
    unfold znth. destruct (Z.ltb_spec i 0); [lia|]. by rewrite lookup_take_lt by lia.
  - cbn [addu_machine addu_regs registers set_registers set_mainMemory set_tlb fst]. unfold addu_regs.
    repeat (apply Forall_zset; [|unfold is_s32, memoffset; lia]).
    do 3 (constructor; [unfold is_s32; lia|]). apply Forall_replicate. unfold is_s32. lia.
  - by exists 0.
Qed.
Lemma simulators_agree_witness :
  ∃ s1 c' s', read_mem memoffset 4 addu_machine = Ok (Some addu_word, s1) ∧
    round (λ _ _ _ _ m, (0, m)) addu_cpu = Ok (Some c') ∧ OneInstruction addu_machine = Ok ((), s') ∧
    related c' (registers s'.1) ∧ mem c' = mem addu_cpu ∧ mainMemory s'.1 = mainMemory s1.1 ∧ s'.2 = s1.2.
Proof.
  destruct (read_mem memoffset 4 addu_machine) as [[o s1]|] eqn:E; [|vm_compute in E; discriminate E].
  assert (o = Some addu_word ∧ registers s1.1 = registers addu_machine.1) as [-> Hr]
    by (vm_compute in E; injection E as <- <-; split; reflexivity).
  exists s1. destruct (simulators_agree (λ _ _ _ _ m, (0, m)) addu_cpu addu_machine s1 addu_word 5 (-9))
    as (c' & s' & H1); try reflexivity; [exact addu_related|exact E|exact Hr|].
  exists c', s'. split; [reflexivity|exact H1].
Defined.

(** ** Where the interpreter deviates *)

(** The high word of a product misses the carries of the two middle products: for
    [98304 * 98304], the square of [0x18000], each of them loses its bit 15. *)
Lemma MULT_drops_carries :
  HI (exec_mult 98304 98304 addu_cpu) = 1 ∧ Mult 98304 98304 true = (2, 98304 * 98304 - 2 * 2 ^ 32).
Proof. by vm_compute. Qed.

(** [andi $3, $2, 0xffff] of -9: the interpreter extends the sign of the immediate
    operand and keeps the whole register; the kernel's simulator keeps the low half. *)
Definition andi_word : Z := Z.lor (Z.shiftl 12 26) (Z.lor (Z.shiftl 2 21) (Z.lor (Z.shiftl 3 16) 65535)).
Lemma ANDI_sign_extends :
  exec_other andi_word memoffset addu_cpu = assign addu_cpu 3 (-9) ∧
  ∃ i, Decode andi_word = Ok i ∧ ∀ pcAfter, execute i pcAfter add_state = (setR 3 65527;; break_ pcAfter) add_state.
Proof. split; [done|]. eexists. by split. Qed.

(** ** [ilog2] *)

(** One of the five tests: the mask has the bits [p] with bit [k] of [p] set.  When the
    bits left agree with the highest one [t] above bit [k] of their position, the test
    decides bit [k] of [t]. *)
Definition mask_of (mask k : Z) : Prop := ∀ p, 0 ≤ p < 32 → Z.testbit mask p = Z.testbit p k.
Definition narrowed (t k i : Z) : Prop :=
  0 ≤ t < 32 ∧ Z.testbit i t = true ∧
  ∀ p, 0 ≤ p → Z.testbit i p = true → p ≤ t ∧ Z.shiftr p k = Z.shiftr t k.

Lemma shiftr_step p k : 0 ≤ k → Z.shiftr p k = 2 * Z.shiftr p (k + 1) + Z.b2z (Z.testbit p k).
Proof.
  intros Hk. rewrite <-Z.shiftr_shiftr by lia. rewrite (Z.shiftr_div_pow2 _ 1) by lia.
  rewrite <-(Z.add_0_l k) at 3. rewrite <-Z.shiftr_spec by lia. rewrite Z.bit0_mod.
  change (2 ^ 1) with 2. pose proof (Z.div_mod (Z.shiftr p k) 2). lia.
Qed.

Lemma ilog2_mask_ok t mask k i l :
  0 ≤ k → mask_of mask k → narrowed t (k + 1) i →
  narrowed t k (ilog2_mask mask (2 ^ k) (i, l)).1 ∧
  (ilog2_mask mask (2 ^ k) (i, l)).2 = l + Z.b2z (Z.testbit t k) * 2 ^ k.
Proof.
  intros Hk Hmask (Ht & Hbit & Hrest). unfold ilog2_mask. destruct (Z.testbit t k) eqn:Et.
  - assert (Z.testbit (Z.land i mask) t = true) as Hj by (by rewrite Z.land_spec, Hbit, Hmask).
    destruct (Z.eqb_spec (Z.land i mask) 0) as [E|_]; [by rewrite E, Z.bits_0 in Hj|]. cbn [negb fst snd].
    split; [|cbn [Z.b2z]; lia]. split; [done|]. split; [done|]. intros p Hp.
    rewrite Z.land_spec, andb_true_iff. intros [H1 H2]. destruct (Hrest p Hp H1) as [H3 H4].
    rewrite Hmask in H2 by lia. split; [done|]. by rewrite !(shiftr_step _ k), H2, Et, H4.
  - assert (∀ p, 0 ≤ p → Z.testbit i p = true → Z.testbit p k = false) as Hclear.
    { intros p Hp H1. destruct (Hrest p Hp H1) as [H2 H3]. destruct (Z.testbit p k) eqn:E; [|done].
      assert (Z.shiftr p k ≤ Z.shiftr t k) as Hle.
      { rewrite !Z.shiftr_div_pow2 by lia. apply Z.div_le_mono; lia. }
      rewrite !(shiftr_step _ k), E, Et, H3 in Hle by lia. cbn [Z.b2z] in Hle. lia. }
    assert (Z.land i mask = 0) as ->.
    { apply Z.bits_inj'. intros p Hp. rewrite Z.land_spec, Z.bits_0.
      destruct (Z.testbit i p) eqn:E; [|done]. cbn. destruct (Hrest p Hp E) as [H1 _].
      rewrite Hmask by lia. by apply Hclear. }
    cbn [Z.eqb negb fst snd Z.b2z]. split; [|lia]. split; [done|]. split; [done|]. intros p Hp H1.
    destruct (Hrest p Hp H1) as [H2 H3]. split; [done|].
    by rewrite !(shiftr_step _ k), (Hclear p), Et, H3.
Qed.

Lemma mask_of_check mask k :
  forallb (λ p, Bool.eqb (Z.testbit mask p) (Z.testbit p k)) (seqZ 0 32) = true → mask_of mask k.
Proof.
  intros H p Hp. rewrite forallb_forall in H. apply eqb_prop, H. apply list_elem_of_In, elem_of_seqZ. lia.
Qed.

Lemma narrowed_start i : 0 < i < 2 ^ 32 → narrowed (Z.log2 i) 5 i.
Proof.
  intros Hi. pose proof (Z.log2_nonneg i) as H0.
  assert (Z.log2 i < 32) as H1 by (apply Z.log2_lt_pow2; lia).
  split; [done|]. split; [apply Z.bit_log2; lia|]. intros p Hp Hbit.
  assert (p ≤ Z.log2 i) as Hle.
  { destruct (Z.ltb_spec (Z.log2 i) p) as [H2|]; [|done]. rewrite Z.bits_above_log2 in Hbit by lia. done. }
  split; [done|]. rewrite !Z.shiftr_div_pow2 by lia. change (2 ^ 5) with 32. rewrite !Z.div_small by lia. done.
Qed.

(** [ilog2] returns the number of bits of its argument as an unsigned number; the table
    in the comment above it is one less for 2, 4, 5, 6, 8 and 9 (2 -> 1, 4 -> 2). *)
Theorem ilog2_bits x : ilog2 (s32 x) = if u32 x =? 0 then 0 else Z.log2 (u32 x) + 1.
Proof.
  unfold ilog2. rewrite u32_s32. pose proof (u32_range x) as Hu. unfold is_u32 in Hu.
  destruct (Z.eqb_spec (u32 x) 0) as [E|Hn].
  { assert (s32 x = 0) as -> by (by rewrite <-s32_u32, E). done. }
  destruct (Z.eqb_spec (s32 x) 0) as [E|_]; [by rewrite <-u32_s32, E in Hn|].
  pose proof (narrowed_start (u32 x) ltac:(lia)) as H5. set (t := Z.log2 (u32 x)) in *.
  assert (∀ mask k i l, 0 ≤ k → mask_of mask k → narrowed t (k + 1) i → ∃ i',
    ilog2_mask mask (2 ^ k) (i, l) = (i', l + Z.b2z (Z.testbit t k) * 2 ^ k) ∧ narrowed t k i') as Hs.
  { intros mask k j l Hk Hm Hj. destruct (ilog2_mask_ok t mask k j l Hk Hm Hj) as [H1 H2].
    destruct (ilog2_mask _ _ _) as [i' l']. cbn in *. subst. by eexists. }
  change ((ilog2_mask 2863311530 (2 ^ 0) (ilog2_mask 3435973836 (2 ^ 1) (ilog2_mask 4042322160 (2 ^ 2)
    (ilog2_mask 4278255360 (2 ^ 3) (ilog2_mask 4294901760 (2 ^ 4) (u32 x, 1)))))).2 = t + 1).
  destruct (Hs 4294901760 4 (u32 x) 1) as (i4 & -> & H4); [done|by apply mask_of_check|done|].
  edestruct (Hs 4278255360 3 i4) as (i3 & -> & H3); [done|by apply mask_of_check|done|].
  edestruct (Hs 4042322160 2 i3) as (i2 & -> & H2); [done|by apply mask_of_check|done|].
  edestruct (Hs 3435973836 1 i2) as (i1 & -> & H1); [done|by apply mask_of_check|done|].
  edestruct (Hs 2863311530 0 i1) as (i0 & -> & H0); [done|by apply mask_of_check|done|].
  destruct H5 as (Ht & _). cbn [snd].
  pose proof (shiftr_step t 0 ltac:(lia)) as S0. pose proof (shiftr_step t 1 ltac:(lia)) as S1.
  pose proof (shiftr_step t 2 ltac:(lia)) as S2. pose proof (shiftr_step t 3 ltac:(lia)) as S3.
  pose proof (shiftr_step t 4 ltac:(lia)) as S4. rewrite Z.shiftr_0_r in S0.
  assert (Z.shiftr t (4 + 1) = 0) by (rewrite Z.shiftr_div_pow2 by lia; by apply Z.div_small).
  change (0 + 1) with 1 in *. change (1 + 1) with 2 in *. change (2 + 1) with 3 in *. change (3 + 1) with 4 in *.
  lia.
Qed.
